(* ===== verification/_CoqProject ===== *)
-Q . S2P
Prelude.v
Checked.v
Wire.v
PropertyData.v
Atoms.v
Color.v
Font.v
Resources.v
Events.v
EventSink.v
EventQueue.v
Grabs.v
Sync.v
Region.v
Windows.v
Tree.v
Geometry.v
Properties.v
Extensions.v
Encode.v
Connection.v
Flush.v
Service.v
