(* ===== verification/Prelude.v ===== *)
(** * Xmin: a verification library for the X11 server core

    Xmin is an X11 server in C++17. This library models the core of it, under
    [src/src/server], as Gallina functions and proves what makes it correct.
    The server is one process with one thread: [server.cpp] polls the sockets,
    every [Connection] ([connection.cpp]) frames and dispatches the requests of
    a client, and the handlers call the operations of one [ServerState]
    ([server_state.cpp]), which keeps the windows, the other objects, the grabs
    and the queues of events of all clients. Concurrency is therefore the
    interleaving of operations, each of which runs to its end: the state
    machines below are relations whose steps are whole operations.

    ** Conventions

    An integer of [w] bits is a [Z] with its conversions written out ([wrap],
    [swrap], abbreviations [u8] to [i64]). A [std::unordered_map] is a [gmap],
    whose iteration order no theorem depends on; a [std::vector] is a list; a
    pointer to an object is its identifier. What may run out of memory and is
    caught takes the allocator's answers as an argument (a boolean, a function
    of the number of the call, [Memory] or [Allocs] for what plans and queues
    events), so that theorems hold for every failure; where the source has no
    handler for [std::bad_alloc] the process ends and the model does not go on.
    A loop that is not structural runs on fuel and its result is a [run]:
    [finished a], or [out_of_fuel]; termination is proved for the fuel the
    definition uses. Walks over the tree of windows have the number of windows
    as fuel ([tree_fuel]), which no chain of parents exceeds; the wildcard
    matcher a measure of pattern and name; the input loop of a connection the
    bytes it has; the writing loop the answers of the socket.

    ** Files

    - [Prelude]: integers, bits, lists, loops over maps, the [run] type,
      record updates, tactics and hints.
    - [Checked]: overflow-checked size arithmetic ([checked.hpp]).
    - [Wire]: the reader and the writer of the wire ([wire.cpp]);
      [PropertyData]: the byte order of property data ([property_data.cpp]).
    - [Atoms]: the atom table ([atom_table.cpp]); [Color]: colour names
      ([color.cpp]); [Font]: wildcards and glyphs ([font.cpp]).
    - [Resources]: [resource_registry.hpp], the one table of identifiers, and
      the operations of [ServerState] that wrap it.
    - [Events]: [client_event.hpp], the variant of all events.
    - [EventSink], [EventQueue]: the queues of events. The first is the
      interface, a class [EventSink] with the laws [EventSinkLaws], against
      which the clients of the queues are verified: a batch is queued as a
      whole or not at all. The second models [queue_event],
      [queue_events_atomically] and their companions and discharges the laws.
    - [Grabs]: the table of passive grabs, and its specification as a map
      from cells to grabs.
    - [Sync]: counters, alarms, fences and awaits of the SYNC extension.
    - [Region]: [region.cpp] over the interface [Pixman], whose laws
      [PixmanLaws] are the documented set semantics of pixman, a library that
      is not part of the sources; a concrete box algebra satisfies them.
    - [Windows], [Tree]: the records of windows, the queries that walk the
      tree ([is_descendant], [deepest_window_at], ...) and the operations that
      change its shape.
    - [Geometry]: what a resize keeps and exposes; pointer barriers.
    - [Properties]: properties of windows and devices and their accounts.
    - [Extensions]: [extension_registry.hpp].
    - [Encode], [Connection], [Flush], [Service]: [connection.cpp]. [Encode] is
      [encode_event]; [Connection] the output buffer, the setup handshake, the
      framing of requests and the delivery of events, against an interface to
      the server ([ConnectionServer] with [ConnectionServerLaws]); [Flush] the
      loop that writes to the socket; [Service] the first request handlers and
      the server made of the components, an instance of the interface.

    ** What the theorems show

    - Codecs: what is written is read back in both byte orders, readers stay
      in their buffer, and every event but those of selections has the size its
      header announces ([Wire], [PropertyData], [Encode]).
    - Tables: atoms are unique and permanent ([Atoms]); identifiers are
      registered once, within limits, and a client leaves nothing behind
      ([Resources]).
    - Events: a batch is queued as a whole or not at all under every failure
      of the allocator, and each client gets its events once and in order
      ([EventQueue]); through [EventSinkLaws] counter updates and property
      changes are transactions ([Sync], [Properties]).
    - Refinement: the table of passive grabs is a map from cells to grabs with
      the answers the specification gives ([Grabs]); the writing loop refines
      the stream that was queued ([Flush]).
    - Invariants by rule induction: the tree of windows ([Tree]), waiting
      clients and alarms ([Sync]), the account of property bytes
      ([Properties]), the grab table ([Grabs]).
    - Geometry: regions are sets and their operations set operations
      ([Region]); a resize keeps or exposes each point once, and barriers stop
      exactly the movements they block ([Geometry]).
    - Termination: the walks of the tree, the matcher and the loops over
      property data and input end ([Windows], [Tree], [Font], [PropertyData],
      [Connection]).
    - The connection: nothing is dispatched before authentication, every
      complete request is dispatched once and as sent, and how the stream is
      cut makes no difference ([Connection]).

    Some theorems state behaviour the program does not intend; they are the
    findings of the manifest: inactive alarms that keep notifying ([Sync]) and
    events of selections that are encoded too short and end the connection
    ([Connection]).

    ** Not modelled

    System calls (sockets, shared memory, the clock) are parameters: what they
    return is an argument. Generated tables (glyphs, keyboard maps) and
    vendored code are not modelled. Device input, focus and active grabs, the
    drawing and composition of surfaces, RENDER, Present, RandR, Composite,
    DAMAGE, selections, the remaining request handlers, the authority file,
    the client libraries, the viewer and the launcher are left out; the
    manifest lists each with the reason. *)

From stdpp Require Export base gmap list numbers option strings.
From Stdlib Require Export ZArith Lia.

#[global] Open Scope Z_scope.

(** ** Machine integers

    A C++ integer of width [w] is a [Z] kept in range by an explicit wrap:
    [wrap w] is the conversion to the unsigned type, [swrap w] the conversion
    to the two's complement signed type. *)
Definition wrap (w z : Z) : Z := z mod 2 ^ w.

Definition swrap (w z : Z) : Z := (z + 2 ^ (w - 1)) mod 2 ^ w - 2 ^ (w - 1).

Abbreviation u8 := (wrap 8).
Abbreviation u16 := (wrap 16).
Abbreviation u32 := (wrap 32).
Abbreviation u64 := (wrap 64).
Abbreviation i16 := (swrap 16).
Abbreviation i32 := (swrap 32).
Abbreviation i64 := (swrap 64).

Definition is_unsigned (w z : Z) : Prop := 0 <= z < 2 ^ w.

Definition is_signed (w z : Z) : Prop := - 2 ^ (w - 1) <= z < 2 ^ (w - 1).

#[export] Instance is_unsigned_dec w z : Decision (is_unsigned w z).
Proof. unfold is_unsigned. apply _. Defined.

#[export] Instance is_signed_dec w z : Decision (is_signed w z).
Proof. unfold is_signed. apply _. Defined.

(** [numeric_limits<T>::max()] and [::min()]. *)
Definition umax (w : Z) : Z := 2 ^ w - 1.

Definition smax (w : Z) : Z := 2 ^ (w - 1) - 1.

Definition smin (w : Z) : Z := - 2 ^ (w - 1).

(** The complement [~x] of a [w]-bit unsigned value. *)
Definition unot (w z : Z) : Z := Z.lxor (Z.ones w) z.

(** [vector::size()] as an integer. *)
Definition zlen {A} (l : list A) : Z := Z.of_nat (length l).

Lemma pow2_pos w : 0 <= w -> 0 < 2 ^ w.
Proof. intros. by apply Z.pow_pos_nonneg. Qed.

Lemma wrap_range w z : 0 <= w -> is_unsigned w (wrap w z).
Proof. intros. apply Z.mod_pos_bound. by apply pow2_pos. Qed.

Lemma wrap_id w z : is_unsigned w z -> wrap w z = z.
Proof. apply Z.mod_small. Qed.

Lemma wrap_wrap w z : wrap w (wrap w z) = wrap w z.
Proof. unfold wrap. by rewrite Zmod_mod. Qed.

Lemma swrap_range w z : 0 < w -> is_signed w (swrap w z).
Proof.
  intros. unfold is_signed, swrap.
  pose proof (Z.mod_pos_bound (z + 2 ^ (w - 1)) (2 ^ w) (pow2_pos w ltac:(lia))).
  assert (2 ^ w = 2 * 2 ^ (w - 1)) by (rewrite <- Z.pow_succ_r by lia; f_equal; lia).
  lia.
Qed.

Lemma pow2_half w : 0 < w -> 2 ^ w = 2 * 2 ^ (w - 1).
Proof. intros. rewrite <- Z.pow_succ_r by lia. f_equal; lia. Qed.

Lemma swrap_id w z : 0 < w -> is_signed w z -> swrap w z = z.
Proof.
  intros Hw Hz. unfold swrap. pose proof (pow2_half w Hw).
  unfold is_signed in Hz. rewrite Z.mod_small; lia.
Qed.

(** Conversion to unsigned after conversion to signed is conversion to
    unsigned: the bits are the same. *)
Lemma wrap_swrap w z : 0 < w -> wrap w (swrap w z) = wrap w z.
Proof.
  intros. unfold wrap, swrap. rewrite Zminus_mod_idemp_l.
  f_equal; lia.
Qed.

Lemma swrap_wrap w z : 0 < w -> swrap w (wrap w z) = swrap w z.
Proof. intros. unfold swrap, wrap. by rewrite Zplus_mod_idemp_l. Qed.

Lemma wrap_add_l w a b : wrap w (wrap w a + b) = wrap w (a + b).
Proof. unfold wrap. by rewrite Zplus_mod_idemp_l. Qed.

Lemma wrap_sub_l w a b : wrap w (wrap w a - b) = wrap w (a - b).
Proof. unfold wrap. by rewrite Zminus_mod_idemp_l. Qed.

Lemma zlen_nonneg {A} (l : list A) : 0 <= zlen l.
Proof. unfold zlen. lia. Qed.

Lemma zlen_nil {A} : zlen (@nil A) = 0.
Proof. done. Qed.

Lemma zlen_cons {A} (x : A) l : zlen (x :: l) = zlen l + 1.
Proof. unfold zlen. simpl. lia. Qed.

Lemma zlen_app {A} (l k : list A) : zlen (l ++ k) = zlen l + zlen k.
Proof. unfold zlen. rewrite length_app. lia. Qed.

Lemma zlen_replicate {A} n (x : A) : zlen (replicate n x) = Z.of_nat n.
Proof. unfold zlen. by rewrite length_replicate. Qed.

(** The hint database of the development. *)
Create HintDb xmin discriminated.
#[export] Hint Resolve zlen_nonneg wrap_range swrap_range : xmin.
#[export] Hint Rewrite @zlen_nil @zlen_cons @zlen_app @zlen_replicate : zlen.

(** ** Automation *)

(** Turns boolean comparisons and connectives in the context and the goal
    into propositions. *)
Ltac bool_to_prop :=
  repeat match goal with
  | H : _ && _ = true |- _ => apply andb_true_iff in H as [? ?]
  | H : _ || _ = true |- _ => apply orb_true_iff in H
  | H : _ || _ = false |- _ => apply orb_false_iff in H as [? ?]
  | H : _ && _ = false |- _ => apply andb_false_iff in H
  | H : negb _ = true |- _ => apply negb_true_iff in H
  | H : negb _ = false |- _ => apply negb_false_iff in H
  | H : (_ <? _) = true |- _ => apply Z.ltb_lt in H
  | H : (_ <? _) = false |- _ => apply Z.ltb_ge in H
  | H : (_ <=? _) = true |- _ => apply Z.leb_le in H
  | H : (_ <=? _) = false |- _ => apply Z.leb_gt in H
  | H : (_ >? _) = true |- _ => rewrite Z.gtb_ltb in H
  | H : (_ >? _) = false |- _ => rewrite Z.gtb_ltb in H
  | H : (_ >=? _) = true |- _ => rewrite Z.geb_leb in H
  | H : (_ >=? _) = false |- _ => rewrite Z.geb_leb in H
  | H : (_ =? _) = true |- _ => apply Z.eqb_eq in H
  | H : (_ =? _) = false |- _ => apply Z.eqb_neq in H
  | H : bool_decide _ = true |- _ => apply bool_decide_eq_true in H
  | H : bool_decide _ = false |- _ => apply bool_decide_eq_false in H
  end.

(** Case analysis on the scrutinee of the first [if] or [match] of the goal,
    keeping the equation in propositional form. *)
Ltac split_if :=
  match goal with
  | |- context [if ?b then _ else _] =>
      let E := fresh "Hif" in destruct b eqn:E; bool_to_prop
  end.

Ltac split_match :=
  match goal with
  | |- context [match ?o with _ => _ end] =>
      let E := fresh "Hm" in destruct o eqn:E; bool_to_prop
  end.

(** The same on a hypothesis. *)
Ltac split_match_in H :=
  match type of H with
  | context [match ?o with _ => _ end] =>
      let E := fresh "Hm" in destruct o eqn:E; bool_to_prop
  end.

(** Closes a closed decidable goal by evaluation. *)
Ltac by_computation := apply (bool_decide_unpack _); vm_compute; exact I.

(** Proves [Forall P] of an explicit list. *)
Ltac forall_list :=
  repeat (apply Forall_cons_2; [first [assumption | by_computation | done]|]);
  apply Forall_nil_2.

(** ** Fuel

    A loop whose bound is not structural runs on fuel; [out_of_fuel] marks the
    runs that the accompanying termination theorem excludes. *)
Inductive run (A : Type) := finished (a : A) | out_of_fuel.
Arguments finished {A} a.
Arguments out_of_fuel {A}.

Definition run_bind {A B} (r : run A) (f : A -> run B) : run B :=
  match r with
  | finished a => f a
  | out_of_fuel => out_of_fuel
  end.

Declare Scope run_scope.
Notation "'let*' p ':=' r 'in' k" := (run_bind r (fun p => k))
  (at level 200, p pattern, r at level 100, k at level 200, right associativity) : run_scope.
#[global] Open Scope run_scope.

(** ** Record update

    [s <| f := v |>] is the record [s] with field [f] set to [v]; the setter
    of a field is built once from the record's eta expansion. *)
Class Eta (R : Type) := eta_expand : R -> R.
#[global] Hint Mode Eta ! : typeclass_instances.

Class Setter {R T : Type} (field : R -> T) := put : T -> R -> R.

Ltac build_setter field :=
  match type of field with
  | ?R -> ?T =>
      let inst := constr:(_ : Eta R) in
      let body := eval hnf in inst in
      match eval pattern field in body with
      | ?g _ =>
          let setter := eval cbv beta in (fun (v : T) (r : R) => g (fun _ => v) r) in
          exact setter
      end
  end.

#[export] Hint Extern 1 (Setter ?f) => build_setter f : typeclass_instances.

Declare Scope record_scope.
Delimit Scope record_scope with record.
Notation "s <| f := v |>" := (put (field := f) v s)
  (at level 1, left associativity, f at next level, v at level 200,
   format "s  <|  f  :=  v  |>") : record_scope.
#[global] Open Scope record_scope.
Arguments put {R T} field {_} v r /.

(** ** Shared lemmas on bits *)

Lemma testbit_wrap w z i : 0 <= w -> Z.testbit (wrap w z) i = (i <? w) && Z.testbit z i.
Proof.
  intros. unfold wrap. destruct (Z.ltb_spec i w); simpl.
  - destruct (Z.leb_spec 0 i).
    + by apply Z.mod_pow2_bits_low.
    + by rewrite !Z.testbit_neg_r by lia.
  - by apply Z.mod_pow2_bits_high.
Qed.

Lemma testbit_unsigned_high w z i : is_unsigned w z -> w <= i -> Z.testbit z i = false.
Proof.
  intros Hz Hi. destruct (Z.ltb_spec i 0) as [|Hi0].
  { by apply Z.testbit_neg_r. }
  assert (0 <= w) by (destruct (Z.le_gt_cases 0 w); [done|];
    unfold is_unsigned in Hz; rewrite Z.pow_neg_r in Hz; lia).
  rewrite <- (wrap_id w z Hz), testbit_wrap by done.
  by replace (i <? w) with false by (symmetry; apply Z.ltb_ge; lia).
Qed.

Lemma testbit_unot w z i : 0 <= i < w -> Z.testbit (unot w z) i = negb (Z.testbit z i).
Proof.
  intros. unfold unot. rewrite Z.lxor_spec, Z.ones_spec_low by lia. done.
Qed.

Lemma is_unsigned_bits w z :
  0 <= w -> 0 <= z -> (forall i, w <= i -> Z.testbit z i = false) -> is_unsigned w z.
Proof.
  intros Hw Hz Hb. cut (wrap w z = z); [intros <-; by apply wrap_range|].
  apply Z.bits_inj'. intros i Hi. rewrite testbit_wrap by done.
  destruct (Z.ltb_spec i w); [done|]. by rewrite Hb.
Qed.

Lemma is_unsigned_lor w a b : 0 <= w -> is_unsigned w a -> is_unsigned w b -> is_unsigned w (Z.lor a b).
Proof.
  intros Hw Ha Hb. apply is_unsigned_bits; [done| |].
  - apply Z.lor_nonneg. unfold is_unsigned in *. lia.
  - intros i Hi. rewrite Z.lor_spec, !(testbit_unsigned_high w) by done. done.
Qed.

Lemma is_unsigned_land w a b : 0 <= w -> 0 <= a -> is_unsigned w b -> is_unsigned w (Z.land a b).
Proof.
  intros Hw Ha Hb. apply is_unsigned_bits; [done| |].
  - apply Z.land_nonneg. unfold is_unsigned in *. lia.
  - intros i Hi. rewrite Z.land_spec, (testbit_unsigned_high w b) by done.
    by rewrite andb_false_r.
Qed.

(** ** Loops over [unordered_map]

    The iteration order of an [unordered_map] is unspecified; [map_to_list]
    is one such order, and no theorem depends on which. [erase_if] is the
    idiom [it = test ? m.erase(it) : std::next(it)], [count_if] and [any_of]
    the counting and searching loops. *)
Section MapLoops.
Context {V : Type}.

Definition erase_if (test : Z -> V -> bool) (m : gmap Z V) : gmap Z V :=
  filter (fun kv => test kv.1 kv.2 = false) m.

Definition count_if (test : Z -> V -> bool) (m : gmap Z V) : Z :=
  zlen (List.filter (fun kv => test kv.1 kv.2) (map_to_list m)).

Definition any_of (test : Z -> V -> bool) (m : gmap Z V) : bool :=
  existsb (fun kv => test kv.1 kv.2) (map_to_list m).

Lemma lookup_erase_if test m k v :
  erase_if test m !! k = Some v <-> m !! k = Some v /\ test k v = false.
Proof. unfold erase_if. by rewrite map_lookup_filter_Some. Qed.

Lemma lookup_erase_if_None test m k :
  erase_if test m !! k = None <-> forall v, m !! k = Some v -> test k v = true.
Proof.
  unfold erase_if. rewrite map_lookup_filter_None. split.
  - intros [Hn|Hv] v Hk; [congruence|]. apply not_false_is_true. by apply Hv.
  - intros Ht. right. intros v Hk. simpl. rewrite (Ht v Hk). done.
Qed.

Lemma erase_if_id test m :
  (forall k v, m !! k = Some v -> test k v = false) -> erase_if test m = m.
Proof.
  intros Ht. apply map_eq. intros k. destruct (m !! k) as [v|] eqn:Hk.
  - apply lookup_erase_if. auto.
  - apply lookup_erase_if_None. congruence.
Qed.

Lemma any_of_true test m :
  any_of test m = true <-> exists k v, m !! k = Some v /\ test k v = true.
Proof.
  unfold any_of. rewrite existsb_exists. split.
  - intros ([k v] & Hin & Ht). exists k, v. split; [|done].
    by apply elem_of_map_to_list, list_elem_of_In.
  - intros (k & v & Hk & Ht). exists (k, v). split; [|done].
    by apply list_elem_of_In, elem_of_map_to_list.
Qed.

Lemma any_of_false test m :
  any_of test m = false <-> forall k v, m !! k = Some v -> test k v = false.
Proof.
  rewrite <- not_true_iff_false, any_of_true. split.
  - intros Hn k v Hk. apply not_true_iff_false. intros Ht. apply Hn. eauto.
  - intros Ht (k & v & Hk & Hkv). rewrite (Ht k v Hk) in Hkv. done.
Qed.

Lemma count_if_empty test : count_if test ∅ = 0.
Proof. done. Qed.

Lemma count_if_insert test m k v : m !! k = None ->
  count_if test (<[k := v]> m) = count_if test m + (if test k v then 1 else 0).
Proof.
  intros Hk. unfold count_if, zlen.
  pose proof (map_to_list_insert m k v Hk) as Hp.
  assert (forall l1 l2 : list (Z * V), l1 ≡ₚ l2 ->
    length (List.filter (fun kv => test kv.1 kv.2) l1) =
    length (List.filter (fun kv => test kv.1 kv.2) l2)) as Hperm.
  { induction 1; simpl; repeat case_match; simpl; lia. }
  rewrite (Hperm _ _ Hp). simpl. destruct (test k v); simpl; lia.
Qed.

Lemma count_if_nonneg test m : 0 <= count_if test m.
Proof. apply zlen_nonneg. Qed.

(** Erasing removes exactly the counted entries. *)
Lemma erase_if_size test m :
  Z.of_nat (size (erase_if test m)) = Z.of_nat (size m) - count_if test m.
Proof.
  induction m as [|k v m Hk IH] using map_ind; [done|].
  rewrite count_if_insert, map_size_insert_None by done.
  destruct (test k v) eqn:Ht.
  - assert (erase_if test (<[k:=v]> m) = erase_if test m) as ->; [|lia].
    apply map_eq. intros k'. destruct (decide (k = k')) as [<-|Hne].
    + transitivity (@None V).
      * apply lookup_erase_if_None. intros v'. rewrite lookup_insert_eq. congruence.
      * symmetry. apply lookup_erase_if_None. congruence.
    + apply option_eq. intros v'. rewrite !lookup_erase_if, lookup_insert_ne by done. done.
  - assert (erase_if test (<[k:=v]> m) = <[k:=v]> (erase_if test m)) as ->.
    { apply map_eq. intros k'. apply option_eq. intros v'. rewrite lookup_erase_if.
      destruct (decide (k = k')) as [<-|Hne].
      - rewrite !lookup_insert_eq. split; [by intros [? ?]|intros [= <-]; done].
      - rewrite !lookup_insert_ne by done. by rewrite lookup_erase_if. }
    rewrite map_size_insert_None; [lia|]. apply lookup_erase_if_None. congruence.
Qed.
End MapLoops.

(** ** Sweeps over [unordered_map] that write back

    A loop collects, entry by entry, what to store or erase, and applies it
    afterwards. *)
Section MapSweeps.
Context {V : Type}.

(** Erasing the collected keys. *)
Lemma lookup_foldl_delete (keys : list Z) : forall (m : gmap Z V) k,
  foldl (fun m key => delete key m) m keys !! k = if bool_decide (k ∈ keys) then None else m !! k.
Proof.
  induction keys as [|key keys IH]; intros m k; simpl; [done|]. rewrite IH.
  destruct (decide (k ∈ keys)).
  - rewrite !bool_decide_true; [done|set_solver|done].
  - rewrite (bool_decide_false (k ∈ keys)) by done. destruct (decide (k = key)) as [->|].
    + rewrite bool_decide_true by set_solver. by rewrite lookup_delete_eq.
    + rewrite bool_decide_false by set_solver. by rewrite lookup_delete_ne.
Qed.

(** The keys an [omap] over the entries collects. *)
Lemma elem_of_collected {B} (f : Z -> V -> option B) (m : gmap Z V) k b :
  (k, b) ∈ omap (fun entry => pair entry.1 <$> f entry.1 entry.2) (map_to_list m) <->
  exists v, m !! k = Some v /\ f k v = Some b.
Proof.
  rewrite list_elem_of_omap. split.
  - intros ([k' v] & Hin%elem_of_map_to_list & Hf). simpl in Hf.
    destruct (f k' v) eqn:E; simplify_eq/=. eauto.
  - intros (v & Hk & Hf). exists (k, v). split; [by apply elem_of_map_to_list|].
    simpl. by rewrite Hf.
Qed.

(** Storing a collected record under its own key, when the key is present. *)
Definition store_by (key : V -> Z) (m : gmap Z V) (v : V) : gmap Z V :=
  match m !! key v with
  | Some _ => <[key v := v]> m
  | None => m
  end.

Lemma lookup_foldl_store_other key (vs : list V) : forall m k,
  (forall v, v ∈ vs -> key v <> k) -> foldl (store_by key) m vs !! k = m !! k.
Proof.
  induction vs as [|v vs IH]; intros m k Hk; simpl; [done|].
  rewrite IH by set_solver. unfold store_by. destruct (m !! key v); [|done].
  rewrite lookup_insert_ne; [done|]. set_solver.
Qed.

Lemma lookup_foldl_store key (vs : list V) : forall m v,
  NoDup (map key vs) -> v ∈ vs -> is_Some (m !! key v) ->
  foldl (store_by key) m vs !! key v = Some v.
Proof.
  induction vs as [|w vs IH]; intros m v Hnd Hin Hm; simpl; [by apply elem_of_nil in Hin|].
  apply NoDup_cons in Hnd as [Hni Hnd]. apply elem_of_cons in Hin as [->|Hin].
  - rewrite lookup_foldl_store_other.
    + unfold store_by. destruct Hm as [x ->]. apply lookup_insert_eq.
    + intros v Hv He. apply Hni. rewrite <- He. by apply list_elem_of_fmap_2.
  - apply IH; [done..|]. unfold store_by. destruct (m !! key w) eqn:E; [|done].
    destruct (decide (key w = key v)) as [->|].
    + rewrite lookup_insert_eq. eauto.
    + by rewrite lookup_insert_ne.
Qed.

(** Revising the entries of a map whose keys are the records' own. *)
Lemma lookup_revised (key : V -> Z) (f : V -> option V) (m : gmap Z V) k :
  (forall k v, m !! k = Some v -> key v = k) ->
  (forall v w, f v = Some w -> key w = key v) ->
  foldl (store_by key) m (omap (fun entry => f entry.2) (map_to_list m)) !! k =
  (fun v => default v (f v)) <$> m !! k.
Proof.
  intros Hkey Hf.
  set (vs := omap (fun entry => f entry.2) (map_to_list m)).
  assert (forall w, w ∈ vs <-> exists v, m !! key w = Some v /\ f v = Some w) as Hvs.
  { intros w. unfold vs. rewrite list_elem_of_omap. split.
    - intros ([k' v] & Hin%elem_of_map_to_list & Hw). simpl in Hw. exists v.
      by rewrite (Hf v w Hw), (Hkey k' v Hin).
    - intros (v & Hv & Hw). exists (key w, v). split; [by apply elem_of_map_to_list|done]. }
  assert (NoDup (map key vs)) as Hnd.
  { unfold vs. pose proof (NoDup_fst_map_to_list m) as Hnd.
    assert (forall e, e ∈ map_to_list m -> key e.2 = e.1) as Hk
      by (intros [k' v] Hin%elem_of_map_to_list; by apply Hkey).
    clear Hvs vs. induction (map_to_list m) as [|[k' v] l IH]; simpl; [constructor|].
    apply NoDup_cons in Hnd as [Hni Hnd].
    destruct (f v) as [w|] eqn:E; [|apply IH; [done|set_solver]].
    simpl. apply NoDup_cons. split; [|apply IH; [done|set_solver]].
    rewrite (Hf v w E). pose proof (Hk (k', v) ltac:(set_solver)) as Hkv.
    simpl in Hkv. rewrite Hkv. intros Hin.
    apply Hni. apply list_elem_of_fmap in Hin as (w' & Hw' & Hin).
    apply list_elem_of_omap in Hin as ([k2 v2] & Hin2 & Hf2). simpl in Hf2.
    apply list_elem_of_fmap. exists (k2, v2). split; [|done]. simpl.
    rewrite Hw', (Hf v2 w' Hf2). apply (Hk (k2, v2)). set_solver. }
  destruct (m !! k) as [v|] eqn:Hm; simpl.
  - destruct (f v) as [w|] eqn:E; simpl.
    + assert (key w = k) as Hw by (rewrite (Hf v w E); by apply Hkey).
      rewrite <- Hw. apply lookup_foldl_store; [done| |rewrite Hw; eauto].
      apply Hvs. exists v. by rewrite Hw.
    + rewrite lookup_foldl_store_other; [done|]. intros w (v' & Hv' & Hfv)%Hvs He.
      rewrite He in Hv'. congruence.
  - rewrite lookup_foldl_store_other; [done|]. intros w (v' & Hv' & _)%Hvs He. congruence.
Qed.
End MapSweeps.

(** ** Totals over [unordered_map]

    The sum of a measure over the entries of a map, for the counters a
    component keeps of its contents. *)
Section MapSum.
Context {V : Type} (measure : V -> Z).

Definition map_sum (m : gmap Z V) : Z := map_fold (fun _ v total => measure v + total) 0 m.

Lemma map_sum_insert_fresh m k v : m !! k = None -> map_sum (<[k := v]> m) = measure v + map_sum m.
Proof. intros Hm. unfold map_sum. rewrite map_fold_insert_L; [done| |done]. intros; lia. Qed.

Lemma map_sum_delete m k :
  map_sum (delete k m) = map_sum m - from_option measure 0 (m !! k).
Proof.
  destruct (m !! k) as [v|] eqn:Hv; simpl.
  - rewrite <- (insert_delete_id m k v) at 2 by done.
    rewrite map_sum_insert_fresh by apply lookup_delete_eq. lia.
  - rewrite delete_id by done. lia.
Qed.

Lemma map_sum_insert m k v :
  map_sum (<[k := v]> m) = map_sum m - from_option measure 0 (m !! k) + measure v.
Proof.
  rewrite <- insert_delete_eq, map_sum_insert_fresh by apply lookup_delete_eq.
  rewrite map_sum_delete. lia.
Qed.

Lemma map_sum_nonneg m : (forall v, 0 <= measure v) -> 0 <= map_sum m.
Proof.
  intros Hm. induction m as [|k v m Hk IH] using map_ind; [done|].
  rewrite map_sum_insert_fresh by done. specialize (Hm v). lia.
Qed.

(** An entry is no larger than the total. *)
Lemma map_sum_entry m k v : (forall v, 0 <= measure v) -> m !! k = Some v -> measure v <= map_sum m.
Proof.
  intros Hm Hk. pose proof (map_sum_delete m k) as Hd. rewrite Hk in Hd. simpl in Hd.
  pose proof (map_sum_nonneg (delete k m) Hm). lia.
Qed.
End MapSum.

(** ** Characters

    A [char] is its code, an unsigned byte. *)

(** The codes of a string's characters. *)
Fixpoint codes (s : string) : list Z :=
  match s with
  | EmptyString => []
  | String c rest => Z.of_N (Ascii.N_of_ascii c) :: codes rest
  end.

(** The string with the given character codes. *)
Definition text (bytes : list Z) : string :=
  foldr (fun b rest => String (Ascii.ascii_of_N (Z.to_N b)) rest) EmptyString bytes.

Lemma codes_text bytes : Forall (is_unsigned 8) bytes -> codes (text bytes) = bytes.
Proof.
  induction 1 as [|b l Hb _ IH]; simpl; [done|]. rewrite Ascii.N_ascii_embedding, IH by (unfold is_unsigned in Hb; lia).
  rewrite Z2N.id; [done|]. unfold is_unsigned in Hb. lia.
Qed.

Lemma codes_bytes s : Forall (is_unsigned 8) (codes s).
Proof.
  induction s as [|c s IH]; simpl; constructor; [|done].
  pose proof (Ascii.N_ascii_bounded c). unfold is_unsigned. lia.
Qed.

Lemma text_codes s : text (codes s) = s.
Proof. induction s as [|c s IH]; simpl; [done|]. by rewrite N2Z.id, Ascii.ascii_N_embedding, IH. Qed.
