(* ===== verification/Checked.v ===== *)
(** * Checked size arithmetic

    Model of [src/src/server/include/xmin/server/checked.hpp]: additions,
    subtractions and multiplications that report overflow, and the rounding
    of a size to a multiple of four. [std::optional] is [option]; the static
    [is_unsigned] test of the template is the argument [sg]. *)
From S2P Require Import Prelude.

Inductive signedness := Unsigned | Signed.

Definition in_type (sg : signedness) (w z : Z) : Prop :=
  match sg with Unsigned => is_unsigned w z | Signed => is_signed w z end.

Definition tmax (sg : signedness) (w : Z) : Z :=
  match sg with Unsigned => umax w | Signed => smax w end.

Definition tmin (sg : signedness) (w : Z) : Z :=
  match sg with Unsigned => 0 | Signed => smin w end.

(** [static_cast<T>] of the result. *)
Definition tcast (sg : signedness) (w z : Z) : Z :=
  match sg with Unsigned => wrap w z | Signed => swrap w z end.

Definition checked_add (sg : signedness) (w left right : Z) : option Z :=
  match sg with
  | Unsigned =>
      if right >? umax w - left then None else Some (tcast sg w (left + right))
  | Signed =>
      if ((right >? 0) && (left >? smax w - right)) ||
         ((right <? 0) && (left <? smin w - right))
      then None else Some (tcast sg w (left + right))
  end.

Definition checked_subtract (sg : signedness) (w left right : Z) : option Z :=
  match sg with
  | Unsigned => if right >? left then None else Some (tcast sg w (left - right))
  | Signed =>
      if ((right >? 0) && (left <? smin w + right)) ||
         ((right <? 0) && (left >? smax w + right))
      then None else Some (tcast sg w (left - right))
  end.

(** Division is the truncating division of C++; both operands are unsigned. *)
Definition checked_multiply (w left right : Z) : option Z :=
  if negb (left =? 0) && (right >? umax w / left) then None
  else Some (wrap w (left * right)).

Definition padded_to_four (value : Z) : option Z :=
  match checked_add Unsigned 64 value 3 with
  | None => None
  | Some sum => Some (Z.land sum (unot 64 3))
  end.

(** ** Properties *)

Lemma tcast_id sg w z : 0 < w -> in_type sg w z -> tcast sg w z = z.
Proof. destruct sg; simpl; intros; [by apply wrap_id|by apply swrap_id]. Qed.

#[export] Instance in_type_dec sg w z : Decision (in_type sg w z).
Proof. destruct sg; simpl; apply _. Defined.

Ltac unfold_ranges :=
  unfold in_type, is_unsigned, is_signed, umax, smax, smin, tmax, tmin in *.

Lemma checked_add_exact sg w left right :
  0 < w -> in_type sg w left -> in_type sg w right ->
  checked_add sg w left right =
    if decide (in_type sg w (left + right)) then Some (left + right) else None.
Proof.
  intros Hw Hl Hr. pose proof (pow2_half w Hw). pose proof (pow2_pos (w-1) ltac:(lia)).
  unfold checked_add.
  destruct sg; split_if; case_decide as Hd; try (f_equal; by apply tcast_id);
    try done; exfalso; unfold_ranges; lia.
Qed.

Lemma checked_subtract_exact sg w left right :
  0 < w -> in_type sg w left -> in_type sg w right ->
  checked_subtract sg w left right =
    if decide (in_type sg w (left - right)) then Some (left - right) else None.
Proof.
  intros Hw Hl Hr. pose proof (pow2_half w Hw). pose proof (pow2_pos (w-1) ltac:(lia)).
  unfold checked_subtract.
  destruct sg; split_if; case_decide as Hd; try (f_equal; by apply tcast_id);
    try done; exfalso; unfold_ranges; lia.
Qed.

Lemma checked_multiply_exact w left right :
  0 < w -> is_unsigned w left -> is_unsigned w right ->
  checked_multiply w left right =
    if decide (is_unsigned w (left * right)) then Some (left * right) else None.
Proof.
  intros Hw Hl Hr. unfold checked_multiply.
  destruct (Z.eqb_spec left 0) as [->|Hne]; simpl.
  { rewrite decide_True; [by rewrite wrap_id|]; unfold is_unsigned in *; lia. }
  rewrite Z.gtb_ltb. destruct (Z.ltb_spec (umax w / left) right) as [Hlt|Hge].
  - rewrite decide_False; [done|]. unfold is_unsigned, umax in *.
    pose proof (Z.mul_succ_div_gt (2 ^ w - 1) left ltac:(lia)). nia.
  - rewrite decide_True; [rewrite wrap_id; [done|]|];
      unfold is_unsigned, umax in *;
      pose proof (Z.mul_div_le (2 ^ w - 1) left ltac:(lia)); nia.
Qed.

(** C1: the checked operations return exactly the mathematical sum,
    difference or product when it is a value of the type, and [nullopt]
    otherwise; the guards themselves never overflow. *)
Theorem checked_arithmetic_exact sg w left right :
  0 < w -> in_type sg w left -> in_type sg w right ->
  checked_add sg w left right =
    (if decide (in_type sg w (left + right)) then Some (left + right) else None) /\
  checked_subtract sg w left right =
    (if decide (in_type sg w (left - right)) then Some (left - right) else None) /\
  (sg = Unsigned -> checked_multiply w left right =
    if decide (is_unsigned w (left * right)) then Some (left * right) else None).
Proof.
  intros Hw Hl Hr. split_and!; [by apply checked_add_exact|by apply checked_subtract_exact|].
  intros ->. by apply checked_multiply_exact.
Qed.

Lemma checked_arithmetic_exact_witness :
  checked_add Signed 64 (2 ^ 63 - 1) 1 = None /\
  checked_multiply 64 (2 ^ 32) (2 ^ 31) = Some (2 ^ 63).
Proof.
  split.
  - rewrite (proj1 (checked_arithmetic_exact Signed 64 (2 ^ 63 - 1) 1 ltac:(by_computation)
      ltac:(by_computation) ltac:(by_computation))). vm_compute. reflexivity.
  - rewrite (proj2 (proj2 (checked_arithmetic_exact Unsigned 64 (2 ^ 32) (2 ^ 31)
      ltac:(by_computation) ltac:(by_computation) ltac:(by_computation))) eq_refl).
    vm_compute. reflexivity.
Defined.

Lemma land_unot3 s : is_unsigned 64 s -> Z.land s (unot 64 3) = 4 * (s / 4).
Proof.
  intros Hs. replace (4 * (s / 4)) with (Z.shiftl (Z.shiftr s 2) 2).
  2:{ rewrite Z.shiftl_mul_pow2, Z.shiftr_div_pow2 by lia. change (2 ^ 2) with 4. lia. }
  apply Z.bits_inj'. intros i Hi. rewrite Z.land_spec, Z.shiftl_spec by done.
  destruct (Z.ltb_spec i 2).
  - rewrite (Z.testbit_neg_r _ (i - 2)) by lia.
    rewrite testbit_unot by lia. assert (i = 0 \/ i = 1) as [-> | ->] by lia;
      simpl; apply andb_false_r.
  - rewrite Z.shiftr_spec by lia. replace (i - 2 + 2) with i by lia.
    destruct (Z.ltb_spec i 64).
    + rewrite testbit_unot by lia. rewrite (testbit_unsigned_high 2 3); [|unfold is_unsigned; lia|lia].
      by rewrite andb_true_r.
    + by rewrite (testbit_unsigned_high 64 s).
Qed.

Lemma padded_to_four_exact value :
  is_unsigned 64 value ->
  padded_to_four value =
    if decide (is_unsigned 64 (value + 3)) then Some (4 * ((value + 3) / 4)) else None.
Proof.
  intros Hv. unfold padded_to_four. rewrite checked_add_exact; [|lia|done|by_computation].
  repeat case_decide; try done. by rewrite land_unot3.
Qed.

(** C2: [padded_to_four] returns the least multiple of four that is at
    least [value], and fails only when the size cannot be padded in 64 bits. *)
Theorem padded_to_four_least value :
  is_unsigned 64 value ->
  match padded_to_four value with
  | Some p => value <= p < value + 4 /\ p mod 4 = 0
  | None => 2 ^ 64 - 3 <= value
  end.
Proof.
  intros Hv. rewrite padded_to_four_exact by done. case_decide as Hd.
  - split.
    + pose proof (Z.div_mod (value + 3) 4 ltac:(lia)).
      pose proof (Z.mod_pos_bound (value + 3) 4 ltac:(lia)). lia.
    + rewrite Z.mul_comm. by apply Z.mod_mul.
  - unfold_ranges. lia.
Qed.

Lemma padded_to_four_least_witness :
  padded_to_four 5 = Some 8 /\ (5 <= 8 < 5 + 4 /\ 8 mod 4 = 0).
Proof.
  split; [reflexivity|].
  exact (padded_to_four_least 5 ltac:(by_computation)).
Defined.
