(* ===== verification/Wire.v ===== *)
(** * The wire codec

    Model of [src/src/server/wire.cpp] and
    [src/src/server/include/xmin/server/wire.hpp]. A byte is a [Z] between 0
    and 255, a byte vector a [list Z]. A [WireReader] keeps the data it views,
    the size it was given, its offset and the byte order; an operation
    returns its [std::optional] result and the advanced reader. A [WireWriter]
    keeps its byte order and the bytes written. The shift loops run over the
    explicit sequence of shift amounts the C++ [for] loops take. *)
From S2P Require Import Prelude.

Inductive ByteOrder := little | big.

#[export] Instance ByteOrder_eq_dec : EqDecision ByteOrder.
Proof. solve_decision. Defined.

(** [for (shift = 0; shift < w; shift += 8)] and its descending twin. *)
Definition ascending_shifts (w : nat) : list Z :=
  map (fun i => 8 * Z.of_nat i) (seq 0 (w / 8)).

Definition loop_shifts (order : ByteOrder) (w : nat) : list Z :=
  match order with
  | little => ascending_shifts w
  | big => rev (ascending_shifts w)
  end.

Record WireReader := mkReader {
  data_ : list Z;
  size_ : Z;
  offset_ : Z;
  order_ : ByteOrder
}.

#[export] Instance WireReader_eta : Eta WireReader :=
  fun r => mkReader (data_ r) (size_ r) (offset_ r) (order_ r).

Definition reader_of (bytes : list Z) (order : ByteOrder) : WireReader :=
  mkReader bytes (zlen bytes) 0 order.

Definition remaining (r : WireReader) : Z := size_ r - offset_ r.

(** [data_[i]]. *)
Definition byte_at (r : WireReader) (i : Z) : Z := default 0 (data_ r !! Z.to_nat i).

Definition advance (n : Z) (r : WireReader) : WireReader :=
  r <| offset_ := offset_ r + n |>.

Definition read_u8 (r : WireReader) : option Z * WireReader :=
  if remaining r <? 1 then (None, r)
  else (Some (byte_at r (offset_ r)), advance 1 r).

Definition read_u16 (r : WireReader) : option Z * WireReader :=
  if remaining r <? 2 then (None, r)
  else
    let first := byte_at r (offset_ r) in
    let second := byte_at r (offset_ r + 1) in
    let r' := advance 2 r in
    match order_ r with
    | little => (Some (u16 (Z.lor first (Z.shiftl second 8))), r')
    | big => (Some (u16 (Z.lor (Z.shiftl first 8) second)), r')
    end.

(** [result |= static_cast<T>(data_[offset_++]) << shift] for each shift. *)
Fixpoint gather (w : Z) (shifts : list Z) (result : Z) (r : WireReader) : Z * WireReader :=
  match shifts with
  | [] => (result, r)
  | shift :: rest =>
      gather w rest (Z.lor result (wrap w (Z.shiftl (byte_at r (offset_ r)) shift)))
             (advance 1 r)
  end.

Definition read_wide (w : nat) (r : WireReader) : option Z * WireReader :=
  if remaining r <? Z.of_nat (w / 8) then (None, r)
  else
    let '(result, r') := gather (Z.of_nat w) (loop_shifts (order_ r) w) 0 r in
    (Some result, r').

Definition read_u32 (r : WireReader) : option Z * WireReader := read_wide 32 r.

Definition read_u64 (r : WireReader) : option Z * WireReader := read_wide 64 r.

Definition skip (count : Z) (r : WireReader) : bool * WireReader :=
  if remaining r <? count then (false, r) else (true, advance count r).

Record WireWriter := mkWriter {
  worder_ : ByteOrder;
  bytes_ : list Z
}.

#[export] Instance WireWriter_eta : Eta WireWriter :=
  fun w => mkWriter (worder_ w) (bytes_ w).

Definition writer (order : ByteOrder) : WireWriter := mkWriter order [].

Definition write_u8 (value : Z) (w : WireWriter) : WireWriter :=
  w <| bytes_ := bytes_ w ++ [value] |>.

Definition write_u16 (value : Z) (w : WireWriter) : WireWriter :=
  match worder_ w with
  | little => write_u8 (u8 (Z.shiftr value 8)) (write_u8 (u8 value) w)
  | big => write_u8 (u8 value) (write_u8 (u8 (Z.shiftr value 8)) w)
  end.

Definition write_i16 (value : Z) (w : WireWriter) : WireWriter := write_u16 (u16 value) w.

Fixpoint scatter (shifts : list Z) (value : Z) (w : WireWriter) : WireWriter :=
  match shifts with
  | [] => w
  | shift :: rest => scatter rest value (write_u8 (u8 (Z.shiftr value shift)) w)
  end.

Definition write_u32 (value : Z) (w : WireWriter) : WireWriter :=
  scatter (loop_shifts (worder_ w) 32) value w.

Definition write_u64 (value : Z) (w : WireWriter) : WireWriter :=
  scatter (loop_shifts (worder_ w) 64) value w.

Definition write_bytes (value : list Z) (w : WireWriter) : WireWriter :=
  w <| bytes_ := bytes_ w ++ value |>.

Definition pad (count : Z) (w : WireWriter) : WireWriter :=
  w <| bytes_ := bytes_ w ++ replicate (Z.to_nat count) 0 |>.

Definition pad_to_four (w : WireWriter) : WireWriter :=
  pad (Z.land (4 - Z.land (zlen (bytes_ w)) 3) 3) w.

(** ** The invariant of a reader *)

(** The view is inside the data and the offset inside the view. *)
Definition reader_wf (r : WireReader) : Prop :=
  0 <= offset_ r <= size_ r /\ size_ r <= zlen (data_ r).

(** The bytes not read yet. *)
Definition rest_of (r : WireReader) : list Z :=
  take (Z.to_nat (remaining r)) (drop (Z.to_nat (offset_ r)) (data_ r)).

Definition is_byte (b : Z) : Prop := is_unsigned 8 b.

Lemma reader_of_wf bytes order : reader_wf (reader_of bytes order).
Proof. unfold reader_wf, reader_of. simpl. pose proof (zlen_nonneg bytes). lia. Qed.

Lemma rest_of_reader_of bytes order : rest_of (reader_of bytes order) = bytes.
Proof.
  unfold rest_of, remaining, reader_of; simpl. rewrite drop_0.
  apply take_ge. unfold zlen. lia.
Qed.

Lemma rest_of_length r : reader_wf r -> zlen (rest_of r) = remaining r.
Proof.
  unfold reader_wf, rest_of, remaining, zlen. intros [? ?].
  rewrite length_take, length_drop. lia.
Qed.

(** Reading at the offset is reading the head of the rest. *)
Lemma rest_of_advance r b bs :
  reader_wf r -> rest_of r = b :: bs ->
  byte_at r (offset_ r) = b /\ reader_wf (advance 1 r) /\ rest_of (advance 1 r) = bs.
Proof.
  intros Hwf Hrest. pose proof (rest_of_length r Hwf) as Hlen.
  rewrite Hrest in Hlen. rewrite zlen_cons in Hlen.
  unfold reader_wf, rest_of, remaining, advance, byte_at in *. simpl.
  pose proof (zlen_nonneg bs). destruct Hwf as [H1 H2].
  assert (Z.to_nat (size_ r - offset_ r) = S (Z.to_nat (size_ r - (offset_ r + 1)))) as Hs by lia.
  rewrite Hs in Hrest.
  assert (Z.to_nat (offset_ r + 1) = S (Z.to_nat (offset_ r))) as Ho by lia.
  destruct (drop (Z.to_nat (offset_ r)) (data_ r)) as [|x xs] eqn:Hdrop; [done|].
  simpl in Hrest. injection Hrest as <- <-.
  assert (data_ r !! Z.to_nat (offset_ r) = Some x) as Hx.
  { rewrite <- (Nat.add_0_r (Z.to_nat (offset_ r))), <- lookup_drop, Hdrop. done. }
  split; [by rewrite Hx|]. split; [lia|].
  rewrite Ho. f_equal.
  rewrite <- Nat.add_1_r, <- drop_drop, Hdrop. done.
Qed.

(** ** The shift loops *)

(** The bit a gather loop leaves at position [i], given the bytes it reads. *)
Fixpoint gathered (w : Z) (shifts bytes : list Z) (result : Z) : Z :=
  match shifts, bytes with
  | shift :: ss, b :: bs => gathered w ss bs (Z.lor result (wrap w (Z.shiftl b shift)))
  | _, _ => result
  end.

Lemma gather_spec w shifts : forall result r bytes tail,
  reader_wf r -> rest_of r = bytes ++ tail -> length bytes = length shifts ->
  let '(v, r') := gather w shifts result r in
  v = gathered w shifts bytes result /\ reader_wf r' /\ rest_of r' = tail /\
  order_ r' = order_ r.
Proof.
  induction shifts as [|s ss IH]; intros result r bytes tail Hwf Hrest Hlen.
  - destruct bytes; [simpl; by rewrite Hrest|done].
  - destruct bytes as [|b bs]; [done|]. simpl in Hrest.
    destruct (rest_of_advance r b (bs ++ tail) Hwf Hrest) as (Hb & Hwf' & Hrest').
    simpl. rewrite Hb.
    specialize (IH (Z.lor result (wrap w (Z.shiftl b s))) (advance 1 r) bs tail
                   Hwf' Hrest' ltac:(simpl in Hlen; lia)).
    destruct (gather _ _ _ _) as [v r']. destruct IH as (-> & ? & ? & ?). done.
Qed.

Lemma scatter_bytes shifts value : forall w,
  bytes_ (scatter shifts value w) = bytes_ w ++ map (fun s => u8 (Z.shiftr value s)) shifts /\
  worder_ (scatter shifts value w) = worder_ w.
Proof.
  induction shifts as [|s ss IH]; intros w; simpl.
  - by rewrite app_nil_r.
  - destruct (IH (write_u8 (u8 (Z.shiftr value s)) w)) as [-> ->].
    unfold write_u8. simpl. by rewrite <- app_assoc.
Qed.

Lemma gathered_testbit w shifts value : 0 <= w -> Forall (fun s => 0 <= s) shifts ->
  forall result i, 0 <= i < w ->
  Z.testbit (gathered w shifts (map (fun s => u8 (Z.shiftr value s)) shifts) result) i =
    Z.testbit result i ||
    existsb (fun s => (s <=? i) && (i <? s + 8) && Z.testbit value i) shifts.
Proof.
  intros Hw Hs. induction Hs as [|s ss Hs0 Hs IH]; intros result i Hi; simpl.
  - by rewrite orb_false_r.
  - rewrite IH by done. rewrite Z.lor_spec, testbit_wrap by done.
    replace (i <? w) with true by (symmetry; apply Z.ltb_lt; lia). simpl.
    rewrite Z.shiftl_spec by lia.
    destruct (Z.leb_spec s i); simpl.
    + rewrite testbit_wrap, Z.shiftr_spec by lia. replace (i - s + s) with i by lia.
      destruct (Z.ltb_spec (i - s) 8), (Z.ltb_spec i (s + 8)); try lia; simpl;
        by rewrite <- ?orb_assoc.
    + rewrite (Z.testbit_neg_r _ (i - s)) by lia. by rewrite orb_false_r.
Qed.

Lemma gathered_range w shifts : forall bytes result,
  0 <= w -> is_unsigned w result -> is_unsigned w (gathered w shifts bytes result).
Proof.
  induction shifts as [|s ss IH]; intros [|b bs] result Hw Hr; simpl; try done.
  apply IH; [done|]. apply is_unsigned_lor; auto using wrap_range.
Qed.

Lemma ascending_shifts_elem w s : s ∈ ascending_shifts w <-> exists k, s = 8 * Z.of_nat k /\ (k < w / 8)%nat.
Proof.
  unfold ascending_shifts. rewrite list_elem_of_In, in_map_iff. split.
  - intros (k & <- & Hk%in_seq). exists k. split; [done|lia].
  - intros (k & -> & Hk). exists k. split; [done|]. apply in_seq. lia.
Qed.

Lemma loop_shifts_elem order w s : s ∈ loop_shifts order w <-> s ∈ ascending_shifts w.
Proof.
  destruct order; simpl; [done|]. rewrite !list_elem_of_In. symmetry. apply in_rev.
Qed.

Lemma loop_shifts_length order w : length (loop_shifts order w) = (w / 8)%nat.
Proof.
  destruct order; simpl; rewrite ?length_rev; unfold ascending_shifts;
    by rewrite length_map, length_seq.
Qed.

Lemma loop_shifts_nonneg order w : Forall (fun s => 0 <= s) (loop_shifts order w).
Proof.
  apply Forall_forall. intros s Hs. apply loop_shifts_elem, ascending_shifts_elem in Hs.
  destruct Hs as (k & -> & _). lia.
Qed.

(** Gathering what was scattered gives the value back. *)
Lemma gathered_scattered order w value :
  (w mod 8 = 0)%nat -> is_unsigned (Z.of_nat w) value ->
  gathered (Z.of_nat w) (loop_shifts order w)
    (map (fun s => u8 (Z.shiftr value s)) (loop_shifts order w)) 0 = value.
Proof.
  intros Hw Hv. apply Z.bits_inj'. intros i Hi.
  destruct (Z.ltb_spec i (Z.of_nat w)) as [Hlt|Hge].
  - rewrite gathered_testbit by (auto using loop_shifts_nonneg; lia).
    rewrite Z.bits_0. simpl. destruct (Z.testbit value i) eqn:Hb.
    + apply existsb_exists. exists (8 * (i / 8)). split.
      * apply list_elem_of_In, loop_shifts_elem, ascending_shifts_elem.
        exists (Z.to_nat (i / 8)). split; [pose proof (Z.div_pos i 8 Hi ltac:(lia)); rewrite Z2Nat.id by done; done|].
        pose proof (Nat.div_mod_eq w 8). pose proof (Z.div_mod i 8 ltac:(lia)).
        pose proof (Z.mod_pos_bound i 8 ltac:(lia)). lia.
      * pose proof (Z.div_mod i 8 ltac:(lia)). pose proof (Z.mod_pos_bound i 8 ltac:(lia)).
        rewrite !andb_true_iff, Z.leb_le, Z.ltb_lt. lia.
    + apply not_true_is_false. intros (s & _ & Hs)%existsb_exists.
      by rewrite andb_false_r in Hs.
  - rewrite !(testbit_unsigned_high (Z.of_nat w)); try done; try lia.
    apply gathered_range; [lia|]. unfold is_unsigned. pose proof (pow2_pos (Z.of_nat w) ltac:(lia)). lia.
Qed.

Lemma gathered_bits w shifts : 0 <= w -> Forall (fun s => 0 <= s) shifts ->
  forall bytes result i, 0 <= i < w ->
  Z.testbit (gathered w shifts bytes result) i =
    Z.testbit result i || existsb (fun '(s, b) => Z.testbit b (i - s)) (zip shifts bytes).
Proof.
  intros Hw Hs. induction Hs as [|s ss Hs0 Hs IH]; intros bytes result i Hi.
  { by rewrite orb_false_r. }
  destruct bytes as [|b bs]; simpl; [by rewrite orb_false_r|].
  rewrite IH, Z.lor_spec, testbit_wrap by done.
  replace (i <? w) with true by (symmetry; apply Z.ltb_lt; lia). simpl.
  by rewrite Z.shiftl_spec, <- orb_assoc by lia.
Qed.

Lemma ascending_shifts_NoDup w : NoDup (ascending_shifts w).
Proof.
  unfold ascending_shifts. apply NoDup_fmap_2; [intros x y Hxy; lia|apply NoDup_seq].
Qed.

Lemma loop_shifts_NoDup order w : NoDup (loop_shifts order w).
Proof.
  destruct order; simpl; [|apply NoDup_ListNoDup, NoDup_rev, NoDup_ListNoDup];
    apply ascending_shifts_NoDup.
Qed.

(** Scattering what was gathered gives the bytes back. *)
Lemma scattered_gathered order w bytes :
  (w mod 8 = 0)%nat -> Forall is_byte bytes -> length bytes = (w / 8)%nat ->
  map (fun s => u8 (Z.shiftr (gathered (Z.of_nat w) (loop_shifts order w) bytes 0) s))
    (loop_shifts order w) = bytes.
Proof.
  intros Hw Hb Hlen. set (shifts := loop_shifts order w).
  assert (length shifts = length bytes) as Hl by (by rewrite Hlen; apply loop_shifts_length).
  apply list_eq. intros k. rewrite list_lookup_fmap.
  destruct (shifts !! k) as [s|] eqn:Hk; simpl; cycle 1.
  { symmetry. apply lookup_ge_None. apply lookup_ge_None in Hk. lia. }
  destruct (lookup_lt_is_Some_2 bytes k) as [b Hkb].
  { apply lookup_lt_Some in Hk. lia. }
  rewrite Hkb. f_equal. apply Z.bits_inj'. intros j Hj. rewrite testbit_wrap by lia.
  pose proof (Forall_lookup_1 _ _ _ _ Hb Hkb) as Hbyte.
  destruct (Z.ltb_spec j 8); simpl; [|by rewrite (testbit_unsigned_high 8 b)].
  assert (forall s', s' ∈ shifts -> exists q, s' = 8 * Z.of_nat q /\ (q < w / 8)%nat) as Hmul.
  { intros s' Hs'. by apply ascending_shifts_elem, (loop_shifts_elem order). }
  destruct (Hmul s) as (q & Hq & Hqw); [by eapply list_elem_of_lookup_2|].
  pose proof (Nat.div_mod_eq w 8).
  rewrite Z.shiftr_spec, gathered_bits by (first [apply loop_shifts_nonneg | lia]).
  rewrite Z.bits_0. simpl. apply eq_true_iff_eq. rewrite existsb_exists. split.
  - intros ([s' b'] & Hin & Hbit). apply list_elem_of_In, list_elem_of_lookup in Hin as [k' Hin].
    apply lookup_zip_Some in Hin as [Hk' Hb'].
    assert (is_byte b') by (by eapply (Forall_lookup_1 is_byte)).
    destruct (Hmul s') as (q' & Hq' & _); [by eapply list_elem_of_lookup_2|].
    assert (0 <= j + s - s' < 8) as Hr.
    { destruct (Z.ltb_spec (j + s - s') 0); [by rewrite Z.testbit_neg_r in Hbit|].
      destruct (Z.ltb_spec (j + s - s') 8); [lia|].
      by rewrite (testbit_unsigned_high 8 b') in Hbit. }
    assert (q' = q) by lia. subst q'. subst s'. rewrite <- Hq in Hk'.
    assert (k' = k) as -> by (eapply NoDup_lookup; eauto using loop_shifts_NoDup).
    rewrite Hkb in Hb'. injection Hb' as <-. by replace (j + s - 8 * Z.of_nat q) with j in Hbit by lia.
  - intros Hbit. exists (s, b). split.
    + apply list_elem_of_In, list_elem_of_lookup. exists k. apply lookup_zip_Some. done.
    + by replace (j + s - s) with j by lia.
Qed.

(** ** Reading and writing one field *)

Lemma writer_u16_bytes v w :
  bytes_ (write_u16 v w) =
    bytes_ w ++ map (fun s => u8 (Z.shiftr v s)) (loop_shifts (worder_ w) 16) /\
  worder_ (write_u16 v w) = worder_ w.
Proof.
  unfold write_u16, write_u8. destruct (worder_ w) eqn:E; simpl; rewrite E;
    by rewrite <- app_assoc, ?Z.shiftr_0_r.
Qed.

Lemma writer_u32_bytes v w :
  bytes_ (write_u32 v w) =
    bytes_ w ++ map (fun s => u8 (Z.shiftr v s)) (loop_shifts (worder_ w) 32) /\
  worder_ (write_u32 v w) = worder_ w.
Proof. apply scatter_bytes. Qed.

Lemma writer_u64_bytes v w :
  bytes_ (write_u64 v w) =
    bytes_ w ++ map (fun s => u8 (Z.shiftr v s)) (loop_shifts (worder_ w) 64) /\
  worder_ (write_u64 v w) = worder_ w.
Proof. apply scatter_bytes. Qed.

(** What a successful read leaves behind. *)
Definition read_leaves (r : WireReader) (v : Z) (tail : list Z)
    (result : option Z * WireReader) : Prop :=
  exists r', result = (Some v, r') /\ reader_wf r' /\ rest_of r' = tail /\ order_ r' = order_ r.

Lemma read_wide_spec w r bytes tail :
  reader_wf r -> rest_of r = bytes ++ tail -> length bytes = (w / 8)%nat ->
  read_leaves r (gathered (Z.of_nat w) (loop_shifts (order_ r) w) bytes 0) tail (read_wide w r).
Proof.
  intros Hwf Hrest Hlen. unfold read_wide.
  pose proof (rest_of_length r Hwf) as Hr. rewrite Hrest, zlen_app in Hr.
  unfold zlen in Hr at 1. rewrite Hlen in Hr. pose proof (zlen_nonneg tail).
  destruct (Z.ltb_spec (remaining r) (Z.of_nat (w / 8))); [lia|].
  pose proof (gather_spec (Z.of_nat w) (loop_shifts (order_ r) w) 0 r bytes tail
    Hwf Hrest ltac:(by rewrite loop_shifts_length)) as Hg.
  destruct (gather _ _ _ _) as [v r']. destruct Hg as (-> & ? & ? & ?). by exists r'.
Qed.

(** The 16-bit reader computes the same value as the general shift loop. *)
Lemma read_u16_wide r b0 b1 tail :
  reader_wf r -> rest_of r = b0 :: b1 :: tail -> is_byte b0 -> is_byte b1 ->
  read_leaves r (gathered 16 (loop_shifts (order_ r) 16) [b0; b1] 0) tail (read_u16 r).
Proof.
  intros Hwf Hrest H0 H1.
  destruct (rest_of_advance r b0 (b1 :: tail) Hwf Hrest) as (Hb0 & Hwf1 & Hrest1).
  destruct (rest_of_advance _ b1 tail Hwf1 Hrest1) as (Hb1 & Hwf2 & Hrest2).
  pose proof (rest_of_length r Hwf) as Hr. rewrite Hrest, !zlen_cons in Hr.
  pose proof (zlen_nonneg tail). unfold read_u16.
  destruct (Z.ltb_spec (remaining r) 2); [lia|].
  exists (advance 2 r).
  assert (advance 2 r = advance 1 (advance 1 r)) as ->.
  { unfold advance; simpl. f_equal. lia. }
  change (byte_at r (offset_ r + 1)) with (byte_at (advance 1 r) (offset_ (advance 1 r))).
  rewrite Hb0, Hb1. split; [|done].
  assert (forall b, is_byte b -> wrap 16 (Z.shiftl b 8) = Z.shiftl b 8 /\ wrap 16 b = b) as Hs.
  { intros b Hb. unfold is_byte, is_unsigned in Hb.
    split; apply wrap_id; unfold is_unsigned; rewrite ?Z.shiftl_mul_pow2; lia. }
  destruct (Hs b0 H0) as [E0 F0], (Hs b1 H1) as [E1 F1].
  assert (forall x y, is_byte x -> is_byte y -> u16 (Z.lor x (Z.shiftl y 8)) = Z.lor x (Z.shiftl y 8)) as Hl.
  { intros x y Hx Hy. apply wrap_id, is_unsigned_lor; [lia| |];
      unfold is_byte, is_unsigned in *; rewrite ?Z.shiftl_mul_pow2; lia. }
  destruct (order_ r); (apply (f_equal2 pair); [f_equal|done]).
  - change (gathered _ _ _ _) with (Z.lor (Z.lor 0 (u16 (Z.shiftl b0 0))) (u16 (Z.shiftl b1 8))).
    by rewrite Z.shiftl_0_r, F0, E1, Z.lor_0_l, Hl.
  - change (gathered _ _ _ _) with (Z.lor (Z.lor 0 (u16 (Z.shiftl b0 8))) (u16 (Z.shiftl b1 0))).
    by rewrite Z.shiftl_0_r, E0, F1, Z.lor_0_l, Z.lor_comm, Hl.
Qed.

(** ** Message layouts

    A message is a sequence of fields; the two functions run the writer and
    the reader over it the way the request builders and parsers do. *)
Inductive field :=
  | FU8 (v : Z) | FU16 (v : Z) | FU32 (v : Z) | FU64 (v : Z) | FPad (n : Z).

Definition field_ok (f : field) : Prop :=
  match f with
  | FU8 v => is_unsigned 8 v
  | FU16 v => is_unsigned 16 v
  | FU32 v => is_unsigned 32 v
  | FU64 v => is_unsigned 64 v
  | FPad n => 0 <= n
  end.

#[export] Instance field_ok_dec f : Decision (field_ok f).
Proof. destruct f; simpl; apply _. Defined.

Definition write_field (f : field) : WireWriter -> WireWriter :=
  match f with
  | FU8 v => write_u8 v | FU16 v => write_u16 v | FU32 v => write_u32 v
  | FU64 v => write_u64 v | FPad n => pad n
  end.

(** Reads a field of the same shape; [None] when the reader ran short. *)
Definition read_field (f : field) (r : WireReader) : option field * WireReader :=
  let value c '(o, r') := (c <$> o, r') in
  match f with
  | FU8 _ => value FU8 (read_u8 r)
  | FU16 _ => value FU16 (read_u16 r)
  | FU32 _ => value FU32 (read_u32 r)
  | FU64 _ => value FU64 (read_u64 r)
  | FPad n => let '(b, r') := skip n r in (if b then Some (FPad n) else None, r')
  end.

Definition write_fields (fs : list field) (w : WireWriter) : WireWriter :=
  foldl (fun w f => write_field f w) w fs.

Fixpoint read_fields (fs : list field) (r : WireReader) : option (list field) * WireReader :=
  match fs with
  | [] => (Some [], r)
  | f :: rest =>
      match read_field f r with
      | (None, r') => (None, r')
      | (Some v, r') =>
          let '(vs, r'') := read_fields rest r' in (cons v <$> vs, r'')
      end
  end.

Definition field_bytes (order : ByteOrder) (f : field) : list Z :=
  match f with
  | FU8 v => [v]
  | FU16 v => map (fun s => u8 (Z.shiftr v s)) (loop_shifts order 16)
  | FU32 v => map (fun s => u8 (Z.shiftr v s)) (loop_shifts order 32)
  | FU64 v => map (fun s => u8 (Z.shiftr v s)) (loop_shifts order 64)
  | FPad n => replicate (Z.to_nat n) 0
  end.

Lemma write_field_bytes f w :
  bytes_ (write_field f w) = bytes_ w ++ field_bytes (worder_ w) f /\
  worder_ (write_field f w) = worder_ w.
Proof.
  destruct f; simpl;
    auto using writer_u16_bytes, writer_u32_bytes, writer_u64_bytes.
Qed.

Lemma write_fields_bytes fs : forall w,
  bytes_ (write_fields fs w) = bytes_ w ++ concat (map (field_bytes (worder_ w)) fs) /\
  worder_ (write_fields fs w) = worder_ w.
Proof.
  induction fs as [|f fs IH]; intros w; simpl; [by rewrite app_nil_r|].
  destruct (IH (write_field f w)) as [-> ->].
  destruct (write_field_bytes f w) as [-> ->]. by rewrite <- app_assoc.
Qed.

Lemma skip_spec n r bytes tail :
  reader_wf r -> rest_of r = bytes ++ tail -> zlen bytes = n ->
  exists r', skip n r = (true, r') /\ reader_wf r' /\ rest_of r' = tail /\ order_ r' = order_ r.
Proof.
  intros Hwf Hrest Hn. pose proof (rest_of_length r Hwf) as Hr.
  rewrite Hrest, zlen_app, Hn in Hr. pose proof (zlen_nonneg tail).
  unfold skip. destruct (Z.ltb_spec (remaining r) n); [lia|].
  exists (advance n r). split; [done|].
  unfold reader_wf, rest_of, remaining, advance in *; simpl.
  unfold zlen in *. split; [lia|]. split; [|done].
  rewrite <- (drop_app_length bytes tail), <- Hrest.
  rewrite skipn_firstn_comm, drop_drop. f_equal; [lia|]. f_equal. lia.
Qed.

Lemma read_field_spec f r tail :
  field_ok f -> reader_wf r -> rest_of r = field_bytes (order_ r) f ++ tail ->
  exists r', read_field f r = (Some f, r') /\ reader_wf r' /\ rest_of r' = tail /\
             order_ r' = order_ r.
Proof.
  intros Hok Hwf Hrest. destruct f as [v|v|v|v|n]; simpl in *.
  - destruct (rest_of_advance r v tail Hwf Hrest) as (Hb & ? & ?).
    pose proof (rest_of_length r Hwf) as Hr. rewrite Hrest, zlen_cons in Hr.
    pose proof (zlen_nonneg tail). unfold read_u8.
    destruct (Z.ltb_spec (remaining r) 1); [lia|]. rewrite Hb. by exists (advance 1 r).
  - pose proof (gathered_scattered (order_ r) 16 v eq_refl Hok) as Hg.
    assert (exists b0 b1, map (fun s => u8 (Z.shiftr v s)) (loop_shifts (order_ r) 16) = [b0; b1] /\
              is_byte b0 /\ is_byte b1) as (b0 & b1 & Hm & ? & ?).
    { destruct (order_ r); eexists _, _; (split; [reflexivity|]); split; apply wrap_range; lia. }
    rewrite Hm in *. destruct (read_u16_wide r b0 b1 tail) as (r' & -> & ?); [done..|].
    change (Z.of_nat 16) with 16 in Hg. rewrite Hg. by exists r'.
  - unfold read_u32. destruct (read_wide_spec 32 r _ tail Hwf Hrest) as (r' & -> & ?).
    { by rewrite length_map, loop_shifts_length. }
    rewrite gathered_scattered by done. by exists r'.
  - unfold read_u64. destruct (read_wide_spec 64 r _ tail Hwf Hrest) as (r' & -> & ?).
    { by rewrite length_map, loop_shifts_length. }
    rewrite gathered_scattered by done. by exists r'.
  - destruct (skip_spec n r _ tail Hwf Hrest) as (r' & -> & ?).
    { rewrite zlen_replicate. lia. }
    by exists r'.
Qed.

Lemma read_fields_spec fs : forall r tail,
  Forall field_ok fs -> reader_wf r ->
  rest_of r = concat (map (field_bytes (order_ r)) fs) ++ tail ->
  exists r', read_fields fs r = (Some fs, r') /\ reader_wf r' /\ rest_of r' = tail.
Proof.
  induction fs as [|f fs IH]; intros r tail Hok Hwf Hrest; simpl in *; [by exists r|].
  inversion_clear Hok as [|? ? Hf Hfs]. rewrite <- app_assoc in Hrest.
  destruct (read_field_spec f r _ Hf Hwf Hrest) as (r1 & -> & Hwf1 & Hrest1 & Hord).
  rewrite <- Hord in Hrest1.
  destruct (IH r1 tail Hfs Hwf1 Hrest1) as (r2 & -> & ? & ?). by exists r2.
Qed.

(** C3: whatever sequence of 8, 16, 32 and 64-bit fields and padding
    [WireWriter] writes in a byte order, [WireReader] in that order reads the
    same values back, and nothing of the message remains. *)
Theorem wire_roundtrip order fs :
  Forall field_ok fs ->
  exists r', read_fields fs (reader_of (bytes_ (write_fields fs (writer order))) order)
               = (Some fs, r') /\ remaining r' = 0.
Proof.
  intros Hok.
  destruct (write_fields_bytes fs (writer order)) as [Hb _]. simpl in Hb. rewrite Hb.
  destruct (read_fields_spec fs (reader_of (concat (map (field_bytes order) fs)) order) [] Hok)
    as (r' & Heq & Hwf & Hrest).
  - apply reader_of_wf.
  - rewrite rest_of_reader_of. simpl. by rewrite app_nil_r.
  - exists r'. split; [done|]. rewrite <- rest_of_length, Hrest by done. done.
Qed.

Lemma wire_roundtrip_witness :
  exists r', read_fields [FU16 513; FU32 4660; FPad 2; FU8 7]
    (reader_of (bytes_ (write_fields [FU16 513; FU32 4660; FPad 2; FU8 7] (writer big))) big)
      = (Some [FU16 513; FU32 4660; FPad 2; FU8 7], r') /\ remaining r' = 0.
Proof. apply (wire_roundtrip big). by_computation. Defined.

(** ** Bounds of the reader *)

Definition read_op_result {A} (r : WireReader) (n : Z) (res : option A * WireReader) : Prop :=
  let '(o, r') := res in
  reader_wf r' /\ data_ r' = data_ r /\ size_ r' = size_ r /\
  if remaining r <? n then o = None /\ r' = r
  else is_Some o /\ offset_ r' = offset_ r + n.

Lemma gather_frame w shifts : forall result r,
  let '(v, r') := gather w shifts result r in
  data_ r' = data_ r /\ size_ r' = size_ r /\ offset_ r' = offset_ r + Z.of_nat (length shifts).
Proof.
  induction shifts as [|s ss IH]; intros result r; simpl; [split_and!; try done; lia|].
  specialize (IH (Z.lor result (wrap w (Z.shiftl (byte_at r (offset_ r)) s))) (advance 1 r)).
  destruct (gather _ _ _ _) as [v r']. simpl in IH. destruct IH as (-> & -> & ->).
  split_and!; try done; lia.
Qed.

Lemma read_wide_bounds w r :
  reader_wf r -> read_op_result r (Z.of_nat (w / 8)) (read_wide w r).
Proof.
  intros Hwf. unfold read_wide, read_op_result.
  destruct (Z.ltb_spec (remaining r) (Z.of_nat (w / 8))); [done|].
  pose proof (gather_frame (Z.of_nat w) (loop_shifts (order_ r) w) 0 r) as Hf.
  destruct (gather _ _ _ _) as [v r']. destruct Hf as (Hd & Hs & Ho).
  rewrite loop_shifts_length in Ho. unfold reader_wf, remaining in *.
  rewrite Hd, Hs, Ho. split_and!; try done; lia.
Qed.

Lemma read_u16_bounds r : reader_wf r -> read_op_result r 2 (read_u16 r).
Proof.
  intros Hwf. unfold read_u16, read_op_result, advance. destruct (Z.ltb_spec (remaining r) 2); [done|].
  unfold reader_wf, remaining in *. destruct (order_ r); simpl; split_and!; try done; lia.
Qed.

(** C4: a [WireReader] never leaves its buffer: every read either fails
    and consumes nothing, exactly when too few bytes remain, or consumes
    exactly its width; in both cases the offset stays inside the view. *)
Theorem reader_stays_in_bounds r :
  reader_wf r ->
  read_op_result r 1 (read_u8 r) /\ read_op_result r 2 (read_u16 r) /\
  read_op_result r 4 (read_u32 r) /\ read_op_result r 8 (read_u64 r) /\
  forall n, 0 <= n ->
    let '(b, r') := skip n r in reader_wf r' /\ b = negb (remaining r <? n) /\
      offset_ r' = offset_ r + (if b then n else 0).
Proof.
  intros Hwf. split_and!.
  - unfold read_u8, read_op_result, advance. destruct (Z.ltb_spec (remaining r) 1); [done|].
    unfold reader_wf, remaining in *. simpl. split_and!; try done; lia.
  - by apply read_u16_bounds.
  - apply (read_wide_bounds 32 r Hwf).
  - apply (read_wide_bounds 64 r Hwf).
  - intros n Hn. unfold skip, advance. destruct (Z.ltb_spec (remaining r) n); simpl.
    + split_and!; try done; lia.
    + unfold reader_wf, remaining in *. simpl. split_and!; try done; lia.
Qed.

Lemma reader_stays_in_bounds_witness :
  read_op_result (reader_of [1; 2; 3] little) 4 (read_u32 (reader_of [1; 2; 3] little)).
Proof.
  exact (proj1 (proj2 (proj2 (reader_stays_in_bounds (reader_of [1; 2; 3] little)
    (reader_of_wf [1; 2; 3] little))))).
Defined.

(** [pad_to_four] always ends on a multiple of four and adds at most three
    zero bytes. *)
Lemma pad_to_four_spec w :
  exists n, bytes_ (pad_to_four w) = bytes_ w ++ replicate n 0 /\ (n < 4)%nat /\
    zlen (bytes_ (pad_to_four w)) mod 4 = 0.
Proof.
  unfold pad_to_four, pad. simpl.
  set (len := zlen (bytes_ w)).
  assert (Z.land len 3 = len mod 4) as -> by apply (Z.land_ones len 2 ltac:(lia)).
  assert (Z.land (4 - len mod 4) 3 = (4 - len mod 4) mod 4) as ->
    by apply (Z.land_ones _ 2 ltac:(lia)).
  pose proof (Z.mod_pos_bound len 4 ltac:(lia)).
  pose proof (Z.mod_pos_bound (4 - len mod 4) 4 ltac:(lia)).
  exists (Z.to_nat ((4 - len mod 4) mod 4)). split; [done|]. split; [lia|].
  rewrite zlen_app, zlen_replicate, Z2Nat.id by lia. fold len.
  rewrite Zplus_mod_idemp_r.
  replace (len + (4 - len mod 4)) with ((1 + len / 4) * 4); [by apply Z.mod_mul|].
  pose proof (Z.div_mod len 4 ltac:(lia)). lia.
Qed.
