(* ===== verification/PropertyData.v ===== *)
(** * Property data in canonical and wire byte order

    Model of [src/src/server/property_data.cpp]. The server stores the units
    of a property in little-endian (canonical) order and converts them to the
    byte order of the client that reads them. *)
From S2P Require Import Prelude Wire.

(** The [while (reader.remaining() != 0)] loop; every iteration that goes on
    consumes two or four bytes, so the data length is enough fuel. *)
Fixpoint canonical_loop (fuel : nat) (format : Z) (reader : WireReader)
    (canonical : list Z) : run (option (list Z)) :=
  if remaining reader =? 0 then finished (Some canonical) else
  match fuel with
  | O => out_of_fuel
  | S fuel =>
      if format =? 16 then
        match read_u16 reader with
        | (None, _) => finished None
        | (Some value, reader) =>
            canonical_loop fuel format reader
              (canonical ++ [u8 value; u8 (Z.shiftr value 8)])
        end
      else
        match read_u32 reader with
        | (None, _) => finished None
        | (Some value, reader) =>
            canonical_loop fuel format reader
              (canonical ++ map (fun shift => u8 (Z.shiftr value shift)) (ascending_shifts 32))
        end
  end.

Definition canonical_property_data (data : list Z) (format : Z) (order : ByteOrder)
    : run (option (list Z)) :=
  if format =? 8 then finished (Some data)
  else canonical_loop (length data) format (reader_of data order) [].

(** [data[i]]. *)
Definition at_ (data : list Z) (i : Z) : Z := default 0 (data !! Z.to_nat i).

(** [value |= data[offset + index] << (index * 8)] for [index] 0 to 3. *)
Definition load_canonical_u32 (data : list Z) (offset : Z) : Z :=
  foldl (fun value index =>
           Z.lor value (u32 (Z.shiftl (at_ data (offset + index)) (index * 8))))
    0 [0; 1; 2; 3].

Fixpoint wire_loop (fuel : nat) (format unit : Z) (data : list Z) (offset : Z)
    (w : WireWriter) : run WireWriter :=
  if offset <? zlen data then
    match fuel with
    | O => out_of_fuel
    | S fuel =>
        let w' :=
          if format =? 16 then
            write_u16 (Z.lor (at_ data offset) (Z.shiftl (at_ data (offset + 1)) 8)) w
          else write_u32 (load_canonical_u32 data offset) w in
        wire_loop fuel format unit data (offset + unit) w'
    end
  else finished w.

Definition wire_property_data (data : list Z) (format : Z) (order : ByteOrder)
    : run (list Z) :=
  if format =? 8 then finished data
  else
    match wire_loop (length data) format (format / 8) data 0 (writer order) with
    | finished w => finished (bytes_ w)
    | out_of_fuel => out_of_fuel
    end.

(** ** The conversions unit by unit *)

(** A unit of the property as it appears in a byte order. *)
Definition ordered_unit (order : ByteOrder) (unit : list Z) : list Z :=
  match order with little => unit | big => rev unit end.

Definition is_unit (n : nat) (unit : list Z) : Prop :=
  length unit = n /\ Forall is_byte unit.

Lemma ordered_unit_involutive order unit :
  ordered_unit order (ordered_unit order unit) = unit.
Proof. destruct order; simpl; [done|]. apply rev_involutive. Qed.

Lemma ordered_unit_is_unit order n unit : is_unit n unit -> is_unit n (ordered_unit order unit).
Proof.
  destruct order; simpl; [done|]. intros [Hl Hf]. split; [by rewrite length_rev|].
  apply Forall_rev. done.
Qed.

Lemma map_loop_shifts {A} (f : Z -> A) order w :
  map f (loop_shifts order w) =
    match order with little => map f (ascending_shifts w) | big => rev (map f (ascending_shifts w)) end.
Proof. destruct order; simpl; [done|]. by rewrite map_rev. Qed.

(** Bytes of the value gathered in one order, laid out in the ascending
    order of the canonical form. *)
Lemma canonical_unit order w unit :
  (w mod 8 = 0)%nat -> is_unit (w / 8) unit ->
  map (fun s => u8 (Z.shiftr (gathered (Z.of_nat w) (loop_shifts order w) unit 0) s))
    (ascending_shifts w) = ordered_unit order unit.
Proof.
  intros Hw [Hl Hf]. pose proof (scattered_gathered order w unit Hw Hf Hl) as H.
  rewrite map_loop_shifts in H. destruct order; simpl; [done|].
  rewrite <- H, rev_involutive. by rewrite H.
Qed.

Lemma concat_units_length n units :
  Forall (is_unit n) units -> length (concat units) = (n * length units)%nat.
Proof.
  induction 1 as [|u us [Hu _] _ IH]; simpl; [lia|]. rewrite length_app, Hu, IH. lia.
Qed.

Lemma remaining_zero r : reader_wf r -> (remaining r =? 0) = true <-> rest_of r = [].
Proof.
  intros Hwf. rewrite Z.eqb_eq, <- rest_of_length by done. unfold zlen.
  destruct (rest_of r); simpl; split; intros; try done; lia.
Qed.

(** A width of property data that the protocol allows besides 8. *)
Definition wide_format (format : Z) : Prop := format = 16 \/ format = 32.

Lemma canonical_loop_units format : wide_format format ->
  forall units fuel r acc,
  Forall (is_unit (Z.to_nat (format / 8))) units -> reader_wf r ->
  rest_of r = concat units -> (length units <= fuel)%nat ->
  canonical_loop fuel format r acc =
    finished (Some (acc ++ concat (map (ordered_unit (order_ r)) units))).
Proof.
  intros Hfmt units. induction units as [|unit units IH]; intros fuel r acc Hu Hwf Hrest Hfuel.
  - destruct fuel; simpl; rewrite (proj2 (remaining_zero r Hwf) Hrest); by rewrite app_nil_r.
  - inversion_clear Hu as [|? ? Hunit Hunits].
    destruct fuel as [|fuel]; simpl in Hfuel; [lia|]. simpl in Hrest.
    assert ((remaining r =? 0) = false) as Hz.
    { apply not_true_is_false. rewrite remaining_zero by done. rewrite Hrest.
      destruct Hunit as [Hl _]. destruct unit; [|done].
      destruct Hfmt as [-> | ->]; vm_compute in Hl; lia. }
    cbn [canonical_loop]. rewrite Hz.
    destruct Hfmt as [-> | ->].
    + change (16 =? 16) with true. cbn match. destruct Hunit as [Hl Hb]. change (Z.to_nat (16 / 8)) with 2%nat in Hl.
      destruct unit as [|b0 [|b1 [|]]]; try done.
      pose proof Hb as Hb0. inversion_clear Hb as [|? ? H0 Hb']. inversion_clear Hb' as [|? ? H1 _].
      destruct (read_u16_wide r b0 b1 (concat units) Hwf Hrest H0 H1) as (r' & -> & Hwf' & Hrest' & Hord).
      rewrite IH by (done || lia).
      rewrite Hord, map_cons, concat_cons, <- app_assoc. do 3 f_equal.
      rewrite <- (canonical_unit (order_ r) 16) by done. done.
    + change (32 =? 16) with false. cbn match.
      assert (length unit = (32 / 8)%nat) as Hl by apply Hunit.
      destruct (read_wide_spec 32 r unit (concat units) Hwf Hrest Hl) as (r' & Heq & Hwf' & Hrest' & Hord).
      unfold read_u32. rewrite Heq. rewrite IH by (done || lia).
      rewrite Hord, map_cons, concat_cons, <- app_assoc. do 3 f_equal.
      by rewrite (canonical_unit (order_ r) 32).
Qed.

(** Data that does not split into units is refused. *)
Lemma canonical_loop_ragged format : wide_format format ->
  forall fuel r acc, reader_wf r -> (length (rest_of r) <= fuel)%nat ->
  ~ (format / 8 | zlen (rest_of r)) ->
  canonical_loop fuel format r acc = finished None.
Proof.
  intros Hfmt fuel. induction fuel as [|fuel IH]; intros r acc Hwf Hfuel Hdiv.
  { exfalso. apply Hdiv. destruct (rest_of r); simpl in Hfuel; [|lia]. apply Z.divide_0_r. }
  cbn [canonical_loop]. destruct (remaining r =? 0) eqn:Hz.
  { exfalso. apply Hdiv. apply remaining_zero in Hz; [|done]. rewrite Hz. apply Z.divide_0_r. }
  assert (forall n r', n = format / 8 -> 0 < n -> remaining r >= n -> reader_wf r' ->
    data_ r' = data_ r -> size_ r' = size_ r -> offset_ r' = offset_ r + n ->
    forall acc', canonical_loop fuel format r' acc' = finished None) as Hnext.
  { intros n r' -> Hn Hge Hwf' Hd Hs Ho acc'.
    pose proof (rest_of_length r Hwf) as Hl. pose proof (rest_of_length r' Hwf') as Hl'.
    assert (zlen (rest_of r') = zlen (rest_of r) - format / 8) as Hrel.
    { rewrite Hl, Hl'. unfold remaining. rewrite Hs, Ho. lia. }
    apply IH; [done| |].
    - unfold zlen in Hrel. lia.
    - rewrite Hrel. intros Hdv. apply Hdiv.
      replace (zlen (rest_of r)) with (zlen (rest_of r) - format / 8 + format / 8) by lia.
      apply Z.divide_add_r; [done|apply Z.divide_refl]. }
  pose proof (read_u16_bounds r Hwf) as H16. pose proof (read_wide_bounds 32 r Hwf) as H32.
  change (read_wide 32 r) with (read_u32 r) in H32. change (Z.of_nat (32 / 8)) with 4 in H32.
  destruct Hfmt as [-> | ->].
  - change (16 =? 16) with true. cbn match. unfold read_op_result in H16.
    destruct (read_u16 r) as [o r']. destruct H16 as (? & ? & ? & H16).
    destruct (Z.ltb_spec (remaining r) 2); destruct H16 as [Ho ?].
    + by rewrite Ho.
    + destruct Ho as [v ->]. apply (Hnext 2); (done || lia).
  - change (32 =? 16) with false. cbn match. unfold read_op_result in H32.
    destruct (read_u32 r) as [o r']. destruct H32 as (? & ? & ? & H32).
    destruct (Z.ltb_spec (remaining r) 4); destruct H32 as [Ho ?].
    + by rewrite Ho.
    + destruct Ho as [v ->]. apply (Hnext 4); (done || lia).
Qed.

Lemma at_app_r pre l k : at_ (pre ++ l) (zlen pre + k) = at_ l k \/ k < 0.
Proof.
  destruct (Z.ltb_spec k 0); [by right|left]. unfold at_, zlen.
  replace (Z.to_nat (Z.of_nat (length pre) + k)) with (length pre + Z.to_nat k)%nat by lia.
  by rewrite lookup_app_r, Nat.add_sub_swap, Nat.sub_diag by lia.
Qed.

Lemma at_app_r' pre l k : 0 <= k -> at_ (pre ++ l) (zlen pre + k) = at_ l k.
Proof. intros. destruct (at_app_r pre l k); [done|lia]. Qed.

(** What one iteration of the writing loop appends for a unit. *)
Lemma wire_unit16 order b0 b1 w :
  is_byte b0 -> is_byte b1 -> worder_ w = order ->
  bytes_ (write_u16 (Z.lor b0 (Z.shiftl b1 8)) w) = bytes_ w ++ ordered_unit order [b0; b1].
Proof.
  intros H0 H1 Ho. destruct (writer_u16_bytes (Z.lor b0 (Z.shiftl b1 8)) w) as [-> _].
  f_equal. rewrite Ho, map_loop_shifts.
  assert (map (fun s => u8 (Z.shiftr (Z.lor b0 (Z.shiftl b1 8)) s)) (ascending_shifts 16) = [b0; b1]) as Hm.
  { rewrite <- (scattered_gathered little 16 [b0; b1]) by first [done | forall_list].
    change (loop_shifts little 16) with (ascending_shifts 16).
    change (gathered _ _ _ _) with (Z.lor (Z.lor 0 (u16 (Z.shiftl b0 0))) (u16 (Z.shiftl b1 8))).
    rewrite Z.lor_0_l, Z.shiftl_0_r.
    rewrite (wrap_id 16 b0), (wrap_id 16 (Z.shiftl b1 8)); [done|..];
      unfold is_byte, is_unsigned in *; rewrite ?Z.shiftl_mul_pow2; lia. }
  by destruct order; simpl ordered_unit; rewrite Hm.
Qed.

Lemma wire_unit32 order b0 b1 b2 b3 w :
  Forall is_byte [b0; b1; b2; b3] -> worder_ w = order ->
  bytes_ (write_u32 (load_canonical_u32 [b0; b1; b2; b3] 0) w) =
    bytes_ w ++ ordered_unit order [b0; b1; b2; b3].
Proof.
  intros Hb Ho. destruct (writer_u32_bytes (load_canonical_u32 [b0; b1; b2; b3] 0) w) as [-> _].
  f_equal. rewrite Ho, map_loop_shifts.
  pose proof (scattered_gathered little 32 [b0; b1; b2; b3] eq_refl Hb eq_refl) as Hm.
  change (gathered _ _ _ _) with (load_canonical_u32 [b0; b1; b2; b3] 0) in Hm.
  change (loop_shifts little 32) with (ascending_shifts 32) in Hm.
  by destruct order; simpl ordered_unit; rewrite Hm.
Qed.

Lemma load_canonical_app pre l : load_canonical_u32 (pre ++ l) (zlen pre) = load_canonical_u32 l 0.
Proof.
  unfold load_canonical_u32. simpl. rewrite !at_app_r' by lia. done.
Qed.

Lemma load_canonical_prefix b0 b1 b2 b3 l :
  load_canonical_u32 (b0 :: b1 :: b2 :: b3 :: l) 0 = load_canonical_u32 [b0; b1; b2; b3] 0.
Proof. reflexivity. Qed.

Lemma wire_step format unit rest pre w :
  wide_format format -> is_unit (Z.to_nat (format / 8)) unit ->
  let data := pre ++ unit ++ rest in
  let w' := if format =? 16
            then write_u16 (Z.lor (at_ data (zlen pre)) (Z.shiftl (at_ data (zlen pre + 1)) 8)) w
            else write_u32 (load_canonical_u32 data (zlen pre)) w in
  bytes_ w' = bytes_ w ++ ordered_unit (worder_ w) unit /\ worder_ w' = worder_ w.
Proof.
  intros [-> | ->] [Hl Hb]; cbn zeta.
  - change (16 =? 16) with true. cbn match. change (Z.to_nat (16 / 8)) with 2%nat in Hl.
    destruct unit as [|b0 [|b1 [|]]]; try done.
    inversion_clear Hb as [|? ? H0 Hb']. inversion_clear Hb' as [|? ? H1 _].
    split; [|apply writer_u16_bytes].
    rewrite <- (Z.add_0_r (zlen pre)) at 1. rewrite !at_app_r' by lia. by apply wire_unit16.
  - change (32 =? 16) with false. cbn match. change (Z.to_nat (32 / 8)) with 4%nat in Hl.
    destruct unit as [|b0 [|b1 [|b2 [|b3 [|]]]]]; try done.
    split; [|apply writer_u32_bytes].
    rewrite load_canonical_app. simpl. rewrite load_canonical_prefix. by apply wire_unit32.
Qed.

Lemma wire_loop_units format : wide_format format ->
  forall units fuel pre w,
  Forall (is_unit (Z.to_nat (format / 8))) units -> (length units <= fuel)%nat ->
  exists w', wire_loop fuel format (format / 8) (pre ++ concat units) (zlen pre) w = finished w' /\
    bytes_ w' = bytes_ w ++ concat (map (ordered_unit (worder_ w)) units).
Proof.
  intros Hfmt units. induction units as [|unit units IH]; intros fuel pre w Hu Hfuel.
  - exists w. simpl. rewrite !app_nil_r. split; [|done].
    destruct fuel; simpl; by rewrite Z.ltb_irrefl.
  - inversion_clear Hu as [|? ? Hunit Hunits]. destruct fuel as [|fuel]; simpl in Hfuel; [lia|].
    assert (zlen unit = format / 8) as Hlen.
    { destruct Hunit as [Hl _]. unfold zlen. rewrite Hl. destruct Hfmt as [-> | ->]; done. }
    cbn [wire_loop]. simpl concat.
    destruct (Z.ltb_spec (zlen pre) (zlen (pre ++ unit ++ concat units))) as [_|Hge]; cycle 1.
    { rewrite !zlen_app, Hlen in Hge. pose proof (zlen_nonneg (concat units)).
      destruct Hfmt as [-> | ->]; [change (16/8) with 2 in Hge|change (32/8) with 4 in Hge]; lia. }
    destruct (wire_step format unit (concat units) pre w Hfmt Hunit) as [Hb Ho]. cbn zeta in Hb, Ho.
    replace (zlen pre + format / 8) with (zlen (pre ++ unit)) by (rewrite zlen_app, Hlen; done).
    rewrite (app_assoc pre unit).
    rewrite (app_assoc pre unit) in Hb, Ho.
    match type of Ho with worder_ ?x = _ =>
      destruct (IH fuel (pre ++ unit) x Hunits ltac:(lia)) as (w' & -> & Hw') end.
    exists w'. split; [done|]. rewrite Hw', Hb, Ho. by rewrite app_assoc.
Qed.

(** The data splits into units exactly when its length is a multiple of the
    unit size. *)
Lemma split_units n : (0 < n)%nat -> forall m (data : list Z),
  length data = (n * m)%nat -> Forall is_byte data ->
  exists units, data = concat units /\ Forall (is_unit n) units /\ length units = m.
Proof.
  intros Hn m. induction m as [|m IH]; intros data Hl Hb.
  - exists []. destruct data; [done|simpl in Hl; lia].
  - destruct (IH (drop n data)) as (units & Hd & Hu & Hm).
    + rewrite length_drop. lia.
    + by apply Forall_drop.
    + exists (take n data :: units). simpl. rewrite <- Hd, take_drop, Hm. split_and!; try done.
      constructor; [|done]. split; [rewrite length_take; lia|by apply Forall_take].
Qed.

Definition well_sized (format : Z) (data : list Z) : Prop :=
  (format = 8 \/ format = 16 \/ format = 32) /\ (format / 8 | zlen data) /\ Forall is_byte data.

Lemma well_sized_units format data :
  wide_format format -> well_sized format data ->
  exists units, data = concat units /\ Forall (is_unit (Z.to_nat (format / 8))) units.
Proof.
  intros Hfmt (_ & [m Hm] & Hb).
  assert (0 < format / 8) by (destruct Hfmt as [-> | ->]; by_computation).
  pose proof (zlen_nonneg data).
  destruct (split_units (Z.to_nat (format / 8)) ltac:(lia) (Z.to_nat m) data) as (units & ? & ? & _);
    [|done|by exists units].
  unfold zlen in *. apply Nat2Z.inj. rewrite Nat2Z.inj_mul, !Z2Nat.id by nia. lia.
Qed.

Lemma ordered_units_is_unit order n units :
  Forall (is_unit n) units -> Forall (is_unit n) (map (ordered_unit order) units).
Proof. intros H. apply Forall_map. eapply Forall_impl; [exact H|]. intros u. apply ordered_unit_is_unit. Qed.

Lemma units_fuel n units : (0 < n)%nat -> Forall (is_unit n) units ->
  (length units <= length (concat units))%nat.
Proof. intros Hn Hu. rewrite (concat_units_length n) by done. nia. Qed.

Lemma wide_format_unit format : wide_format format -> (0 < Z.to_nat (format / 8))%nat.
Proof. intros [-> | ->]; by_computation. Qed.

Lemma wide_format_not_8 format : wide_format format -> (format =? 8) = false.
Proof. intros [-> | ->]; done. Qed.

Lemma canonical_of_units format order units :
  wide_format format -> Forall (is_unit (Z.to_nat (format / 8))) units ->
  canonical_property_data (concat units) format order =
    finished (Some (concat (map (ordered_unit order) units))).
Proof.
  intros Hfmt Hu. unfold canonical_property_data. rewrite wide_format_not_8 by done.
  rewrite (canonical_loop_units format Hfmt units); try done.
  - apply reader_of_wf.
  - apply rest_of_reader_of.
  - eauto using units_fuel, wide_format_unit.
Qed.

Lemma wire_of_units format order units :
  wide_format format -> Forall (is_unit (Z.to_nat (format / 8))) units ->
  wire_property_data (concat units) format order =
    finished (concat (map (ordered_unit order) units)).
Proof.
  intros Hfmt Hu. unfold wire_property_data. rewrite wide_format_not_8 by done.
  destruct (wire_loop_units format Hfmt units (length (concat units)) [] (writer order) Hu)
    as (w' & Heq & Hb); [eauto using units_fuel, wide_format_unit|].
  simpl app in Heq. change (zlen []) with 0 in Heq. rewrite Heq, Hb. done.
Qed.

(** ** Properties *)

(** C5: a property that one client stores in its byte order and another
    reads in the same order comes back unchanged, for every format and
    length the protocol allows. *)
Theorem property_data_roundtrip format order data :
  well_sized format data ->
  exists canonical,
    canonical_property_data data format order = finished (Some canonical) /\
    length canonical = length data /\
    wire_property_data canonical format order = finished data.
Proof.
  intros Hws. destruct (decide (format = 8)) as [->|Hne]; [by exists data|].
  assert (wide_format format) as Hfmt by (destruct Hws as [[|[|]] _]; [done|by left|by right]).
  destruct (well_sized_units format data Hfmt Hws) as (units & -> & Hu).
  exists (concat (map (ordered_unit order) units)).
  pose proof (ordered_units_is_unit order _ _ Hu) as Hu'.
  split_and!; [by apply canonical_of_units| |].
  - by rewrite !(concat_units_length (Z.to_nat (format / 8))), length_map by done.
  - rewrite wire_of_units by done. do 2 f_equal. rewrite map_map.
    rewrite <- (map_id units) at 2. apply map_ext. intros u. apply ordered_unit_involutive.
Qed.

Lemma property_data_roundtrip_witness :
  exists canonical,
    canonical_property_data [1; 2; 3; 4; 5; 6; 7; 8] 32 big = finished (Some canonical) /\
    length canonical = 8%nat /\
    wire_property_data canonical 32 big = finished [1; 2; 3; 4; 5; 6; 7; 8].
Proof.
  apply property_data_roundtrip. split; [by right; right|]. split; [by exists 2|].
  forall_list.
Defined.

(** The reading client sees each unit byte-swapped exactly when its order
    differs from the writer's. *)
Lemma property_data_cross_order format units :
  wide_format format -> Forall (is_unit (Z.to_nat (format / 8))) units ->
  forall o1 o2, exists canonical,
    canonical_property_data (concat units) format o1 = finished (Some canonical) /\
    wire_property_data canonical format o2 =
      finished (concat (map (fun u => ordered_unit o2 (ordered_unit o1 u)) units)).
Proof.
  intros Hfmt Hu o1 o2. eexists. split; [by apply canonical_of_units|].
  rewrite wire_of_units by eauto using ordered_units_is_unit. by rewrite map_map.
Qed.

(** C6: [canonical_property_data] terminates on every input, and refuses
    data exactly when its size is not a multiple of the 16 or 32-bit unit. *)
Theorem canonical_property_data_total format order data :
  wide_format format -> Forall is_byte data ->
  canonical_property_data data format order <> out_of_fuel /\
  (canonical_property_data data format order = finished None <-> ~ (format / 8 | zlen data)).
Proof.
  intros Hfmt Hb. destruct (Znumtheory.Zdivide_dec (format / 8) (zlen data)) as [Hdiv|Hdiv].
  - destruct (well_sized_units format data Hfmt) as (units & -> & Hu).
    { destruct Hfmt as [-> | ->]; split_and!; auto. }
    rewrite canonical_of_units by done. split; [done|]. split; [done|]. intros Hn. done.
  - assert (canonical_property_data data format order = finished None) as ->; [|done].
    unfold canonical_property_data. rewrite wide_format_not_8 by done.
    apply canonical_loop_ragged; try done; rewrite ?rest_of_reader_of;
      auto using reader_of_wf.
Qed.

Lemma canonical_property_data_total_witness :
  canonical_property_data [1; 2; 3] 16 little = finished None.
Proof.
  apply (proj2 (proj2 (canonical_property_data_total 16 little [1; 2; 3] (or_introl eq_refl)
    ltac:(forall_list)))).
  intros [k Hk]. change (zlen [1; 2; 3]) with 3 in Hk. change (16 / 8) with 2 in Hk. lia.
Defined.
