(* ===== verification/Atoms.v ===== *)
(** * The atom table

    Model of [src/src/server/atom_table.cpp] and
    [src/src/server/include/xmin/server/atom_table.hpp], together with the
    atom constants of the client headers
    ([src/src/client/x11/include/X11/Xatom.h]). *)
From S2P Require Import Prelude.
#[local] Open Scope string_scope.
#[local] Open Scope Z_scope.

Definition predefined_atoms : list string := [
  "PRIMARY"; "SECONDARY"; "ARC"; "ATOM"; "BITMAP"; "CARDINAL"; "COLORMAP"; "CURSOR";
  "CUT_BUFFER0"; "CUT_BUFFER1"; "CUT_BUFFER2"; "CUT_BUFFER3"; "CUT_BUFFER4"; "CUT_BUFFER5";
  "CUT_BUFFER6"; "CUT_BUFFER7"; "DRAWABLE"; "FONT"; "INTEGER"; "PIXMAP"; "POINT";
  "RECTANGLE"; "RESOURCE_MANAGER"; "RGB_COLOR_MAP"; "RGB_BEST_MAP"; "RGB_BLUE_MAP";
  "RGB_DEFAULT_MAP"; "RGB_GRAY_MAP"; "RGB_GREEN_MAP"; "RGB_RED_MAP"; "STRING"; "VISUALID";
  "WINDOW"; "WM_COMMAND"; "WM_HINTS"; "WM_CLIENT_MACHINE"; "WM_ICON_NAME"; "WM_ICON_SIZE";
  "WM_NAME"; "WM_NORMAL_HINTS"; "WM_SIZE_HINTS"; "WM_ZOOM_HINTS"; "MIN_SPACE";
  "NORM_SPACE"; "MAX_SPACE"; "END_SPACE"; "SUPERSCRIPT_X"; "SUPERSCRIPT_Y"; "SUBSCRIPT_X";
  "SUBSCRIPT_Y"; "UNDERLINE_POSITION"; "UNDERLINE_THICKNESS"; "STRIKEOUT_ASCENT";
  "STRIKEOUT_DESCENT"; "ITALIC_ANGLE"; "X_HEIGHT"; "QUAD_WIDTH"; "WEIGHT"; "POINT_SIZE";
  "RESOLUTION"; "COPYRIGHT"; "NOTICE"; "FONT_NAME"; "FAMILY_NAME"; "FULL_NAME";
  "CAP_HEIGHT"; "WM_CLASS"; "WM_TRANSIENT_FOR"].

(** The constants [XA_*] of the client SDK, by the name without the prefix. *)
Definition xatom_constants : list (string * Z) := [
  ("PRIMARY", 1); ("SECONDARY", 2); ("ARC", 3); ("ATOM", 4); ("BITMAP", 5);
  ("CARDINAL", 6); ("COLORMAP", 7); ("CURSOR", 8); ("CUT_BUFFER0", 9); ("CUT_BUFFER1", 10);
  ("CUT_BUFFER2", 11); ("CUT_BUFFER3", 12); ("CUT_BUFFER4", 13); ("CUT_BUFFER5", 14);
  ("CUT_BUFFER6", 15); ("CUT_BUFFER7", 16); ("DRAWABLE", 17); ("FONT", 18);
  ("INTEGER", 19); ("PIXMAP", 20); ("POINT", 21); ("RECTANGLE", 22);
  ("RESOURCE_MANAGER", 23); ("RGB_COLOR_MAP", 24); ("RGB_BEST_MAP", 25);
  ("RGB_BLUE_MAP", 26); ("RGB_DEFAULT_MAP", 27); ("RGB_GRAY_MAP", 28);
  ("RGB_GREEN_MAP", 29); ("RGB_RED_MAP", 30); ("STRING", 31); ("VISUALID", 32);
  ("WINDOW", 33); ("WM_COMMAND", 34); ("WM_HINTS", 35); ("WM_CLIENT_MACHINE", 36);
  ("WM_ICON_NAME", 37); ("WM_ICON_SIZE", 38); ("WM_NAME", 39); ("WM_NORMAL_HINTS", 40);
  ("WM_SIZE_HINTS", 41); ("WM_ZOOM_HINTS", 42); ("MIN_SPACE", 43); ("NORM_SPACE", 44);
  ("MAX_SPACE", 45); ("END_SPACE", 46); ("SUPERSCRIPT_X", 47); ("SUPERSCRIPT_Y", 48);
  ("SUBSCRIPT_X", 49); ("SUBSCRIPT_Y", 50); ("UNDERLINE_POSITION", 51);
  ("UNDERLINE_THICKNESS", 52); ("STRIKEOUT_ASCENT", 53); ("STRIKEOUT_DESCENT", 54);
  ("ITALIC_ANGLE", 55); ("X_HEIGHT", 56); ("QUAD_WIDTH", 57); ("WEIGHT", 58);
  ("POINT_SIZE", 59); ("RESOLUTION", 60); ("COPYRIGHT", 61); ("NOTICE", 62);
  ("FONT_NAME", 63); ("FAMILY_NAME", 64); ("FULL_NAME", 65); ("CAP_HEIGHT", 66);
  ("WM_CLASS", 67); ("WM_TRANSIENT_FOR", 68)].

#[local] Close Scope string_scope.

Definition XA_LAST_PREDEFINED : Z := 68.

Definition maximum_atoms : Z := 4096.

Record AtomTable := mkAtomTable {
  names_ : list string;
  ids_ : gmap string Z
}.

#[export] Instance AtomTable_eta : Eta AtomTable := fun t => mkAtomTable (names_ t) (ids_ t).

Definition table_size (t : AtomTable) : Z := zlen (names_ t) - 1.

Definition intern (name : string) (only_if_exists : bool) (t : AtomTable) : Z * AtomTable :=
  match ids_ t !! name with
  | Some found => (found, t)
  | None =>
      if only_if_exists then (0, t)
      else if table_size t >=? maximum_atoms then (0, t)
      else
        let id := u32 (zlen (names_ t)) in
        (id, t <| names_ := names_ t ++ [name] |> <| ids_ := <[name := id]> (ids_ t) |>)
  end.

Definition atom_name (atom : Z) (t : AtomTable) : option string :=
  if (atom =? 0) || (atom >=? zlen (names_ t)) then None
  else names_ t !! Z.to_nat atom.

(** The constructor interns the predefined atoms in order. *)
Definition initial_table : AtomTable :=
  foldl (fun t name => snd (intern name false t)) (mkAtomTable [""%string] ∅) predefined_atoms.

(** ** The invariant *)

(** Slot 0 is the placeholder of the atom [None]; [ids_] is the inverse of
    [names_] on the other slots; the table is not larger than its limit. *)
Record table_wf (t : AtomTable) : Prop := {
  wf_slot0 : names_ t !! 0%nat = Some ""%string;
  wf_limit : 0 <= table_size t <= maximum_atoms;
  wf_inverse : forall name id,
    ids_ t !! name = Some id <-> 0 < id /\ names_ t !! Z.to_nat id = Some name
}.

Lemma empty_table_wf : table_wf (mkAtomTable [""%string] ∅).
Proof.
  constructor; [done|by_computation|].
  intros name id. simpl. rewrite lookup_empty. split; [done|].
  intros [Hid Hl]. apply lookup_lt_Some in Hl. simpl in Hl. lia.
Qed.

Lemma table_wf_id_bound t name id :
  table_wf t -> ids_ t !! name = Some id -> 0 < id < zlen (names_ t).
Proof.
  intros Hwf Hid. apply (wf_inverse t Hwf) in Hid as [Hpos Hl].
  apply lookup_lt_Some in Hl. unfold zlen. lia.
Qed.

Lemma zlen_u32 t : table_wf t -> u32 (zlen (names_ t)) = zlen (names_ t).
Proof.
  intros Hwf. pose proof (wf_limit t Hwf). unfold table_size, maximum_atoms in *.
  apply wrap_id. unfold is_unsigned. lia.
Qed.

Lemma intern_wf name only t : table_wf t -> table_wf (snd (intern name only t)).
Proof.
  intros Hwf. unfold intern. destruct (ids_ t !! name) as [found|] eqn:Hf; [done|].
  destruct only; [done|].
  destruct (table_size t >=? maximum_atoms) eqn:Hfull; [done|]; bool_to_prop.
  rewrite zlen_u32 by done. pose proof (wf_limit t Hwf) as Hlim.
  unfold table_size, zlen in *. constructor; simpl.
  - rewrite lookup_app_l; [apply (wf_slot0 t Hwf)|]. lia.
  - unfold table_size, zlen. simpl. rewrite length_app. simpl. lia.
  - intros name' id. destruct (decide (name = name')) as [->|Hne].
    + rewrite lookup_insert_eq. split.
      * intros [= <-]. split; [lia|]. rewrite Nat2Z.id. by rewrite lookup_app_r, Nat.sub_diag by lia.
      * intros [Hpos Hl]. f_equal. apply lookup_app_Some in Hl as [Hl|[Hge Hl]].
        -- exfalso. assert (ids_ t !! name' = Some id) by (by apply (wf_inverse t Hwf)). congruence.
        -- apply list_lookup_singleton_Some in Hl as [Hl _]. lia.
    + rewrite lookup_insert_ne by done. rewrite (wf_inverse t Hwf). split.
      * intros [Hpos Hl]. split; [done|]. by apply lookup_app_l_Some.
      * intros [Hpos Hl]. split; [done|]. apply lookup_app_Some in Hl as [Hl|[Hge Hl]]; [done|].
        by apply list_lookup_singleton_Some in Hl as [_ ->].
Qed.

Lemma initial_table_wf : table_wf initial_table.
Proof.
  unfold initial_table. generalize empty_table_wf. generalize (mkAtomTable [""%string] ∅).
  induction predefined_atoms as [|name rest IH]; intros t Hwf; simpl; [done|].
  apply IH. by apply intern_wf.
Qed.

Lemma atom_name_ids t name id : table_wf t -> ids_ t !! name = Some id -> atom_name id t = Some name.
Proof.
  intros Hwf Hid. pose proof (table_wf_id_bound t name id Hwf Hid).
  apply (wf_inverse t Hwf) in Hid as [_ Hl]. unfold atom_name.
  destruct (Z.eqb_spec id 0); [lia|]. rewrite Z.geb_leb.
  destruct (Z.leb_spec (zlen (names_ t)) id); [lia|]. done.
Qed.

(** The states a server's table can be in. *)
Inductive reachable : AtomTable -> Prop :=
| reachable_init : reachable initial_table
| reachable_intern name only t : reachable t -> reachable (snd (intern name only t)).

Lemma reachable_wf t : reachable t -> table_wf t.
Proof. induction 1; [apply initial_table_wf|by apply intern_wf]. Qed.

(** ** Properties *)

(** A non-zero answer names the string, and no atom loses its name. *)
Lemma intern_named t name only :
  table_wf t ->
  let '(id, t') := intern name only t in
  (id <> 0 -> atom_name id t' = Some name) /\
  (forall a s, atom_name a t = Some s -> atom_name a t' = Some s).
Proof.
  intros Hwf. pose proof (intern_wf name only t Hwf) as Hwf'. unfold intern in *.
  destruct (ids_ t !! name) as [found|] eqn:Hf.
  { split; [by intros; apply atom_name_ids|done]. }
  destruct only; [done|].
  destruct (table_size t >=? maximum_atoms) eqn:Hfull; bool_to_prop; [done|].
  simpl in Hwf'. rewrite zlen_u32 in * by done. split.
  - intros _. apply atom_name_ids; [done|]. simpl. apply lookup_insert_eq.
  - intros a s Ha. unfold atom_name in *. simpl. rewrite zlen_app.
    destruct (Z.eqb_spec a 0); [done|]. simpl in *. rewrite Z.geb_leb in *.
    destruct (Z.leb_spec (zlen (names_ t)) a); [done|].
    destruct (Z.leb_spec (zlen (names_ t) + zlen [name]) a) as [Hge|].
    + rewrite zlen_cons in Hge. change (zlen []) with 0 in Hge. lia.
    + by apply lookup_app_l_Some.
Qed.

(** The answer 0. *)
Lemma intern_zero t name only :
  table_wf t ->
  fst (intern name only t) = 0 <->
  ids_ t !! name = None /\ (only = true \/ table_size t = maximum_atoms).
Proof.
  intros Hwf. unfold intern. destruct (ids_ t !! name) as [found|] eqn:Hf.
  { pose proof (table_wf_id_bound t name found Hwf Hf). simpl. split; [lia|by intros [? _]]. }
  pose proof (wf_limit t Hwf) as Hlim. destruct only; [simpl; tauto|].
  destruct (table_size t >=? maximum_atoms) eqn:Hfull; bool_to_prop; simpl.
  - split; [intros _; split; [done|right; lia]|done].
  - rewrite zlen_u32 by done. unfold table_size, zlen in *. split; [lia|].
    intros [_ [?|?]]; [done|lia].
Qed.

(** A non-zero answer is recorded in the index. *)
Lemma intern_known t name only :
  table_wf t -> fst (intern name only t) <> 0 ->
  ids_ (snd (intern name only t)) !! name = Some (fst (intern name only t)).
Proof.
  intros Hwf. unfold intern. destruct (ids_ t !! name) as [found|] eqn:Hf; [done|].
  destruct only; [done|]. destruct (_ >=? _); [done|]. intros _. apply lookup_insert_eq.
Qed.

(** C7: in every reachable table [intern] answers 0 exactly when the name
    is unknown and may not be added (only-if-exists, or 4096 atoms); otherwise
    its answer names the string, and every atom that already had a name keeps
    it. *)
Theorem intern_correct t name only :
  reachable t ->
  let '(id, t') := intern name only t in
  (id = 0 <-> ids_ t !! name = None /\ (only = true \/ table_size t = maximum_atoms)) /\
  (id <> 0 -> atom_name id t' = Some name) /\
  (forall a s, atom_name a t = Some s -> atom_name a t' = Some s) /\
  table_size t' <= maximum_atoms.
Proof.
  intros Hr. pose proof (reachable_wf t Hr) as Hwf.
  pose proof (intern_wf name only t Hwf) as Hwf'.
  pose proof (intern_named t name only Hwf) as Hn.
  pose proof (intern_zero t name only Hwf) as Hz.
  destruct (intern name only t) as [id t']. destruct Hn as [Hn Hkeep].
  simpl in *. pose proof (wf_limit _ Hwf') as [_ Hlim]. tauto.
Qed.

Lemma intern_correct_witness :
  let '(id, t') := intern "WM_PROTOCOLS" false initial_table in
  (id = 0 <-> ids_ initial_table !! "WM_PROTOCOLS"%string = None /\
     (false = true \/ table_size initial_table = maximum_atoms)) /\
  (id <> 0 -> atom_name id t' = Some "WM_PROTOCOLS"%string) /\
  (forall a s, atom_name a initial_table = Some s -> atom_name a t' = Some s) /\
  table_size t' <= maximum_atoms.
Proof. apply (intern_correct initial_table). constructor. Defined.

(** C8: atoms are identities: two names interned in a reachable table get
    the same non-zero atom exactly when they are the same string, so interning
    twice returns the same atom and changes nothing the second time. *)
Theorem intern_injective t n1 n2 o1 o2 :
  reachable t ->
  let '(a1, t1) := intern n1 o1 t in
  let '(a2, t2) := intern n2 o2 t1 in
  a1 <> 0 -> (a2 = a1 <-> n2 = n1) /\ (n2 = n1 -> t2 = t1).
Proof.
  intros Hr. pose proof (reachable_wf _ (reachable_intern n1 o1 t Hr)) as Hwf1.
  pose proof (intern_known t n1 o1 (reachable_wf t Hr)) as H1.
  destruct (intern n1 o1 t) as [a1 t1] eqn:E1. simpl in Hwf1.
  pose proof (intern_named t1 n2 o2 Hwf1) as H2.
  destruct (intern n2 o2 t1) as [a2 t2] eqn:E2. intros Ha1. simpl in H1. specialize (H1 Ha1).
  destruct H2 as [Hn2 Hkeep].
  assert (n2 = n1 -> (a2, t2) = (a1, t1)) as Hsame.
  { intros ->. rewrite <- E2. unfold intern. by rewrite H1. }
  split; [split|].
  - intros ->. specialize (Hn2 Ha1). pose proof (Hkeep _ _ (atom_name_ids t1 n1 a1 Hwf1 H1)). congruence.
  - intros Heq. by injection (Hsame Heq) as -> _.
  - intros Heq. by injection (Hsame Heq) as _ ->.
Qed.

Lemma intern_injective_witness :
  let '(a1, t1) := intern "PRIMARY" true initial_table in
  let '(a2, t2) := intern "SECONDARY" true t1 in
  a1 <> 0 -> (a2 = a1 <-> "SECONDARY"%string = "PRIMARY"%string) /\
             ("SECONDARY"%string = "PRIMARY"%string -> t2 = t1).
Proof. apply (intern_injective initial_table). constructor. Defined.

(** C9: the initial table gives every predefined atom the number that the
    [XA_*] constant of the client headers has, and has no other atom: its size
    is the number of the last predefined one. *)
Theorem predefined_atoms_match_client_headers :
  (forall name id, ids_ initial_table !! name = Some id <-> (name, id) ∈ xatom_constants) /\
  table_size initial_table = XA_LAST_PREDEFINED.
Proof.
  split; [|vm_compute; done].
  assert (ids_ initial_table = list_to_map xatom_constants) as -> by by_computation.
  intros name id. symmetry. apply elem_of_list_to_map. by_computation.
Qed.
