(* ===== verification/Color.v ===== *)
(** * Colour names and true-colour pixels

    Model of [src/src/server/color.cpp]. A character is its code, the
    unsigned value of the [char]; [isspace] and [tolower] are the [<cctype>]
    functions in the C locale. *)
From S2P Require Import Prelude.

Definition isspace (c : Z) : bool := ((9 <=? c) && (c <=? 13)) || (c =? 32).

Definition tolower (c : Z) : Z := if (65 <=? c) && (c <=? 90) then c + 32 else c.

Record RgbColor := mkRgb { red : Z; green : Z; blue : Z }.

Definition named_colors : list (list Z * RgbColor) :=
  map (fun '(n, c) => (codes n, c)) [
  ("black", mkRgb 0x0000 0x0000 0x0000);
  ("silver", mkRgb 0xc0c0 0xc0c0 0xc0c0);
  ("gray", mkRgb 0x8080 0x8080 0x8080);
  ("white", mkRgb 0xffff 0xffff 0xffff);
  ("maroon", mkRgb 0x8080 0x0000 0x0000);
  ("red", mkRgb 0xffff 0x0000 0x0000);
  ("purple", mkRgb 0x8080 0x0000 0x8080);
  ("fuchsia", mkRgb 0xffff 0x0000 0xffff);
  ("green", mkRgb 0x0000 0x8080 0x0000);
  ("lime", mkRgb 0x0000 0xffff 0x0000);
  ("olive", mkRgb 0x8080 0x8080 0x0000);
  ("yellow", mkRgb 0xffff 0xffff 0x0000);
  ("navy", mkRgb 0x0000 0x0000 0x8080);
  ("blue", mkRgb 0x0000 0x0000 0xffff);
  ("teal", mkRgb 0x0000 0x8080 0x8080);
  ("aqua", mkRgb 0x0000 0xffff 0xffff)]%string%Z.

(** One digit of the loop body: the shifted value, or the early return. *)
Definition hex_step (value digit : Z) : option Z :=
  let value := u16 (Z.shiftl value 4) in
  if (48 <=? digit) && (digit <=? 57) then Some (u16 (value + digit - 48))
  else if (97 <=? digit) && (digit <=? 102) then Some (u16 (value + digit - 97 + 10))
  else if (65 <=? digit) && (digit <=? 70) then Some (u16 (value + digit - 65 + 10))
  else None.

Fixpoint hex_digits (digits : list Z) (value : Z) : option Z :=
  match digits with
  | [] => Some value
  | digit :: rest =>
      match hex_step value digit with
      | Some value => hex_digits rest value
      | None => None
      end
  end.

Definition hex_component (digits : list Z) : option Z :=
  match hex_digits digits 0 with
  | None => None
  | Some value =>
      if zlen digits =? 1 then Some (u16 (value * 0x1111))
      else if zlen digits =? 2 then Some (u16 (value * 0x0101))
      else Some value
  end.

(** [name.substr(position, count)]. *)
Definition substr (name : list Z) (position count : Z) : list Z :=
  take (Z.to_nat count) (drop (Z.to_nat position) name).

Definition lookup_color (normalized : list Z) : option RgbColor :=
  snd <$> List.find (fun '(n, _) => bool_decide (n = normalized)) named_colors.

Definition parse_color (name : list Z) : option RgbColor :=
  if bool_decide (head name = Some 35) &&
     ((zlen name =? 4) || (zlen name =? 7) || (zlen name =? 13))
  then
    let digits := (zlen name - 1) / 3 in
    match hex_component (substr name 1 digits),
          hex_component (substr name (1 + digits) digits),
          hex_component (substr name (1 + digits * 2) digits) with
    | Some r, Some g, Some b => Some (mkRgb r g b)
    | _, _, _ => None
    end
  else
    let normalized := map tolower (List.filter (fun c => negb (isspace c)) name) in
    let normalized :=
      if bool_decide (normalized = codes "grey") then codes "gray" else normalized in
    lookup_color normalized.

Definition true_color_pixel (color : RgbColor) : Z :=
  Z.lor (Z.lor (Z.shiftl (Z.shiftr (red color) 8) 16) (Z.shiftl (Z.shiftr (green color) 8) 8))
        (Z.shiftr (blue color) 8).

Definition true_color_rgb (pixel : Z) : RgbColor :=
  let red := u16 (Z.land (Z.shiftr pixel 16) 0xff) in
  let green := u16 (Z.land (Z.shiftr pixel 8) 0xff) in
  let blue := u16 (Z.land pixel 0xff) in
  mkRgb (u16 (red * 0x0101)) (u16 (green * 0x0101)) (u16 (blue * 0x0101)).

(** ** Hexadecimal components *)

Definition is_hex (c : Z) : bool :=
  ((48 <=? c) && (c <=? 57)) || ((97 <=? c) && (c <=? 102)) || ((65 <=? c) && (c <=? 70)).

Definition hex_value (c : Z) : Z :=
  if c <=? 57 then c - 48 else if c <=? 70 then c - 55 else c - 87.

(** The numeral a digit string denotes. *)
Definition numeral (digits : list Z) : Z := foldl (fun v c => 16 * v + hex_value c) 0 digits.

Lemma hex_step_spec v c : 0 <= v < 2 ^ 12 ->
  hex_step v c = if is_hex c then Some (16 * v + hex_value c) else None.
Proof.
  intros Hv. unfold hex_step, is_hex, hex_value.
  rewrite (wrap_id 16 (Z.shiftl v 4)) by (unfold is_unsigned; rewrite Z.shiftl_mul_pow2; lia).
  rewrite Z.shiftl_mul_pow2 by lia. change (2 ^ 4) with 16.
  destruct (Z.leb_spec 48 c), (Z.leb_spec c 57), (Z.leb_spec 97 c), (Z.leb_spec c 102),
    (Z.leb_spec 65 c), (Z.leb_spec c 70); simpl; try lia; try done;
    f_equal; rewrite wrap_id; unfold is_unsigned; lia.
Qed.

Lemma hex_value_range c : is_hex c = true -> 0 <= hex_value c < 16.
Proof.
  unfold is_hex, hex_value. intros H. bool_to_prop.
  destruct (Z.leb_spec c 57), (Z.leb_spec c 70);
    destruct H as [H|H]; bool_to_prop; try lia; destruct H as [H|H]; bool_to_prop; lia.
Qed.

Lemma hex_digits_spec digits : forall v, 0 <= v < 16 ^ (4 - zlen digits) -> zlen digits <= 4 ->
  hex_digits digits v =
    if forallb is_hex digits
    then Some (foldl (fun v c => 16 * v + hex_value c) v digits) else None.
Proof.
  induction digits as [|c rest IH]; intros v Hv Hl; simpl; [done|].
  rewrite zlen_cons in *. pose proof (zlen_nonneg rest).
  assert (16 ^ (4 - (zlen rest + 1)) <= 16 ^ 3) by (apply Z.pow_le_mono_r; lia).
  rewrite hex_step_spec by lia. destruct (is_hex c) eqn:Hc; simpl; [|done].
  rewrite IH; [done| |lia]. pose proof (hex_value_range c Hc).
  replace (4 - zlen rest) with (Z.succ (4 - (zlen rest + 1))) by lia.
  rewrite Z.pow_succ_r by lia. lia.
Qed.

(** The scale that stretches an [n]-digit numeral to 16 bits. *)
Definition hex_scale (n : Z) : Z := if n =? 1 then 0x1111 else if n =? 2 then 0x0101 else 1.

Lemma numeral_range digits : forallb is_hex digits = true ->
  0 <= numeral digits < 16 ^ zlen digits.
Proof.
  induction digits as [|c rest IH] using rev_ind; intros Hf; [done|].
  rewrite forallb_app in Hf. simpl in Hf. bool_to_prop.
  specialize (IH H). unfold numeral in *. rewrite foldl_app, zlen_app. simpl.
  pose proof (hex_value_range c ltac:(done)).
  change (zlen [c]) with 1. rewrite Z.pow_add_r by (pose proof (zlen_nonneg rest); lia). lia.
Qed.

(** C10: a colour component of one, two or four hexadecimal digits is read
    as its numeral stretched to the full 16-bit range, so that all-F digits
    give 65535, and any other character makes the component invalid. *)
Theorem hex_component_exact digits :
  zlen digits = 1 \/ zlen digits = 2 \/ zlen digits = 4 ->
  hex_component digits =
    (if forallb is_hex digits then Some (numeral digits * hex_scale (zlen digits)) else None) /\
  (forallb is_hex digits = true ->
     is_unsigned 16 (numeral digits * hex_scale (zlen digits)) /\
     (numeral digits = 16 ^ zlen digits - 1 -> hex_component digits = Some 0xffff)).
Proof.
  intros Hl. unfold hex_component.
  rewrite hex_digits_spec by (destruct Hl as [->|[->| ->]]; by_computation || lia).
  fold (numeral digits). destruct (forallb is_hex digits) eqn:Hf; [|done].
  pose proof (numeral_range digits Hf) as Hr. unfold hex_scale, is_unsigned.
  destruct Hl as [Hl|[Hl|Hl]]; rewrite Hl in *;
    [change (16 ^ 1) with 16 in *|change (16 ^ 2) with 256 in *|change (16 ^ 4) with 65536 in *];
    cbn -[Z.mul Z.sub] in *; change (2 ^ 16) with 65536; rewrite ?Z.mul_1_r.
  all: (split; [f_equal; try (apply wrap_id; unfold is_unsigned; change (2 ^ 16) with 65536; lia)|]).
  all: intros _; split; [lia|intros ->]; done.
Qed.

Lemma hex_component_exact_witness :
  hex_component (codes "fF") = Some 0xffff /\ hex_component (codes "g") = None.
Proof.
  split.
  - destruct (hex_component_exact (codes "fF")) as [_ H]; [by right; left|].
    by apply H.
  - destruct (hex_component_exact (codes "g")) as [-> _]; [by left|]. done.
Defined.

(** ** True colour *)

Lemma byte_scale b : 0 <= b < 256 -> Z.shiftr (u16 (b * 0x0101)) 8 = b.
Proof.
  intros Hb. rewrite wrap_id by (unfold is_unsigned; lia).
  rewrite Z.shiftr_div_pow2 by lia. change (2 ^ 8) with 256. Z.div_mod_to_equations. lia.
Qed.

Lemma land_255 z : Z.land z 255 = z mod 256.
Proof. apply (Z.land_ones z 8). lia. Qed.

(** A pixel survives the trip through its 16-bit colour, and so does every
    colour that comes from a pixel. *)
Lemma true_color_roundtrip pixel : true_color_pixel (true_color_rgb pixel) = pixel mod 2 ^ 24.
Proof.
  unfold true_color_pixel, true_color_rgb. cbn [red green blue]. rewrite !land_255.
  assert (forall z, 0 <= z mod 256 < 256) as Hm by (intros; apply Z.mod_pos_bound; lia).
  assert (forall z, u16 (z mod 256) = z mod 256) as Hu.
  { intros z. apply wrap_id. unfold is_unsigned. specialize (Hm z). lia. }
  rewrite !Hu, !byte_scale by auto.
  change 256 with (2 ^ 8). rewrite <- !Z.land_ones by lia.
  apply Z.bits_inj'. intros i Hi.
  rewrite !Z.lor_spec, !Z.shiftl_spec, !Z.land_spec by lia.
  destruct (Z.ltb_spec i 8).
  { rewrite !(Z.testbit_neg_r _ (i - _)) by lia. rewrite !Z.ones_spec_low by lia. done. }
  rewrite (Z.ones_spec_high 8 i), andb_false_r, orb_false_r by lia.
  rewrite (Z.shiftr_spec pixel 8) by lia. replace (i - 8 + 8) with i by lia.
  destruct (Z.ltb_spec i 16).
  { rewrite !(Z.testbit_neg_r _ (i - 16)) by lia. rewrite !Z.ones_spec_low by lia. done. }
  rewrite (Z.ones_spec_high 8 (i - 8)), andb_false_r, orb_false_r by lia.
  rewrite (Z.shiftr_spec pixel 16) by lia. replace (i - 16 + 16) with i by lia.
  destruct (Z.ltb_spec i 24); [rewrite !Z.ones_spec_low by lia|rewrite !Z.ones_spec_high by lia]; done.
Qed.
