(* ===== verification/Font.v ===== *)
(** * Font names and glyph lookup

    Model of [src/src/server/font.cpp]: the wildcard matcher of font names
    with its backtracking loop, the search over the embedded fonts and glyph
    lookup. Names are lists of character codes. The glyph tables of
    [generated/core_fonts.hpp] are parameters. *)
From S2P Require Import Prelude.
From S2P Require Import Color.

Definition star_code : Z := 42.

Definition question_code : Z := 63.

Definition fold (value : Z) : Z := tolower value.

(** ** The matcher *)

(** The locals of [matches]; [star = None] is [npos]. *)
Record MatchState := mkMatchState {
  pattern_index : nat;
  value_index : nat;
  star : option nat;
  retry : nat
}.

(** The test of the first branch: the pattern character is a question mark or
    folds to the value's. *)
Definition accepts (p c : Z) : bool := (p =? question_code) || (fold p =? fold c).

(** One turn of the loop: the next state, or the early [return false]. *)
Definition match_step (pattern value : list Z) (s : MatchState) : option MatchState :=
  let current := pattern !! pattern_index s in
  let character := default 0 (value !! value_index s) in
  if match current with Some p => accepts p character | None => false end then
    Some (mkMatchState (S (pattern_index s)) (S (value_index s)) (star s) (retry s))
  else if match current with Some p => p =? star_code | None => false end then
    Some (mkMatchState (S (pattern_index s)) (value_index s)
            (Some (pattern_index s)) (value_index s))
  else match star s with
  | Some star_index =>
      Some (mkMatchState (S star_index) (S (retry s)) (star s) (S (retry s)))
  | None => None
  end.

Fixpoint match_loop (fuel : nat) (pattern value : list Z) (s : MatchState)
    : run (option MatchState) :=
  if (value_index s <? length value)%nat then
    match fuel with
    | O => out_of_fuel
    | S fuel =>
        match match_step pattern value s with
        | Some s' => match_loop fuel pattern value s'
        | None => finished None
        end
    end
  else finished (Some s).

(** The loop that skips trailing stars. *)
Fixpoint skip_stars (rest : list Z) : list Z :=
  match rest with
  | p :: rest' => if p =? star_code then skip_stars rest' else rest
  | [] => []
  end.

Definition initial_match : MatchState := mkMatchState 0 0 None 0.

Definition match_fuel (pattern value : list Z) : nat :=
  (S (length value) * S (length pattern))%nat.

Definition matches (pattern value : list Z) : run bool :=
  match match_loop (match_fuel pattern value) pattern value initial_match with
  | out_of_fuel => out_of_fuel
  | finished None => finished false
  | finished (Some s) =>
      finished (match skip_stars (drop (pattern_index s) pattern) with
                | [] => true
                | _ :: _ => false
                end)
  end.

(** ** Fonts *)

Record EmbeddedGlyph := mkGlyph {
  glyph_left : Z; glyph_right : Z; glyph_width : Z; glyph_ascent : Z; glyph_descent : Z;
  row_offset : Z; row_count : Z
}.

Record EmbeddedFont := mkFont {
  canonical_name : list Z;
  alias : list Z;
  minimum_character : Z;
  maximum_character : Z;
  default_character : Z;
  all_characters_exist : bool;
  font_ascent : Z;
  font_descent : Z;
  glyphs : list EmbeddedGlyph;
  rows : list Z;
  encoding : list Z;
  defined : list Z
}.

(** The extra names of the fixed font. *)
Definition compatible_names : list (list Z) :=
  map codes ["5x7"; "6x10"; "6x13"; "7x13"; "8x13"; "9x15"; "10x20"; "12x24"]%string.

Definition fixed_xlfd_names : list (list Z) :=
  map codes
    ["-misc-fixed-medium-r-semicondensed--13-100-100-100-c-60-iso8859-1";
     "-adobe-courier-medium-r-normal--10-100-75-75-m-60-iso8859-1"]%string.

Definition run_true (r : run bool) : bool :=
  match r with
  | finished b => b
  | out_of_fuel => false
  end.

(** [is_fixed] is the address test [&font == &generated::fixed_font]. *)
Definition matches_font (pattern : list Z) (font : EmbeddedFont) (is_fixed : bool) : bool :=
  if run_true (matches pattern (alias font)) || run_true (matches pattern (canonical_name font))
  then true
  else if is_fixed then
    if existsb (fun name => run_true (matches pattern name)) compatible_names then true
    else existsb (fun name => run_true (matches pattern name)) fixed_xlfd_names
  else false.

Definition font_code (font : EmbeddedFont) (character : Z) : Z :=
  if character <=? 0xff then character else default_character font.

(** [default] covers the reads outside the table, which [font_tables_ok]
    excludes. *)
Definition font_glyph (font : EmbeddedFont) (character : Z) : option EmbeddedGlyph :=
  let index := default 0 (encoding font !! Z.to_nat (font_code font character)) in
  glyphs font !! Z.to_nat (if index <? zlen (glyphs font) then index else 0).

Definition font_character_exists (font : EmbeddedFont) (character : Z) : bool :=
  (character <=? 0xff) &&
  negb (default 0 (defined font !! Z.to_nat character) =? 0).

Definition glyph_row (font : EmbeddedFont) (glyph : EmbeddedGlyph) (row : Z) : option Z :=
  if row <? row_count glyph
  then rows font !! Z.to_nat (u32 (row_offset glyph + row))
  else Some 0.

Section EmbeddedFonts.
Variables fixed_glyphs cursor_glyphs : list EmbeddedGlyph.
Variables fixed_rows cursor_rows fixed_encoding cursor_encoding fixed_defined cursor_defined : list Z.

Definition fixed_font : EmbeddedFont :=
  mkFont (codes "-misc-fixed-medium-r-semicondensed--13-120-75-75-c-60-iso8859-1")
    (codes "fixed") 0 255 0 false 11 2 fixed_glyphs fixed_rows fixed_encoding fixed_defined.

Definition cursor_font : EmbeddedFont :=
  mkFont (codes "cursor") (codes "cursor") 0 153 0 true 16 17
    cursor_glyphs cursor_rows cursor_encoding cursor_defined.

Definition fonts : list (EmbeddedFont * bool) := [(fixed_font, true); (cursor_font, false)].

Definition find_font (pattern : list Z) : option EmbeddedFont :=
  fst <$> List.find (fun font => matches_font pattern font.1 font.2) fonts.

Fixpoint list_fonts_from (pattern : list Z) (maximum : Z) (candidates : list (EmbeddedFont * bool))
    (result : list EmbeddedFont) : list EmbeddedFont :=
  match candidates with
  | [] => result
  | font :: rest =>
      if zlen result =? maximum then result
      else if matches_font pattern font.1 font.2
      then list_fonts_from pattern maximum rest (result ++ [font.1])
      else list_fonts_from pattern maximum rest result
  end.

Definition list_fonts (pattern : list Z) (maximum : Z) : list EmbeddedFont :=
  list_fonts_from pattern maximum fonts [].
End EmbeddedFonts.

(** ** What a pattern means

    The core protocol's definition: a question mark stands for any one
    character, a star for any number of characters, and every other character
    for itself without regard to case. *)
Inductive glob : list Z -> list Z -> Prop :=
| glob_nil : glob [] []
| glob_any p c v : glob p v -> glob (question_code :: p) (c :: v)
| glob_star_skip p v : glob p v -> glob (star_code :: p) v
| glob_star_take p c v : glob (star_code :: p) v -> glob (star_code :: p) (c :: v)
| glob_char a c p v : a <> star_code -> fold a = fold c -> glob p v -> glob (a :: p) (c :: v).

Definition no_star (v : list Z) : Prop := Forall (fun c => c <> star_code) v.

(** ** Correctness of the loop *)

Lemma fold_star c : fold c = fold star_code -> c = star_code.
Proof.
  unfold fold, tolower, star_code. simpl. destruct (_ && _) eqn:E; bool_to_prop; lia.
Qed.

Lemma glob_star p v : glob (star_code :: p) v <-> exists k, glob p (drop k v).
Proof.
  split.
  - intros H. remember (star_code :: p) as q eqn:Hq. revert p Hq.
    induction H as [| |q v H IH|q c v H IH|]; intros p' Hq; simplify_eq.
    + by exists 0%nat.
    + destruct (IH p' eq_refl) as [k Hk]. by exists (S k).
  - intros [k Hk]. revert v Hk. induction k as [|k IH]; intros v Hk.
    + by apply glob_star_skip.
    + destruct v as [|c v]; [by apply glob_star_skip|].
      apply glob_star_take. by apply IH.
Qed.

Lemma glob_literal a p v :
  a <> star_code ->
  glob (a :: p) v <-> exists c v', v = c :: v' /\ accepts a c = true /\ glob p v'.
Proof.
  intros Ha. unfold accepts. split.
  - intros H. inversion H; simplify_eq; do 2 eexists; (split; [done|]).
    + by rewrite Z.eqb_refl.
    + split; [|done]. apply orb_true_iff. right. by apply Z.eqb_eq.
  - intros (c & v' & -> & Hacc & H). bool_to_prop. destruct Hacc as [Hq|Hf]; bool_to_prop.
    + subst. by apply glob_any.
    + by apply glob_char.
Qed.

Lemma glob_nil_value p : glob p [] <-> skip_stars p = [].
Proof.
  induction p as [|a p IH]; simpl; [split; [done|]; intros; apply glob_nil|].
  destruct (Z.eqb_spec a star_code) as [->|Ha].
  - rewrite glob_star, <- IH. split; [intros [k Hk]; by rewrite drop_nil in Hk|].
    intros H. by exists 0%nat.
  - rewrite glob_literal by done. split; [intros (? & ? & ? & _); done|done].
Qed.

Lemma glob_nil_pattern v : glob [] v <-> v = [].
Proof. split; [by inversion 1|intros ->; apply glob_nil]. Qed.

(** A pattern that starts with [n] literals consumes [n] characters before
    the rest. *)
Lemma glob_segment n : forall p v,
  Forall (fun a => a <> star_code) (take n p) -> (n <= length p)%nat ->
  glob p v -> (n <= length v)%nat /\ glob (drop n p) (drop n v).
Proof.
  induction n as [|n IH]; intros p v Hl Hn Hg; [split; [lia|done]|].
  destruct p as [|a p]; simpl in *; [lia|]. apply Forall_cons in Hl as [Ha Hl].
  apply glob_literal in Hg as (c & v' & -> & _ & Hg); [|done]. simpl.
  destruct (IH p v' Hl) as [? ?]; [lia|done|]. split; [lia|done].
Qed.

(** The alternative the recorded star still offers. *)
Definition star_offers (pattern value : list Z) (s : MatchState) : Prop :=
  exists i k, star s = Some i /\ (retry s < k)%nat /\
    glob (drop (S i) pattern) (drop k value).

(** The loop invariant: indices in range, and since the recorded star only
    literals were matched, one per character. *)
Record match_ok (pattern value : list Z) (s : MatchState) : Prop := {
  ok_pattern : (pattern_index s <= length pattern)%nat;
  ok_value : (value_index s <= length value)%nat;
  ok_retry : (retry s <= value_index s)%nat;
  ok_star : forall i, star s = Some i ->
    (S i <= pattern_index s)%nat /\
    (pattern_index s - S i = value_index s - retry s)%nat /\
    Forall (fun a => a <> star_code) (take (pattern_index s - S i) (drop (S i) pattern))
}.

(** What the loop preserves: the pattern matches from the current indices or
    from a later retry of the star. *)
Definition match_goal (pattern value : list Z) (s : MatchState) : Prop :=
  glob (drop (pattern_index s) pattern) (drop (value_index s) value) \/
  star_offers pattern value s.

(** The star's alternatives all lie past the current segment. *)
Lemma star_offers_segment pattern value s :
  match_ok pattern value s -> star_offers pattern value s ->
  exists k, (value_index s < k)%nat /\
    glob (drop (pattern_index s) pattern) (drop k value).
Proof.
  intros [Hp Hv Hr Hs] (i & k & Hi & Hk & Hg). destruct (Hs i Hi) as (Hle & Hlen & Hlit).
  apply (glob_segment (pattern_index s - S i)) in Hg as [Hn Hrest];
    [|done|rewrite length_drop; lia].
  rewrite !drop_drop in Hrest.
  exists (k + (pattern_index s - S i))%nat. split; [lia|].
  by replace (S i + (pattern_index s - S i))%nat with (pattern_index s) in Hrest by lia.
Qed.

Lemma accepts_star c : accepts star_code c = true -> c = star_code.
Proof.
  unfold accepts. intros H. bool_to_prop. destruct H as [H|H]; bool_to_prop; [done|].
  by apply fold_star.
Qed.

(** Backtracking to the star when the current alternative fails. *)
Lemma backtrack_spec pattern value s i :
  match_ok pattern value s -> (value_index s < length value)%nat -> star s = Some i ->
  ~ glob (drop (pattern_index s) pattern) (drop (value_index s) value) ->
  match_ok pattern value (mkMatchState (S i) (S (retry s)) (Some i) (S (retry s))) /\
  (match_goal pattern value s <->
   match_goal pattern value (mkMatchState (S i) (S (retry s)) (Some i) (S (retry s)))).
Proof.
  intros [Hp Hv Hr Hs] Hlt Hi Hno. destruct (Hs i Hi) as (Hle & _ & _). split.
  - split; simpl; [lia..|]. intros ? [= <-]. split_and!; [lia|lia|].
    rewrite Nat.sub_diag. constructor.
  - unfold match_goal, star_offers. rewrite Hi. simpl. split.
    + intros [?|(? & k & [= <-] & Hk & Hg)]; [done|].
      destruct (decide (k = S (retry s))) as [->|]; [by left|].
      right. exists i, k. split_and!; [done|lia|done].
    + right. destruct H as [Hg|(? & k & [= <-] & Hk & Hg)].
      * exists i, (S (retry s)). split_and!; [done|lia|done].
      * exists i, k. split_and!; [done|lia|done].
Qed.

(** One turn keeps the invariant and the goal; refusing refutes the goal. *)
Lemma match_step_spec pattern value s :
  no_star value -> match_ok pattern value s -> (value_index s < length value)%nat ->
  match match_step pattern value s with
  | Some s' => match_ok pattern value s' /\ (match_goal pattern value s <-> match_goal pattern value s')
  | None => ~ match_goal pattern value s
  end.
Proof.
  intros Hns Hok Hlt. pose proof Hok as [Hp Hv Hr Hs].
  destruct (lookup_lt_is_Some_2 value (value_index s) Hlt) as [c Hc].
  assert (c <> star_code) as Hcs by (eapply Forall_lookup_1 in Hns; done).
  unfold match_step. rewrite Hc. simpl.
  destruct (pattern !! pattern_index s) as [p|] eqn:Hpi.
  2: { (* the pattern is exhausted *)
    assert (drop (pattern_index s) pattern = []) as Hnil
      by (apply drop_ge, lookup_ge_None; done).
    destruct (star s) as [i|] eqn:Hstar.
    - apply backtrack_spec with (i := i); [done..|]. rewrite Hnil, glob_nil_pattern.
      rewrite (drop_S _ _ _ Hc). done.
    - intros [Hg|(i & k & Hi & _)]; [|congruence].
      rewrite Hnil, (drop_S _ _ _ Hc), glob_nil_pattern in Hg. done. }
  pose proof (lookup_lt_Some _ _ _ Hpi) as Hplt.
  destruct (accepts p c) eqn:Hacc.
  { (* consume one character *)
    assert (p <> star_code) as Hps by (intros ->; by apply accepts_star in Hacc).
    split.
    - split; simpl; [lia|lia|lia|]. intros i Hi. destruct (Hs i Hi) as (? & ? & Hlit).
      split_and!; [lia|lia|].
      replace (pattern_index s - i)%nat with (S (pattern_index s - S i)) by lia.
      rewrite (take_S_r _ _ p).
      + apply Forall_app_2; [done|]. by constructor.
      + rewrite lookup_drop. by replace (S i + (pattern_index s - S i))%nat with (pattern_index s) by lia.
    - unfold match_goal, star_offers. simpl. rewrite (drop_S _ _ _ Hpi), (drop_S _ _ _ Hc).
      rewrite glob_literal by done. split.
      + intros [(c' & v' & Heq & _ & Hg)|Ho]; [left; by simplify_eq|by right].
      + intros [Hg|Ho]; [left; eauto|by right]. }
  destruct (Z.eqb_spec p star_code) as [->|Hps].
  { (* record the star *)
    split.
    - split; simpl; [lia..|]. intros i [= <-]. split_and!; [lia|lia|].
      rewrite Nat.sub_diag. constructor.
    - assert (match_goal pattern value (mkMatchState (S (pattern_index s)) (value_index s)
          (Some (pattern_index s)) (value_index s)) <->
        exists k, glob (drop (S (pattern_index s)) pattern) (drop k (drop (value_index s) value))) as Hnew.
      { unfold match_goal, star_offers. simpl. split.
        - intros [Hg|(i & k & [= <-] & Hk & Hg)]; [by exists 0%nat|].
          exists (k - value_index s)%nat. rewrite drop_drop.
          by replace (value_index s + (k - value_index s))%nat with k by lia.
        - intros [[|k] Hk]; [by left|]. right. exists (pattern_index s), (value_index s + S k)%nat.
          rewrite drop_drop in Hk. split_and!; [done|lia|done]. }
      rewrite Hnew, <- glob_star. unfold match_goal. rewrite (drop_S _ _ _ Hpi). split; [|by left].
      intros [Hg|Ho]; [done|].
      destruct (star_offers_segment _ _ _ Hok Ho) as (k & Hk & Hg).
      rewrite (drop_S _ _ _ Hpi), glob_star in Hg. destruct Hg as [k' Hg].
      apply glob_star. exists (k - value_index s + k')%nat.
      rewrite drop_drop in Hg |- *.
      by replace (value_index s + (k - value_index s + k'))%nat with (k + k')%nat by lia. }
  assert (~ glob (drop (pattern_index s) pattern) (drop (value_index s) value)) as Hno.
  { rewrite (drop_S _ _ _ Hpi), (drop_S _ _ _ Hc), glob_literal by done.
    intros (c' & v' & Heq & Hacc' & _). simplify_eq. congruence. }
  destruct (star s) as [i|] eqn:Hstar.
  - by apply backtrack_spec with (i := i).
  - intros [Hg|(i & k & Hi & _)]; [done|congruence].
Qed.


(** The measure that bounds the loop. *)
Definition match_measure (pattern value : list Z) (s : MatchState) : nat :=
  ((length value - match star s with None => 0 | Some _ => retry s end) * S (length pattern) +
   (length pattern - pattern_index s))%nat.

Lemma measure_backtrack v r p i q : (r < v)%nat ->
  ((v - S r) * S p + (p - i) < (v - r) * S p + q)%nat.
Proof.
  intros. replace (v - r)%nat with (S (v - S r)) by lia. rewrite Nat.mul_succ_l.
  generalize ((v - S r) * S p)%nat. lia.
Qed.

Lemma match_step_measure pattern value s s' :
  match_ok pattern value s -> (value_index s < length value)%nat ->
  match_step pattern value s = Some s' ->
  (match_measure pattern value s' < match_measure pattern value s)%nat.
Proof.
  intros [Hp Hv Hr Hs] Hlt. unfold match_step, match_measure.
  destruct (pattern !! pattern_index s) as [p|] eqn:Hpi;
    [pose proof (lookup_lt_Some _ _ _ Hpi)|].
  - destruct (accepts _ _); [intros [= <-]; cbn [star retry pattern_index]; lia|].
    destruct (p =? star_code).
    + intros [= <-]. cbn [star retry pattern_index].
      assert (forall a b n, (b <= a)%nat -> (b * n <= a * n)%nat) as Hmono
        by (intros; by apply Nat.mul_le_mono_r).
      pose proof (Hmono (length value - match star s with None => 0 | Some _ => retry s end)%nat
        (length value - value_index s)%nat (S (length pattern))) as Hle.
      destruct (star s); lia.
    + destruct (star s) eqn:E; [|done]. intros [= <-]. cbn [star retry pattern_index].
      apply measure_backtrack; lia.
  - destruct (star s) eqn:E; [|done]. intros [= <-]. cbn [star retry pattern_index].
    apply measure_backtrack; lia.
Qed.

Lemma match_loop_spec pattern value : no_star value -> forall fuel s,
  match_ok pattern value s -> (match_measure pattern value s < fuel)%nat ->
  exists r, match_loop fuel pattern value s = finished r /\
    match r with
    | None => ~ match_goal pattern value s
    | Some s' => match_ok pattern value s' /\ value_index s' = length value /\
        (match_goal pattern value s <-> match_goal pattern value s')
    end.
Proof.
  intros Hns. induction fuel as [|fuel IH]; intros s Hok Hm; [lia|]. simpl.
  destruct (Nat.ltb_spec (value_index s) (length value)) as [Hlt|Hge].
  2: { eexists. split; [done|]. simpl. pose proof (ok_value _ _ _ Hok). split_and!; [done|lia|done]. }
  pose proof (match_step_spec pattern value s Hns Hok Hlt) as Hstep.
  destruct (match_step pattern value s) as [s1|] eqn:E; [|by eexists].
  destruct Hstep as [Hok1 Hg]. pose proof (match_step_measure _ _ _ _ Hok Hlt E).
  destruct (IH s1 Hok1) as (r & Hr & Hspec); [lia|]. exists r. split; [done|].
  destruct r as [s2|]; rewrite Hg; done.
Qed.

Lemma match_goal_end pattern value s :
  match_ok pattern value s -> value_index s = length value ->
  match_goal pattern value s <-> skip_stars (drop (pattern_index s) pattern) = [].
Proof.
  intros Hok He. rewrite <- glob_nil_value. unfold match_goal. rewrite He, drop_all. split.
  - intros [?|Ho]; [done|]. destruct (star_offers_segment _ _ _ Hok Ho) as (k & Hk & Hg).
    by rewrite (drop_ge value) in Hg by lia.
  - by left.
Qed.

(** C13: the wildcard matcher terminates on every pattern and name and, for
    every name without a star, answers true exactly when the pattern matches
    it in the sense of the core protocol, however the stars backtrack. *)
Theorem matches_correct pattern value :
  no_star value ->
  exists answer, matches pattern value = finished answer /\
    (answer = true <-> glob pattern value).
Proof.
  intros Hns.
  assert (match_ok pattern value initial_match) as Hok by (split; simpl; [lia..|done]).
  assert (match_goal pattern value initial_match <-> glob pattern value) as Hgoal.
  { unfold match_goal, star_offers. simpl. split; [|by left].
    by intros [?|(? & ? & ? & _)]. }
  unfold matches. destruct (match_loop_spec pattern value Hns
    (match_fuel pattern value) initial_match Hok) as (r & -> & Hr).
  { unfold match_measure, match_fuel. simpl. nia. }
  destruct r as [s|].
  - destruct Hr as (Hok' & He & Hg). rewrite (match_goal_end _ _ _ Hok' He), Hgoal in Hg.
    eexists. split; [done|]. rewrite Hg. by destruct (skip_stars _).
  - eexists. split; [done|]. by rewrite Hgoal in Hr.
Qed.

Lemma matches_correct_witness :
  no_star (codes "-misc-fixed-bold-fixed") /\
  exists answer, matches (codes "-*-FIXED-*fix??") (codes "-misc-fixed-bold-fixed") = finished answer /\
    (answer = true <-> glob (codes "-*-FIXED-*fix??") (codes "-misc-fixed-bold-fixed")).
Proof.
  assert (no_star (codes "-misc-fixed-bold-fixed")) as H by by_computation.
  split; [exact H|]. exact (matches_correct _ _ H).
Defined.

(** The hypothesis on the name is needed: the literal branch is tried before
    the star branch, so a star in the pattern is consumed by a star of the
    name and never retried. *)
Lemma star_taken_literally :
  glob (codes "*") (codes "*a") /\ matches (codes "*") (codes "*a") = finished false.
Proof.
  split; [|by vm_compute]. apply glob_star. by exists 2%nat; constructor.
Qed.
