(* ===== verification/Resources.v ===== *)
(** * The resource registry

    Model of [src/src/server/include/xmin/server/resource_registry.hpp] and of
    the registry operations of [ServerState] that wrap it: every X resource
    identifier of the server is registered here with its kind and owner. *)
From S2P Require Import Prelude.

Inductive ResourceKind :=
  | window | pixmap | graphics_context | colormap | sync_counter | sync_alarm
  | sync_fence | render_picture | render_glyph_set | cursor | xfixes_region
  | xfixes_barrier | damage | present_event | shared_memory | font | dbe_buffer
  | glx_context | glx_drawable.

#[export] Instance ResourceKind_eq_dec : EqDecision ResourceKind.
Proof. solve_decision. Defined.

Record ResourceRecord := mkResource { kind : ResourceKind; owner : Z }.

Definition ResourceRegistry := gmap Z ResourceRecord.

Implicit Types r : gmap Z ResourceRecord.

Definition insert_resource (id : Z) (k : ResourceKind) (o : Z) (r : gmap Z ResourceRecord)
    : bool * gmap Z ResourceRecord :=
  if id =? 0 then (false, r)
  else match r !! id with
       | Some _ => (false, r)
       | None => (true, <[id := mkResource k o]> r)
       end.

Definition find_resource (id : Z) (r : gmap Z ResourceRecord) : option ResourceRecord := r !! id.

Definition is_resource (id : Z) (k : ResourceKind) (r : gmap Z ResourceRecord) : bool :=
  match find_resource id r with
  | Some record => bool_decide (kind record = k)
  | None => false
  end.

(** The loop of [erase_owner]. [entries] are the entries from the iterator to
    the end: erasing an element of an [unordered_map] answers the iterator that
    follows it and leaves the order of the other elements alone, so the loop
    goes through the entries the map had when it began. *)
Fixpoint erase_owner_loop (o : Z) (entries : list (Z * ResourceRecord)) (erased : Z)
    (r : gmap Z ResourceRecord) : Z * gmap Z ResourceRecord :=
  match entries with
  | [] => (erased, r)
  | (id, record) :: rest =>
      if owner record =? o
      then erase_owner_loop o rest (erased + 1) (delete id r)
      else erase_owner_loop o rest erased r
  end.

Definition erase_owner (o : Z) (r : gmap Z ResourceRecord) : Z * gmap Z ResourceRecord :=
  erase_owner_loop o (map_to_list r) 0 r.

Definition erase_resource (id : Z) (r : gmap Z ResourceRecord) : bool * gmap Z ResourceRecord :=
  (bool_decide (is_Some (r !! id)), delete id r).

Definition owned_by (o : Z) (k : ResourceKind) (r : gmap Z ResourceRecord) : list Z :=
  map fst (List.filter (fun e => (owner e.2 =? o) && bool_decide (kind e.2 = k)) (map_to_list r)).

Definition registry_size (r : gmap Z ResourceRecord) : Z := Z.of_nat (size r).

Fixpoint owner_size_loop (o : Z) (entries : list (Z * ResourceRecord)) (count : Z) : Z :=
  match entries with
  | [] => count
  | (_, record) :: rest => owner_size_loop o rest (if owner record =? o then count + 1 else count)
  end.

Definition owner_size (o : Z) (r : gmap Z ResourceRecord) : Z := owner_size_loop o (map_to_list r) 0.

(** ** The wrappers of [ServerState] *)

Definition client_resource_mask : Z := 0x001fffff.
Definition maximum_client_resources : Z := 4096.
Definition maximum_server_resources : Z := 65536.

Definition resource_exists (id : Z) (r : gmap Z ResourceRecord) : bool :=
  match find_resource id r with Some _ => true | None => false end.

Definition resource_owner (id : Z) (r : gmap Z ResourceRecord) : option Z :=
  match find_resource id r with Some record => Some (owner record) | None => None end.

Definition valid_client_resource (id base : Z) (r : gmap Z ResourceRecord) : bool :=
  (Z.land id (unot 32 client_resource_mask) =? base) && negb (resource_exists id r).

Definition resource_limit_reached (o : Z) (r : gmap Z ResourceRecord) : bool :=
  (registry_size r >=? maximum_server_resources) ||
  (owner_size o r >=? maximum_client_resources).

Definition reserve_resource (id : Z) (k : ResourceKind) (o : Z) (r : gmap Z ResourceRecord)
    : bool * gmap Z ResourceRecord :=
  if resource_limit_reached o r then (false, r) else insert_resource id k o r.

Definition release_resource (id : Z) (k : ResourceKind) (r : gmap Z ResourceRecord)
    : bool * gmap Z ResourceRecord :=
  if is_resource id k r then erase_resource id r else (false, r).

(** ** Lemmas *)

Definition owned (o : Z) (_ : Z) (record : ResourceRecord) : bool := owner record =? o.

Lemma owner_size_loop_count o entries : forall count,
  owner_size_loop o entries count =
  count + zlen (List.filter (fun entry => owned o entry.1 entry.2) entries).
Proof.
  induction entries as [|[id record] rest IH]; intros count; simpl; [autorewrite with zlen; lia|].
  rewrite IH. unfold owned at 2. simpl. destruct (owner record =? o); autorewrite with zlen; lia.
Qed.

Lemma owner_size_count o r : owner_size o r = count_if (owned o) r.
Proof. unfold owner_size. by rewrite owner_size_loop_count. Qed.

Lemma owner_size_nonneg o r : 0 <= owner_size o r.
Proof. rewrite owner_size_count. apply count_if_nonneg. Qed.

Lemma owner_size_insert o id record r : r !! id = None ->
  owner_size o (<[id := record]> r) = owner_size o r + (if owner record =? o then 1 else 0).
Proof. intros. by rewrite !owner_size_count, count_if_insert. Qed.

Lemma owner_size_delete o id record r : r !! id = Some record ->
  owner_size o (delete id r) = owner_size o r - (if owner record =? o then 1 else 0).
Proof.
  intros Hid. rewrite <- (insert_delete_id r id record) at 2 by done.
  rewrite owner_size_insert by apply lookup_delete_eq. lia.
Qed.

Lemma registry_size_delete id record r : r !! id = Some record ->
  registry_size (delete id r) = registry_size r - 1.
Proof.
  intros Hid. unfold registry_size. rewrite map_size_delete_Some by (rewrite Hid; eauto).
  assert (size r <> 0%nat); [|lia]. intros ->%map_size_empty_iff. by rewrite lookup_empty in Hid.
Qed.

(** What the loop has done when it ends, from any point of it. *)
Lemma erase_owner_loop_spec o entries : forall erased r,
  NoDup entries.*1 -> (forall id record, (id, record) ∈ entries -> r !! id = Some record) ->
  let '(erased', r') := erase_owner_loop o entries erased r in
  erased' - erased = registry_size r - registry_size r' /\
  erased' - erased = owner_size o r - owner_size o r' /\
  (forall o', o' <> o -> owner_size o' r' = owner_size o' r) /\
  (forall id record, r' !! id = Some record <->
     r !! id = Some record /\ ~ ((id, record) ∈ entries /\ owner record = o)).
Proof.
  induction entries as [|[id rec] rest IH]; intros erased r Hnd Hin; simpl.
  { split_and!; [lia|lia|done|]. intros id record. split; [|by intros []].
    intros Hr. split; [done|]. intros [Hn _]. by apply elem_of_nil in Hn. }
  simpl in Hnd. apply NoDup_cons in Hnd as [Hni Hnd].
  assert (r !! id = Some rec) as Hid by (apply Hin, elem_of_cons; by left).
  destruct (Z.eqb_spec (owner rec) o) as [Ho|Ho].
  - specialize (IH (erased + 1) (delete id r) Hnd). destruct (erase_owner_loop o rest _ _) as [n r'].
    destruct IH as (Hs & Hc & Hother & Hl).
    { intros id' record Hr. rewrite lookup_delete_ne; [apply Hin, elem_of_cons; by right|].
      intros <-. apply Hni, list_elem_of_fmap. by exists (id, record). }
    rewrite (registry_size_delete _ rec) in Hs by done. rewrite (owner_size_delete _ _ rec) in Hc by done.
    rewrite (proj2 (Z.eqb_eq _ _) Ho) in Hc. split_and!; [lia|lia| |].
    + intros o' Hne. rewrite (Hother o' Hne), (owner_size_delete _ _ rec), (proj2 (Z.eqb_neq _ _)) by (done || congruence). lia.
    + intros id' record. rewrite Hl, lookup_delete_Some, elem_of_cons. split.
      * intros [[Hne Hr] Hn]. split; [done|]. intros [[[= -> ->]|Hr'] Ho']; [done|by apply Hn].
      * intros [Hr Hn]. split; [split; [|done]|tauto]. intros <-. apply Hn. simplify_eq. by split; [left|].
  - specialize (IH erased r Hnd (fun id' record Hr => Hin id' record (proj2 (elem_of_cons _ _ _) (or_intror Hr)))).
    destruct (erase_owner_loop o rest _ _) as [n r']. destruct IH as (Hs & Hc & Hother & Hl).
    split_and!; [done..|]. intros id' record. rewrite Hl, elem_of_cons. split.
    + intros [Hr Hn]. split; [done|]. intros [[[= -> ->]|Hr'] Ho']; [done|by apply Hn].
    + intros [Hr Hn]. split; [done|tauto].
Qed.

(** Nothing is counted exactly when nothing of the owner is registered. *)
Lemma owner_size_zero o r :
  owner_size o r = 0 <-> forall id record, r !! id = Some record -> owner record <> o.
Proof.
  induction r as [|id record r Hid IH] using map_ind.
  { split; [|done]. intros _ id record Hr. by rewrite lookup_empty in Hr. }
  rewrite owner_size_insert by done. pose proof (owner_size_nonneg o r). split.
  - intros Hz id' record' [[<- <-]|[Hne Hr]]%lookup_insert_Some.
    + intros He. rewrite (proj2 (Z.eqb_eq _ _) He) in Hz. lia.
    + eapply (proj1 IH); [|done]. destruct (owner record =? o); lia.
  - intros Hn. rewrite (proj2 IH), (proj2 (Z.eqb_neq _ _)); [done| |].
    + apply (Hn id record), lookup_insert_eq.
    + intros id' record' Hr. apply (Hn id' record'). rewrite lookup_insert_ne by congruence. done.
Qed.

Lemma insert_resource_true id k o r r' :
  insert_resource id k o r = (true, r') <->
  id <> 0 /\ r !! id = None /\ r' = <[id := mkResource k o]> r.
Proof.
  unfold insert_resource. destruct (Z.eqb_spec id 0); [naive_solver|].
  destruct (r !! id); naive_solver.
Qed.

Lemma insert_resource_false id k o r r' :
  insert_resource id k o r = (false, r') <->
  (id = 0 \/ is_Some (r !! id)) /\ r' = r.
Proof.
  unfold insert_resource. destruct (Z.eqb_spec id 0); [naive_solver|].
  destruct (r !! id) eqn:E; split; unfold is_Some; try naive_solver.
Qed.

Lemma resource_exists_spec id r : resource_exists id r = true <-> is_Some (r !! id).
Proof. unfold resource_exists, find_resource. destruct (r !! id); naive_solver. Qed.

Lemma owned_by_spec o k r id :
  id ∈ owned_by o k r <-> r !! id = Some (mkResource k o).
Proof.
  unfold owned_by. rewrite list_elem_of_In, in_map_iff. split.
  - intros ([id' [k' o']] & <- & [Hin%list_elem_of_In%elem_of_map_to_list Ht]%filter_In).
    simpl in *. bool_to_prop. by subst.
  - intros Hr. exists (id, mkResource k o). split; [done|]. apply filter_In. split.
    + by apply list_elem_of_In, elem_of_map_to_list.
    + simpl. rewrite Z.eqb_refl. by apply bool_decide_eq_true.
Qed.

Lemma owned_by_NoDup o k r : NoDup (owned_by o k r).
Proof.
  unfold owned_by. pose proof (NoDup_fst_map_to_list r) as Hnd.
  induction (map_to_list r) as [|[id rec] l IH]; simpl in *; [constructor|].
  inversion_clear Hnd as [|? ? Hni Hnd']. case_match; [|by apply IH].
  simpl. constructor; [|by apply IH]. intros Hin. apply Hni.
  apply list_elem_of_In, in_map_iff in Hin as (e & He & [Hin _]%filter_In).
  simpl in He. subst. apply list_elem_of_In, in_map_iff. eauto.
Qed.

Lemma owned_by_empty o k r :
  (forall id record, r !! id = Some record -> owner record <> o) -> owned_by o k r = [].
Proof.
  intros Hn. destruct (owned_by o k r) as [|id l] eqn:E; [done|].
  assert (id ∈ owned_by o k r) as Hin by (rewrite E; apply list_elem_of_here).
  apply owned_by_spec in Hin. by apply Hn in Hin.
Qed.

(** The loop over all entries, in any order. *)
Lemma erase_owner_loop_enumerated o r entries :
  entries ≡ₚ map_to_list r -> exists erased r',
  erase_owner_loop o entries 0 r = (erased, r') /\
  erased = registry_size r - registry_size r' /\ erased = owner_size o r - owner_size o r' /\
  (forall o', o' <> o -> owner_size o' r' = owner_size o' r) /\
  (forall id record, r' !! id = Some record <-> r !! id = Some record /\ owner record <> o).
Proof.
  intros Hp. pose proof (erase_owner_loop_spec o entries 0 r) as Hloop.
  destruct (erase_owner_loop o entries 0 r) as [erased r']. exists erased, r'.
  destruct Hloop as (Hs & Hc & Hother & Hl).
  { rewrite Hp. apply NoDup_fst_map_to_list. }
  { intros id record. by rewrite Hp, elem_of_map_to_list. }
  split_and!; [done|lia|lia|done|]. intros id record. rewrite Hl, Hp, elem_of_map_to_list. tauto.
Qed.

(** No identifier is 0, and no client or server limit is exceeded. *)
Definition registry_wf (r : gmap Z ResourceRecord) : Prop :=
  r !! 0 = None /\ registry_size r <= maximum_server_resources /\
  forall o, owner_size o r <= maximum_client_resources.

(** ** Properties *)

(** C11: the loop that disconnects an owner, in whatever order the map is
    iterated, ends with exactly the registrations of the other owners, has
    counted the removed ones, and leaves room for exactly as many; no kind of
    resource is still listed for the owner, the lists of the others are the
    same up to order, and every identifier the owner had is free again. *)
Theorem erase_owner_exact o r entries :
  entries ≡ₚ map_to_list r ->
  let '(erased, r') := erase_owner_loop o entries 0 r in
  erase_owner o r = (erased, r') /\
  erased = owner_size o r /\ registry_size r' = registry_size r - erased /\ owner_size o r' = 0 /\
  (forall id record, r' !! id = Some record <-> r !! id = Some record /\ owner record <> o) /\
  (forall o', o' <> o -> owner_size o' r' = owner_size o' r) /\
  (forall k, owned_by o k r' = []) /\
  (forall o' k, o' <> o -> owned_by o' k r' ≡ₚ owned_by o' k r) /\
  (forall id, resource_owner id r = Some o -> resource_exists id r' = false) /\
  (registry_wf r -> registry_wf r').
Proof.
  intros Hp. destruct (erase_owner_loop_enumerated o r entries Hp) as (erased & r' & -> & Hs & Hc & Hother & Hl).
  destruct (erase_owner_loop_enumerated o r (map_to_list r) (reflexivity _)) as (e2 & r2 & E2 & Hs2 & _ & _ & Hl2).
  assert (r2 = r') as -> by (apply map_eq; intros id; apply option_eq; intros v; by rewrite Hl, Hl2).
  assert (owner_size o r' = 0) as Hz by (apply owner_size_zero; intros id record Hr; by apply Hl in Hr as [_ ?]).
  split_and!; [| lia | lia | exact Hz | exact Hl | exact Hother | | | |].
  - unfold erase_owner. rewrite E2. f_equal. lia.
  - intros k. apply owned_by_empty. intros id record Hr. by apply Hl in Hr as [_ ?].
  - intros o' k Hne. apply NoDup_Permutation; [apply owned_by_NoDup..|]. intros id.
    rewrite !owned_by_spec, Hl. simpl. naive_solver.
  - intros id Ho. apply not_true_iff_false. rewrite resource_exists_spec. intros [record Hr].
    apply Hl in Hr as [Hr Hn]. unfold resource_owner, find_resource in Ho. rewrite Hr in Ho. by simplify_eq.
  - intros (H0 & Hmax & Hall). split_and!.
    + destruct (r' !! 0) eqn:E; [|done]. apply Hl in E as [? _]. congruence.
    + pose proof (owner_size_nonneg o r). lia.
    + intros o'. destruct (decide (o' = o)) as [->|Hne]; [|by rewrite Hother]. rewrite Hz. by cbv.
Qed.

(** C12: [reserve_resource] keeps the registry inside its limits of 65536
    resources and 4096 per client, never registers identifier 0 or a taken
    identifier, and registers the resource exactly when it answers true. *)
Theorem reserve_resource_bounded id k o r :
  registry_wf r ->
  let '(ok, r') := reserve_resource id k o r in
  registry_wf r' /\
  (if ok then r !! id = None /\ id <> 0 /\ r' = <[id := mkResource k o]> r
   else r' = r /\ (id = 0 \/ is_Some (r !! id) \/ registry_size r = maximum_server_resources \/
                   owner_size o r = maximum_client_resources)).
Proof.
  intros (H0 & Hs & Ho). unfold reserve_resource, resource_limit_reached.
  destruct (_ || _) eqn:Hlim.
  { split; [done|]. split; [done|]. specialize (Ho o).
    bool_to_prop. destruct Hlim as [Hl|Hl]; bool_to_prop; lia. }
  bool_to_prop. destruct (insert_resource id k o r) as [[] r'] eqn:Hi.
  - apply insert_resource_true in Hi as (Hid & Hn & ->). split; [|done].
    unfold registry_wf, registry_size in *. split_and!.
    + by rewrite lookup_insert_ne.
    + rewrite map_size_insert_None by done. lia.
    + intros o'. rewrite owner_size_insert by done. specialize (Ho o').
      simpl. destruct (Z.eqb_spec o o'); subst; lia.
  - apply insert_resource_false in Hi as [Hc ->]. split; [done|]. split; [done|]. tauto.
Qed.

Lemma reserve_resource_bounded_witness :
  let '(ok, r') := reserve_resource 7 pixmap 1 ∅ in
  registry_wf r' /\
  (if ok then (∅ : gmap Z ResourceRecord) !! 7 = None /\ 7 <> 0 /\ r' = <[7 := mkResource pixmap 1]> ∅
   else r' = ∅ /\ (7 = 0 \/ is_Some ((∅ : gmap Z ResourceRecord) !! 7) \/
     registry_size ∅ = maximum_server_resources \/ owner_size 1 ∅ = maximum_client_resources)).
Proof.
  apply (reserve_resource_bounded 7 pixmap 1 ∅).
  split; [done|]. split; [by_computation|]. intros o. rewrite owner_size_count, count_if_empty. by_computation.
Defined.

(** Two clients with three resources, iterated in an order of its own. *)
Definition sample_entries : list (Z * ResourceRecord) :=
  [(8, mkResource font 1); (9, mkResource pixmap 2); (7, mkResource pixmap 1)].

Definition sample_registry : gmap Z ResourceRecord := list_to_map sample_entries.

Lemma sample_entries_enumerate : sample_entries ≡ₚ map_to_list sample_registry.
Proof. symmetry. apply map_to_list_to_map. by_computation. Qed.

Lemma erase_owner_exact_witness :
  erase_owner 1 sample_registry = (2, {[9 := mkResource pixmap 2]}) /\
  owned_by 1 font (erase_owner 1 sample_registry).2 = [].
Proof.
  destruct (erase_owner_exact 1 sample_registry sample_entries sample_entries_enumerate)
    as (He & _ & _ & _ & _ & _ & Hk & _).
  split; [rewrite He; vm_compute; reflexivity|]. rewrite He. apply Hk.
Defined.
