(* ===== verification/Events.v ===== *)
(** * Client events

    Model of [src/src/server/include/xmin/server/client_event.hpp]: one record
    per event structure, with the fields in their order (the sequence number
    last), and the variant [ClientEvent] over them. *)
From S2P Require Import Prelude.

Record SelectionClearEvent := mkSelectionClear {
  sc_time : Z; sc_window : Z; sc_selection : Z; sc_sequence : Z
}.

#[export] Instance SelectionClearEvent_eta : Eta SelectionClearEvent := fun e =>
  mkSelectionClear (sc_time e) (sc_window e) (sc_selection e) (sc_sequence e).

Record SelectionRequestEvent := mkSelectionRequest {
  sr_time : Z; sr_owner : Z; sr_requestor : Z; sr_selection : Z; sr_target : Z;
  sr_property : Z; sr_sequence : Z
}.

#[export] Instance SelectionRequestEvent_eta : Eta SelectionRequestEvent := fun e =>
  mkSelectionRequest (sr_time e) (sr_owner e) (sr_requestor e) (sr_selection e) (sr_target e)
    (sr_property e) (sr_sequence e).

Record SelectionNotifyEvent := mkSelectionNotify {
  sn_time : Z; sn_requestor : Z; sn_selection : Z; sn_target : Z; sn_property : Z;
  sn_sequence : Z
}.

#[export] Instance SelectionNotifyEvent_eta : Eta SelectionNotifyEvent := fun e =>
  mkSelectionNotify (sn_time e) (sn_requestor e) (sn_selection e) (sn_target e) (sn_property e)
    (sn_sequence e).

Record ClientMessageEvent := mkClientMessage {
  cm_format : Z; cm_window : Z; cm_type : Z; cm_data : list Z; cm_sequence : Z
}.

#[export] Instance ClientMessageEvent_eta : Eta ClientMessageEvent := fun e =>
  mkClientMessage (cm_format e) (cm_window e) (cm_type e) (cm_data e) (cm_sequence e).

Record PropertyNotifyEvent := mkPropertyNotify {
  pn_state : Z; pn_window : Z; pn_atom : Z; pn_time : Z; pn_sequence : Z
}.

#[export] Instance PropertyNotifyEvent_eta : Eta PropertyNotifyEvent := fun e =>
  mkPropertyNotify (pn_state e) (pn_window e) (pn_atom e) (pn_time e) (pn_sequence e).

Record MappingNotifyEvent := mkMappingNotify {
  mn_request : Z; mn_first_keycode : Z; mn_count : Z; mn_sequence : Z
}.

#[export] Instance MappingNotifyEvent_eta : Eta MappingNotifyEvent := fun e =>
  mkMappingNotify (mn_request e) (mn_first_keycode e) (mn_count e) (mn_sequence e).

Record CreateNotifyEvent := mkCreateNotify {
  cn_parent : Z; cn_window : Z; cn_x : Z; cn_y : Z; cn_width : Z; cn_height : Z;
  cn_border_width : Z; cn_override_redirect : bool; cn_sequence : Z
}.

#[export] Instance CreateNotifyEvent_eta : Eta CreateNotifyEvent := fun e =>
  mkCreateNotify (cn_parent e) (cn_window e) (cn_x e) (cn_y e) (cn_width e) (cn_height e)
    (cn_border_width e) (cn_override_redirect e) (cn_sequence e).

Record MapNotifyEvent := mkMapNotify {
  mn2_event : Z; mn2_window : Z; mn2_override_redirect : bool; mn2_sequence : Z
}.

#[export] Instance MapNotifyEvent_eta : Eta MapNotifyEvent := fun e =>
  mkMapNotify (mn2_event e) (mn2_window e) (mn2_override_redirect e) (mn2_sequence e).

Record MapRequestEvent := mkMapRequest {
  mr_parent : Z; mr_window : Z; mr_sequence : Z
}.

#[export] Instance MapRequestEvent_eta : Eta MapRequestEvent := fun e =>
  mkMapRequest (mr_parent e) (mr_window e) (mr_sequence e).

Record VisibilityNotifyEvent := mkVisibilityNotify {
  vn_window : Z; vn_state : Z; vn_sequence : Z
}.

#[export] Instance VisibilityNotifyEvent_eta : Eta VisibilityNotifyEvent := fun e =>
  mkVisibilityNotify (vn_window e) (vn_state e) (vn_sequence e).

Record ExposeEvent := mkExpose {
  e_window : Z; e_x : Z; e_y : Z; e_width : Z; e_height : Z; e_count : Z; e_sequence : Z
}.

#[export] Instance ExposeEvent_eta : Eta ExposeEvent := fun e =>
  mkExpose (e_window e) (e_x e) (e_y e) (e_width e) (e_height e) (e_count e) (e_sequence e).

Record NoExposeEvent := mkNoExpose {
  ne_drawable : Z; ne_minor_opcode : Z; ne_major_opcode : Z; ne_sequence : Z
}.

#[export] Instance NoExposeEvent_eta : Eta NoExposeEvent := fun e =>
  mkNoExpose (ne_drawable e) (ne_minor_opcode e) (ne_major_opcode e) (ne_sequence e).

Record ConfigureNotifyEvent := mkConfigureNotify {
  cn2_event : Z; cn2_window : Z; cn2_above_sibling : Z; cn2_x : Z; cn2_y : Z; cn2_width : Z;
  cn2_height : Z; cn2_border_width : Z; cn2_override_redirect : bool; cn2_sequence : Z
}.

#[export] Instance ConfigureNotifyEvent_eta : Eta ConfigureNotifyEvent := fun e =>
  mkConfigureNotify (cn2_event e) (cn2_window e) (cn2_above_sibling e) (cn2_x e) (cn2_y e)
    (cn2_width e) (cn2_height e) (cn2_border_width e) (cn2_override_redirect e)
    (cn2_sequence e).

Record ConfigureRequestEvent := mkConfigureRequest {
  cr_stack_mode : Z; cr_parent : Z; cr_window : Z; cr_sibling : Z; cr_x : Z; cr_y : Z;
  cr_width : Z; cr_height : Z; cr_border_width : Z; cr_value_mask : Z; cr_sequence : Z
}.

#[export] Instance ConfigureRequestEvent_eta : Eta ConfigureRequestEvent := fun e =>
  mkConfigureRequest (cr_stack_mode e) (cr_parent e) (cr_window e) (cr_sibling e) (cr_x e)
    (cr_y e) (cr_width e) (cr_height e) (cr_border_width e) (cr_value_mask e) (cr_sequence e).

Record ResizeRequestEvent := mkResizeRequest {
  rr_window : Z; rr_width : Z; rr_height : Z; rr_sequence : Z
}.

#[export] Instance ResizeRequestEvent_eta : Eta ResizeRequestEvent := fun e =>
  mkResizeRequest (rr_window e) (rr_width e) (rr_height e) (rr_sequence e).

Record CirculateNotifyEvent := mkCirculateNotify {
  cn3_event : Z; cn3_window : Z; cn3_place : Z; cn3_sequence : Z
}.

#[export] Instance CirculateNotifyEvent_eta : Eta CirculateNotifyEvent := fun e =>
  mkCirculateNotify (cn3_event e) (cn3_window e) (cn3_place e) (cn3_sequence e).

Record CirculateRequestEvent := mkCirculateRequest {
  cr2_parent : Z; cr2_window : Z; cr2_place : Z; cr2_sequence : Z
}.

#[export] Instance CirculateRequestEvent_eta : Eta CirculateRequestEvent := fun e =>
  mkCirculateRequest (cr2_parent e) (cr2_window e) (cr2_place e) (cr2_sequence e).

Record UnmapNotifyEvent := mkUnmapNotify {
  un_event : Z; un_window : Z; un_from_configure : bool; un_sequence : Z
}.

#[export] Instance UnmapNotifyEvent_eta : Eta UnmapNotifyEvent := fun e =>
  mkUnmapNotify (un_event e) (un_window e) (un_from_configure e) (un_sequence e).

Record ShapeNotifyEvent := mkShapeNotify {
  sn2_kind : Z; sn2_window : Z; sn2_x : Z; sn2_y : Z; sn2_width : Z; sn2_height : Z;
  sn2_time : Z; sn2_shaped : bool; sn2_sequence : Z
}.

#[export] Instance ShapeNotifyEvent_eta : Eta ShapeNotifyEvent := fun e =>
  mkShapeNotify (sn2_kind e) (sn2_window e) (sn2_x e) (sn2_y e) (sn2_width e) (sn2_height e)
    (sn2_time e) (sn2_shaped e) (sn2_sequence e).

Record SyncCounterNotifyEvent := mkSyncCounterNotify {
  scn_counter : Z; scn_wait_value : Z; scn_counter_value : Z; scn_time : Z; scn_count : Z;
  scn_destroyed : bool; scn_sequence : Z
}.

#[export] Instance SyncCounterNotifyEvent_eta : Eta SyncCounterNotifyEvent := fun e =>
  mkSyncCounterNotify (scn_counter e) (scn_wait_value e) (scn_counter_value e) (scn_time e)
    (scn_count e) (scn_destroyed e) (scn_sequence e).

Record SyncAlarmNotifyEvent := mkSyncAlarmNotify {
  san_alarm : Z; san_counter_value : Z; san_alarm_value : Z; san_time : Z; san_state : Z;
  san_sequence : Z
}.

#[export] Instance SyncAlarmNotifyEvent_eta : Eta SyncAlarmNotifyEvent := fun e =>
  mkSyncAlarmNotify (san_alarm e) (san_counter_value e) (san_alarm_value e) (san_time e)
    (san_state e) (san_sequence e).

Record XFixesSelectionNotifyEvent := mkXFixesSelectionNotify {
  xfsn_subtype : Z; xfsn_window : Z; xfsn_owner : Z; xfsn_selection : Z; xfsn_time : Z;
  xfsn_selection_time : Z; xfsn_sequence : Z
}.

#[export] Instance XFixesSelectionNotifyEvent_eta : Eta XFixesSelectionNotifyEvent := fun e =>
  mkXFixesSelectionNotify (xfsn_subtype e) (xfsn_window e) (xfsn_owner e) (xfsn_selection e)
    (xfsn_time e) (xfsn_selection_time e) (xfsn_sequence e).

Record XFixesCursorNotifyEvent := mkXFixesCursorNotify {
  xfcn_subtype : Z; xfcn_window : Z; xfcn_cursor_serial : Z; xfcn_time : Z; xfcn_name : Z;
  xfcn_sequence : Z
}.

#[export] Instance XFixesCursorNotifyEvent_eta : Eta XFixesCursorNotifyEvent := fun e =>
  mkXFixesCursorNotify (xfcn_subtype e) (xfcn_window e) (xfcn_cursor_serial e) (xfcn_time e)
    (xfcn_name e) (xfcn_sequence e).

Record RandrScreenChangeNotifyEvent := mkRandrScreenChangeNotify {
  rscn_timestamp : Z; rscn_config_timestamp : Z; rscn_request_window : Z; rscn_width : Z;
  rscn_height : Z; rscn_millimetre_width : Z; rscn_millimetre_height : Z; rscn_rotation : Z;
  rscn_sequence : Z
}.

#[export] Instance RandrScreenChangeNotifyEvent_eta : Eta RandrScreenChangeNotifyEvent := fun e =>
  mkRandrScreenChangeNotify (rscn_timestamp e) (rscn_config_timestamp e)
    (rscn_request_window e) (rscn_width e) (rscn_height e) (rscn_millimetre_width e)
    (rscn_millimetre_height e) (rscn_rotation e) (rscn_sequence e).

Record RandrNotifyEvent := mkRandrNotify {
  rn_subtype : Z; rn_timestamp : Z; rn_config_timestamp : Z; rn_window : Z; rn_crtc : Z;
  rn_output : Z; rn_mode : Z; rn_atom : Z; rn_x : Z; rn_y : Z; rn_width : Z; rn_height : Z;
  rn_rotation : Z; rn_connection : Z; rn_subpixel_order : Z; rn_property_status : Z;
  rn_sequence : Z
}.

#[export] Instance RandrNotifyEvent_eta : Eta RandrNotifyEvent := fun e =>
  mkRandrNotify (rn_subtype e) (rn_timestamp e) (rn_config_timestamp e) (rn_window e)
    (rn_crtc e) (rn_output e) (rn_mode e) (rn_atom e) (rn_x e) (rn_y e) (rn_width e)
    (rn_height e) (rn_rotation e) (rn_connection e) (rn_subpixel_order e)
    (rn_property_status e) (rn_sequence e).

Record DamageNotifyEvent := mkDamageNotify {
  dn_level : Z; dn_drawable : Z; dn_damage : Z; dn_timestamp : Z; dn_area_x : Z;
  dn_area_y : Z; dn_area_width : Z; dn_area_height : Z; dn_geometry_x : Z; dn_geometry_y : Z;
  dn_geometry_width : Z; dn_geometry_height : Z; dn_sequence : Z
}.

#[export] Instance DamageNotifyEvent_eta : Eta DamageNotifyEvent := fun e =>
  mkDamageNotify (dn_level e) (dn_drawable e) (dn_damage e) (dn_timestamp e) (dn_area_x e)
    (dn_area_y e) (dn_area_width e) (dn_area_height e) (dn_geometry_x e) (dn_geometry_y e)
    (dn_geometry_width e) (dn_geometry_height e) (dn_sequence e).

Record PresentConfigureNotifyEvent := mkPresentConfigureNotify {
  pcn_event : Z; pcn_window : Z; pcn_x : Z; pcn_y : Z; pcn_width : Z; pcn_height : Z;
  pcn_off_x : Z; pcn_off_y : Z; pcn_pixmap_width : Z; pcn_pixmap_height : Z;
  pcn_pixmap_flags : Z; pcn_sequence : Z
}.

#[export] Instance PresentConfigureNotifyEvent_eta : Eta PresentConfigureNotifyEvent := fun e =>
  mkPresentConfigureNotify (pcn_event e) (pcn_window e) (pcn_x e) (pcn_y e) (pcn_width e)
    (pcn_height e) (pcn_off_x e) (pcn_off_y e) (pcn_pixmap_width e) (pcn_pixmap_height e)
    (pcn_pixmap_flags e) (pcn_sequence e).

Record PresentCompleteNotifyEvent := mkPresentCompleteNotify {
  pcn2_kind : Z; pcn2_mode : Z; pcn2_event : Z; pcn2_window : Z; pcn2_serial : Z;
  pcn2_ust : Z; pcn2_msc : Z; pcn2_sequence : Z
}.

#[export] Instance PresentCompleteNotifyEvent_eta : Eta PresentCompleteNotifyEvent := fun e =>
  mkPresentCompleteNotify (pcn2_kind e) (pcn2_mode e) (pcn2_event e) (pcn2_window e)
    (pcn2_serial e) (pcn2_ust e) (pcn2_msc e) (pcn2_sequence e).

Record PresentIdleNotifyEvent := mkPresentIdleNotify {
  pin_event : Z; pin_window : Z; pin_serial : Z; pin_pixmap : Z; pin_idle_fence : Z;
  pin_sequence : Z
}.

#[export] Instance PresentIdleNotifyEvent_eta : Eta PresentIdleNotifyEvent := fun e =>
  mkPresentIdleNotify (pin_event e) (pin_window e) (pin_serial e) (pin_pixmap e)
    (pin_idle_fence e) (pin_sequence e).

Record XkbStateNotifyEvent := mkXkbStateNotify {
  xkbsn_time : Z; xkbsn_device : Z; xkbsn_mods : Z; xkbsn_base_mods : Z;
  xkbsn_latched_mods : Z; xkbsn_locked_mods : Z; xkbsn_group : Z; xkbsn_base_group : Z;
  xkbsn_latched_group : Z; xkbsn_locked_group : Z; xkbsn_pointer_buttons : Z;
  xkbsn_changed : Z; xkbsn_keycode : Z; xkbsn_event_type : Z; xkbsn_request_major : Z;
  xkbsn_request_minor : Z; xkbsn_sequence : Z
}.

#[export] Instance XkbStateNotifyEvent_eta : Eta XkbStateNotifyEvent := fun e =>
  mkXkbStateNotify (xkbsn_time e) (xkbsn_device e) (xkbsn_mods e) (xkbsn_base_mods e)
    (xkbsn_latched_mods e) (xkbsn_locked_mods e) (xkbsn_group e) (xkbsn_base_group e)
    (xkbsn_latched_group e) (xkbsn_locked_group e) (xkbsn_pointer_buttons e) (xkbsn_changed e)
    (xkbsn_keycode e) (xkbsn_event_type e) (xkbsn_request_major e) (xkbsn_request_minor e)
    (xkbsn_sequence e).

Record XkbMapNotifyEvent := mkXkbMapNotify {
  xkbmn_time : Z; xkbmn_device : Z; xkbmn_changed : Z; xkbmn_min_keycode : Z;
  xkbmn_max_keycode : Z; xkbmn_first_type : Z; xkbmn_type_count : Z; xkbmn_first_keysym : Z;
  xkbmn_keysym_count : Z; xkbmn_first_modmap : Z; xkbmn_modmap_count : Z; xkbmn_sequence : Z
}.

#[export] Instance XkbMapNotifyEvent_eta : Eta XkbMapNotifyEvent := fun e =>
  mkXkbMapNotify (xkbmn_time e) (xkbmn_device e) (xkbmn_changed e) (xkbmn_min_keycode e)
    (xkbmn_max_keycode e) (xkbmn_first_type e) (xkbmn_type_count e) (xkbmn_first_keysym e)
    (xkbmn_keysym_count e) (xkbmn_first_modmap e) (xkbmn_modmap_count e) (xkbmn_sequence e).

Record XkbControlsNotifyEvent := mkXkbControlsNotify {
  xkbcn_time : Z; xkbcn_device : Z; xkbcn_groups : Z; xkbcn_changed : Z; xkbcn_enabled : Z;
  xkbcn_enabled_changes : Z; xkbcn_keycode : Z; xkbcn_event_type : Z; xkbcn_request_major : Z;
  xkbcn_request_minor : Z; xkbcn_sequence : Z
}.

#[export] Instance XkbControlsNotifyEvent_eta : Eta XkbControlsNotifyEvent := fun e =>
  mkXkbControlsNotify (xkbcn_time e) (xkbcn_device e) (xkbcn_groups e) (xkbcn_changed e)
    (xkbcn_enabled e) (xkbcn_enabled_changes e) (xkbcn_keycode e) (xkbcn_event_type e)
    (xkbcn_request_major e) (xkbcn_request_minor e) (xkbcn_sequence e).

Record Xi2DeviceEvent := mkXi2Device {
  xid_event_type : Z; xid_device : Z; xid_source : Z; xid_time : Z; xid_detail : Z;
  xid_root : Z; xid_event : Z; xid_child : Z; xid_root_x : Z; xid_root_y : Z; xid_event_x : Z;
  xid_event_y : Z; xid_buttons : Z; xid_base_mods : Z; xid_latched_mods : Z;
  xid_locked_mods : Z; xid_effective_mods : Z; xid_base_group : Z; xid_latched_group : Z;
  xid_locked_group : Z; xid_effective_group : Z; xid_flags : Z; xid_sequence : Z
}.

#[export] Instance Xi2DeviceEvent_eta : Eta Xi2DeviceEvent := fun e =>
  mkXi2Device (xid_event_type e) (xid_device e) (xid_source e) (xid_time e) (xid_detail e)
    (xid_root e) (xid_event e) (xid_child e) (xid_root_x e) (xid_root_y e) (xid_event_x e)
    (xid_event_y e) (xid_buttons e) (xid_base_mods e) (xid_latched_mods e) (xid_locked_mods e)
    (xid_effective_mods e) (xid_base_group e) (xid_latched_group e) (xid_locked_group e)
    (xid_effective_group e) (xid_flags e) (xid_sequence e).

Record Xi2RawEvent := mkXi2Raw {
  xir_event_type : Z; xir_device : Z; xir_source : Z; xir_time : Z; xir_detail : Z;
  xir_root_x : Z; xir_root_y : Z; xir_flags : Z; xir_sequence : Z
}.

#[export] Instance Xi2RawEvent_eta : Eta Xi2RawEvent := fun e =>
  mkXi2Raw (xir_event_type e) (xir_device e) (xir_source e) (xir_time e) (xir_detail e)
    (xir_root_x e) (xir_root_y e) (xir_flags e) (xir_sequence e).

Record Xi2PropertyEvent := mkXi2Property {
  xip_device : Z; xip_time : Z; xip_property : Z; xip_what : Z; xip_sequence : Z
}.

#[export] Instance Xi2PropertyEvent_eta : Eta Xi2PropertyEvent := fun e =>
  mkXi2Property (xip_device e) (xip_time e) (xip_property e) (xip_what e) (xip_sequence e).

Record Xi2CrossingEvent := mkXi2Crossing {
  xic_event_type : Z; xic_device : Z; xic_source : Z; xic_time : Z; xic_mode : Z;
  xic_detail : Z; xic_root : Z; xic_event : Z; xic_child : Z; xic_root_x : Z; xic_root_y : Z;
  xic_event_x : Z; xic_event_y : Z; xic_buttons : Z; xic_base_mods : Z; xic_latched_mods : Z;
  xic_locked_mods : Z; xic_effective_mods : Z; xic_base_group : Z; xic_latched_group : Z;
  xic_locked_group : Z; xic_effective_group : Z; xic_same_screen : bool; xic_focus : bool;
  xic_sequence : Z
}.

#[export] Instance Xi2CrossingEvent_eta : Eta Xi2CrossingEvent := fun e =>
  mkXi2Crossing (xic_event_type e) (xic_device e) (xic_source e) (xic_time e) (xic_mode e)
    (xic_detail e) (xic_root e) (xic_event e) (xic_child e) (xic_root_x e) (xic_root_y e)
    (xic_event_x e) (xic_event_y e) (xic_buttons e) (xic_base_mods e) (xic_latched_mods e)
    (xic_locked_mods e) (xic_effective_mods e) (xic_base_group e) (xic_latched_group e)
    (xic_locked_group e) (xic_effective_group e) (xic_same_screen e) (xic_focus e)
    (xic_sequence e).

Record CoreInputEvent := mkCoreInput {
  ci_type : Z; ci_detail : Z; ci_time : Z; ci_root : Z; ci_event : Z; ci_child : Z;
  ci_root_x : Z; ci_root_y : Z; ci_event_x : Z; ci_event_y : Z; ci_state : Z;
  ci_same_screen : bool; ci_sequence : Z
}.

#[export] Instance CoreInputEvent_eta : Eta CoreInputEvent := fun e =>
  mkCoreInput (ci_type e) (ci_detail e) (ci_time e) (ci_root e) (ci_event e) (ci_child e)
    (ci_root_x e) (ci_root_y e) (ci_event_x e) (ci_event_y e) (ci_state e) (ci_same_screen e)
    (ci_sequence e).

Record CrossingEvent := mkCrossing {
  c_type : Z; c_detail : Z; c_time : Z; c_root : Z; c_event : Z; c_child : Z; c_root_x : Z;
  c_root_y : Z; c_event_x : Z; c_event_y : Z; c_state : Z; c_mode : Z; c_same_screen : bool;
  c_focus : bool; c_sequence : Z
}.

#[export] Instance CrossingEvent_eta : Eta CrossingEvent := fun e =>
  mkCrossing (c_type e) (c_detail e) (c_time e) (c_root e) (c_event e) (c_child e) (c_root_x e)
    (c_root_y e) (c_event_x e) (c_event_y e) (c_state e) (c_mode e) (c_same_screen e)
    (c_focus e) (c_sequence e).

Record FocusEvent := mkFocus {
  f_type : Z; f_detail : Z; f_event : Z; f_mode : Z; f_sequence : Z
}.

#[export] Instance FocusEvent_eta : Eta FocusEvent := fun e =>
  mkFocus (f_type e) (f_detail e) (f_event e) (f_mode e) (f_sequence e).

Inductive ClientEvent :=
  | SelectionClear (e : SelectionClearEvent)
  | SelectionRequest (e : SelectionRequestEvent)
  | SelectionNotify (e : SelectionNotifyEvent)
  | ClientMessage (e : ClientMessageEvent)
  | PropertyNotify (e : PropertyNotifyEvent)
  | MappingNotify (e : MappingNotifyEvent)
  | CreateNotify (e : CreateNotifyEvent)
  | MapNotify (e : MapNotifyEvent)
  | MapRequest (e : MapRequestEvent)
  | UnmapNotify (e : UnmapNotifyEvent)
  | VisibilityNotify (e : VisibilityNotifyEvent)
  | Expose (e : ExposeEvent)
  | NoExpose (e : NoExposeEvent)
  | ConfigureNotify (e : ConfigureNotifyEvent)
  | ConfigureRequest (e : ConfigureRequestEvent)
  | ResizeRequest (e : ResizeRequestEvent)
  | CirculateNotify (e : CirculateNotifyEvent)
  | CirculateRequest (e : CirculateRequestEvent)
  | ShapeNotify (e : ShapeNotifyEvent)
  | SyncCounterNotify (e : SyncCounterNotifyEvent)
  | SyncAlarmNotify (e : SyncAlarmNotifyEvent)
  | XFixesSelectionNotify (e : XFixesSelectionNotifyEvent)
  | XFixesCursorNotify (e : XFixesCursorNotifyEvent)
  | RandrScreenChangeNotify (e : RandrScreenChangeNotifyEvent)
  | RandrNotify (e : RandrNotifyEvent)
  | DamageNotify (e : DamageNotifyEvent)
  | PresentConfigureNotify (e : PresentConfigureNotifyEvent)
  | PresentCompleteNotify (e : PresentCompleteNotifyEvent)
  | PresentIdleNotify (e : PresentIdleNotifyEvent)
  | XkbMapNotify (e : XkbMapNotifyEvent)
  | XkbStateNotify (e : XkbStateNotifyEvent)
  | XkbControlsNotify (e : XkbControlsNotifyEvent)
  | Xi2Device (e : Xi2DeviceEvent)
  | Xi2Raw (e : Xi2RawEvent)
  | Xi2Property (e : Xi2PropertyEvent)
  | Xi2Crossing (e : Xi2CrossingEvent)
  | CoreInput (e : CoreInputEvent)
  | Crossing (e : CrossingEvent)
  | Focus (e : FocusEvent).

(** [std::visit([sequence](auto &value) { value.sequence = sequence; }, event)] *)
Definition stamp_event (sequence : Z) (event : ClientEvent) : ClientEvent :=
  match event with
  | SelectionClear e => SelectionClear (e <| sc_sequence := sequence |>)
  | SelectionRequest e => SelectionRequest (e <| sr_sequence := sequence |>)
  | SelectionNotify e => SelectionNotify (e <| sn_sequence := sequence |>)
  | ClientMessage e => ClientMessage (e <| cm_sequence := sequence |>)
  | PropertyNotify e => PropertyNotify (e <| pn_sequence := sequence |>)
  | MappingNotify e => MappingNotify (e <| mn_sequence := sequence |>)
  | CreateNotify e => CreateNotify (e <| cn_sequence := sequence |>)
  | MapNotify e => MapNotify (e <| mn2_sequence := sequence |>)
  | MapRequest e => MapRequest (e <| mr_sequence := sequence |>)
  | UnmapNotify e => UnmapNotify (e <| un_sequence := sequence |>)
  | VisibilityNotify e => VisibilityNotify (e <| vn_sequence := sequence |>)
  | Expose e => Expose (e <| e_sequence := sequence |>)
  | NoExpose e => NoExpose (e <| ne_sequence := sequence |>)
  | ConfigureNotify e => ConfigureNotify (e <| cn2_sequence := sequence |>)
  | ConfigureRequest e => ConfigureRequest (e <| cr_sequence := sequence |>)
  | ResizeRequest e => ResizeRequest (e <| rr_sequence := sequence |>)
  | CirculateNotify e => CirculateNotify (e <| cn3_sequence := sequence |>)
  | CirculateRequest e => CirculateRequest (e <| cr2_sequence := sequence |>)
  | ShapeNotify e => ShapeNotify (e <| sn2_sequence := sequence |>)
  | SyncCounterNotify e => SyncCounterNotify (e <| scn_sequence := sequence |>)
  | SyncAlarmNotify e => SyncAlarmNotify (e <| san_sequence := sequence |>)
  | XFixesSelectionNotify e => XFixesSelectionNotify (e <| xfsn_sequence := sequence |>)
  | XFixesCursorNotify e => XFixesCursorNotify (e <| xfcn_sequence := sequence |>)
  | RandrScreenChangeNotify e => RandrScreenChangeNotify (e <| rscn_sequence := sequence |>)
  | RandrNotify e => RandrNotify (e <| rn_sequence := sequence |>)
  | DamageNotify e => DamageNotify (e <| dn_sequence := sequence |>)
  | PresentConfigureNotify e => PresentConfigureNotify (e <| pcn_sequence := sequence |>)
  | PresentCompleteNotify e => PresentCompleteNotify (e <| pcn2_sequence := sequence |>)
  | PresentIdleNotify e => PresentIdleNotify (e <| pin_sequence := sequence |>)
  | XkbMapNotify e => XkbMapNotify (e <| xkbmn_sequence := sequence |>)
  | XkbStateNotify e => XkbStateNotify (e <| xkbsn_sequence := sequence |>)
  | XkbControlsNotify e => XkbControlsNotify (e <| xkbcn_sequence := sequence |>)
  | Xi2Device e => Xi2Device (e <| xid_sequence := sequence |>)
  | Xi2Raw e => Xi2Raw (e <| xir_sequence := sequence |>)
  | Xi2Property e => Xi2Property (e <| xip_sequence := sequence |>)
  | Xi2Crossing e => Xi2Crossing (e <| xic_sequence := sequence |>)
  | CoreInput e => CoreInput (e <| ci_sequence := sequence |>)
  | Crossing e => Crossing (e <| c_sequence := sequence |>)
  | Focus e => Focus (e <| f_sequence := sequence |>)
  end.

Definition event_sequence (event : ClientEvent) : Z :=
  match event with
  | SelectionClear e => sc_sequence e
  | SelectionRequest e => sr_sequence e
  | SelectionNotify e => sn_sequence e
  | ClientMessage e => cm_sequence e
  | PropertyNotify e => pn_sequence e
  | MappingNotify e => mn_sequence e
  | CreateNotify e => cn_sequence e
  | MapNotify e => mn2_sequence e
  | MapRequest e => mr_sequence e
  | UnmapNotify e => un_sequence e
  | VisibilityNotify e => vn_sequence e
  | Expose e => e_sequence e
  | NoExpose e => ne_sequence e
  | ConfigureNotify e => cn2_sequence e
  | ConfigureRequest e => cr_sequence e
  | ResizeRequest e => rr_sequence e
  | CirculateNotify e => cn3_sequence e
  | CirculateRequest e => cr2_sequence e
  | ShapeNotify e => sn2_sequence e
  | SyncCounterNotify e => scn_sequence e
  | SyncAlarmNotify e => san_sequence e
  | XFixesSelectionNotify e => xfsn_sequence e
  | XFixesCursorNotify e => xfcn_sequence e
  | RandrScreenChangeNotify e => rscn_sequence e
  | RandrNotify e => rn_sequence e
  | DamageNotify e => dn_sequence e
  | PresentConfigureNotify e => pcn_sequence e
  | PresentCompleteNotify e => pcn2_sequence e
  | PresentIdleNotify e => pin_sequence e
  | XkbMapNotify e => xkbmn_sequence e
  | XkbStateNotify e => xkbsn_sequence e
  | XkbControlsNotify e => xkbcn_sequence e
  | Xi2Device e => xid_sequence e
  | Xi2Raw e => xir_sequence e
  | Xi2Property e => xip_sequence e
  | Xi2Crossing e => xic_sequence e
  | CoreInput e => ci_sequence e
  | Crossing e => c_sequence e
  | Focus e => f_sequence e
  end.

Lemma event_sequence_stamp s e : event_sequence (stamp_event s e) = s.
Proof. by destruct e. Qed.

(** A planned event: the recipient and the event, the [PlannedEvent] pair. *)
Abbreviation PlannedEvent := (Z * ClientEvent)%type.
