(* ===== verification/EventSink.v ===== *)
(** * The interface of the event queues

    What the components that emit events rely on: a batch of planned events
    is queued as a whole or not at all. [EventQueue.v] gives the instance of
    [src/src/server/server_state.cpp]; the clients' theorems are proved
    against the laws. *)
From S2P Require Import Prelude.
From S2P Require Import Events.

Definition maximum_pending_events_per_client : Z := 256.

Definition maximum_pending_events : Z := 4096.

Inductive EventDelivery := delivered | no_recipient | queue_full.

#[export] Instance EventDelivery_eq_dec : EqDecision EventDelivery.
Proof. solve_decision. Defined.

(** What [event_queues_[client].push_back(event)] may do: succeed, throw
    before the map entry exists, or throw after [operator[]] created an empty
    deque. *)
Inductive Alloc := alloc_ok | queue_alloc_fails | event_alloc_fails.

(** The oracle of a batch: the outcome of each push. *)
Abbreviation Allocs := (nat -> Alloc).

(** The outcomes of the allocations of one call: whether building the list of
    planned events throws, whether storing a record or a value throws, and
    each push of the batch. *)
Record Memory := mkMemory { plan_fails : bool; store_fails : bool; pushes : Allocs }.

Definition ample_memory : Memory := mkMemory false false (fun _ => alloc_ok).

Class EventSink (Q : Type) := {
  sink_batch : Q -> Allocs -> list PlannedEvent -> Q * bool;
  sink_single : Q -> Alloc -> Z -> ClientEvent -> Q * bool;
  sink_queue : Q -> Z -> list ClientEvent;
  sink_sequence : Q -> Z -> Z;
  sink_pending : Q -> Z;
  sink_same : relation Q;
  sink_ok : Q -> Prop
}.

(** The events of a batch for one client, as its queue receives them. *)
Definition sink_stamped {Q} `{EventSink Q} (q : Q) (client : Z) (events : list PlannedEvent)
    : list ClientEvent :=
  map (fun event => stamp_event (sink_sequence q client) event.2)
    (List.filter (fun event => event.1 =? client) events).

(** [q'] is [q] with the batch delivered. *)
Definition sink_extends {Q} `{EventSink Q} (q q' : Q) (events : list PlannedEvent) : Prop :=
  forall client,
    sink_sequence q' client = sink_sequence q client /\
    sink_queue q' client = sink_queue q client ++ sink_stamped q client events.

Class EventSinkLaws (Q : Type) `{EventSink Q} := {
  sink_same_equivalence :: Equivalence sink_same;
  sink_same_queue q q' client : sink_same q q' -> sink_queue q client = sink_queue q' client;
  sink_same_sequence q q' client :
    sink_same q q' -> sink_sequence q client = sink_sequence q' client;
  sink_batch_true q allocs events q' :
    sink_ok q -> sink_batch q allocs events = (q', true) ->
    sink_ok q' /\ sink_extends q q' events;
  sink_batch_false q allocs events q' :
    sink_ok q -> sink_batch q allocs events = (q', false) ->
    sink_ok q' /\ sink_same q' q;
  sink_single_true q alloc client event q' :
    sink_ok q -> sink_single q alloc client event = (q', true) ->
    sink_ok q' /\ sink_extends q q' [(client, event)];
  sink_single_false q alloc client event q' :
    sink_ok q -> sink_single q alloc client event = (q', false) ->
    sink_ok q' /\ sink_same q' q
}.

Section Sink.
Context {Q : Type} `{EventSinkLaws Q}.

(** The outcome of a batch, both ways. *)
Lemma sink_batch_spec q allocs events q' ok :
  sink_ok q -> sink_batch q allocs events = (q', ok) ->
  sink_ok q' /\ (if ok then sink_extends q q' events else sink_same q' q).
Proof. destruct ok; [apply sink_batch_true|apply sink_batch_false]. Qed.

Lemma sink_single_spec q alloc client event q' ok :
  sink_ok q -> sink_single q alloc client event = (q', ok) ->
  sink_ok q' /\ (if ok then sink_extends q q' [(client, event)] else sink_same q' q).
Proof. destruct ok; [apply sink_single_true|apply sink_single_false]. Qed.

Lemma sink_extends_nil q q' : sink_same q' q -> sink_extends q q' [].
Proof.
  intros Hs client. unfold sink_stamped. simpl. rewrite app_nil_r. split.
  - by apply sink_same_sequence.
  - by apply sink_same_queue.
Qed.
End Sink.
