(* ===== verification/EventQueue.v ===== *)
(** * The per-client event queues

    [ServerState::queue_event], [queue_events_atomically], [next_event],
    [pop_event] and the client registration they read sequence numbers from
    ([src/src/server/server_state.cpp]). Allocation failure is part of the
    model: every push consults an [Alloc] outcome of [EventSink.v], because the rollback of
    [queue_events_atomically] exists for it. *)

From S2P Require Import Prelude.
From S2P Require Import Events.
From S2P Require Import EventSink.

(** ** State *)

(** The fields of [ServerState] the queues are made of: [event_queues_],
    [pending_events_], [clients_] and [sync_priorities_]. *)
Record EventQueues := mkEventQueues {
  event_queues : gmap Z (list ClientEvent);
  pending_events : Z;
  clients : list (Z * Z);
  sync_priorities : gmap Z Z
}.

#[export] Instance EventQueues_eta : Eta EventQueues :=
  fun s => mkEventQueues (event_queues s) (pending_events s) (clients s) (sync_priorities s).

Definition initial_queues : EventQueues := mkEventQueues ∅ 0 [] ∅.

(** ** Clients *)

Definition find_client (client : Z) (l : list (Z * Z)) : option (Z * Z) :=
  List.find (fun entry => entry.1 =? client) l.

Definition register_client (s : EventQueues) (client : Z) : EventQueues * bool :=
  if client =? 0 then (s, false)
  else match find_client client (clients s) with
  | Some _ => (s, true)
  | None =>
      (s <| clients := clients s ++ [(client, 0)] |>
         <| sync_priorities :=
              match sync_priorities s !! client with
              | Some _ => sync_priorities s
              | None => <[client := 0]> (sync_priorities s)
              end |>, true)
  end.

(** Updates the first entry of [client], as [find_if] finds it. *)
Fixpoint set_sequence (client sequence : Z) (l : list (Z * Z)) : list (Z * Z) :=
  match l with
  | [] => []
  | (c, old) :: rest =>
      if c =? client then (c, sequence) :: rest
      else (c, old) :: set_sequence client sequence rest
  end.

Definition note_client_sequence (s : EventQueues) (client sequence : Z) : EventQueues :=
  s <| clients := set_sequence client sequence (clients s) |>.

Definition client_sequence (s : EventQueues) (client : Z) : Z :=
  match find_client client (clients s) with
  | Some entry => entry.2
  | None => 0
  end.

(** ** Queueing *)

Definition can_queue_event (s : EventQueues) (client : Z) : bool :=
  if (client =? 0) || (pending_events s >=? maximum_pending_events) then false
  else match event_queues s !! client with
  | None => true
  | Some queue => zlen queue <? maximum_pending_events_per_client
  end.

Definition queue_event (s : EventQueues) (client : Z) (event : ClientEvent)
    (alloc : Alloc) : EventQueues * bool :=
  if negb (can_queue_event s client) then (s, false)
  else
    let event := stamp_event (client_sequence s client) event in
    let queue := default [] (event_queues s !! client) in
    match alloc with
    | alloc_ok =>
        (s <| event_queues := <[client := queue ++ [event]]> (event_queues s) |>
           <| pending_events := u64 (pending_events s + 1) |>, true)
    | queue_alloc_fails => (s, false)
    | event_alloc_fails =>
        (s <| event_queues := <[client := queue]> (event_queues s) |>, false)
    end.

(** Number of planned events for [recipient]. *)
Definition planned_for (recipient : Z) (events : list PlannedEvent) : Z :=
  zlen (List.filter (fun event => event.1 =? recipient) events).

(** The first loop of [queue_events_atomically]; [previous] is the prefix the
    inner loop scans. *)
Fixpoint plan_fits (s : EventQueues) (previous events : list PlannedEvent) : bool :=
  match events with
  | [] => true
  | event :: rest =>
      let recipient := event.1 in
      if recipient =? 0 then false
      else
        let additions := 1 + planned_for recipient previous in
        let queued :=
          match event_queues s !! recipient with
          | None => 0
          | Some queue => zlen queue
          end in
        if additions >? u64 (maximum_pending_events_per_client - queued) then false
        else plan_fits s (previous ++ [event]) rest
  end.

(** Erases the queue of [client] if it is empty. *)
Definition erase_if_empty (s : EventQueues) (client : Z) : EventQueues :=
  match event_queues s !! client with
  | Some [] => s <| event_queues := delete client (event_queues s) |>
  | _ => s
  end.

(** One turn of the rollback: [pop_back], and erase the queue if it is empty. *)
Definition unqueue (s : EventQueues) (client : Z) : EventQueues :=
  match event_queues s !! client with
  | None => s
  | Some [] => s
  | Some queue =>
      erase_if_empty
        (s <| event_queues := <[client := removelast queue]> (event_queues s) |>
           <| pending_events := u64 (pending_events s - 1) |>) client
  end.

(** The second loop; [queued] lists the recipients already served, last
    first, and [allocs] the outcome of each push. *)
Fixpoint queue_all (s : EventQueues) (allocs : nat -> Alloc) (queued : list Z)
    (events : list PlannedEvent) : EventQueues * bool :=
  match events with
  | [] => (s, true)
  | event :: rest =>
      let '(s', ok) := queue_event s event.1 event.2 (allocs (length queued)) in
      if ok then queue_all s' allocs (event.1 :: queued) rest
      else (foldl unqueue (erase_if_empty s' event.1) queued, false)
  end.

Definition queue_events_atomically (s : EventQueues) (allocs : nat -> Alloc)
    (events : list PlannedEvent) : EventQueues * bool :=
  if zlen events >? u64 (maximum_pending_events - pending_events s) then (s, false)
  else if negb (plan_fits s [] events) then (s, false)
  else queue_all s allocs [] events.

(** ** Reading *)

Definition has_pending_event (s : EventQueues) (client : Z) : bool :=
  match event_queues s !! client with
  | Some (_ :: _) => true
  | _ => false
  end.

Definition next_event (s : EventQueues) (client : Z) : option ClientEvent :=
  match event_queues s !! client with
  | Some (event :: _) => Some event
  | _ => None
  end.

Definition pop_event (s : EventQueues) (client : Z) : EventQueues :=
  match event_queues s !! client with
  | None => s
  | Some [] => s
  | Some (_ :: queue) =>
      erase_if_empty
        (s <| event_queues := <[client := queue]> (event_queues s) |>
           <| pending_events := u64 (pending_events s - 1) |>) client
  end.

(** ** Abstract view and invariant *)

(** The specification sees one list per client; whether an empty list has a
    map entry is not observable. *)
Definition queue_of (s : EventQueues) (client : Z) : list ClientEvent :=
  default [] (event_queues s !! client).

Definition total_queued (queues : gmap Z (list ClientEvent)) : Z :=
  map_sum zlen queues.

(** [pending_events_] counts the queued events, and both limits hold. *)
Record queues_ok (s : EventQueues) : Prop := {
  ok_count : pending_events s = total_queued (event_queues s);
  ok_total : pending_events s <= maximum_pending_events;
  ok_each : forall client, zlen (queue_of s client) <= maximum_pending_events_per_client;
  ok_nobody : queue_of s 0 = []
}.

(** Two states that no operation can tell apart. *)
Record same_queues (s t : EventQueues) : Prop := {
  same_pending : pending_events s = pending_events t;
  same_clients : clients s = clients t;
  same_queue : forall client, queue_of s client = queue_of t client
}.

#[export] Instance same_queues_equivalence : Equivalence same_queues.
Proof.
  split.
  - by split.
  - intros s t [? ? ?]. by split.
  - intros s t u [] []. split; [congruence|congruence|].
    intros c. congruence.
Qed.

(** The events planned for [client], stamped with its sequence number. *)
Definition stamped_for (s : EventQueues) (client : Z) (events : list PlannedEvent)
    : list ClientEvent :=
  map (fun event => stamp_event (client_sequence s client) event.2)
    (List.filter (fun event => event.1 =? client) events).

(** Whether a batch fits the limits: the specification of the first loop. *)
Definition batch_fits (s : EventQueues) (events : list PlannedEvent) : Prop :=
  pending_events s + zlen events <= maximum_pending_events /\
  forall client, planned_for client events > 0 ->
    client <> 0 /\
    zlen (queue_of s client) + planned_for client events <= maximum_pending_events_per_client.

(** ** Lemmas *)

Lemma total_insert_fresh queues client queue : queues !! client = None ->
  total_queued (<[client := queue]> queues) = zlen queue + total_queued queues.
Proof. apply map_sum_insert_fresh. Qed.

Lemma zlen_default {A} (o : option (list A)) : zlen (default [] o) = from_option zlen 0 o.
Proof. by destruct o. Qed.

Lemma total_insert queues client queue :
  total_queued (<[client := queue]> queues) =
  total_queued queues - zlen (default [] (queues !! client)) + zlen queue.
Proof. rewrite zlen_default. apply map_sum_insert. Qed.

Lemma total_delete queues client :
  total_queued (delete client queues) = total_queued queues - zlen (default [] (queues !! client)).
Proof. rewrite zlen_default. apply map_sum_delete. Qed.

Lemma total_nonneg queues : 0 <= total_queued queues.
Proof. apply map_sum_nonneg. intros. apply zlen_nonneg. Qed.

Lemma total_all_empty queues :
  (forall client, default [] (queues !! client) = []) -> total_queued queues = 0.
Proof.
  induction queues as [|c q m Hm IH] using map_ind; [done|]. intros He.
  rewrite total_insert_fresh by done. pose proof (He c) as Hc.
  rewrite lookup_insert_eq in Hc. simpl in Hc. subst q.
  rewrite IH; [done|]. intros c'. destruct (decide (c' = c)) as [->|Hne].
  - by rewrite Hm.
  - pose proof (He c') as Hc'. by rewrite lookup_insert_ne in Hc'.
Qed.

(** The total depends on the abstract queues alone. *)
Lemma total_ext q1 q2 :
  (forall client, default [] (q1 !! client) = default [] (q2 !! client)) ->
  total_queued q1 = total_queued q2.
Proof.
  revert q2. induction q1 as [|c q m Hm IH] using map_ind; intros q2 He.
  - rewrite (total_all_empty q2); [done|]. intros c. by rewrite <- He, lookup_empty.
  - rewrite total_insert_fresh by done. pose proof (He c) as Hc.
    rewrite lookup_insert_eq in Hc. simpl in Hc.
    rewrite (IH (delete c q2)), total_delete, <- Hc; [lia|].
    intros c'. destruct (decide (c' = c)) as [->|Hne].
    + by rewrite Hm, lookup_delete_eq.
    + by rewrite lookup_delete_ne, <- He, lookup_insert_ne.
Qed.

Lemma queue_of_insert s client queue c pending :
  queue_of (s <| event_queues := <[client := queue]> (event_queues s) |>
              <| pending_events := pending |>) c =
  if c =? client then queue else queue_of s c.
Proof.
  unfold queue_of. simpl. destruct (Z.eqb_spec c client) as [->|].
  - by rewrite lookup_insert_eq.
  - by rewrite lookup_insert_ne.
Qed.

Lemma erase_if_empty_same s client : same_queues (erase_if_empty s client) s.
Proof.
  unfold erase_if_empty. destruct (event_queues s !! client) as [[|]|] eqn:E; try done.
  split; [done..|]. intros c. unfold queue_of. simpl.
  destruct (decide (c = client)) as [->|].
  - by rewrite lookup_delete_eq, E.
  - by rewrite lookup_delete_ne.
Qed.

Lemma erase_if_empty_total s client :
  total_queued (event_queues (erase_if_empty s client)) = total_queued (event_queues s).
Proof.
  unfold erase_if_empty. destruct (event_queues s !! client) as [[|]|] eqn:E; try done.
  simpl. rewrite total_delete, E. simpl. rewrite zlen_nil. lia.
Qed.

Lemma same_queues_ok s t : same_queues s t -> queues_ok t -> queues_ok s.
Proof.
  intros [Hp Hc Hq] [H1 H2 H3 H4]. split.
  - rewrite Hp, H1. apply total_ext. intros c. symmetry. apply Hq.
  - by rewrite Hp.
  - intros c. by rewrite Hq.
  - by rewrite Hq.
Qed.

Lemma same_queues_sequence s t client :
  same_queues s t -> client_sequence s client = client_sequence t client.
Proof. intros [_ Hc _]. unfold client_sequence. by rewrite Hc. Qed.

(** What [unqueue] does to the abstract queues. *)
Lemma unqueue_spec s client :
  clients (unqueue s client) = clients s /\
  pending_events (unqueue s client) =
    (if bool_decide (queue_of s client = []) then pending_events s
     else u64 (pending_events s - 1)) /\
  forall c, queue_of (unqueue s client) c =
    if c =? client then removelast (queue_of s client) else queue_of s c.
Proof.
  unfold unqueue. destruct (event_queues s !! client) as [[|e q]|] eqn:E.
  - assert (queue_of s client = []) as Hq by (unfold queue_of; by rewrite E).
    rewrite bool_decide_true by done. split_and!; [done..|].
    intros c. destruct (Z.eqb_spec c client) as [->|]; [by rewrite Hq|done].
  - assert (queue_of s client = e :: q) as Hq by (unfold queue_of; by rewrite E).
    rewrite bool_decide_false by (by rewrite Hq).
    match goal with |- context [erase_if_empty ?t client] =>
      destruct (erase_if_empty_same t client) as [Hp Hc Hs] end.
    split_and!; [by rewrite Hc|by rewrite Hp|].
    intros c. rewrite Hs, queue_of_insert. by rewrite Hq.
  - assert (queue_of s client = []) as Hq by (unfold queue_of; by rewrite E).
    rewrite bool_decide_true by done. split_and!; [done..|].
    intros c. destruct (Z.eqb_spec c client) as [->|]; [by rewrite Hq|done].
Qed.

#[export] Instance unqueue_proper : Proper (same_queues ==> eq ==> same_queues) unqueue.
Proof.
  intros s t [Hp Hc Hq] c _ <-.
  destruct (unqueue_spec s c) as (Hc1 & Hp1 & Hq1), (unqueue_spec t c) as (Hc2 & Hp2 & Hq2).
  split.
  - by rewrite Hp1, Hp2, Hq, Hp.
  - congruence.
  - intros c'. by rewrite Hq1, Hq2, !Hq.
Qed.

Lemma foldl_unqueue_proper queued s t :
  same_queues s t -> same_queues (foldl unqueue s queued) (foldl unqueue t queued).
Proof.
  revert s t. induction queued as [|c queued IH]; intros s t Hst; [done|].
  simpl. apply IH. by rewrite Hst.
Qed.

Lemma can_queue_event_spec s client :
  can_queue_event s client = true <->
  client <> 0 /\ pending_events s < maximum_pending_events /\
  zlen (queue_of s client) < maximum_pending_events_per_client.
Proof.
  unfold can_queue_event, queue_of. split.
  - intros Hcan. split_match_in Hcan; [done|].
    destruct (event_queues s !! client); bool_to_prop; simpl; rewrite ?zlen_nil;
      split_and!; try done; lia.
  - intros (Hc & Hp & Hq). replace (client =? 0) with false by lia.
    replace (pending_events s >=? maximum_pending_events) with false by lia. simpl.
    destruct (event_queues s !! client); [|done]. simpl in Hq. lia.
Qed.

(** The state after a successful [queue_event]. *)
Definition queued_state (s : EventQueues) (client : Z) (event : ClientEvent) : EventQueues :=
  s <| event_queues := <[client := queue_of s client ++
         [stamp_event (client_sequence s client) event]]> (event_queues s) |>
    <| pending_events := u64 (pending_events s + 1) |>.

Lemma queue_event_spec s client event alloc :
  match queue_event s client event alloc with
  | (s', true) => alloc = alloc_ok /\ can_queue_event s client = true /\
      s' = queued_state s client event
  | (s', false) => (alloc <> alloc_ok \/ can_queue_event s client = false) /\
      same_queues s' s
  end.
Proof.
  unfold queue_event. destruct (can_queue_event s client); simpl; [|split; [by right|done]].
  destruct alloc; simpl; [by split|split; [by left|done]|].
  split; [by left|]. split; [done..|]. intros c. unfold queue_of. simpl.
  destruct (decide (c = client)) as [->|].
  - by rewrite lookup_insert_eq.
  - by rewrite lookup_insert_ne.
Qed.

Lemma queued_state_ok s client event :
  queues_ok s -> can_queue_event s client = true ->
  queues_ok (queued_state s client event) /\
  pending_events (queued_state s client event) = pending_events s + 1 /\
  forall c, queue_of (queued_state s client event) c =
    queue_of s c ++ stamped_for s c [(client, event)].
Proof.
  intros [H1 H2 H3 H4] (Hc & Hp & Hq)%can_queue_event_spec.
  pose proof (total_nonneg (event_queues s)) as Hpos. rewrite <- H1 in Hpos.
  assert (pending_events (queued_state s client event) = pending_events s + 1) as Hp1.
  { simpl. apply wrap_id. unfold is_unsigned, maximum_pending_events in *. lia. }
  assert (forall c, queue_of (queued_state s client event) c =
    queue_of s c ++ stamped_for s c [(client, event)]) as Hq1.
  { intros c. unfold queued_state. rewrite queue_of_insert. unfold stamped_for. simpl.
    rewrite (Z.eqb_sym c). destruct (Z.eqb_spec client c) as [->|]; [done|].
    simpl. by rewrite app_nil_r. }
  split_and!; [|done..]. split.
  - rewrite Hp1. simpl. rewrite total_insert. fold (queue_of s client).
    autorewrite with zlen. lia.
  - lia.
  - intros c. rewrite Hq1, zlen_app. unfold stamped_for. simpl. specialize (H3 c).
    destruct (Z.eqb_spec client c) as [->|]; simpl; autorewrite with zlen; lia.
  - rewrite Hq1, H4. unfold stamped_for. simpl. by destruct (Z.eqb_spec client 0).
Qed.

(** Rolling a successful push back gives the state before it. *)
Lemma unqueue_queued s client event :
  queues_ok s -> can_queue_event s client = true ->
  same_queues (unqueue (queued_state s client event) client) s.
Proof.
  intros Hok Hcan. pose proof (queued_state_ok s client event Hok Hcan) as (Hok' & Hp & Hq).
  destruct (unqueue_spec (queued_state s client event) client) as (Hc1 & Hp1 & Hq1).
  assert (queue_of (queued_state s client event) client =
    queue_of s client ++ [stamp_event (client_sequence s client) event]) as Hqc.
  { rewrite Hq. unfold stamped_for. simpl. by rewrite Z.eqb_refl. }
  split.
  - rewrite Hp1, Hqc. rewrite bool_decide_false by (by destruct (queue_of s client)).
    rewrite Hp. replace (pending_events s + 1 - 1) with (pending_events s) by lia.
    destruct Hok as [H1 H2 _ _]. pose proof (total_nonneg (event_queues s)).
    apply wrap_id. unfold is_unsigned, maximum_pending_events in *. lia.
  - by rewrite Hc1.
  - intros c. rewrite Hq1, Hqc. destruct (Z.eqb_spec c client) as [->|Hne].
    + apply removelast_last.
    + rewrite Hq. unfold stamped_for. simpl.
      destruct (Z.eqb_spec client c); [congruence|]. simpl. apply app_nil_r.
Qed.

Lemma client_sequence_queued s client event c :
  client_sequence (queued_state s client event) c = client_sequence s c.
Proof. done. Qed.

Lemma stamped_for_cons s client event events :
  stamped_for s client (event :: events) =
  stamped_for s client [event] ++ stamped_for s client events.
Proof. unfold stamped_for. simpl. by destruct (event.1 =? client). Qed.

Lemma planned_for_app client l k : planned_for client (l ++ k) = planned_for client l + planned_for client k.
Proof. unfold planned_for. by rewrite List.filter_app, zlen_app. Qed.

Lemma planned_for_cons client event l :
  planned_for client (event :: l) = (if event.1 =? client then 1 else 0) + planned_for client l.
Proof.
  unfold planned_for. simpl. destruct (event.1 =? client); autorewrite with zlen; lia.
Qed.

Lemma planned_for_nonneg client l : 0 <= planned_for client l.
Proof. apply zlen_nonneg. Qed.

(** The precheck decides whether every recipient's share fits its queue. *)
Lemma plan_fits_spec s previous events :
  queues_ok s ->
  plan_fits s previous events = true <->
  forall client, planned_for client events > 0 ->
    client <> 0 /\
    zlen (queue_of s client) + planned_for client (previous ++ events)
      <= maximum_pending_events_per_client.
Proof.
  intros Hok. revert previous. induction events as [|e rest IH]; intros previous.
  { split; [|done]. intros _ c Hc. cbv in Hc. done. }
  simpl. pose proof (ok_each s Hok e.1) as He.
  assert (match event_queues s !! e.1 with None => 0 | Some queue => zlen queue end
    = zlen (queue_of s e.1)) as -> by (unfold queue_of; by destruct (_ !! _)).
  pose proof (zlen_nonneg (queue_of s e.1)).
  rewrite (wrap_id 64) by (unfold is_unsigned, maximum_pending_events_per_client in *; lia).
  destruct (Z.eqb_spec e.1 0) as [H0|H0].
  { split; [done|]. intros Hall. destruct (Hall e.1) as [? _]; [|done].
    rewrite planned_for_cons, Z.eqb_refl. pose proof (planned_for_nonneg e.1 rest). lia. }
  destruct (Z.gtb_spec (1 + planned_for e.1 previous)
    (maximum_pending_events_per_client - zlen (queue_of s e.1))) as [Hgt|Hle].
  { split; [done|]. intros Hall. destruct (Hall e.1) as [_ Hbad].
    - rewrite planned_for_cons, Z.eqb_refl. pose proof (planned_for_nonneg e.1 rest). lia.
    - rewrite planned_for_app, planned_for_cons, Z.eqb_refl in Hbad.
      pose proof (planned_for_nonneg e.1 rest). lia. }
  rewrite IH, <- app_assoc. simpl. split.
  - intros Hall c Hc. rewrite planned_for_cons in Hc.
    destruct (Z.ltb_spec 0 (planned_for c rest)) as [Hpos|Hzero]; [apply Hall; lia|].
    destruct (e.1 =? c) eqn:Hec; bool_to_prop; [subst c|lia].
    split; [done|]. rewrite planned_for_app, planned_for_cons, Z.eqb_refl. lia.
  - intros Hall c Hc. apply Hall. rewrite planned_for_cons. destruct (_ =? _); lia.
Qed.

(** Queueing the whole batch succeeds when it fits and no push throws. *)
Lemma queue_all_fits allocs events : forall s queued,
  queues_ok s -> batch_fits s events ->
  (forall i, (i < length events)%nat -> allocs (length queued + i)%nat = alloc_ok) ->
  exists s', queue_all s allocs queued events = (s', true).
Proof.
  induction events as [|e rest IH]; intros s queued Hok [Htot Heach] Ha; [by eexists|].
  simpl. rewrite zlen_cons in Htot.
  assert (can_queue_event s e.1 = true) as Hcan.
  { apply can_queue_event_spec. pose proof (zlen_nonneg rest).
    destruct (Heach e.1) as [? Hq].
    - rewrite planned_for_cons, Z.eqb_refl. pose proof (planned_for_nonneg e.1 rest). lia.
    - rewrite planned_for_cons, Z.eqb_refl in Hq.
      pose proof (planned_for_nonneg e.1 rest). split_and!; [done|lia|lia]. }
  pose proof (queue_event_spec s e.1 e.2 (allocs (length queued))) as Hspec.
  destruct (queue_event s e.1 e.2 (allocs (length queued))) as [s1 ok].
  specialize (Ha 0%nat ltac:(simpl; lia)) as Ha0. rewrite Nat.add_0_r in Ha0.
  destruct ok; [|by destruct Hspec as [[?|?] _]; congruence].
  destruct Hspec as (_ & _ & ->).
  destruct (queued_state_ok s e.1 e.2 Hok Hcan) as (Hok1 & Hp1 & Hq1).
  apply IH; [done| |].
  - split; [rewrite Hp1; lia|]. intros c Hc. destruct (Heach c) as [? Hle].
    + rewrite planned_for_cons. destruct (_ =? _); lia.
    + split; [done|]. rewrite Hq1, zlen_app. rewrite planned_for_cons in Hle.
      unfold stamped_for. simpl. destruct (e.1 =? c); simpl; autorewrite with zlen; lia.
  - intros i Hi. simpl. rewrite <- (Ha (S i)) by (simpl; lia). f_equal. lia.
Qed.

(** The second loop, on success. *)
Lemma queue_all_true allocs events : forall s queued s',
  queues_ok s -> queue_all s allocs queued events = (s', true) ->
  queues_ok s' /\ clients s' = clients s /\
  pending_events s' = pending_events s + zlen events /\
  (forall i, (i < length events)%nat -> allocs (length queued + i)%nat = alloc_ok) /\
  forall c, queue_of s' c = queue_of s c ++ stamped_for s c events.
Proof.
  induction events as [|e rest IH]; intros s queued s' Hok; simpl.
  { intros [= <-]. rewrite zlen_nil. split_and!; [done|done|lia|lia|].
    intros c. by rewrite app_nil_r. }
  pose proof (queue_event_spec s e.1 e.2 (allocs (length queued))) as Hspec.
  destruct (queue_event s e.1 e.2 (allocs (length queued))) as [s1 ok].
  destruct ok; [|done]. destruct Hspec as (Ha & Hcan & ->). intros Hrun.
  destruct (queued_state_ok s e.1 e.2 Hok Hcan) as (Hok1 & Hp1 & Hq1).
  destruct (IH _ _ _ Hok1 Hrun) as (Hok' & Hc' & Hp' & Ha' & Hq').
  split_and!; [done|by rewrite Hc'|rewrite Hp', Hp1, zlen_cons; lia| |].
  - intros [|i] Hi; [by rewrite Nat.add_0_r|].
    rewrite <- (Ha' i) by lia. simpl. f_equal. lia.
  - intros c. rewrite Hq', Hq1, (stamped_for_cons s c e rest), <- app_assoc.
    by destruct e.
Qed.

(** The second loop, on failure: the rollback undoes every push. *)
Lemma queue_all_false allocs events : forall s queued s',
  queues_ok s -> queue_all s allocs queued events = (s', false) ->
  same_queues s' (foldl unqueue s queued).
Proof.
  induction events as [|e rest IH]; intros s queued s' Hok; simpl; [done|].
  pose proof (queue_event_spec s e.1 e.2 (allocs (length queued))) as Hspec.
  destruct (queue_event s e.1 e.2 (allocs (length queued))) as [s1 ok].
  destruct ok.
  - destruct Hspec as (Ha & Hcan & ->). intros Hrun.
    destruct (queued_state_ok s e.1 e.2 Hok Hcan) as (Hok1 & _ & _).
    etransitivity; [by eapply IH|]. simpl. apply foldl_unqueue_proper.
    by apply unqueue_queued.
  - destruct Hspec as [_ Hs]. intros [= <-]. apply foldl_unqueue_proper.
    etransitivity; [apply erase_if_empty_same|done].
Qed.

Lemma queue_events_atomically_spec s allocs events s' ok :
  queues_ok s -> queue_events_atomically s allocs events = (s', ok) ->
  queues_ok s' /\
  (ok = true <-> batch_fits s events /\
     forall i, (i < length events)%nat -> allocs i = alloc_ok) /\
  (ok = true -> clients s' = clients s /\ pending_events s' = pending_events s + zlen events /\
     forall client, queue_of s' client = queue_of s client ++ stamped_for s client events) /\
  (ok = false -> same_queues s' s).
Proof.
  intros Hok. unfold queue_events_atomically.
  assert (is_unsigned 64 (maximum_pending_events - pending_events s)) as Hu.
  { destruct Hok as [H1 H2 _ _]. pose proof (total_nonneg (event_queues s)).
    unfold is_unsigned, maximum_pending_events in *. lia. }
  rewrite (wrap_id 64) by done.
  destruct (zlen events >? _) eqn:Htot; bool_to_prop.
  { intros [= <- <-]. split_and!; [done| |done|done].
    split; [done|]. intros [[? _] _]. lia. }
  destruct (plan_fits s [] events) eqn:Hplan; simpl.
  2: { intros [= <- <-]. split_and!; [done| |done|done].
    split; [done|]. intros [[_ He] _]. rewrite <- Hplan.
    by apply (proj2 (plan_fits_spec s [] events Hok)). }
  pose proof (proj1 (plan_fits_spec s [] events Hok) Hplan) as Hfits. simpl in Hfits.
  intros Hrun. destruct ok.
  - destruct (queue_all_true _ _ _ _ _ Hok Hrun) as (Hok' & Hc & Hp & Ha & Hq).
    split_and!; [done| |done|done]. split; [|done].
    intros _. split; [split; [lia|done]|done].
  - pose proof (queue_all_false _ _ _ _ _ Hok Hrun) as Hs. simpl in Hs.
    split_and!; [by eapply same_queues_ok| |done|done].
    split; [done|]. intros [Hb Ha].
    destruct (queue_all_fits allocs events s [] Hok Hb) as [s2 Hs2]; [done|congruence].
Qed.

Lemma pop_event_spec s client :
  clients (pop_event s client) = clients s /\
  pending_events (pop_event s client) =
    (if bool_decide (queue_of s client = []) then pending_events s
     else u64 (pending_events s - 1)) /\
  forall c, queue_of (pop_event s client) c =
    if c =? client then tail (queue_of s client) else queue_of s c.
Proof.
  unfold pop_event. destruct (event_queues s !! client) as [[|e q]|] eqn:E.
  - assert (queue_of s client = []) as Hq by (unfold queue_of; by rewrite E).
    rewrite bool_decide_true by done. split_and!; [done..|].
    intros c. destruct (Z.eqb_spec c client) as [->|]; [by rewrite Hq|done].
  - assert (queue_of s client = e :: q) as Hq by (unfold queue_of; by rewrite E).
    rewrite bool_decide_false by (by rewrite Hq).
    match goal with |- context [erase_if_empty ?t client] =>
      destruct (erase_if_empty_same t client) as [Hp Hc Hs] end.
    split_and!; [by rewrite Hc|by rewrite Hp|].
    intros c. rewrite Hs, queue_of_insert. by rewrite Hq.
  - assert (queue_of s client = []) as Hq by (unfold queue_of; by rewrite E).
    rewrite bool_decide_true by done. split_and!; [done..|].
    intros c. destruct (Z.eqb_spec c client) as [->|]; [by rewrite Hq|done].
Qed.

Lemma pop_event_total s client :
  total_queued (event_queues (pop_event s client)) =
  total_queued (event_queues s) - (if bool_decide (queue_of s client = []) then 0 else 1).
Proof.
  unfold pop_event, queue_of. destruct (event_queues s !! client) as [[|e q]|] eqn:E;
    rewrite ?E; simpl; [lia| |lia].
  rewrite erase_if_empty_total. simpl. rewrite total_insert, E. simpl.
  autorewrite with zlen. lia.
Qed.

Lemma pop_event_ok s client : queues_ok s -> queues_ok (pop_event s client).
Proof.
  intros [H1 H2 H3 H4]. destruct (pop_event_spec s client) as (Hc & Hp & Hq).
  pose proof (pop_event_total s client) as Ht.
  pose proof (total_nonneg (event_queues (pop_event s client))) as Hpos.
  assert (pending_events (pop_event s client) = total_queued (event_queues (pop_event s client))) as Hcount.
  { rewrite Hp, Ht. destruct (bool_decide _); [lia|]. rewrite H1. apply wrap_id.
    unfold is_unsigned, maximum_pending_events in *. lia. }
  split; [done| | |].
  - rewrite Hcount, Ht, <- H1. destruct (bool_decide _); lia.
  - intros c. rewrite Hq. specialize (H3 c). destruct (Z.eqb_spec c client) as [->|]; [|done].
    destruct (queue_of s client); simpl; [done|]. rewrite zlen_cons in H3. lia.
  - rewrite Hq. destruct (Z.eqb_spec 0 client) as [<-|]; [by rewrite H4|done].
Qed.

(** ** The interface

    The queues implement [EventSink]. *)
#[export] Instance queues_sink : EventSink EventQueues := {|
  sink_batch := queue_events_atomically;
  sink_single s alloc client event := queue_event s client event alloc;
  sink_queue := queue_of;
  sink_sequence := client_sequence;
  sink_pending := pending_events;
  sink_same := same_queues;
  sink_ok := queues_ok
|}.

#[export] Instance queues_sink_laws : EventSinkLaws EventQueues.
Proof.
  split; simpl.
  - apply _.
  - intros q q' c []. auto.
  - intros q q' c. apply same_queues_sequence.
  - intros q allocs events q' Hok E.
    destruct (queue_events_atomically_spec _ _ _ _ _ Hok E) as (Hok' & _ & Ht & _).
    destruct (Ht eq_refl) as (Hc & _ & Hq). split; [done|]. intros c.
    split; [|apply Hq]. simpl. unfold client_sequence. by rewrite Hc.
  - intros q allocs events q' Hok E.
    destruct (queue_events_atomically_spec _ _ _ _ _ Hok E) as (Hok' & _ & _ & Hf).
    auto.
  - intros q alloc c e q' Hok E. pose proof (queue_event_spec q c e alloc) as Hs.
    rewrite E in Hs. destruct Hs as (_ & Hcan & ->).
    destruct (queued_state_ok q c e Hok Hcan) as (? & _ & Hq). split; [done|].
    intros c'. split; [done|]. apply Hq.
  - intros q alloc c e q' Hok E. pose proof (queue_event_spec q c e alloc) as Hs.
    rewrite E in Hs. destruct Hs as [_ Hs]. split; [|done]. by eapply same_queues_ok.
Qed.

(** ** Histories

    The calls the rest of the server makes on the queues, in any order and
    with any pattern of allocation failures. *)
Inductive QueueOp :=
| OpRegister (client : Z)
| OpSequence (client sequence : Z)
| OpQueue (client : Z) (event : ClientEvent) (alloc : Alloc)
| OpBatch (events : list PlannedEvent) (allocs : nat -> Alloc)
| OpPop (client : Z).

(** One call, with the events it accepted and delivered for [client]:
    accepted when the call answered true, delivered when [next_event] was read
    and popped. *)
Definition run_op (client : Z) (s : EventQueues) (op : QueueOp)
    : EventQueues * (list ClientEvent * list ClientEvent) :=
  match op with
  | OpRegister c => ((register_client s c).1, ([], []))
  | OpSequence c n => (note_client_sequence s c n, ([], []))
  | OpQueue c e a =>
      let '(s', ok) := queue_event s c e a in
      (s', (if ok then stamped_for s client [(c, e)] else [], []))
  | OpBatch events allocs =>
      let '(s', ok) := queue_events_atomically s allocs events in
      (s', (if ok then stamped_for s client events else [], []))
  | OpPop c =>
      (pop_event s c,
       ([], if c =? client then option_list (next_event s c) else []))
  end.

Fixpoint run_ops (client : Z) (s : EventQueues) (ops : list QueueOp)
    : EventQueues * (list ClientEvent * list ClientEvent) :=
  match ops with
  | [] => (s, ([], []))
  | op :: rest =>
      let '(s1, (accepted1, delivered1)) := run_op client s op in
      let '(s2, (accepted2, delivered2)) := run_ops client s1 rest in
      (s2, (accepted1 ++ accepted2, delivered1 ++ delivered2))
  end.

Lemma next_event_queue_of s client :
  next_event s client = head (queue_of s client).
Proof. unfold next_event, queue_of. by destruct (event_queues s !! client) as [[|]|]. Qed.

Lemma clients_only_ok s l p :
  queues_ok s -> queues_ok (s <| clients := l |> <| sync_priorities := p |>).
Proof. intros []. by split. Qed.

Lemma run_op_spec client s op s' accepted delivered :
  queues_ok s -> run_op client s op = (s', (accepted, delivered)) ->
  queues_ok s' /\ queue_of s client ++ accepted = delivered ++ queue_of s' client.
Proof.
  intros Hok. destruct op as [c|c n|c e a|events allocs|c]; simpl.
  - intros [= <- <- <-]. rewrite app_nil_r. unfold register_client.
    destruct (c =? 0); [done|]. destruct (find_client c (clients s)); [done|].
    split; [|done]. destruct s, Hok. by split.
  - intros [= <- <- <-]. rewrite app_nil_r. split; [|done]. destruct s, Hok. by split.
  - pose proof (queue_event_spec s c e a) as Hs. destruct (queue_event s c e a) as [s1 ok].
    intros [= <- <- <-]. destruct ok.
    + destruct Hs as (_ & Hcan & ->). destruct (queued_state_ok s c e Hok Hcan) as (? & _ & Hq).
      split; [done|]. by rewrite Hq.
    + destruct Hs as [_ Hs]. split; [by eapply same_queues_ok|].
      destruct Hs as [_ _ Hq]. by rewrite Hq, app_nil_r.
  - destruct (queue_events_atomically s allocs events) as [s1 ok] eqn:E.
    destruct (queue_events_atomically_spec _ _ _ _ _ Hok E) as (Hok' & _ & Ht & Hf).
    intros [= <- <- <-]. split; [done|]. destruct ok.
    + destruct (Ht eq_refl) as (_ & _ & Hq). by rewrite Hq.
    + destruct (Hf eq_refl) as [_ _ Hq]. by rewrite Hq, app_nil_r.
  - intros [= <- <- <-]. split; [by apply pop_event_ok|].
    destruct (pop_event_spec s c) as (_ & _ & Hq). rewrite Hq, app_nil_r, (Z.eqb_sym client c).
    destruct (Z.eqb_spec c client) as [->|]; [|done].
    rewrite next_event_queue_of. by destruct (queue_of s client).
Qed.

Lemma run_ops_spec client ops : forall s s' accepted delivered,
  queues_ok s -> run_ops client s ops = (s', (accepted, delivered)) ->
  queues_ok s' /\ queue_of s client ++ accepted = delivered ++ queue_of s' client.
Proof.
  induction ops as [|op ops IH]; intros s s' accepted delivered Hok; simpl.
  { intros [= <- <- <-]. by rewrite app_nil_r. }
  destruct (run_op client s op) as [s1 [a1 d1]] eqn:E1.
  destruct (run_ops client s1 ops) as [s2 [a2 d2]] eqn:E2. intros [= <- <- <-].
  destruct (run_op_spec _ _ _ _ _ _ Hok E1) as [Hok1 Hq1].
  destruct (IH _ _ _ _ Hok1 E2) as [Hok2 Hq2]. split; [done|].
  by rewrite (assoc_L (++)), Hq1, <- (assoc_L (++)), Hq2, (assoc_L (++)).
Qed.

Lemma initial_queues_ok : queues_ok initial_queues.
Proof. split; [done| | |done]; by cbv. Qed.

(** ** Properties *)

(** C14: [queue_events_atomically] is all or nothing under every pattern of
    allocation failures: it answers true exactly when the batch respects both
    limits and no push throws, and then each recipient's queue is extended by
    its planned events, in order, stamped with its sequence number; when it
    answers false no queue, no counter and no client has changed. *)
Theorem queue_events_atomically_all_or_nothing s allocs events s' ok :
  queues_ok s -> queue_events_atomically s allocs events = (s', ok) ->
  queues_ok s' /\
  (ok = true <-> batch_fits s events /\
     forall i, (i < length events)%nat -> allocs i = alloc_ok) /\
  (ok = true -> clients s' = clients s /\ pending_events s' = pending_events s + zlen events /\
     forall client, queue_of s' client = queue_of s client ++ stamped_for s client events) /\
  (ok = false -> same_queues s' s).
Proof. apply queue_events_atomically_spec. Qed.

(** C15: event delivery is first-in first-out and exactly once: over any
    sequence of registrations, single and batched queueings (failing or not)
    and pops from the initial state, what a client was sent plus what is still
    queued for it is exactly what was accepted for it, in that order, and the
    counters and limits hold throughout. *)
Theorem events_delivered_in_order client ops s accepted delivered :
  run_ops client initial_queues ops = (s, (accepted, delivered)) ->
  queues_ok s /\ accepted = delivered ++ queue_of s client.
Proof. intros E. exact (run_ops_spec _ _ _ _ _ _ initial_queues_ok E). Qed.

(** ** Witnesses *)

Definition sample_expose (window : Z) : ClientEvent :=
  VisibilityNotify (mkVisibilityNotify window 0 0).

Definition sample_queues : EventQueues :=
  (run_ops 7 initial_queues
     [OpRegister 7; OpRegister 8; OpSequence 7 41; OpQueue 7 (sample_expose 100) alloc_ok]).1.

(** The third push throws after [operator[]] created the queue of client 9:
    the two pushes before it are rolled back. *)
Lemma queue_events_atomically_all_or_nothing_witness :
  exists s', queue_events_atomically sample_queues
      (fun i => if bool_decide (i = 2%nat) then event_alloc_fails else alloc_ok)
      [(7, sample_expose 101); (8, sample_expose 102); (9, sample_expose 103)] = (s', false) /\
    same_queues s' sample_queues.
Proof.
  eexists. split; [vm_compute; reflexivity|].
  refine (proj2 (proj2 (proj2 (queue_events_atomically_all_or_nothing sample_queues
    (fun i => if bool_decide (i = 2%nat) then event_alloc_fails else alloc_ok)
    [(7, sample_expose 101); (8, sample_expose 102); (9, sample_expose 103)] _ false _ _))) eq_refl).
  - refine (proj1 (run_ops_spec 7 [OpRegister 7; OpRegister 8; OpSequence 7 41;
      OpQueue 7 (sample_expose 100) alloc_ok] initial_queues sample_queues
      [stamp_event 41 (sample_expose 100)] [] initial_queues_ok _)).
    vm_compute. reflexivity.
  - vm_compute. reflexivity.
Defined.

Lemma events_delivered_in_order_witness :
  exists s, run_ops 7 initial_queues
      [OpRegister 7; OpSequence 7 5; OpQueue 7 (sample_expose 1) alloc_ok;
       OpQueue 7 (sample_expose 2) alloc_ok; OpPop 7] =
    (s, ([stamp_event 5 (sample_expose 1); stamp_event 5 (sample_expose 2)],
         [stamp_event 5 (sample_expose 1)])) /\
    queues_ok s.
Proof.
  eexists. split; [vm_compute; reflexivity|].
  refine (proj1 (events_delivered_in_order 7
    [OpRegister 7; OpSequence 7 5; OpQueue 7 (sample_expose 1) alloc_ok;
     OpQueue 7 (sample_expose 2) alloc_ok; OpPop 7] _ _ _ _)).
  vm_compute. reflexivity.
Defined.
