(* ===== verification/Grabs.v ===== *)
(** * Passive grabs

    Model of the passive-grab table of [src/src/server/server_state.cpp]:
    [passive_grab_details], [passive_grab_modifiers], [overlaps],
    [append_without], [add_passive_grab], [remove_passive_grab] and the search
    of [route_input_event] that activates a grab. A grab covers a rectangle of
    (detail, modifier) cells, both axes being 256-bit sets; the table is read
    cell by cell. *)
From S2P Require Import Prelude.

(** ** Data *)

Definition maximum_passive_grabs_per_client : Z := 256.

Definition maximum_passive_grabs : Z := 4096.

Definition any_modifier : Z := 0x8000.

Definition all_modifiers_mask : Z := 0x00ff.

Definition minimum_keycode : Z := 8.

Inductive PassiveGrabKind := button_grab | key_grab.

#[export] Instance PassiveGrabKind_eq_dec : EqDecision PassiveGrabKind.
Proof. solve_decision. Defined.

(** [std::bitset<256>]: a 256-bit number. *)
Definition PassiveGrabDomain := Z.

Definition set_bit (z i : Z) : Z := Z.lor z (Z.shiftl 1 i).

Definition reset_bit (z i : Z) : Z := Z.land z (unot 256 (Z.shiftl 1 i)).

Definition none (z : PassiveGrabDomain) : bool := z =? 0.

(** The cursor pointer is an opaque handle. *)
Record PassiveGrab := mkPassiveGrab {
  kind : PassiveGrabKind;
  details : PassiveGrabDomain;
  modifiers : PassiveGrabDomain;
  owner : Z;
  window : Z;
  confine_to : Z;
  event_mask : Z;
  pointer_mode : Z;
  keyboard_mode : Z;
  owner_events : bool;
  cursor : option Z;
  xi2 : bool;
  xi2_event_mask : Z
}.

#[export] Instance PassiveGrab_eta : Eta PassiveGrab := fun g =>
  mkPassiveGrab (kind g) (details g) (modifiers g) (owner g) (window g) (confine_to g)
    (event_mask g) (pointer_mode g) (keyboard_mode g) (owner_events g) (cursor g) (xi2 g)
    (xi2_event_mask g).

Inductive PassiveGrabUpdate := grab_updated | access_denied | resource_exhausted.

(** ** Operations *)

Definition passive_grab_details (kind : PassiveGrabKind) (detail : Z) : PassiveGrabDomain :=
  if negb (detail =? 0) then set_bit 0 detail
  else
    let result := reset_bit (Z.ones 256) 0 in
    match kind with
    | key_grab =>
        foldl (fun result keycode => reset_bit result keycode) result
          (seqZ 1 (minimum_keycode - 1))
    | button_grab => result
    end.

Definition passive_grab_modifiers (modifiers : Z) : PassiveGrabDomain :=
  if modifiers =? any_modifier then Z.ones 256
  else if modifiers <=? all_modifiers_mask then set_bit 0 modifiers
  else 0.

Definition overlaps (grab : PassiveGrab) (ds ms : PassiveGrabDomain) : bool :=
  negb (none (Z.land (details grab) ds)) && negb (none (Z.land (modifiers grab) ms)).

(** [destination.push_back] behind the size check. *)
Definition push_grab (destination : list PassiveGrab) (grab : PassiveGrab)
    : option (list PassiveGrab) :=
  if zlen destination =? maximum_passive_grabs then None
  else Some (destination ++ [grab]).

Definition append_without (destination : list PassiveGrab) (grab : PassiveGrab)
    (removed_details removed_modifiers : PassiveGrabDomain) : option (list PassiveGrab) :=
  let retained_details := Z.land (details grab) (unot 256 removed_details) in
  match
    if negb (none retained_details)
    then push_grab destination (grab <| details := retained_details |>)
    else Some destination
  with
  | None => None
  | Some destination =>
      let intersecting_details := Z.land (details grab) removed_details in
      let retained_modifiers := Z.land (modifiers grab) (unot 256 removed_modifiers) in
      if negb (none intersecting_details) && negb (none retained_modifiers)
      then push_grab destination
             (grab <| details := intersecting_details |> <| modifiers := retained_modifiers |>)
      else Some destination
  end.

(** The test shared by both loops: the entry is the owner's and overlaps. *)
Definition selected (k : PassiveGrabKind) (o w : Z) (ds ms : PassiveGrabDomain)
    (existing : PassiveGrab) : bool :=
  bool_decide (kind existing = k) && (window existing =? w) && (owner existing =? o) &&
  overlaps existing ds ms.

(** The loop that rebuilds the table without the removed cells. *)
Fixpoint revise (k : PassiveGrabKind) (o w : Z) (ds ms : PassiveGrabDomain)
    (grabs revised : list PassiveGrab) : option (list PassiveGrab) :=
  match grabs with
  | [] => Some revised
  | existing :: rest =>
      match
        if selected k o w ds ms existing
        then append_without revised existing ds ms
        else push_grab revised existing
      with
      | None => None
      | Some revised => revise k o w ds ms rest revised
      end
  end.

Definition owner_count (o : Z) (grabs : list PassiveGrab) : Z :=
  zlen (List.filter (fun grab => owner grab =? o) grabs).

Definition add_passive_grab (grabs : list PassiveGrab) (added : PassiveGrab)
    : list PassiveGrab * PassiveGrabUpdate :=
  if none (details added) || none (modifiers added) then (grabs, resource_exhausted)
  else if existsb (fun existing =>
      bool_decide (kind existing = kind added) && (window existing =? window added) &&
      negb (owner existing =? owner added) &&
      overlaps existing (details added) (modifiers added)) grabs
  then (grabs, access_denied)
  else
    match revise (kind added) (owner added) (window added) (details added) (modifiers added)
            grabs [] with
    | None => (grabs, resource_exhausted)
    | Some revised =>
        match push_grab revised added with
        | None => (grabs, resource_exhausted)
        | Some revised =>
            if owner_count (owner added) revised >? maximum_passive_grabs_per_client
            then (grabs, resource_exhausted)
            else (revised, grab_updated)
        end
    end.

Definition remove_passive_grab (grabs : list PassiveGrab) (k : PassiveGrabKind) (o w : Z)
    (ds ms : PassiveGrabDomain) : list PassiveGrab * PassiveGrabUpdate :=
  match revise k o w ds ms grabs [] with
  | None => (grabs, resource_exhausted)
  | Some revised =>
      if owner_count o revised >? maximum_passive_grabs_per_client
      then (grabs, resource_exhausted)
      else (revised, grab_updated)
  end.

(** The sweeps of [erase_window] and [disconnect_client]. *)
Definition erase_window_grabs (grabs : list PassiveGrab) (id : Z) : list PassiveGrab :=
  List.filter (fun grab => negb ((window grab =? id) || (confine_to grab =? id))) grabs.

Definition erase_client_grabs (grabs : list PassiveGrab) (o : Z) : list PassiveGrab :=
  List.filter (fun grab => negb (owner grab =? o)) grabs.

(** The sweeps of [replace_cursor] and [replace_cursor_by_name] over the
    table; [matches] is the test of the cursor, [cursor == destination] for the
    first. *)
Definition replace_grab_cursors (grabs : list PassiveGrab) (matches : option Z -> bool) (source : Z)
    : list PassiveGrab :=
  map (fun grab => if matches (cursor grab) then grab <| cursor := Some source |> else grab) grabs.

(** The search of [route_input_event]: the first grab of the kind whose
    window is the source or, by [inside], an ancestor of it. *)
Definition activated_grab (grabs : list PassiveGrab) (k : PassiveGrabKind) (detail state : Z)
    (inside : Z -> bool) : option PassiveGrab :=
  List.find (fun passive =>
    bool_decide (kind passive = k) && Z.testbit (details passive) detail &&
    Z.testbit (modifiers passive) (Z.land state all_modifiers_mask) &&
    inside (window passive)) grabs.

(** ** Cells

    The meaning of the table: which grab, if any, covers a cell. *)
Record Cell := mkCell { cell_kind : PassiveGrabKind; cell_window : Z; cell_detail : Z; cell_modifier : Z }.

Definition valid_cell (c : Cell) : Prop := 0 <= cell_detail c < 256 /\ 0 <= cell_modifier c < 256.

#[export] Instance valid_cell_dec c : Decision (valid_cell c).
Proof. unfold valid_cell. apply _. Defined.

Definition covers (g : PassiveGrab) (c : Cell) : bool :=
  bool_decide (kind g = cell_kind c) && (window g =? cell_window c) &&
  Z.testbit (details g) (cell_detail c) && Z.testbit (modifiers g) (cell_modifier c).

(** A grab without the cells it covers: what its client asked for. *)
Definition settings (g : PassiveGrab) : PassiveGrab := g <| details := 0 |> <| modifiers := 0 |>.

Definition grab_at (grabs : list PassiveGrab) (c : Cell) : option PassiveGrab :=
  settings <$> List.find (fun g => covers g c) grabs.

Definition domains_ok (g : PassiveGrab) : Prop :=
  is_unsigned 256 (details g) /\ is_unsigned 256 (modifiers g).

#[export] Instance domains_ok_dec g : Decision (domains_ok g).
Proof. unfold domains_ok. apply _. Defined.

(** The table's invariant: no cell is covered twice. *)
Definition exclusive (grabs : list PassiveGrab) : Prop :=
  ForallOrdPairs (fun g h => forall c, valid_cell c -> covers g c && covers h c = false) grabs.

Record grabs_ok (grabs : list PassiveGrab) : Prop := {
  ok_domains : Forall domains_ok grabs;
  ok_exclusive : exclusive grabs;
  ok_size : zlen grabs <= maximum_passive_grabs;
  ok_owner : forall o, owner_count o grabs <= maximum_passive_grabs_per_client
}.

(** ** Lemmas *)

Definition removes (k : PassiveGrabKind) (o w : Z) (ds ms : PassiveGrabDomain)
    (g : PassiveGrab) (c : Cell) : bool :=
  bool_decide (kind g = k) && (window g =? w) && (owner g =? o) &&
  Z.testbit ds (cell_detail c) && Z.testbit ms (cell_modifier c).

Lemma none_spec z : none z = true <-> z = 0.
Proof. apply Z.eqb_eq. Qed.

Lemma none_false z i : Z.testbit z i = true -> none z = false.
Proof.
  intros Hi. apply not_true_iff_false. rewrite none_spec. intros ->.
  by rewrite Z.bits_0 in Hi.
Qed.

Lemma testbit_minus z r i : 0 <= i < 256 ->
  Z.testbit (Z.land z (unot 256 r)) i = Z.testbit z i && negb (Z.testbit r i).
Proof. intros. by rewrite Z.land_spec, testbit_unot. Qed.

(** What becomes of one entry in the rebuilt table. *)
Definition pieces (k : PassiveGrabKind) (o w : Z) (ds ms : PassiveGrabDomain)
    (g : PassiveGrab) : list PassiveGrab :=
  if selected k o w ds ms g then
    (if negb (none (Z.land (details g) (unot 256 ds)))
     then [g <| details := Z.land (details g) (unot 256 ds) |>] else []) ++
    (if negb (none (Z.land (details g) ds)) && negb (none (Z.land (modifiers g) (unot 256 ms)))
     then [g <| details := Z.land (details g) ds |>
             <| modifiers := Z.land (modifiers g) (unot 256 ms) |>] else [])
  else [g].

Lemma push_grab_spec d g d' :
  push_grab d g = Some d' -> d' = d ++ [g] /\ (zlen d <= maximum_passive_grabs -> zlen d' <= maximum_passive_grabs).
Proof.
  unfold push_grab. split_if; [done|]. intros [= <-]. split; [done|].
  autorewrite with zlen. lia.
Qed.

Lemma append_without_spec d g ds ms d' k o w :
  selected k o w ds ms g = true -> append_without d g ds ms = Some d' ->
  d' = d ++ pieces k o w ds ms g /\ (zlen d <= maximum_passive_grabs -> zlen d' <= maximum_passive_grabs).
Proof.
  unfold append_without, pieces. intros ->.
  destruct (negb (none (Z.land (details g) (unot 256 ds)))).
  - destruct (push_grab d _) as [d1|] eqn:E1; [|done]. apply push_grab_spec in E1 as [-> H1].
    destruct (_ && _).
    + intros [-> H2]%push_grab_spec. split; [by rewrite <- app_assoc|auto].
    + intros [= <-]. by rewrite app_nil_r.
  - destruct (_ && _).
    + intros [-> H2]%push_grab_spec. auto.
    + intros [= <-]. by rewrite app_nil_r.
Qed.

Lemma revise_spec k o w ds ms grabs : forall revised result,
  revise k o w ds ms grabs revised = Some result ->
  result = revised ++ flat_map (pieces k o w ds ms) grabs /\
  (zlen revised <= maximum_passive_grabs -> zlen result <= maximum_passive_grabs).
Proof.
  induction grabs as [|g grabs IH]; intros revised result; simpl.
  { intros [= <-]. by rewrite app_nil_r. }
  destruct (selected k o w ds ms g) eqn:Hsel.
  - destruct (append_without revised g ds ms) as [d|] eqn:E; [|done].
    apply (append_without_spec _ _ _ _ _ k o w) in E as [-> H1]; [|done].
    intros [-> H2]%IH. split; [by rewrite app_assoc|auto].
  - destruct (push_grab revised g) as [d|] eqn:E; [|done].
    apply push_grab_spec in E as [-> H1]. intros [-> H2]%IH.
    assert (pieces k o w ds ms g = [g]) as -> by (unfold pieces; by rewrite Hsel).
    split; [by rewrite <- app_assoc|auto].
Qed.

Lemma pieces_inherit k o w ds ms g p :
  In p (pieces k o w ds ms g) ->
  settings p = settings g /\ kind p = kind g /\ window p = window g /\ owner p = owner g /\
  (domains_ok g -> is_unsigned 256 ds -> domains_ok p).
Proof.
  unfold pieces. intros Hin. destruct (selected _ _ _ _ _ _).
  2: { destruct Hin as [<-|[]]. tauto. }
  assert (forall z, is_unsigned 256 z -> forall r, is_unsigned 256 (Z.land z r)) as Hl.
  { intros z Hz r. rewrite Z.land_comm. destruct (Z.le_gt_cases 0 r).
    - by apply is_unsigned_land.
    - apply is_unsigned_bits; [done| |].
      + apply Z.land_nonneg. right. unfold is_unsigned in Hz. lia.
      + intros i Hi. rewrite Z.land_spec, (testbit_unsigned_high 256 z) by done. apply andb_false_r. }
  apply in_app_iff in Hin as [Hin|Hin];
    (match type of Hin with context [if ?b then _ else _] => destruct b end; [|done]);
    destruct Hin as [<-|[]]; split_and!; try done; intros [Hd Hm] Hs; split; simpl; auto.
Qed.

Lemma pieces_cover k o w ds ms g c : valid_cell c ->
  existsb (fun p => covers p c) (pieces k o w ds ms g) = covers g c && negb (removes k o w ds ms g c).
Proof.
  intros [Hd Hm]. apply eq_true_iff_eq.
  unfold pieces. destruct (selected k o w ds ms g) eqn:Hsel.
  - unfold selected, overlaps in Hsel. bool_to_prop.
    match goal with H : kind g = k |- _ => rename H into Hk end.
    unfold covers, removes. simpl.
    rewrite existsb_app, orb_true_iff, andb_true_iff, negb_true_iff.
    rewrite (bool_decide_true (kind g = k)) by done.
    replace (window g =? w) with true by lia. replace (owner g =? o) with true by lia. simpl.
    destruct (bool_decide (kind g = cell_kind c)) eqn:Hck; simpl.
    2: { split; [|by intros [? _]]. repeat case_match; simpl; rewrite ?Hck; simpl; naive_solver. }
    destruct (window g =? cell_window c) eqn:Hcw; simpl.
    2: { split; [|by intros [? _]]. repeat case_match; simpl; rewrite ?Hck, ?Hcw; simpl; naive_solver. }
    pose proof (testbit_minus (details g) ds (cell_detail c) Hd) as E1.
    pose proof (testbit_minus (modifiers g) ms (cell_modifier c) Hm) as E2.
    pose proof (Z.land_spec (details g) ds (cell_detail c)) as E3.
    destruct (none (Z.land (details g) (unot 256 ds))) eqn:N1;
    [apply none_spec in N1; rewrite N1, Z.bits_0 in E1|];
    (destruct (none (Z.land (details g) ds)) eqn:N2;
    [apply none_spec in N2; rewrite N2, Z.bits_0 in E3|]);
    (destruct (none (Z.land (modifiers g) (unot 256 ms))) eqn:N3;
    [apply none_spec in N3; rewrite N3, Z.bits_0 in E2|]);
    simpl; rewrite ?Hck, ?Hcw; simpl; rewrite ?E1, ?E2, ?E3;
    destruct (Z.testbit (details g) (cell_detail c)), (Z.testbit ds (cell_detail c)),
      (Z.testbit (modifiers g) (cell_modifier c)), (Z.testbit ms (cell_modifier c)); simpl in *;
      naive_solver.
  - simpl. rewrite orb_false_r, andb_true_iff, negb_true_iff.
    split; [|tauto]. intros Hc. split; [done|]. apply not_true_iff_false. intros Hr.
    unfold removes in Hr. unfold covers in Hc. bool_to_prop.
    cut (selected k o w ds ms g = true); [congruence|]. unfold selected, overlaps.
    rewrite bool_decide_true by done. replace (window g =? w) with true by lia.
    replace (owner g =? o) with true by lia. simpl.
    rewrite (none_false _ (cell_detail c)), (none_false _ (cell_modifier c)); [done|..];
      rewrite Z.land_spec; by apply andb_true_iff.
Qed.

Lemma covers_piece k o w ds ms g p c : valid_cell c ->
  In p (pieces k o w ds ms g) -> covers p c = true -> covers g c = true.
Proof.
  intros Hc Hin Hp. pose proof (pieces_cover k o w ds ms g c Hc) as E.
  assert (existsb (fun p => covers p c) (pieces k o w ds ms g) = true) as Hex
    by (apply existsb_exists; eauto).
  rewrite Hex in E. symmetry in E. by bool_to_prop.
Qed.

Lemma pieces_exclusive k o w ds ms g : exclusive (pieces k o w ds ms g).
Proof.
  unfold pieces, exclusive. destruct (selected k o w ds ms g); [|repeat constructor].
  destruct (negb _); simpl; [|destruct (_ && _); simpl; repeat constructor].
  destruct (_ && _); simpl; repeat constructor.
  intros c [Hd Hm]. unfold covers. simpl. rewrite testbit_minus, !Z.land_spec by done.
  destruct (Z.testbit ds (cell_detail c)); rewrite ?andb_false_r; simpl; rewrite ?andb_false_r; done.
Qed.

Lemma exclusive_cons g grabs :
  exclusive (g :: grabs) <->
  (forall h c, In h grabs -> valid_cell c -> covers g c = true -> covers h c = false) /\
  exclusive grabs.
Proof.
  unfold exclusive. split.
  - inversion 1 as [|? ? Hg Hr]; subst. split; [|done]. intros h c Hin Hc Hcov.
    rewrite List.Forall_forall in Hg. specialize (Hg h Hin c Hc). by rewrite Hcov in Hg.
  - intros [Hg Hr]. constructor; [|done]. apply List.Forall_forall. intros h Hin c Hc.
    destruct (covers g c) eqn:E; [|done]. by rewrite (Hg h c).
Qed.

Lemma exclusive_app l1 l2 : exclusive l1 -> exclusive l2 ->
  (forall g h c, In g l1 -> In h l2 -> valid_cell c -> covers g c = true -> covers h c = false) ->
  exclusive (l1 ++ l2).
Proof.
  induction l1 as [|g l1 IH]; simpl; intros H1 H2 H12; [done|].
  apply exclusive_cons in H1 as [Hg H1]. apply exclusive_cons. split.
  - intros h c [Hin|Hin]%in_app_iff Hc Hcov; eauto.
  - apply IH; [done..|]. intros; eauto.
Qed.

Lemma exclusive_flat_map k o w ds ms grabs :
  exclusive grabs -> exclusive (flat_map (pieces k o w ds ms) grabs).
Proof.
  induction grabs as [|g grabs IH]; simpl; intros He; [constructor|].
  apply exclusive_cons in He as [Hg He]. apply exclusive_app; [apply pieces_exclusive|by apply IH|].
  intros p h c Hp Hh Hc Hcov. apply in_flat_map in Hh as (g' & Hg' & Hh).
  apply not_true_iff_false. intros Hcov'.
  pose proof (covers_piece _ _ _ _ _ _ _ _ Hc Hp Hcov) as H1.
  pose proof (covers_piece _ _ _ _ _ _ _ _ Hc Hh Hcov') as H2.
  by rewrite (Hg g' c Hg' Hc H1) in H2.
Qed.

Lemma exclusive_filter f grabs : exclusive grabs -> exclusive (List.filter f grabs).
Proof.
  induction grabs as [|g grabs IH]; simpl; [done|]. intros [Hg He]%exclusive_cons.
  destruct (f g); [|by apply IH]. apply exclusive_cons. split; [|by apply IH].
  intros h c [Hin _]%filter_In. by apply Hg.
Qed.

Lemma grab_at_app l1 l2 c :
  grab_at (l1 ++ l2) c = match grab_at l1 c with Some g => Some g | None => grab_at l2 c end.
Proof.
  unfold grab_at. induction l1 as [|g l1 IH]; simpl; [done|]. by destruct (covers g c).
Qed.

Lemma grab_at_existsb l c : grab_at l c = None <-> existsb (fun g => covers g c) l = false.
Proof. unfold grab_at. induction l as [|g l IH]; simpl; [done|]. by destruct (covers g c). Qed.

Lemma grab_at_pieces k o w ds ms g c : valid_cell c ->
  grab_at (pieces k o w ds ms g) c =
  if covers g c && negb (removes k o w ds ms g c) then Some (settings g) else None.
Proof.
  intros Hc. pose proof (pieces_cover k o w ds ms g c Hc) as E.
  destruct (covers g c && _) eqn:Hb.
  - unfold grab_at. destruct (List.find _ _) as [p|] eqn:F.
    + apply find_some in F as [Hin _]. simpl. f_equal. by apply (pieces_inherit k o w ds ms).
    + apply existsb_exists in E as (p & Hin & Hp). by rewrite (find_none _ _ F p Hin) in Hp.
  - by apply grab_at_existsb.
Qed.

(** The rebuilt table read at a cell: what was there, unless the removal takes
    it away. *)
Lemma grab_at_revised k o w ds ms grabs c :
  exclusive grabs -> valid_cell c ->
  grab_at (flat_map (pieces k o w ds ms) grabs) c =
  match grab_at grabs c with
  | Some g => if removes k o w ds ms g c then None else Some g
  | None => None
  end.
Proof.
  intros He Hc. induction grabs as [|g grabs IH]; simpl; [done|].
  apply exclusive_cons in He as [Hg He]. rewrite grab_at_app, grab_at_pieces by done.
  specialize (IH He). unfold grab_at at 2. simpl. destruct (covers g c) eqn:Hcov; simpl.
  - change (removes k o w ds ms (settings g) c) with (removes k o w ds ms g c).
    destruct (removes k o w ds ms g c); simpl; [|done]. rewrite IH.
    assert (grab_at grabs c = None) as ->; [|done].
    apply grab_at_existsb, not_true_iff_false. intros (h & Hin & Hh)%existsb_exists.
    by rewrite (Hg h c) in Hh.
  - fold (grab_at grabs c). exact IH.
Qed.

Lemma owner_count_app o l1 l2 : owner_count o (l1 ++ l2) = owner_count o l1 + owner_count o l2.
Proof. unfold owner_count. by rewrite List.filter_app, zlen_app. Qed.

Lemma owner_count_pieces k o w ds ms grabs o' : o' <> o ->
  owner_count o' (flat_map (pieces k o w ds ms) grabs) = owner_count o' grabs.
Proof.
  intros Ho. induction grabs as [|g grabs IH]; simpl; [done|].
  rewrite owner_count_app, IH. change (g :: grabs) with ([g] ++ grabs).
  rewrite owner_count_app. f_equal.
  unfold pieces. destruct (selected k o w ds ms g) eqn:Hsel; [|done].
  unfold selected in Hsel. bool_to_prop. subst.
  unfold owner_count. simpl. rewrite (proj2 (Z.eqb_neq (owner g) o')) by congruence.
  repeat case_match; simpl; rewrite ?(proj2 (Z.eqb_neq (owner g) o')) by congruence; done.
Qed.

Lemma owner_count_filter f o grabs : owner_count o (List.filter f grabs) <= owner_count o grabs.
Proof.
  unfold owner_count. induction grabs as [|g grabs IH]; simpl; [lia|].
  destruct (f g); simpl; destruct (owner g =? o); autorewrite with zlen; lia.
Qed.

Lemma zlen_filter {A} f (l : list A) : zlen (List.filter f l) <= zlen l.
Proof. induction l; simpl; [lia|]. destruct (f a); autorewrite with zlen; lia. Qed.

Lemma domains_flat_map k o w ds ms grabs :
  Forall domains_ok grabs -> is_unsigned 256 ds -> Forall domains_ok (flat_map (pieces k o w ds ms) grabs).
Proof.
  intros Hd Hs. apply List.Forall_forall. intros p (g & Hg & Hp)%in_flat_map.
  rewrite List.Forall_forall in Hd. apply pieces_inherit in Hp as (_ & _ & _ & _ & Hp). auto.
Qed.

(** Everything the rebuilt table keeps. *)
Lemma revised_ok k o w ds ms grabs revised :
  grabs_ok grabs -> is_unsigned 256 ds ->
  revise k o w ds ms grabs [] = Some revised ->
  revised = flat_map (pieces k o w ds ms) grabs /\
  Forall domains_ok revised /\ exclusive revised /\ zlen revised <= maximum_passive_grabs /\
  forall o', o' <> o -> owner_count o' revised <= maximum_passive_grabs_per_client.
Proof.
  intros [H1 H2 H3 H4] Hs [-> Hlen]%revise_spec. simpl in *. split_and!; [done|..].
  - by apply domains_flat_map.
  - by apply exclusive_flat_map.
  - apply Hlen. cbv. done.
  - intros o' Ho. rewrite owner_count_pieces by done. apply H4.
Qed.

(** ** What the operations do *)

Lemma conflict_spec grabs added :
  existsb (fun existing =>
      bool_decide (kind existing = kind added) && (window existing =? window added) &&
      negb (owner existing =? owner added) &&
      overlaps existing (details added) (modifiers added)) grabs = false ->
  forall h c, In h grabs -> valid_cell c -> covers added c = true -> covers h c = true ->
    owner h = owner added.
Proof.
  intros Hex h c Hin Hc Ha Hh. apply not_true_iff_false in Hex.
  destruct (Z.eqb_spec (owner h) (owner added)) as [|Hne]; [done|]. exfalso. apply Hex.
  apply existsb_exists. exists h. split; [done|]. unfold covers in Ha, Hh. bool_to_prop.
  unfold overlaps. rewrite bool_decide_true by congruence.
  replace (window h =? window added) with true by lia.
  replace (owner h =? owner added) with false by lia. simpl.
  rewrite (none_false _ (cell_detail c)), (none_false _ (cell_modifier c)); [done|..];
    rewrite Z.land_spec; by apply andb_true_iff.
Qed.

(** Once a request raises no conflict, the rebuilt table is empty at its cells. *)
Lemma revised_free grabs added c :
  exclusive grabs ->
  (forall h, In h grabs -> covers h c = true -> owner h = owner added) ->
  valid_cell c -> covers added c = true ->
  grab_at (flat_map (pieces (kind added) (owner added) (window added) (details added)
    (modifiers added)) grabs) c = None.
Proof.
  intros He Hconf Hc Ha. rewrite grab_at_revised by done.
  unfold grab_at. destruct (List.find (fun g => covers g c) grabs) as [h|] eqn:G; [|done].
  apply find_some in G as [Hin Hh]. simpl.
  cut (removes (kind added) (owner added) (window added) (details added) (modifiers added)
    (settings h) c = true); [by intros ->|].
  pose proof (Hconf h Hin Hh) as Ho. unfold covers in Ha, Hh. bool_to_prop.
  unfold removes. simpl. rewrite bool_decide_true by congruence.
  replace (window h =? window added) with true by lia.
  replace (owner h =? owner added) with true by lia. by apply andb_true_iff.
Qed.

(** A request removes nothing outside its cells. *)
Lemma removes_outside grabs added g c :
  covers added c = false -> grab_at grabs c = Some g ->
  removes (kind added) (owner added) (window added) (details added) (modifiers added) g c = false.
Proof.
  intros Ha G. apply not_true_iff_false. intros Hr. apply not_true_iff_false in Ha. apply Ha.
  unfold grab_at in G. destruct (List.find _ grabs) as [h|] eqn:F; [|done].
  apply find_some in F as [_ Hh]. simplify_eq/=. unfold removes in Hr. unfold covers in Hh |- *.
  simpl in Hr. bool_to_prop. rewrite bool_decide_true by congruence.
  replace (window added =? cell_window c) with true by lia. by apply andb_true_iff.
Qed.

Lemma exclusive_snoc grabs added :
  exclusive grabs ->
  (forall c, valid_cell c -> covers added c = true -> grab_at grabs c = None) ->
  exclusive (grabs ++ [added]).
Proof.
  intros He Hfree. apply exclusive_app; [done|repeat constructor|].
  intros g h c Hin [<-|[]] Hc Hg. apply not_true_iff_false. intros Ha.
  apply Hfree, grab_at_existsb, not_true_iff_false in Ha; [|done]. apply Ha.
  apply existsb_exists. eauto.
Qed.

Lemma add_passive_grab_spec grabs added grabs' update :
  grabs_ok grabs -> domains_ok added -> add_passive_grab grabs added = (grabs', update) ->
  grabs_ok grabs' /\
  (update <> grab_updated -> grabs' = grabs) /\
  (update = grab_updated -> forall c, valid_cell c ->
     grab_at grabs' c = if covers added c then Some (settings added) else grab_at grabs c).
Proof.
  intros Hok Hadd. unfold add_passive_grab.
  split_if; [by intros [= <- <-]|].
  destruct (existsb _ grabs) eqn:Hex; [by intros [= <- <-]|].
  destruct (revise _ _ _ _ _ grabs []) as [revised|] eqn:Hrev; [|by intros [= <- <-]].
  destruct (push_grab revised added) as [pushed|] eqn:Hpush; [|by intros [= <- <-]].
  destruct (_ >? _) eqn:Hcount; [by intros [= <- <-]|]. intros [= <- <-]. bool_to_prop.
  apply push_grab_spec in Hpush as [-> Hlen].
  destruct (revised_ok _ _ _ _ _ _ _ Hok (proj1 Hadd) Hrev) as (-> & H1 & H2 & H3 & H4).
  pose proof (fun c Hc Ha => revised_free grabs added c (ok_exclusive _ Hok)
    (fun h Hin => conflict_spec grabs added Hex h c Hin Hc Ha) Hc Ha) as Hfree.
  split_and!; [| done|].
  - split; [apply Forall_app_2; [done|by constructor]|by apply exclusive_snoc|auto|].
    intros o. destruct (decide (o = owner added)) as [->|Hne]; [lia|].
    rewrite owner_count_app. specialize (H4 o Hne). unfold owner_count at 2. simpl.
    rewrite (proj2 (Z.eqb_neq (owner added) o)) by congruence. rewrite zlen_nil. lia.
  - intros _ c Hc. rewrite grab_at_app. destruct (covers added c) eqn:Ha.
    + rewrite Hfree by done. unfold grab_at. simpl. by rewrite Ha.
    + rewrite grab_at_revised by (done || apply Hok).
      unfold grab_at at 2. simpl. rewrite Ha. simpl.
      destruct (grab_at grabs c) as [g|] eqn:G; [|done].
      by rewrite (removes_outside grabs).
Qed.

Lemma remove_passive_grab_spec grabs k o w ds ms grabs' update :
  grabs_ok grabs -> is_unsigned 256 ds -> remove_passive_grab grabs k o w ds ms = (grabs', update) ->
  grabs_ok grabs' /\
  (update <> grab_updated -> grabs' = grabs) /\
  (update = grab_updated -> forall c, valid_cell c ->
     grab_at grabs' c =
       match grab_at grabs c with
       | Some g => if removes k o w ds ms g c then None else Some g
       | None => None
       end).
Proof.
  intros Hok Hs. unfold remove_passive_grab.
  destruct (revise k o w ds ms grabs []) as [revised|] eqn:Hrev; [|by intros [= <- <-]].
  destruct (_ >? _) eqn:Hcount; [by intros [= <- <-]|]. intros [= <- <-].
  destruct (revised_ok _ _ _ _ _ _ _ Hok Hs Hrev) as (-> & H1 & H2 & H3 & H4).
  bool_to_prop. split_and!; [|done|].
  - split; [done..|]. intros o'. destruct (decide (o' = o)) as [->|]; [lia|auto].
  - intros _ c Hc. apply grab_at_revised; [apply Hok|done].
Qed.

(** ** The table as a map from cells to grabs

    What clients can observe of the table: at each cell the grab, if any, that
    holds it. [GrabRequest] are the operations that change the table. *)
Inductive GrabRequest :=
  | request_add (added : PassiveGrab)
  | request_remove (k : PassiveGrabKind) (o w : Z) (ds ms : PassiveGrabDomain)
  | request_erase_window (id : Z)
  | request_erase_client (o : Z)
  | request_cursors (matches : option Z -> bool) (source : Z).

Definition request_ok (q : GrabRequest) : Prop :=
  match q with
  | request_add added => domains_ok added
  | request_remove _ _ _ ds _ => is_unsigned 256 ds
  | _ => True
  end.

Definition run_request (grabs : list PassiveGrab) (q : GrabRequest)
    : list PassiveGrab * PassiveGrabUpdate :=
  match q with
  | request_add added => add_passive_grab grabs added
  | request_remove k o w ds ms => remove_passive_grab grabs k o w ds ms
  | request_erase_window id => (erase_window_grabs grabs id, grab_updated)
  | request_erase_client o => (erase_client_grabs grabs o, grab_updated)
  | request_cursors matches source => (replace_grab_cursors grabs matches source, grab_updated)
  end.

Definition GrabMap := Cell -> option PassiveGrab.

Definition no_grabs : GrabMap := fun _ => None.

(** The request asks for a cell that another client holds. *)
Definition conflicts (T : GrabMap) (q : GrabRequest) : Prop :=
  match q with
  | request_add added => exists c g,
      valid_cell c /\ covers added c = true /\ T c = Some g /\ owner g <> owner added
  | _ => False
  end.

(** The map when the request is granted. *)
Definition granted (T : GrabMap) (q : GrabRequest) : GrabMap := fun c =>
  match q with
  | request_add added => if covers added c then Some (settings added) else T c
  | request_remove k o w ds ms =>
      match T c with Some g => if removes k o w ds ms g c then None else Some g | None => None end
  | request_erase_window id =>
      match T c with
      | Some g => if (window g =? id) || (confine_to g =? id) then None else Some g
      | None => None
      end
  | request_erase_client o =>
      match T c with Some g => if owner g =? o then None else Some g | None => None end
  | request_cursors matches source =>
      (fun g => if matches (cursor g) then g <| cursor := Some source |> else g) <$> T c
  end.

(** The specification: a request is denied exactly when it conflicts; adding
    and removing may find the table full. *)
Inductive spec_step (T : GrabMap) : GrabRequest -> PassiveGrabUpdate -> GrabMap -> Prop :=
| spec_denied q : conflicts T q -> spec_step T q access_denied T
| spec_exhausted_add added :
    ~ conflicts T (request_add added) -> spec_step T (request_add added) resource_exhausted T
| spec_exhausted_remove k o w ds ms : spec_step T (request_remove k o w ds ms) resource_exhausted T
| spec_granted q : ~ conflicts T q -> spec_step T q grab_updated (granted T q).

Definition grab_step (grabs : list PassiveGrab) (q : GrabRequest) (u : PassiveGrabUpdate)
    (grabs' : list PassiveGrab) : Prop :=
  run_request grabs q = (grabs', u).

(** A history: the requests with their answers. *)
Inductive history {S : Type} (step : S -> GrabRequest -> PassiveGrabUpdate -> S -> Prop)
    : S -> list (GrabRequest * PassiveGrabUpdate) -> S -> Prop :=
| history_nil s : history step s [] s
| history_cons s q u s' log s'' :
    step s q u s' -> history step s' log s'' -> history step s ((q, u) :: log) s''.

Definition agrees (grabs : list PassiveGrab) (T : GrabMap) : Prop :=
  forall c, valid_cell c -> grab_at grabs c = T c.

(** Room for every entry to be split in two and one more. *)
Definition roomy (grabs : list PassiveGrab) (q : GrabRequest) : Prop :=
  match q with
  | request_add added =>
      details added <> 0 /\ modifiers added <> 0 /\
      2 * zlen grabs + 1 <= maximum_passive_grabs /\
      2 * owner_count (owner added) grabs + 1 <= maximum_passive_grabs_per_client
  | request_remove _ o _ _ _ =>
      2 * zlen grabs <= maximum_passive_grabs /\
      2 * owner_count o grabs <= maximum_passive_grabs_per_client
  | _ => True
  end.

Lemma find_covering grabs h c :
  exclusive grabs -> valid_cell c -> In h grabs -> covers h c = true ->
  grab_at grabs c = Some (settings h).
Proof.
  intros He Hc Hin Hh. unfold grab_at. induction grabs as [|g grabs IH]; [done|].
  apply exclusive_cons in He as [Hg He]. simpl. destruct (covers g c) eqn:Hcov.
  - destruct Hin as [->|Hin]; [done|]. by rewrite (Hg h c Hin Hc Hcov) in Hh.
  - destruct Hin as [->|Hin]; [congruence|by apply IH].
Qed.

(** A filter on the settings of the entries filters every cell; that the first
    entry of a cell is the only one is what makes this so. *)
Lemma grab_at_filter f grabs c :
  (forall g, f (settings g) = f g) -> exclusive grabs -> valid_cell c ->
  grab_at (List.filter f grabs) c =
  match grab_at grabs c with Some g => if f g then Some g else None | None => None end.
Proof.
  intros Hf He Hc. induction grabs as [|g grabs IH]; [done|].
  apply exclusive_cons in He as [Hg He]. specialize (IH He). unfold grab_at in *. simpl.
  destruct (f g) eqn:Hfg; simpl; destruct (covers g c) eqn:Hcov; simpl; rewrite ?Hf, ?Hfg; try done.
  destruct (List.find _ (List.filter f grabs)) as [h|] eqn:F; [|done].
  apply find_some in F as [[Hin _]%filter_In Hh]. by rewrite (Hg h c Hin Hc Hcov) in Hh.
Qed.

Lemma grab_at_map F grabs c :
  (forall g, covers (F g) c = covers g c) -> (forall g, settings (F g) = F (settings g)) ->
  grab_at (map F grabs) c = F <$> grab_at grabs c.
Proof.
  intros Hc Hs. unfold grab_at. induction grabs as [|g grabs IH]; [done|]. simpl. rewrite Hc.
  destruct (covers g c); simpl; [by rewrite Hs|done].
Qed.

Lemma grabs_ok_filter f grabs : grabs_ok grabs -> grabs_ok (List.filter f grabs).
Proof.
  intros [H1 H2 H3 H4]. split.
  - apply List.Forall_forall. intros g [Hin _]%filter_In. by eapply List.Forall_forall in H1.
  - by apply exclusive_filter.
  - etransitivity; [apply zlen_filter|done].
  - intros o. etransitivity; [apply owner_count_filter|done].
Qed.

Lemma grabs_ok_map F grabs :
  (forall g, domains_ok g -> domains_ok (F g)) -> (forall g c, covers (F g) c = covers g c) ->
  (forall g, owner (F g) = owner g) -> grabs_ok grabs -> grabs_ok (map F grabs).
Proof.
  intros Hd Hc Ho [H1 H2 H3 H4]. split.
  - apply Forall_fmap. eapply Forall_impl; [exact H1|done].
  - clear -H2 Hc. induction grabs as [|g grabs IH]; [constructor|].
    apply exclusive_cons in H2 as [Hg He]. apply exclusive_cons. split; [|by apply IH].
    intros h c (h' & <- & Hin)%in_map_iff Hcell. rewrite !Hc. by apply Hg.
  - unfold zlen in *. by rewrite length_map.
  - intros o. rewrite <- (H4 o) at 1. unfold owner_count. clear -Ho.
    induction grabs as [|g grabs IH]; simpl; [done|]. rewrite Ho.
    destruct (owner g =? o); autorewrite with zlen; lia.
Qed.

(** Overlapping sets of bits share a bit. *)
Lemma shared_bit a b : is_unsigned 256 b -> Z.land a b <> 0 ->
  exists i, 0 <= i < 256 /\ Z.testbit a i = true /\ Z.testbit b i = true.
Proof.
  intros Hb Hne. destruct (Z.eq_dec (Z.land a b) 0) as [|_]; [done|].
  assert (0 <= Z.land a b) as Hpos by (apply Z.land_nonneg; right; unfold is_unsigned in Hb; lia).
  assert (Z.testbit (Z.land a b) (Z.log2 (Z.land a b)) = true) as Hbit by (apply Z.bit_log2; lia).
  rewrite Z.land_spec in Hbit. apply andb_true_iff in Hbit as [Ha Hbb].
  exists (Z.log2 (Z.land a b)). split_and!; [apply Z.log2_nonneg| |done|done].
  destruct (Z.ltb_spec (Z.log2 (Z.land a b)) 256); [done|].
  by rewrite (testbit_unsigned_high 256 b) in Hbb.
Qed.

(** The first loop of [add_passive_grab] finds exactly the conflicts. *)
Lemma conflict_found grabs T added :
  grabs_ok grabs -> agrees grabs T -> domains_ok added ->
  existsb (fun existing =>
      bool_decide (kind existing = kind added) && (window existing =? window added) &&
      negb (owner existing =? owner added) &&
      overlaps existing (details added) (modifiers added)) grabs = true <->
  conflicts T (request_add added).
Proof.
  intros Hok HT [Hd Hm]. split.
  - intros (h & Hin & Hh)%existsb_exists. unfold overlaps in Hh. bool_to_prop.
    match goal with H : none (Z.land (details h) _) = false |- _ => rename H into Nd end.
    match goal with H : none (Z.land (modifiers h) _) = false |- _ => rename H into Nm end.
    destruct (shared_bit (details h) (details added) Hd) as (d & Hdr & Hd1 & Hd2).
    { intros E. apply none_spec in E. congruence. }
    destruct (shared_bit (modifiers h) (modifiers added) Hm) as (m & Hmr & Hm1 & Hm2).
    { intros E. apply none_spec in E. congruence. }
    exists (mkCell (kind added) (window added) d m), (settings h).
    assert (valid_cell (mkCell (kind added) (window added) d m)) as Hc by by split.
    split_and!; [done| | |done].
    + unfold covers. simpl. by rewrite bool_decide_true, Z.eqb_refl, Hd2, Hm2.
    + rewrite <- HT by done. apply find_covering; [apply Hok|done|done|]. unfold covers. simpl.
      rewrite bool_decide_true, (proj2 (Z.eqb_eq _ _)), Hd1, Hm1 by done. done.
  - intros (c & g & Hc & Ha & Hg & Ho). rewrite <- HT in Hg by done. unfold grab_at in Hg.
    destruct (List.find _ grabs) as [h|] eqn:F; [|done]. simplify_eq/=.
    apply find_some in F as [Hin Hh]. apply not_false_iff_true. intros Hex. apply Ho.
    by apply (conflict_spec grabs added Hex h c).
Qed.

Lemma grab_step_simulated grabs q u grabs' T :
  grabs_ok grabs -> agrees grabs T -> request_ok q -> grab_step grabs q u grabs' ->
  exists T', spec_step T q u T' /\ grabs_ok grabs' /\ agrees grabs' T'.
Proof.
  unfold grab_step. intros Hok HT Hq Hrun.
  destruct q as [added|k o w ds ms|id|o|matches source]; simpl in *; [| |simplify_eq..].
  - destruct (add_passive_grab_spec _ _ _ _ Hok Hq Hrun) as (Hok' & Hsame & Hnew).
    pose proof (conflict_found grabs T added Hok HT Hq) as Hconf.
    destruct u; [exists (granted T (request_add added))|exists T..].
    + split_and!; [|done|].
      * apply spec_granted. rewrite <- Hconf. intros Hex. unfold add_passive_grab in Hrun.
        rewrite Hex in Hrun. by destruct (none _ || _).
      * intros c Hc. rewrite Hnew, HT by done. done.
    + rewrite Hsame by done. split_and!; [|done..]. apply spec_denied, Hconf.
      unfold add_passive_grab in Hrun. destruct (none _ || _); [done|].
      destruct (existsb _ grabs); [done|]. repeat case_match; simplify_eq.
    + rewrite Hsame by done. split_and!; [|done..]. apply spec_exhausted_add. intros Hc.
      pose proof Hc as Hex%Hconf. unfold add_passive_grab in Hrun. rewrite Hex in Hrun.
      destruct (none _ || _) eqn:Hn; [|done]. destruct Hc as (c & g & _ & Hcov & _).
      unfold covers in Hcov. bool_to_prop.
      destruct Hn as [Hn|Hn]; apply none_spec in Hn;
        match goal with H : Z.testbit ?z _ = true |- _ => rewrite Hn, Z.bits_0 in H; done end.
  - destruct (remove_passive_grab_spec _ _ _ _ _ _ _ _ Hok Hq Hrun) as (Hok' & Hsame & Hnew).
    destruct u; [exists (granted T (request_remove k o w ds ms))|exists T..].
    + split_and!; [by apply spec_granted; intros []|done|]. intros c Hc. rewrite Hnew, HT by done. done.
    + unfold remove_passive_grab in Hrun. repeat case_match; simplify_eq.
    + rewrite Hsame by done. split_and!; [|done..]. apply spec_exhausted_remove.
  - exists (granted T (request_erase_window id)). split_and!; [by apply spec_granted; intros []|by apply grabs_ok_filter|].
    intros c Hc. simpl. rewrite <- HT by done. unfold erase_window_grabs.
    rewrite grab_at_filter by (done || apply Hok). destruct (grab_at grabs c) as [g|]; [|done].
    by destruct (_ || _).
  - exists (granted T (request_erase_client o)). split_and!; [by apply spec_granted; intros []|by apply grabs_ok_filter|].
    intros c Hc. simpl. rewrite <- HT by done. unfold erase_client_grabs.
    rewrite grab_at_filter by (done || apply Hok). destruct (grab_at grabs c) as [g|]; [|done].
    by destruct (owner g =? o).
  - exists (granted T (request_cursors matches source)). split_and!; [by apply spec_granted; intros []| |].
    + apply grabs_ok_map; [intros g Hg|intros g c|intros g|done]; by destruct (matches (cursor g)).
    + intros c Hc. simpl. rewrite <- HT by done. unfold replace_grab_cursors.
      apply grab_at_map; intros g; simpl; by destruct (matches (cursor g)).
Qed.

Lemma empty_grabs_ok : grabs_ok [].
Proof. split; [constructor|constructor|by cbv|by intros; cbv]. Qed.

Lemma history_simulated grabs log grabs' T :
  grabs_ok grabs -> agrees grabs T -> Forall (fun entry => request_ok entry.1) log ->
  history grab_step grabs log grabs' ->
  exists T', history spec_step T log T' /\ grabs_ok grabs' /\ agrees grabs' T'.
Proof.
  intros Hok HT Hlog Hrun. revert T HT.
  induction Hrun as [grabs|grabs q u grabs1 log grabs2 Hstep Hrun IH]; intros T HT.
  { exists T. by split_and!; [constructor|..]. }
  apply Forall_cons in Hlog as [Hq Hlog].
  destruct (grab_step_simulated _ _ _ _ _ Hok HT Hq Hstep) as (T1 & Hs & Hok1 & HT1).
  destruct (IH Hok1 Hlog T1 HT1) as (T2 & Hh & ? & ?). exists T2.
  split_and!; [by econstructor|done..].
Qed.

Lemma activated_grab_spec grabs T k detail state inside :
  grabs_ok grabs -> agrees grabs T -> 0 <= detail < 256 ->
  let cell w := mkCell k w detail (Z.land state all_modifiers_mask) in
  match activated_grab grabs k detail state inside with
  | Some g => inside (window g) = true /\ T (cell (window g)) = Some (settings g)
  | None => forall w, inside w = true -> T (cell w) = None
  end.
Proof.
  intros Hok HT Hd cell.
  assert (forall w, valid_cell (cell w)) as Hc.
  { intros w. split; [done|]. simpl. change all_modifiers_mask with (Z.ones 8).
    rewrite Z.land_ones by done. pose proof (Z.mod_pos_bound state (2 ^ 8)). lia. }
  unfold activated_grab. destruct (List.find _ grabs) as [g|] eqn:F.
  - apply find_some in F as [Hin Hg]. bool_to_prop. split; [done|]. rewrite <- HT by done.
    apply find_covering; [apply Hok|done|done|]. unfold covers. simpl.
    rewrite bool_decide_true, Z.eqb_refl by done. by apply andb_true_iff.
  - intros w Hw. rewrite <- HT by done. apply grab_at_existsb, not_true_iff_false.
    intros (g & Hin & Hg)%existsb_exists. unfold covers in Hg. simpl in Hg. bool_to_prop.
    pose proof (find_none _ _ F g Hin) as Hn. simpl in Hn.
    apply not_true_iff_false in Hn. apply Hn. rewrite bool_decide_true by done.
    repeat (apply andb_true_iff; split); try done. by subst.
Qed.

(** ** Room in the table *)

Lemma pieces_length k o w ds ms g : zlen (pieces k o w ds ms g) <= 2.
Proof. unfold pieces. repeat case_match; simpl; autorewrite with zlen; lia. Qed.

Lemma append_without_room d g ds ms :
  zlen d + 2 <= maximum_passive_grabs -> is_Some (append_without d g ds ms).
Proof.
  intros Hd. unfold append_without, push_grab.
  repeat match goal with |- context [if ?b then _ else _] =>
    let E := fresh "E" in destruct b eqn:E; bool_to_prop end;
    eauto; autorewrite with zlen in *; lia.
Qed.

Lemma revise_room k o w ds ms grabs : forall revised,
  zlen revised + 2 * zlen grabs <= maximum_passive_grabs ->
  is_Some (revise k o w ds ms grabs revised).
Proof.
  induction grabs as [|g grabs IH]; intros revised Hr; simpl; [eauto|].
  rewrite zlen_cons in Hr. pose proof (zlen_nonneg grabs).
  destruct (selected k o w ds ms g) eqn:Hsel.
  - destruct (append_without_room revised g ds ms) as [d Hd]; [lia|]. rewrite Hd.
    apply (append_without_spec _ _ _ _ _ k o w) in Hd as [-> _]; [|done]. apply IH.
    pose proof (pieces_length k o w ds ms g). rewrite zlen_app. lia.
  - unfold push_grab. split_if; [lia|]. apply IH. autorewrite with zlen. lia.
Qed.

Lemma owner_count_split k o w ds ms grabs o' :
  owner_count o' (flat_map (pieces k o w ds ms) grabs) <= 2 * owner_count o' grabs.
Proof.
  induction grabs as [|g grabs IH]; simpl; [done|]. rewrite owner_count_app.
  change (g :: grabs) with ([g] ++ grabs). rewrite owner_count_app.
  cut (owner_count o' (pieces k o w ds ms g) <= 2 * owner_count o' [g]); [lia|].
  unfold pieces, owner_count. repeat case_match; simpl; destruct (owner g =? o'); autorewrite with zlen; simpl; lia.
Qed.

Lemma length_split k o w ds ms grabs :
  zlen (flat_map (pieces k o w ds ms) grabs) <= 2 * zlen grabs.
Proof.
  induction grabs as [|g grabs IH]; simpl; [done|]. rewrite zlen_app, zlen_cons.
  pose proof (pieces_length k o w ds ms g). lia.
Qed.

Lemma roomy_granted grabs T q :
  grabs_ok grabs -> agrees grabs T -> request_ok q -> ~ conflicts T q -> roomy grabs q ->
  (run_request grabs q).2 = grab_updated.
Proof.
  intros Hok HT Hq Hconf Hroom. destruct q as [added|k o w ds ms|id|o|matches source]; try done; simpl in *.
  - destruct Hroom as (Hd & Hm & Hn & Ho). unfold add_passive_grab, none.
    rewrite (proj2 (Z.eqb_neq _ _) Hd), (proj2 (Z.eqb_neq _ _) Hm). cbn [orb].
    rewrite <- (conflict_found grabs T added) in Hconf by done. apply not_true_iff_false in Hconf. rewrite Hconf.
    destruct (revise_room (kind added) (owner added) (window added) (details added) (modifiers added) grabs [])
      as [revised Hr]; [rewrite zlen_nil; lia|]. rewrite Hr. apply revise_spec in Hr as [-> _]. simpl app.
    pose proof (length_split (kind added) (owner added) (window added) (details added) (modifiers added) grabs).
    pose proof (owner_count_split (kind added) (owner added) (window added) (details added) (modifiers added)
      grabs (owner added)).
    unfold push_grab. split_if; [lia|]. rewrite owner_count_app. unfold owner_count at 2. simpl.
    rewrite Z.eqb_refl. autorewrite with zlen. split_if; [lia|done].
  - destruct Hroom as [Hn Ho]. unfold remove_passive_grab.
    destruct (revise_room k o w ds ms grabs []) as [revised Hr]; [rewrite zlen_nil; lia|].
    rewrite Hr. apply revise_spec in Hr as [-> _]. simpl app.
    pose proof (owner_count_split k o w ds ms grabs o). split_if; [lia|done].
Qed.

Lemma any_details k :
  passive_grab_details k 0 = Z.lxor (Z.ones 256)
    (match k with key_grab => Z.ones minimum_keycode | button_grab => Z.ones 1 end).
Proof. by destruct k; vm_compute. Qed.

(** The detail set of a request: the detail itself, or for zero every button,
    respectively every keycode. *)
Lemma passive_grab_details_spec k detail d :
  is_unsigned 8 detail -> is_unsigned 8 d ->
  Z.testbit (passive_grab_details k detail) d = true <->
  if detail =? 0 then (match k with key_grab => minimum_keycode | button_grab => 1 end) <= d
  else d = detail.
Proof.
  intros Hdet Hd. unfold is_unsigned in *. destruct (Z.eqb_spec detail 0) as [->|Hne].
  - rewrite any_details, Z.lxor_spec, Z.ones_spec_low by lia.
    unfold minimum_keycode. destruct k; rewrite Z.testbit_ones by lia;
    match goal with |- context [d <? ?n] => destruct (Z.ltb_spec d n) end;
    destruct (Z.leb_spec 0 d); simpl; split; intros; try done; lia.
  - unfold passive_grab_details, set_bit. rewrite (proj2 (Z.eqb_neq detail 0)) by done. cbn [negb]. rewrite Z.lor_0_l.
    rewrite Z.shiftl_1_l, Z.pow2_bits_eqb by lia. rewrite Z.eqb_eq. split; congruence.
Qed.

(** ** Properties *)

(** C16: adding a passive grab keeps the table's invariant, and when it
    answers updated, the table reads as before at every (kind, window, detail,
    modifier) cell except that the cells of the new grab now read the new
    grab; when it refuses, the table is unchanged. *)
Theorem add_passive_grab_correct grabs added grabs' update :
  grabs_ok grabs -> domains_ok added -> add_passive_grab grabs added = (grabs', update) ->
  grabs_ok grabs' /\
  (update <> grab_updated -> grabs' = grabs) /\
  (update = grab_updated -> forall c, valid_cell c ->
     grab_at grabs' c = if covers added c then Some (settings added) else grab_at grabs c).
Proof. apply add_passive_grab_spec. Qed.

(** C17: removing passive grabs keeps the table's invariant, and when it
    answers updated, exactly the cells of the request that the client owns
    become empty: every other cell reads as before. *)
Theorem remove_passive_grab_correct grabs k o w ds ms grabs' update :
  grabs_ok grabs -> is_unsigned 256 ds -> remove_passive_grab grabs k o w ds ms = (grabs', update) ->
  grabs_ok grabs' /\
  (update <> grab_updated -> grabs' = grabs) /\
  (update = grab_updated -> forall c, valid_cell c ->
     grab_at grabs' c =
       match grab_at grabs c with
       | Some g => if removes k o w ds ms g c then None else Some g
       | None => None
       end).
Proof. apply remove_passive_grab_spec. Qed.

(** C18: the table refines a map from cells to grabs: over every history of
    grab requests, sweeps and cursor changes the specification gives the same
    answers, a request being denied exactly when another client holds one of
    its cells, and afterwards the table reads as the map at every cell. The
    grab a key or button activates is the one the map has at its cell for one
    of the windows asked for, and there is none exactly when all those cells
    are free. A request without conflict that has room is granted. *)
Theorem passive_grabs_refine log grabs :
  Forall (fun entry => request_ok entry.1) log -> history grab_step [] log grabs ->
  exists T, history spec_step no_grabs log T /\ grabs_ok grabs /\ agrees grabs T /\
    (forall k detail state inside, 0 <= detail < 256 ->
       let cell w := mkCell k w detail (Z.land state all_modifiers_mask) in
       match activated_grab grabs k detail state inside with
       | Some g => inside (window g) = true /\ T (cell (window g)) = Some (settings g)
       | None => forall w, inside w = true -> T (cell w) = None
       end) /\
    (forall q, request_ok q -> ~ conflicts T q -> roomy grabs q ->
       (run_request grabs q).2 = grab_updated).
Proof.
  intros Hlog Hrun.
  destruct (history_simulated [] log grabs no_grabs) as (T & HT & Hok & Hag); [apply empty_grabs_ok|done..|].
  exists T. split_and!; [done..| |].
  - intros k detail state inside Hd. by apply activated_grab_spec.
  - intros q. by apply roomy_granted.
Qed.

(** ** Witnesses *)

Definition sample_grab (o w detail modifiers : Z) : PassiveGrab :=
  mkPassiveGrab key_grab (passive_grab_details key_grab detail)
    (passive_grab_modifiers modifiers) o w 0 0 1 1 false None false 0.

Lemma single_grab_ok g : domains_ok g -> grabs_ok [g].
Proof.
  intros Hg. split; [by apply Forall_singleton|repeat constructor|by cbv|].
  intros o. unfold owner_count. simpl. by destruct (_ =? _).
Qed.

(** The client of an any-key grab replaces one key of it. *)
Lemma add_passive_grab_correct_witness :
  exists grabs', add_passive_grab [sample_grab 5 100 0 0x8000] (sample_grab 5 100 40 4)
      = (grabs', grab_updated) /\ length grabs' = 3%nat /\ grabs_ok grabs'.
Proof.
  eexists. split; [vm_compute; reflexivity|]. split; [reflexivity|].
  refine (proj1 (add_passive_grab_correct [sample_grab 5 100 0 0x8000] (sample_grab 5 100 40 4)
    _ grab_updated _ _ _)).
  - apply single_grab_ok. by_computation.
  - by_computation.
  - vm_compute. reflexivity.
Defined.

Lemma remove_passive_grab_correct_witness :
  exists grabs', remove_passive_grab [sample_grab 5 100 0 0x8000] key_grab 5 100
      (passive_grab_details key_grab 40) (passive_grab_modifiers 4)
      = (grabs', grab_updated) /\ length grabs' = 2%nat /\ grabs_ok grabs'.
Proof.
  eexists. split; [vm_compute; reflexivity|]. split; [reflexivity|].
  refine (proj1 (remove_passive_grab_correct [sample_grab 5 100 0 0x8000] key_grab 5 100
    (passive_grab_details key_grab 40) (passive_grab_modifiers 4) _ grab_updated _ _ _)).
  - apply single_grab_ok. by_computation.
  - by_computation.
  - vm_compute. reflexivity.
Defined.

(** Client 5 grabs every key with any modifiers, client 6 is refused one of
    them, and once client 5 has gone, is granted it. *)
Definition sample_history : list (GrabRequest * PassiveGrabUpdate) :=
  [(request_add (sample_grab 5 100 0 0x8000), grab_updated);
   (request_add (sample_grab 6 100 40 4), access_denied);
   (request_erase_client 5, grab_updated);
   (request_add (sample_grab 6 100 40 4), grab_updated)].

Lemma passive_grabs_refine_witness :
  exists T, history spec_step no_grabs sample_history T /\
    T (mkCell key_grab 100 40 4) = Some (settings (sample_grab 6 100 40 4)).
Proof.
  destruct (passive_grabs_refine sample_history [sample_grab 6 100 40 4]) as (T & HT & _ & _ & Ha & _).
  - repeat constructor; by_computation.
  - repeat (eapply history_cons; [vm_compute; reflexivity|]). constructor.
  - exists T. split; [exact HT|].
    exact (proj2 (Ha key_grab 40 4 (fun w => w =? 100) ltac:(lia))).
Defined.
