(* ===== verification/Sync.v ===== *)
(** * SYNC counters, alarms, fences and awaits

    Model of the SYNC state of [src/src/server/server_state.cpp]:
    [sync_trigger_fired], [advance_alarm] with its 64-bit arithmetic,
    [update_sync_counter] and the operations on alarms, fences and awaits.
    Events leave through an [EventSink]. Where the source catches
    [std::bad_alloc] the operation takes a [Memory] that says whether planning
    the events or storing the record fails. *)
From S2P Require Import Prelude.
From S2P Require Import Checked.
From S2P Require Import Events.
From S2P Require Import EventSink.
From S2P Require Import EventQueue.
From S2P Require Import Resources.

(** ** Data *)

Definition maximum_sync_wait_conditions : Z := 256.

Inductive SyncTestType :=
  positive_transition | negative_transition | positive_comparison | negative_comparison.

#[export] Instance SyncTestType_eq_dec : EqDecision SyncTestType.
Proof. solve_decision. Defined.

Record SyncTrigger := mkTrigger {
  trigger_counter : Z;
  wait_value : Z;
  test_value : Z;
  value_type : Z;
  test_type : SyncTestType
}.

#[export] Instance SyncTrigger_eta : Eta SyncTrigger := fun t =>
  mkTrigger (trigger_counter t) (wait_value t) (test_value t) (value_type t) (test_type t).

Record SyncCounterRecord := mkCounter { counter_id : Z; counter_value : Z }.

#[export] Instance SyncCounterRecord_eta : Eta SyncCounterRecord := fun c =>
  mkCounter (counter_id c) (counter_value c).

Record SyncAlarmRecord := mkAlarm {
  alarm_id : Z;
  alarm_owner : Z;
  trigger : SyncTrigger;
  delta : Z;
  event_clients : list Z;
  state : Z
}.

#[export] Instance SyncAlarmRecord_eta : Eta SyncAlarmRecord := fun a =>
  mkAlarm (alarm_id a) (alarm_owner a) (trigger a) (delta a) (event_clients a) (state a).

Record SyncFenceRecord := mkFence { fence_id : Z; triggered : bool }.

#[export] Instance SyncFenceRecord_eta : Eta SyncFenceRecord := fun f =>
  mkFence (fence_id f) (triggered f).

Record SyncWaitCondition := mkCondition { condition_trigger : SyncTrigger; event_threshold : Z }.

Inductive SyncUpdate := updated | invalid | sync_exhausted | queue_full.

(** ** Triggers and alarms *)

Definition sync_trigger_fired (t : SyncTrigger) (old_value new_value : Z) : bool :=
  match test_type t with
  | positive_transition => (old_value <? test_value t) && (new_value >=? test_value t)
  | negative_transition => (old_value >? test_value t) && (new_value <=? test_value t)
  | positive_comparison => new_value >=? test_value t
  | negative_comparison => new_value <=? test_value t
  end.

Definition signed_from_bits (bits : Z) : Z :=
  if bits <=? u64 (smax 64) then i64 bits
  else i64 (-1 - i64 (u64 (umax 64 - bits))).

Definition nonnegative_distance (greater lesser : Z) : Z := u64 (u64 greater - u64 lesser).

Definition alarm_active : Z := 0.

Definition alarm_inactive : Z := 1.

(** The pair [AdvancedAlarm]: the next test value and the state. *)
Definition advance_alarm (alarm : SyncAlarmRecord) (counter_value : Z) : Z * Z :=
  let t := trigger alarm in
  if negb (state alarm =? alarm_active) then (test_value t, state alarm)
  else if (delta alarm =? 0) &&
      (bool_decide (test_type t = positive_comparison) ||
       bool_decide (test_type t = negative_comparison))
  then (test_value t, alarm_inactive)
  else if bool_decide (test_type t = positive_transition) ||
      bool_decide (test_type t = negative_transition)
  then
    match checked_add Signed 64 (test_value t) (delta alarm) with
    | Some next => (next, alarm_active)
    | None => (test_value t, alarm_inactive)
    end
  else
    let positive := bool_decide (test_type t = positive_comparison) in
    let magnitude := if positive then u64 (delta alarm) else u64 (0 - u64 (delta alarm)) in
    if magnitude =? 0 then (test_value t, alarm_inactive)
    else
      let distance :=
        if positive then nonnegative_distance counter_value (test_value t)
        else nonnegative_distance (test_value t) counter_value in
      let quotient := distance / magnitude in
      if quotient =? umax 64 then (test_value t, alarm_inactive)
      else
        let steps := u64 (quotient + 1) in
        if steps >? umax 64 / magnitude then (test_value t, alarm_inactive)
        else
          let movement := u64 (steps * magnitude) in
          let available :=
            if positive then nonnegative_distance (smax 64) (test_value t)
            else nonnegative_distance (test_value t) (smin 64) in
          if movement >? available then (test_value t, alarm_inactive)
          else
            let bits :=
              if positive then u64 (u64 (test_value t) + movement)
              else u64 (u64 (test_value t) - movement) in
            (signed_from_bits bits, alarm_active).

Definition sync_notification_eligible (condition : SyncWaitCondition) (value : Z) : bool :=
  match checked_subtract Signed 64 value (test_value (condition_trigger condition)) with
  | None => false
  | Some difference =>
      let positive :=
        bool_decide (test_type (condition_trigger condition) = positive_transition) ||
        bool_decide (test_type (condition_trigger condition) = positive_comparison) in
      if positive then difference >=? event_threshold condition
      else difference <=? event_threshold condition
  end.

(** ** The arithmetic of [advance_alarm] *)

(** The alarm's ideal next test value: for a comparison, the first value
    [test + k * delta] past the counter; for a transition one step of
    [delta]. *)
Definition is_comparison (t : SyncTestType) : bool :=
  match t with
  | positive_comparison | negative_comparison => true
  | positive_transition | negative_transition => false
  end.

Definition next_test_value (alarm : SyncAlarmRecord) (counter_value : Z) : Z :=
  let t := test_value (trigger alarm) in
  if is_comparison (test_type (trigger alarm))
  then t + ((counter_value - t) / delta alarm + 1) * delta alarm
  else t + delta alarm.

(** The protocol's restriction on the sign of [delta], which the request
    handlers check. *)
Definition delta_direction (alarm : SyncAlarmRecord) : Prop :=
  match test_type (trigger alarm) with
  | positive_comparison => 0 <= delta alarm
  | negative_comparison => delta alarm <= 0
  | positive_transition | negative_transition => True
  end.

#[export] Instance delta_direction_dec alarm : Decision (delta_direction alarm).
Proof. unfold delta_direction. destruct (test_type (trigger alarm)); apply _. Defined.

Record alarm_values_ok (alarm : SyncAlarmRecord) : Prop := {
  ok_test : is_signed 64 (test_value (trigger alarm));
  ok_delta : is_signed 64 (delta alarm);
  ok_direction : delta_direction alarm
}.

Lemma u64_difference a b :
  is_signed 64 a -> is_signed 64 b -> b <= a -> nonnegative_distance a b = a - b.
Proof.
  intros Ha Hb Hle. unfold nonnegative_distance, wrap. rewrite <- Zminus_mod.
  apply Z.mod_small. unfold is_signed in *. lia.
Qed.

Lemma signed_from_bits_spec z : is_signed 64 z -> signed_from_bits (u64 z) = z.
Proof.
  intros Hz. unfold signed_from_bits. rewrite (wrap_id 64 (smax 64)) by by_computation.
  unfold is_signed in Hz. change (2 ^ (64 - 1)) with 9223372036854775808 in Hz.
  unfold smax. change (2 ^ (64 - 1) - 1) with 9223372036854775807.
  destruct (Z.leb_spec 0 z) as [Hpos|Hneg].
  - rewrite wrap_id by (unfold is_unsigned; lia).
    replace (z <=? 9223372036854775807) with true by lia.
    apply swrap_id; [done|]. unfold is_signed. lia.
  - assert (u64 z = z + 2 ^ 64) as ->.
    { unfold wrap. rewrite <- (Z.mod_small (z + 2 ^ 64) (2 ^ 64)) by lia.
      rewrite <- (Z.mul_1_l (2 ^ 64)) at 2. by rewrite Z_mod_plus_full. }
    replace (z + 2 ^ 64 <=? 9223372036854775807) with false by lia.
    unfold umax. rewrite (wrap_id 64) by (unfold is_unsigned; lia).
    rewrite (swrap_id 64 (2 ^ 64 - 1 - (z + 2 ^ 64))) by (unfold is_signed; lia).
    rewrite swrap_id; [lia|done|unfold is_signed; lia].
Qed.

(** The core of the two comparison branches: [distance] and [available] are
    exact, and the overflow guards only trigger when the ideal movement does
    not fit. *)
Lemma alarm_movement distance magnitude available :
  0 <= distance < 2 ^ 64 -> 0 < magnitude < 2 ^ 64 -> 0 <= available < 2 ^ 64 ->
  let movement := (distance / magnitude + 1) * magnitude in
  (movement <= available ->
    (distance / magnitude =? umax 64) = false /\
    (u64 (distance / magnitude + 1) >? umax 64 / magnitude) = false /\
    u64 (u64 (distance / magnitude + 1) * magnitude) = movement) /\
  (available < movement ->
    (distance / magnitude =? umax 64) = true \/
    (u64 (distance / magnitude + 1) >? umax 64 / magnitude) = true \/
    (u64 (u64 (distance / magnitude + 1) * magnitude) >? available) = true).
Proof.
  intros Hd Hm Ha movement. unfold umax.
  assert (0 <= distance / magnitude) as Hq0 by (apply Z.div_pos; lia).
  assert (distance / magnitude <= distance) as Hqd.
  { apply Z.div_le_upper_bound; nia. }
  pose proof (Z.mul_div_le (2 ^ 64 - 1) magnitude ltac:(lia)) as Hdiv.
  pose proof (Z.mul_succ_div_gt (2 ^ 64 - 1) magnitude ltac:(lia)) as Hdiv2.
  subst movement. set (q := distance / magnitude) in *. set (u := (2 ^ 64 - 1) / magnitude) in *.
  destruct (Z.eqb_spec q (2 ^ 64 - 1)) as [Hmax|Hmax].
  { split; [nia|by left]. }
  rewrite (wrap_id 64 (q + 1)) by (unfold is_unsigned; lia).
  destruct (Z.gtb_spec (q + 1) u) as [Hgt|Hle].
  { split; [nia|by right; left]. }
  rewrite (wrap_id 64) by (unfold is_unsigned; nia).
  split; [done|]. intros. right. right. rewrite Z.gtb_ltb. by apply Z.ltb_lt.
Qed.

Lemma advance_comparison_positive alarm v :
  state alarm = alarm_active -> alarm_values_ok alarm -> is_signed 64 v ->
  test_type (trigger alarm) = positive_comparison -> delta alarm <> 0 ->
  test_value (trigger alarm) <= v ->
  advance_alarm alarm v =
    let next := next_test_value alarm v in
    if decide (is_signed 64 next) then (next, alarm_active)
    else (test_value (trigger alarm), alarm_inactive).
Proof.
  intros Hs [Ht Hd Hdir] Hv Hty Hne Hle. unfold delta_direction in Hdir. rewrite Hty in Hdir.
  unfold advance_alarm, next_test_value. rewrite Hs, Hty. simpl.
  rewrite (proj2 (Z.eqb_neq _ _) Hne). simpl.
  set (t := test_value (trigger alarm)) in *. set (d := delta alarm) in *.
  rewrite (wrap_id 64 d) by (unfold is_unsigned, is_signed in *; lia).
  rewrite (proj2 (Z.eqb_neq _ _) Hne), !u64_difference
    by (done || (unfold is_signed, smax in *; lia)).
  destruct (alarm_movement (v - t) d (smax 64 - t)) as [Hfit Hover];
    [unfold is_signed, smax in *; lia..|].
  case_decide as Hnext.
  - destruct Hfit as (-> & -> & ->); [unfold is_signed, smax in *; lia|].
    replace (_ >? smax 64 - t) with false by (unfold is_signed, smax in *; lia).
    by rewrite wrap_add_l, signed_from_bits_spec.
  - assert (0 <= (v - t) / d) by (apply Z.div_pos; lia).
    destruct Hover as [->|[->| ->]]; [unfold is_signed, smax in *; nia|done|..];
      repeat split_if; done.
Qed.

Lemma advance_comparison_negative alarm v :
  state alarm = alarm_active -> alarm_values_ok alarm -> is_signed 64 v ->
  test_type (trigger alarm) = negative_comparison -> delta alarm <> 0 ->
  v <= test_value (trigger alarm) ->
  advance_alarm alarm v =
    let next := next_test_value alarm v in
    if decide (is_signed 64 next) then (next, alarm_active)
    else (test_value (trigger alarm), alarm_inactive).
Proof.
  intros Hs [Ht Hd Hdir] Hv Hty Hne Hle. unfold delta_direction in Hdir. rewrite Hty in Hdir.
  unfold advance_alarm, next_test_value. rewrite Hs, Hty. simpl.
  rewrite (proj2 (Z.eqb_neq _ _) Hne). simpl.
  set (t := test_value (trigger alarm)) in *. set (d := delta alarm) in *.
  assert (u64 (0 - u64 d) = - d) as ->.
  { unfold wrap. rewrite Zminus_mod_idemp_r. apply Z.mod_small. unfold is_signed in *. lia. }
  replace (- d =? 0) with false by lia.
  rewrite !u64_difference by (done || (unfold is_signed, smin in *; lia)).
  assert ((v - t) / d = (t - v) / - d) as ->
    by (rewrite <- (Z.div_opp_opp (t - v)) by lia; f_equal; lia).
  destruct (alarm_movement (t - v) (- d) (t - smin 64)) as [Hfit Hover];
    [unfold is_signed, smin in *; lia..|].
  assert (t + ((t - v) / - d + 1) * d = t - ((t - v) / - d + 1) * - d) as -> by lia.
  case_decide as Hnext.
  - destruct Hfit as (-> & -> & ->); [unfold is_signed, smin in *; lia|].
    replace (_ >? t - smin 64) with false by (unfold is_signed, smin in *; lia).
    by rewrite wrap_sub_l, signed_from_bits_spec.
  - assert (0 <= (t - v) / - d) by (apply Z.div_pos; lia).
    destruct Hover as [->|[->| ->]]; [unfold is_signed, smin in *; nia|done|..];
      repeat split_if; done.
Qed.

Lemma advance_alarm_spec alarm v :
  state alarm = alarm_active -> alarm_values_ok alarm -> is_signed 64 v ->
  (is_comparison (test_type (trigger alarm)) = true ->
    sync_trigger_fired (trigger alarm) v v = true) ->
  advance_alarm alarm v =
    let next := next_test_value alarm v in
    if decide (is_signed 64 next /\ (is_comparison (test_type (trigger alarm)) = true -> delta alarm <> 0))
    then (next, alarm_active)
    else (test_value (trigger alarm), alarm_inactive).
Proof.
  intros Hs Hok Hv Hfired. unfold sync_trigger_fired in Hfired.
  destruct (test_type (trigger alarm)) eqn:Hty; simpl in *.
  1, 2: unfold advance_alarm, next_test_value; rewrite Hs, Hty, andb_false_r; cbn -[checked_add];
    destruct Hok; rewrite checked_add_exact by done; unfold in_type;
    repeat case_decide; naive_solver.
  all: specialize (Hfired eq_refl); bool_to_prop;
    (destruct (Z.eq_dec (delta alarm) 0) as [H0|H0];
     [unfold advance_alarm; rewrite Hs, Hty, H0; simpl; rewrite decide_False; [done|naive_solver]|]).
  - rewrite advance_comparison_positive by (done || lia). cbv zeta.
    repeat case_decide; naive_solver.
  - rewrite advance_comparison_negative by (done || lia). cbv zeta.
    repeat case_decide; naive_solver.
Qed.

(** The next test value of a comparison no longer fires, and the one before
    it would have. *)
Lemma next_test_value_least alarm v :
  alarm_values_ok alarm -> is_comparison (test_type (trigger alarm)) = true ->
  delta alarm <> 0 ->
  sync_trigger_fired ((trigger alarm) <| test_value := next_test_value alarm v |>) v v = false /\
  sync_trigger_fired ((trigger alarm) <| test_value := next_test_value alarm v - delta alarm |>) v v = true.
Proof.
  intros [_ _ Hdir] Hc Hne. unfold next_test_value, sync_trigger_fired, delta_direction in *.
  rewrite Hc. simpl. set (t := test_value (trigger alarm)). set (d := delta alarm) in *.
  destruct (test_type (trigger alarm)); try done; simpl in *.
  - pose proof (Z.mul_div_le (v - t) d ltac:(lia)).
    pose proof (Z.mul_succ_div_gt (v - t) d ltac:(lia)). split; lia.
  - pose proof (Z.mul_div_ge (v - t) d ltac:(lia)).
    pose proof (Z.mul_succ_div_lt (v - t) d ltac:(lia)). split; lia.
Qed.

(** ** State *)

Section Sync.
Context {Q : Type} `{EventSinkLaws Q}.

Record SyncState := mkSync {
  sync_counters : gmap Z SyncCounterRecord;
  sync_alarms : gmap Z SyncAlarmRecord;
  sync_fences : gmap Z SyncFenceRecord;
  sync_counter_waits : gmap Z (list SyncWaitCondition);
  sync_fence_waits : gmap Z (list Z);
  resources : gmap Z ResourceRecord;
  queues : Q;
  current_time : Z
}.

#[export] Instance SyncState_eta : Eta SyncState := fun s =>
  mkSync (sync_counters s) (sync_alarms s) (sync_fences s) (sync_counter_waits s)
    (sync_fence_waits s) (resources s) (queues s) (current_time s).

Definition sync_counter (s : SyncState) (id : Z) : option SyncCounterRecord := sync_counters s !! id.

Definition sync_alarm (s : SyncState) (id : Z) : option SyncAlarmRecord := sync_alarms s !! id.

Definition sync_fence (s : SyncState) (id : Z) : option SyncFenceRecord := sync_fences s !! id.

Definition add_sync_counter (s : SyncState) (mem : Memory) (counter : SyncCounterRecord) (owner : Z)
    : SyncState * bool :=
  let id := counter_id counter in
  let '(inserted, registry) := insert_resource id Resources.sync_counter owner (resources s) in
  if negb inserted then (s, false)
  else if store_fails mem then (s <| resources := (erase_resource id registry).2 |>, false)
  else match sync_counters s !! id with
  | Some _ => (s <| resources := (erase_resource id registry).2 |>, false)
  | None =>
      (s <| resources := registry |>
         <| sync_counters := <[id := counter]> (sync_counters s) |>, true)
  end.

(** The events appended by [append_sync_alarm_event]. *)
Definition sync_alarm_events (s : SyncState) (alarm : SyncAlarmRecord)
    (counter_value alarm_value state : Z) : list PlannedEvent :=
  map (fun client => (client, SyncAlarmNotify
         (mkSyncAlarmNotify (alarm_id alarm) counter_value alarm_value (current_time s) state 0)))
    (event_clients alarm).

(** One turn of the alarm loop of [update_sync_counter]: the revised alarm
    and its events, or nothing on [continue]. *)
Definition revise_alarm (s : SyncState) (counter : SyncCounterRecord) (value : Z)
    (destroying : bool) (alarm : SyncAlarmRecord) : option (SyncAlarmRecord * list PlannedEvent) :=
  let old_value := counter_value counter in
  if negb (trigger_counter (trigger alarm) =? counter_id counter) then None
  else if destroying then
    Some (alarm <| state := 1 |> <| trigger := (trigger alarm) <| trigger_counter := 0 |> |>,
          sync_alarm_events s alarm old_value (test_value (trigger alarm)) 1)
  else if negb (sync_trigger_fired (trigger alarm) old_value value) then None
  else
    let '(next_value, next_state) := advance_alarm alarm value in
    Some (alarm <| trigger := (trigger alarm) <| test_value := next_value |> |>
                <| state := next_state |>,
          sync_alarm_events s alarm value (test_value (trigger alarm)) next_state).

(** The counter value a condition is judged by; nothing when its counter is
    gone. *)
Definition condition_value (s : SyncState) (counter : SyncCounterRecord) (value : Z)
    (destroying : bool) (condition : SyncWaitCondition) : option Z :=
  if trigger_counter (condition_trigger condition) =? counter_id counter
  then Some (if destroying then counter_value counter else value)
  else counter_value <$> sync_counter s (trigger_counter (condition_trigger condition)).

Definition notification (s : SyncState) (condition : SyncWaitCondition) (current : Z)
    (destroyed : bool) : SyncCounterNotifyEvent :=
  mkSyncCounterNotify (trigger_counter (condition_trigger condition))
    (test_value (condition_trigger condition)) current (current_time s) 0 destroyed 0.

(** One turn of the inner notification loop. *)
Definition condition_notification (s : SyncState) (counter : SyncCounterRecord) (value : Z)
    (destroying : bool) (condition : SyncWaitCondition) : option SyncCounterNotifyEvent :=
  let destroyed :=
    destroying && (trigger_counter (condition_trigger condition) =? counter_id counter) in
  match condition_value s counter value destroying condition with
  | None => None
  | Some current =>
      if negb destroyed && negb (sync_notification_eligible condition current) then None
      else Some (notification s condition current destroyed)
  end.

(** The loop that fills in the number of notifications still to come. *)
Fixpoint number_notifications (client : Z) (notifications : list SyncCounterNotifyEvent)
    : list PlannedEvent :=
  match notifications with
  | [] => []
  | n :: rest =>
      (client, SyncCounterNotify (n <| scn_count := u16 (zlen rest) |>))
        :: number_notifications client rest
  end.

Definition condition_fires (counter : SyncCounterRecord) (value : Z) (destroying : bool)
    (condition : SyncWaitCondition) : bool :=
  (trigger_counter (condition_trigger condition) =? counter_id counter) &&
  (destroying || sync_trigger_fired (condition_trigger condition) (counter_value counter) value).

(** One turn of the await loop: the events of a completed wait. *)
Definition complete_wait (s : SyncState) (counter : SyncCounterRecord) (value : Z)
    (destroying : bool) (client : Z) (conditions : list SyncWaitCondition)
    : option (list PlannedEvent) :=
  if negb (existsb (condition_fires counter value destroying) conditions) then None
  else Some (number_notifications client
         (omap (condition_notification s counter value destroying) conditions)).

Definition revised_alarms (s : SyncState) (counter : SyncCounterRecord) (value : Z)
    (destroying : bool) : list (SyncAlarmRecord * list PlannedEvent) :=
  omap (fun entry => revise_alarm s counter value destroying entry.2) (map_to_list (sync_alarms s)).

Definition completed_waits (s : SyncState) (counter : SyncCounterRecord) (value : Z)
    (destroying : bool) : list (Z * list PlannedEvent) :=
  omap (fun entry => pair entry.1 <$> complete_wait s counter value destroying entry.1 entry.2)
    (map_to_list (sync_counter_waits s)).

(** The write-back of a revised alarm. *)
Definition store_alarm (alarms : gmap Z SyncAlarmRecord) (alarm : SyncAlarmRecord)
    : gmap Z SyncAlarmRecord :=
  store_by alarm_id alarms alarm.

(** [counter] is a reference into [sync_counters]. *)
Definition update_sync_counter (s : SyncState) (mem : Memory) (counter : SyncCounterRecord)
    (value : Z) (destroying : bool) : SyncState * SyncUpdate :=
  let alarms := revised_alarms s counter value destroying in
  let waits := completed_waits s counter value destroying in
  let events := concat (map snd alarms) ++ concat (map snd waits) in
  if plan_fails mem then (s, sync_exhausted)
  else
  let '(q, ok) := sink_batch (queues s) (pushes mem) events in
  let s := s <| queues := q |> in
  if negb ok then (s, queue_full)
  else
    let s := s <| sync_alarms := foldl store_alarm (sync_alarms s) (map fst alarms) |> in
    let s := s <| sync_counter_waits :=
      foldl (fun m client => delete client m) (sync_counter_waits s) (map fst waits) |> in
    (if destroying then s
     else s <| sync_counters :=
       <[counter_id counter := counter <| counter_value := value |>]> (sync_counters s) |>, updated).

Definition set_sync_counter (s : SyncState) (mem : Memory) (counter : SyncCounterRecord)
    (value : Z) : SyncState * SyncUpdate :=
  update_sync_counter s mem counter value false.

Definition erase_sync_counter (s : SyncState) (mem : Memory) (id : Z) : SyncState * SyncUpdate :=
  match sync_counters s !! id with
  | None => (s, invalid)
  | Some counter =>
      let '(s, result) := update_sync_counter s mem counter 0 true in
      match result with
      | updated =>
          (s <| sync_counters := delete id (sync_counters s) |>
             <| resources := (erase_resource id (resources s)).2 |>, updated)
      | _ => (s, result)
      end
  end.

(** The evaluation at the head of [commit_sync_alarm]. *)
Definition evaluate_alarm (s : SyncState) (alarm : SyncAlarmRecord)
    : SyncAlarmRecord * list PlannedEvent :=
  let counter := sync_counter s (trigger_counter (trigger alarm)) in
  let alarm := alarm <| state := match counter with None => 1 | Some _ => 0 end |> in
  match counter with
  | None => (alarm, [])
  | Some counter =>
      if sync_trigger_fired (trigger alarm) (counter_value counter) (counter_value counter) then
        let alarm_value := test_value (trigger alarm) in
        let '(next_value, next_state) := advance_alarm alarm (counter_value counter) in
        (alarm <| trigger := (trigger alarm) <| test_value := next_value |> |> <| state := next_state |>,
         sync_alarm_events s alarm (counter_value counter) alarm_value next_state)
      else (alarm, [])
  end.

Definition commit_sync_alarm (s : SyncState) (mem : Memory) (alarm : SyncAlarmRecord)
    (creating : bool) : SyncState * SyncUpdate :=
  let '(alarm, events) := evaluate_alarm s alarm in
  let id := alarm_id alarm in
  let created :=
    if creating then
      let '(inserted, registry) :=
        insert_resource id Resources.sync_alarm (alarm_owner alarm) (resources s) in
      if negb inserted then inr (s, invalid)
      else if store_fails mem then
        inr (s <| resources := (erase_resource id registry).2 |>, sync_exhausted)
      else match sync_alarms s !! id with
      | Some _ => inr (s <| resources := (erase_resource id registry).2 |>, invalid)
      | None => inl (s <| resources := registry |>
                       <| sync_alarms := <[id := alarm]> (sync_alarms s) |>)
      end
    else inl s in
  if negb (bool_decide (events = [])) && plan_fails mem then (s, sync_exhausted)
  else match created with
  | inr refused => refused
  | inl s1 =>
      let '(q, ok) := sink_batch (queues s1) (pushes mem) events in
      let s1 := s1 <| queues := q |> in
      if negb ok then
        (if creating
         then s1 <| sync_alarms := delete id (sync_alarms s1) |>
                 <| resources := (erase_resource id (resources s1)).2 |>
         else s1, queue_full)
      else match sync_alarms s1 !! id with
      | None => (s1, invalid)
      | Some _ => (s1 <| sync_alarms := <[id := alarm]> (sync_alarms s1) |>, updated)
      end
  end.

Definition add_sync_alarm (s : SyncState) (mem : Memory) (alarm : SyncAlarmRecord) (owner : Z)
    : SyncState * SyncUpdate :=
  commit_sync_alarm s mem (alarm <| alarm_owner := owner |>) true.

Definition change_sync_alarm (s : SyncState) (mem : Memory) (alarm : SyncAlarmRecord)
    : SyncState * SyncUpdate :=
  match sync_alarm s (alarm_id alarm) with
  | None => (s, invalid)
  | Some _ => commit_sync_alarm s mem alarm false
  end.

Definition erase_sync_alarm (s : SyncState) (mem : Memory) (id : Z) : SyncState * SyncUpdate :=
  match sync_alarms s !! id with
  | None => (s, invalid)
  | Some alarm =>
      let events :=
        match sync_counter s (trigger_counter (trigger alarm)) with
        | Some counter => sync_alarm_events s alarm (counter_value counter) (test_value (trigger alarm)) 2
        | None => []
        end in
      if negb (bool_decide (events = [])) && plan_fails mem then (s, sync_exhausted)
      else
      let '(q, ok) := sink_batch (queues s) (pushes mem) events in
      let s := s <| queues := q |> in
      if negb ok then (s, queue_full)
      else (s <| sync_alarms := delete id (sync_alarms s) |>
              <| resources := (erase_resource id (resources s)).2 |>, updated)
  end.

(** ** Fences *)

Definition add_sync_fence (s : SyncState) (mem : Memory) (fence : SyncFenceRecord) (owner : Z)
    : SyncState * bool :=
  let id := fence_id fence in
  let '(inserted, registry) := insert_resource id Resources.sync_fence owner (resources s) in
  if negb inserted then (s, false)
  else if store_fails mem then (s <| resources := (erase_resource id registry).2 |>, false)
  else match sync_fences s !! id with
  | Some _ => (s <| resources := (erase_resource id registry).2 |>, false)
  | None => (s <| resources := registry |> <| sync_fences := <[id := fence]> (sync_fences s) |>, true)
  end.

(** The loop that erases every wait on the fence. *)
Definition release_fence_waits (s : SyncState) (id : Z) : SyncState :=
  s <| sync_fence_waits := erase_if (fun _ fences => existsb (Z.eqb id) fences) (sync_fence_waits s) |>.

Definition trigger_sync_fence (s : SyncState) (id : Z) : SyncState * SyncUpdate :=
  match sync_fence s id with
  | None => (s, invalid)
  | Some fence =>
      (release_fence_waits
         (s <| sync_fences := <[id := fence <| triggered := true |>]> (sync_fences s) |>) id, updated)
  end.

Definition reset_sync_fence (s : SyncState) (id : Z) : SyncState * bool :=
  match sync_fence s id with
  | None => (s, false)
  | Some fence =>
      if negb (triggered fence) then (s, false)
      else (s <| sync_fences := <[id := fence <| triggered := false |>]> (sync_fences s) |>, true)
  end.

Definition erase_sync_fence (s : SyncState) (id : Z) : SyncState * SyncUpdate :=
  match sync_fence s id with
  | None => (s, invalid)
  | Some _ =>
      let s := release_fence_waits s id in
      (s <| sync_fences := delete id (sync_fences s) |>
         <| resources := (erase_resource id (resources s)).2 |>, updated)
  end.

(** ** Awaits *)

Definition sync_waiting (s : SyncState) (client : Z) : bool :=
  bool_decide (is_Some (sync_counter_waits s !! client)) ||
  bool_decide (is_Some (sync_fence_waits s !! client)).

(** The validation loop: [None] when a counter does not exist, otherwise
    whether some condition fires at once. *)
Fixpoint scan_conditions (s : SyncState) (conditions : list SyncWaitCondition) (fired : bool)
    : option bool :=
  match conditions with
  | [] => Some fired
  | condition :: rest =>
      match sync_counter s (trigger_counter (condition_trigger condition)) with
      | None => None
      | Some counter =>
          scan_conditions s rest
            (if sync_trigger_fired (condition_trigger condition)
                  (counter_value counter) (counter_value counter)
             then true else fired)
      end
  end.

Definition immediate_notification (s : SyncState) (condition : SyncWaitCondition)
    : option SyncCounterNotifyEvent :=
  match sync_counter s (trigger_counter (condition_trigger condition)) with
  | Some counter =>
      if sync_notification_eligible condition (counter_value counter)
      then Some ((notification s condition (counter_value counter) false)
                   <| scn_counter := counter_id counter |>)
      else None
  | None => None
  end.

Definition begin_sync_counter_await (s : SyncState) (mem : Memory) (client : Z)
    (conditions : list SyncWaitCondition) : SyncState * SyncUpdate :=
  if bool_decide (conditions = []) || (zlen conditions >? maximum_sync_wait_conditions) ||
     sync_waiting s client
  then (s, invalid)
  else match scan_conditions s conditions false with
  | None => (s, invalid)
  | Some true =>
      if plan_fails mem then (s, sync_exhausted)
      else
      let '(q, ok) := sink_batch (queues s) (pushes mem)
        (number_notifications client (omap (immediate_notification s) conditions)) in
      (s <| queues := q |>, if ok then updated else queue_full)
  | Some false =>
      if store_fails mem then (s, sync_exhausted)
      else (s <| sync_counter_waits := <[client := conditions]> (sync_counter_waits s) |>, updated)
  end.

(** The loop over the fences: invalid, already satisfied, or wait. *)
Fixpoint scan_fences (s : SyncState) (fences : list Z) : option bool :=
  match fences with
  | [] => Some false
  | id :: rest =>
      match sync_fence s id with
      | None => None
      | Some fence => if triggered fence then Some true else scan_fences s rest
      end
  end.

Definition begin_sync_fence_await (s : SyncState) (mem : Memory) (client : Z) (fences : list Z)
    : SyncState * SyncUpdate :=
  if bool_decide (fences = []) || (zlen fences >? maximum_sync_wait_conditions) ||
     sync_waiting s client
  then (s, invalid)
  else match scan_fences s fences with
  | None => (s, invalid)
  | Some true => (s, updated)
  | Some false =>
      if store_fails mem then (s, sync_exhausted)
      else (s <| sync_fence_waits := <[client := fences]> (sync_fence_waits s) |>, updated)
  end.

(** ** Invariant *)

(** The trigger's counter exists and the trigger does not hold now. *)
Definition quiet (counters : gmap Z SyncCounterRecord) (t : SyncTrigger) : Prop :=
  exists counter, counters !! trigger_counter t = Some counter /\
    sync_trigger_fired t (counter_value counter) (counter_value counter) = false.

Definition untriggered (fences : gmap Z SyncFenceRecord) (id : Z) : Prop :=
  exists fence, fences !! id = Some fence /\ triggered fence = false.

(** Every map is keyed by its records' identifiers, an active alarm's trigger
    does not hold, and a blocked client waits for something that has not
    happened. *)
Record sync_ok (s : SyncState) : Prop := {
  ok_queues : sink_ok (queues s);
  ok_counters : forall id counter, sync_counters s !! id = Some counter ->
    counter_id counter = id /\ is_signed 64 (counter_value counter);
  ok_alarms : forall id alarm, sync_alarms s !! id = Some alarm ->
    alarm_id alarm = id /\ alarm_values_ok alarm /\
    (state alarm = alarm_active -> quiet (sync_counters s) (trigger alarm));
  ok_fences : forall id fence, sync_fences s !! id = Some fence -> fence_id fence = id;
  ok_waits : forall client conditions, sync_counter_waits s !! client = Some conditions ->
    Forall (fun condition => quiet (sync_counters s) (condition_trigger condition)) conditions;
  ok_fence_waits : forall client fences, sync_fence_waits s !! client = Some fences ->
    Forall (untriggered (sync_fences s)) fences
}.

(** The fields other than the queues. *)
Definition same_sync (s t : SyncState) : Prop :=
  t = s <| queues := queues t |>.

Lemma not_fired_now t old_value value :
  sync_trigger_fired t old_value value = false -> sync_trigger_fired t value value = false.
Proof. unfold sync_trigger_fired. destruct (test_type t); intros; bool_to_prop; lia. Qed.

Lemma fired_comparison t old_value value :
  is_comparison (test_type t) = true ->
  sync_trigger_fired t old_value value = sync_trigger_fired t value value.
Proof. unfold sync_trigger_fired. by destruct (test_type t). Qed.

Lemma transition_quiet t value :
  is_comparison (test_type t) = false -> sync_trigger_fired t value value = false.
Proof. unfold sync_trigger_fired. destruct (test_type t); simpl; intros; try done; lia. Qed.

Lemma advance_inactive alarm v :
  state alarm <> alarm_active -> advance_alarm alarm v = (test_value (trigger alarm), state alarm).
Proof. intros Hs. unfold advance_alarm. by rewrite (proj2 (Z.eqb_neq _ _) Hs). Qed.

(** What firing leaves behind: values in range, and an alarm still active no
    longer holds. *)
Lemma advance_alarm_quiet alarm old_value v next_value next_state :
  alarm_values_ok alarm -> is_signed 64 v ->
  sync_trigger_fired (trigger alarm) old_value v = true ->
  advance_alarm alarm v = (next_value, next_state) ->
  is_signed 64 next_value /\
  (next_state = alarm_active ->
   sync_trigger_fired ((trigger alarm) <| test_value := next_value |>) v v = false).
Proof.
  intros Hok Hv Hfired. destruct (decide (state alarm = alarm_active)) as [Hs|Hs].
  2: { rewrite advance_inactive by done. intros [= <- <-]. split; [apply Hok|done]. }
  rewrite advance_alarm_spec; [|done..|].
  2: { intros Hc. by rewrite <- (fired_comparison _ old_value). }
  cbv zeta. case_decide as Hn; [|intros [= <- <-]; split; [apply Hok|done]].
  intros [= <- <-]. split; [apply Hn|]. intros _. destruct Hn as [_ Hn].
  destruct (is_comparison (test_type (trigger alarm))) eqn:Hc.
  - by apply next_test_value_least; auto.
  - by apply transition_quiet.
Qed.

(** ** Counter updates *)

Lemma revise_alarm_id s counter value destroying alarm alarm' events :
  revise_alarm s counter value destroying alarm = Some (alarm', events) ->
  alarm_id alarm' = alarm_id alarm.
Proof.
  unfold revise_alarm. repeat split_if; try done; [by intros [= <- _]|].
  destruct (advance_alarm alarm value). by intros [= <- _].
Qed.

Lemma map_fst_omap {A B C} (f : A -> option (B * C)) (l : list A) :
  map fst (omap f l) = omap (fun x => fst <$> f x) l.
Proof.
  induction l as [|x l IH]; [done|]. cbn. destruct (f x) as [[? ?]|]; cbn; [f_equal|]; exact IH.
Qed.

(** The alarm table after the sweep. *)
Lemma lookup_revised_alarms s counter value destroying id :
  sync_ok s ->
  foldl store_alarm (sync_alarms s) (map fst (revised_alarms s counter value destroying)) !! id =
  (fun alarm => default alarm (fst <$> revise_alarm s counter value destroying alarm))
    <$> sync_alarms s !! id.
Proof.
  intros Hok. unfold revised_alarms. rewrite map_fst_omap.
  apply (lookup_revised alarm_id (fun alarm => fst <$> revise_alarm s counter value destroying alarm)).
  - intros k v Hk. by apply (ok_alarms s Hok) in Hk as [? _].
  - intros v w Hw. destruct (revise_alarm _ _ _ _ v) as [[a e]|] eqn:E; simplify_eq/=.
    by apply revise_alarm_id in E.
Qed.

(** The waits after the sweep. *)
Lemma lookup_completed_waits s counter value destroying client :
  foldl (fun m client => delete client m) (sync_counter_waits s)
    (map fst (completed_waits s counter value destroying)) !! client =
  match sync_counter_waits s !! client with
  | Some conditions =>
      if existsb (condition_fires counter value destroying) conditions then None else Some conditions
  | None => None
  end.
Proof.
  rewrite lookup_foldl_delete. case_bool_decide as Hin.
  - apply list_elem_of_fmap in Hin as ([c events] & -> & Hin). simpl.
    apply elem_of_collected in Hin as (conditions & Hc & Hw). rewrite Hc.
    unfold complete_wait in Hw. by destruct (existsb _ conditions).
  - destruct (sync_counter_waits s !! client) as [conditions|] eqn:Hc; [|done].
    destruct (existsb _ conditions) eqn:E; [|done]. exfalso. apply Hin.
    apply list_elem_of_fmap. eexists (client, _). split; [done|].
    apply elem_of_collected. exists conditions. split; [done|].
    unfold complete_wait. by rewrite E.
Qed.

(** The events of the sweep. *)
Definition update_events (s : SyncState) (counter : SyncCounterRecord) (value : Z)
    (destroying : bool) : list PlannedEvent :=
  concat (map snd (revised_alarms s counter value destroying)) ++
  concat (map snd (completed_waits s counter value destroying)).

(** The state after a successful sweep. *)
Record update_effect (s : SyncState) (counter : SyncCounterRecord) (value : Z)
    (destroying : bool) (s' : SyncState) : Prop := {
  effect_alarms : forall id, sync_alarms s' !! id =
    (fun alarm => default alarm (fst <$> revise_alarm s counter value destroying alarm))
      <$> sync_alarms s !! id;
  effect_waits : forall client, sync_counter_waits s' !! client =
    match sync_counter_waits s !! client with
    | Some conditions =>
        if existsb (condition_fires counter value destroying) conditions then None else Some conditions
    | None => None
    end;
  effect_counters : sync_counters s' =
    if destroying then sync_counters s
    else <[counter_id counter := counter <| counter_value := value |>]> (sync_counters s);
  effect_rest : sync_fences s' = sync_fences s /\ sync_fence_waits s' = sync_fence_waits s /\
    resources s' = resources s /\ current_time s' = current_time s;
  effect_queues : sink_ok (queues s') /\
    sink_extends (queues s) (queues s') (update_events s counter value destroying)
}.

Lemma update_sync_counter_spec s mem counter value destroying s' result :
  sync_ok s -> update_sync_counter s mem counter value destroying = (s', result) ->
  (result = sync_exhausted /\ plan_fails mem = true /\ s' = s) \/
  (result = queue_full /\ same_sync s s' /\ sink_ok (queues s') /\ sink_same (queues s') (queues s)) \/
  (result = updated /\ update_effect s counter value destroying s').
Proof.
  intros Hok. unfold update_sync_counter. fold (update_events s counter value destroying).
  destruct (plan_fails mem); [intros [= <- <-]; by left|]. cbv zeta.
  destruct (sink_batch (queues s) (pushes mem) (update_events s counter value destroying)) as [q ok] eqn:E.
  apply sink_batch_spec in E as [Hq E]; [|apply Hok]. destruct ok; simpl.
  - intros [= <- <-]. right. right. split; [done|]. destruct destroying; split; simpl; try done.
    1, 3: intros; by apply (lookup_revised_alarms s).
    all: intros; by apply (lookup_completed_waits s).
  - intros [= <- <-]. right. left. by split_and!.
Qed.

Lemma quiet_insert counters id counter t :
  trigger_counter t = id ->
  sync_trigger_fired t (counter_value counter) (counter_value counter) = false ->
  quiet (<[id := counter]> counters) t.
Proof. intros <- Hf. exists counter. by rewrite lookup_insert_eq. Qed.

Lemma quiet_insert_ne counters id counter t :
  trigger_counter t <> id -> quiet counters t -> quiet (<[id := counter]> counters) t.
Proof. intros Hne (c & Hc & Hf). exists c. by rewrite lookup_insert_ne by congruence. Qed.

Lemma quiet_insert_fresh counters id counter t :
  counters !! id = None -> quiet counters t -> quiet (<[id := counter]> counters) t.
Proof. intros Hid Hq. apply quiet_insert_ne; [|done]. destruct Hq as (c & Hc & _). congruence. Qed.

Lemma quiet_delete counters id t :
  trigger_counter t <> id -> quiet counters t -> quiet (delete id counters) t.
Proof. intros Hne (c & Hc & Hf). exists c. by rewrite lookup_delete_ne by congruence. Qed.

(** One alarm through the sweep of a counter that keeps existing. *)
Lemma revise_alarm_set s counter value alarm :
  alarm_values_ok alarm -> is_signed 64 value ->
  (state alarm = alarm_active -> quiet (sync_counters s) (trigger alarm)) ->
  let alarm' := default alarm (fst <$> revise_alarm s counter value false alarm) in
  let counters' := <[counter_id counter := counter <| counter_value := value |>]> (sync_counters s) in
  alarm_values_ok alarm' /\
  (state alarm' = alarm_active -> quiet counters' (trigger alarm')).
Proof.
  intros Hv Hval Hq. unfold revise_alarm.
  destruct (Z.eqb_spec (trigger_counter (trigger alarm)) (counter_id counter)) as [Hc|Hc]; simpl.
  2: { split; [done|]. intros Hs. apply quiet_insert_ne; auto. }
  destruct (sync_trigger_fired (trigger alarm) (counter_value counter) value) eqn:Hf; simpl.
  - destruct (advance_alarm alarm value) as [next_value next_state] eqn:Ha. simpl.
    destruct (advance_alarm_quiet _ _ _ _ _ Hv Hval Hf Ha) as [Hn Hquiet]. split.
    + destruct Hv as [_ Hd Hdir]. by split.
    + intros Hs. by apply quiet_insert; [|apply Hquiet].
  - split; [done|]. intros _. apply quiet_insert; [done|]. simpl. by eapply not_fired_now.
Qed.

Lemma condition_fires_spec counter value destroying conditions condition :
  existsb (condition_fires counter value destroying) conditions = false ->
  condition ∈ conditions -> trigger_counter (condition_trigger condition) = counter_id counter ->
  destroying = false /\
  sync_trigger_fired (condition_trigger condition) (counter_value counter) value = false.
Proof.
  intros Hex Hin Hc.
  assert (condition_fires counter value destroying condition = false) as Hf.
  { apply not_true_iff_false. intros Ht. apply not_true_iff_false in Hex. apply Hex.
    apply existsb_exists. exists condition. split; [by apply list_elem_of_In|done]. }
  unfold condition_fires in Hf. rewrite Hc, Z.eqb_refl in Hf. simpl in Hf. by bool_to_prop.
Qed.

Lemma set_counter_ok s counter value s' :
  sync_ok s -> is_signed 64 value ->
  update_effect s counter value false s' -> sync_ok s'.
Proof.
  intros Hok Hval [Ha Hw Hc (Hf & Hfw & _ & _) [Hq _]]. simpl in Hc. split; [done|..].
  - rewrite Hc. intros id c [[<- <-]|[Hne Hid]]%lookup_insert_Some; [done|].
    by apply (ok_counters s Hok).
  - rewrite Hc. intros id alarm' Hid. rewrite Ha in Hid.
    apply fmap_Some in Hid as (alarm & Hid & ->).
    destruct (ok_alarms s Hok id alarm Hid) as (Hida & Hv & Hquiet).
    split; [|by apply revise_alarm_set].
    destruct (revise_alarm s counter value false alarm) as [[a e]|] eqn:E; [|done]. simpl.
    by rewrite (revise_alarm_id _ _ _ _ _ _ _ E).
  - rewrite Hf. apply (ok_fences s Hok).
  - rewrite Hc. intros client conditions Hcl. rewrite Hw in Hcl.
    destruct (sync_counter_waits s !! client) as [cs|] eqn:Hcs; [|done].
    destruct (existsb _ cs) eqn:Hex; simplify_eq.
    pose proof (ok_waits s Hok client conditions Hcs) as Hall. rewrite Forall_forall in Hall |- *.
    intros condition Hin. specialize (Hall condition Hin).
    destruct (decide (trigger_counter (condition_trigger condition) = counter_id counter)) as [He|Hne].
    + apply quiet_insert; [done|]. simpl.
      eapply not_fired_now, condition_fires_spec; done.
    + by apply quiet_insert_ne.
  - rewrite Hf, Hfw. apply (ok_fence_waits s Hok).
Qed.

Lemma erase_counter_ok s counter s' r :
  sync_ok s -> update_effect s counter 0 true s' ->
  sync_ok (s' <| sync_counters := delete (counter_id counter) (sync_counters s') |>
              <| resources := r |>).
Proof.
  intros Hok [Ha Hw Hc (Hf & Hfw & _ & _) [Hq _]]. simpl in Hc. split; simpl; [done|..].
  - rewrite Hc. intros id c [_ Hid]%lookup_delete_Some. by apply (ok_counters s Hok).
  - rewrite Hc. intros id alarm' Hid. rewrite Ha in Hid.
    apply fmap_Some in Hid as (alarm & Hid & ->).
    destruct (ok_alarms s Hok id alarm Hid) as (Hida & Hv & Hquiet).
    unfold revise_alarm.
    destruct (Z.eqb_spec (trigger_counter (trigger alarm)) (counter_id counter)) as [He|Hne]; simpl.
    + split_and!; [done|by destruct Hv; split|]. by intros ?.
    + split_and!; [done..|]. intros Hs. by apply quiet_delete; auto.
  - rewrite Hf. apply (ok_fences s Hok).
  - rewrite Hc. intros client conditions Hcl. rewrite Hw in Hcl.
    destruct (sync_counter_waits s !! client) as [cs|] eqn:Hcs; [|done].
    destruct (existsb _ cs) eqn:Hex; simplify_eq.
    pose proof (ok_waits s Hok client conditions Hcs) as Hall. rewrite Forall_forall in Hall |- *.
    intros condition Hin. apply quiet_delete; [|auto]. intros He.
    by destruct (condition_fires_spec _ _ _ _ _ Hex Hin He).
  - rewrite Hf, Hfw. apply (ok_fence_waits s Hok).
Qed.

Lemma sync_ok_queues s q : sync_ok s -> sink_ok q -> sync_ok (s <| queues := q |>).
Proof. intros [] Hq. by split. Qed.

Lemma sync_ok_resources s r : sync_ok s -> sync_ok (s <| resources := r |>).
Proof. intros []. by split. Qed.

Lemma same_sync_ok s s' : sync_ok s -> same_sync s s' -> sink_ok (queues s') -> sync_ok s'.
Proof. intros Hok -> Hq. by apply sync_ok_queues. Qed.

Lemma evaluate_alarm_ok s alarm alarm' events :
  sync_ok s -> alarm_values_ok alarm -> evaluate_alarm s alarm = (alarm', events) ->
  alarm_id alarm' = alarm_id alarm /\ alarm_values_ok alarm' /\
  (state alarm' = alarm_active -> quiet (sync_counters s) (trigger alarm')).
Proof.
  intros Hok Hv. unfold evaluate_alarm, sync_counter.
  destruct (sync_counters s !! trigger_counter (trigger alarm)) as [c|] eqn:Hc.
  2: { intros [= <- <-]. split_and!; [done|by destruct Hv; split|done]. }
  cbn [trigger]. simpl.
  destruct (sync_trigger_fired (trigger alarm) (counter_value c) (counter_value c)) eqn:Hf.
  - destruct (advance_alarm _ _) as [nv ns] eqn:Ha. intros [= <- <-]. simpl.
    apply (ok_counters s Hok) in Hc as Hcv.
    eapply advance_alarm_quiet in Ha as [Hn Hquiet]; [|by destruct Hv; split|apply Hcv|exact Hf].
    split_and!; [done|by destruct Hv; split|].
    intros Hs. exists c. split; [done|]. by apply Hquiet.
  - intros [= <- <-]. simpl. split_and!; [done|by destruct Hv; split|].
    intros _. by exists c.
Qed.

Lemma store_alarm_ok s alarm r :
  sync_ok s -> alarm_values_ok alarm ->
  (state alarm = alarm_active -> quiet (sync_counters s) (trigger alarm)) ->
  sync_ok (s <| resources := r |>
             <| sync_alarms := <[alarm_id alarm := alarm]> (sync_alarms s) |>).
Proof.
  intros [] Hv Hq. split; simpl; try done.
  intros id a [[<- <-]|[Hne Hid]]%lookup_insert_Some; auto.
Qed.

Lemma delete_alarm_ok s id r :
  sync_ok s ->
  sync_ok (s <| sync_alarms := delete id (sync_alarms s) |> <| resources := r |>).
Proof.
  intros []. split; simpl; try done.
  intros id' a [_ Hid]%lookup_delete_Some. auto.
Qed.

Lemma commit_sync_alarm_ok s mem alarm creating s' result :
  sync_ok s -> alarm_values_ok alarm ->
  commit_sync_alarm s mem alarm creating = (s', result) -> sync_ok s'.
Proof.
  intros Hok Hv. unfold commit_sync_alarm.
  destruct (evaluate_alarm s alarm) as [alarm' events] eqn:He.
  destruct (evaluate_alarm_ok _ _ _ _ Hok Hv He) as (Hid & Hv' & Hquiet).
  cbv zeta. destruct (negb _ && _); [by intros [= <- _]|]. destruct creating.
  - destruct (insert_resource _ _ _ _) as [inserted registry].
    destruct inserted; simpl; [|by intros [= <- _]].
    destruct (store_fails mem); [intros [= <- _]; by apply sync_ok_resources|].
    destruct (sync_alarms s !! alarm_id alarm') eqn:Hfresh; [intros [= <- _]; by apply sync_ok_resources|].
    simpl. destruct (sink_batch _ _ _) as [q ok] eqn:Hb.
    apply sink_batch_spec in Hb as [Hq _]; [|apply Hok].
    pose proof (sync_ok_queues _ q (store_alarm_ok s alarm' registry Hok Hv' Hquiet) Hq) as Hok1.
    destruct ok; simpl.
    + rewrite lookup_insert_eq. intros [= <- _]. by apply (store_alarm_ok _ alarm' registry Hok1).
    + intros [= <- _]. by apply (delete_alarm_ok _ (alarm_id alarm') (erase_resource _ registry).2 Hok1).
  - simpl. destruct (sink_batch _ _ _) as [q ok] eqn:Hb.
    apply sink_batch_spec in Hb as [Hq _]; [|apply Hok].
    pose proof (sync_ok_queues _ q Hok Hq) as Hok1.
    destruct ok; simpl; [|by intros [= <- _]].
    destruct (sync_alarms s !! alarm_id alarm'); intros [= <- _]; [|done].
    by apply (store_alarm_ok _ alarm' (resources s) Hok1).
Qed.

Lemma release_fence_waits_spec (waits : gmap Z (list Z)) id client fences :
  erase_if (fun _ fences => existsb (Z.eqb id) fences) waits !! client = Some fences <->
  waits !! client = Some fences /\ id ∉ fences.
Proof.
  rewrite lookup_erase_if.
  assert (existsb (Z.eqb id) fences = false <-> id ∉ fences) as ->; [|done].
  rewrite <- not_true_iff_false, existsb_exists. split.
  - intros Hn Hin. apply Hn. exists id. split; [by apply list_elem_of_In|apply Z.eqb_refl].
  - intros Hn (x & Hx & ->%Z.eqb_eq). apply Hn. by apply list_elem_of_In.
Qed.

Lemma add_sync_fence_ok s mem fence o s' ok :
  sync_ok s -> add_sync_fence s mem fence o = (s', ok) -> sync_ok s'.
Proof.
  intros Hok. unfold add_sync_fence. destruct (insert_resource _ _ _ _) as [ins reg].
  destruct ins; simpl; [|by intros [= <- _]].
  destruct (store_fails mem); [intros [= <- _]; by apply sync_ok_resources|].
  destruct (sync_fences s !! fence_id fence) eqn:Hf; intros [= <- _]; destruct Hok; split; simpl; try done.
  - by intros id f [[<- <-]|[Hne Hid]]%lookup_insert_Some; auto.
  - intros client fences Hc. eapply Forall_impl; [by eapply ok_fence_waits0|].
    intros id (f & Hid & Ht). exists f. split; [|done]. rewrite lookup_insert_ne; congruence.
Qed.

Lemma trigger_sync_fence_ok s id s' result :
  sync_ok s -> trigger_sync_fence s id = (s', result) -> sync_ok s'.
Proof.
  intros Hok. unfold trigger_sync_fence, sync_fence.
  destruct (sync_fences s !! id) as [f|] eqn:Hf; intros [= <- _]; [|done].
  destruct Hok; split; simpl; try done.
  - intros i g [[<- <-]|[Hne Hid]]%lookup_insert_Some; simpl; auto.
  - intros client fences [Hc Hni]%release_fence_waits_spec.
    pose proof (ok_fence_waits0 client fences Hc) as Hall. rewrite Forall_forall in Hall |- *.
    intros i Hi. destruct (Hall i Hi) as (g & Hg & Ht). exists g. split; [|done].
    rewrite lookup_insert_ne; [done|]. congruence.
Qed.

Lemma reset_sync_fence_ok s id s' ok :
  sync_ok s -> reset_sync_fence s id = (s', ok) -> sync_ok s'.
Proof.
  intros Hok. unfold reset_sync_fence, sync_fence.
  destruct (sync_fences s !! id) as [f|] eqn:Hf; [|by intros [= <- _]].
  destruct (triggered f) eqn:Ht; simpl; intros [= <- _]; [|done].
  destruct Hok; split; simpl; try done.
  - intros i g [[<- <-]|[Hne Hid]]%lookup_insert_Some; simpl; auto.
  - intros client fences Hc. eapply Forall_impl; [by eapply ok_fence_waits0|].
    intros i (g & Hg & Htg). destruct (decide (i = id)) as [->|Hne].
    + eexists. by rewrite lookup_insert_eq.
    + exists g. by rewrite lookup_insert_ne.
Qed.

Lemma erase_sync_fence_ok s id s' result :
  sync_ok s -> erase_sync_fence s id = (s', result) -> sync_ok s'.
Proof.
  intros Hok. unfold erase_sync_fence, sync_fence.
  destruct (sync_fences s !! id) as [f|] eqn:Hf; intros [= <- _]; [|done].
  destruct Hok; split; simpl; try done.
  - intros i g [Hne Hid]%lookup_delete_Some; simpl; auto.
  - intros client fences [Hc Hni]%release_fence_waits_spec.
    pose proof (ok_fence_waits0 client fences Hc) as Hall. rewrite Forall_forall in Hall |- *.
    intros i Hi. destruct (Hall i Hi) as (g & Hg & Ht). exists g. split; [|done].
    rewrite lookup_delete_ne; [done|]. congruence.
Qed.

Lemma scan_conditions_spec s conditions : forall fired result,
  scan_conditions s conditions fired = Some result ->
  (result = false -> fired = false /\
    Forall (fun condition => quiet (sync_counters s) (condition_trigger condition)) conditions).
Proof.
  induction conditions as [|c conditions IH]; intros fired result; simpl.
  { intros [= <-]. split; [done|constructor]. }
  unfold sync_counter. destruct (sync_counters s !! _) as [counter|] eqn:Hc; [|done].
  intros Hscan Hr. destruct (IH _ _ Hscan Hr) as [Hfired Hall].
  destruct (sync_trigger_fired _ _ _) eqn:Hf; [done|]. split; [done|].
  constructor; [|done]. by exists counter.
Qed.

Lemma begin_sync_counter_await_ok s mem client conditions s' result :
  sync_ok s -> begin_sync_counter_await s mem client conditions = (s', result) -> sync_ok s'.
Proof.
  intros Hok. unfold begin_sync_counter_await. split_if; [by intros [= <- _]|].
  destruct (scan_conditions s conditions false) as [[]|] eqn:Hscan; [| |by intros [= <- _]].
  - destruct (plan_fails mem); [by intros [= <- _]|]. destruct (sink_batch _ _ _) as [q ok] eqn:Hb. intros [= <- _].
    apply sink_batch_spec in Hb as [Hq _]; [|apply Hok]. by apply sync_ok_queues.
  - destruct (store_fails mem); [by intros [= <- _]|].
    intros [= <- _]. destruct (scan_conditions_spec _ _ _ _ Hscan eq_refl) as [_ Hall].
    destruct Hok; split; simpl; try done.
    intros c cs [[<- <-]|[Hne Hc]]%lookup_insert_Some; [done|]. by eapply ok_waits0.
Qed.

Lemma scan_fences_spec s fences :
  scan_fences s fences = Some false <-> Forall (untriggered (sync_fences s)) fences.
Proof.
  induction fences as [|id fences IH]; simpl; [by split|]. unfold sync_fence.
  rewrite Forall_cons, <- IH. unfold untriggered.
  destruct (sync_fences s !! id) as [f|] eqn:Hf.
  - destruct (triggered f) eqn:Ht; split; [done|by intros [(g & [= <-] & ?) _]; congruence| |by intros []].
    intros Hs. split; [by exists f|done].
  - split; [done|]. by intros [(g & ? & _) _].
Qed.

Lemma begin_sync_fence_await_ok s mem client fences s' result :
  sync_ok s -> begin_sync_fence_await s mem client fences = (s', result) -> sync_ok s'.
Proof.
  intros Hok. unfold begin_sync_fence_await. split_if; [by intros [= <- _]|].
  destruct (scan_fences s fences) as [[]|] eqn:Hscan; try by intros [= <- _].
  destruct (store_fails mem); [by intros [= <- _]|]. intros [= <- _]. apply scan_fences_spec in Hscan.
  destruct Hok; split; simpl; try done.
  intros c fs [[<- <-]|[Hne Hc]]%lookup_insert_Some; [done|]. by eapply ok_fence_waits0.
Qed.

Lemma add_sync_counter_ok s mem counter o s' ok :
  sync_ok s -> is_signed 64 (counter_value counter) ->
  add_sync_counter s mem counter o = (s', ok) -> sync_ok s'.
Proof.
  intros Hok Hv. unfold add_sync_counter. destruct (insert_resource _ _ _ _) as [ins reg].
  destruct ins; simpl; [|by intros [= <- _]].
  destruct (store_fails mem); [intros [= <- _]; by apply sync_ok_resources|].
  destruct (sync_counters s !! counter_id counter) eqn:Hc; intros [= <- _]; destruct Hok; split; simpl; try done.
  - intros id c [[<- <-]|[Hne Hid]]%lookup_insert_Some; auto.
  - intros id a Ha. destruct (ok_alarms0 id a Ha) as (? & ? & Hq). split_and!; [done..|].
    intros Hs. apply quiet_insert_fresh; auto.
  - intros client conditions Hcl. eapply Forall_impl; [by eapply ok_waits0|].
    intros c Hq. by apply quiet_insert_fresh.
Qed.

(** ** The operations as a transition system *)

(** One call of a SYNC operation, whatever it answers; the values come from
    64-bit wire fields. *)
Inductive sync_step : SyncState -> SyncState -> Prop :=
| step_add_counter s mem counter o :
    is_signed 64 (counter_value counter) -> sync_step s (add_sync_counter s mem counter o).1
| step_set_counter s mem counter value :
    sync_counter s (counter_id counter) = Some counter -> is_signed 64 value ->
    sync_step s (set_sync_counter s mem counter value).1
| step_erase_counter s mem id : sync_step s (erase_sync_counter s mem id).1
| step_add_alarm s mem alarm o :
    alarm_values_ok alarm -> sync_step s (add_sync_alarm s mem alarm o).1
| step_change_alarm s mem alarm :
    alarm_values_ok alarm -> sync_step s (change_sync_alarm s mem alarm).1
| step_erase_alarm s mem id : sync_step s (erase_sync_alarm s mem id).1
| step_add_fence s mem fence o : sync_step s (add_sync_fence s mem fence o).1
| step_trigger_fence s id : sync_step s (trigger_sync_fence s id).1
| step_reset_fence s id : sync_step s (reset_sync_fence s id).1
| step_erase_fence s id : sync_step s (erase_sync_fence s id).1
| step_counter_await s mem client conditions :
    sync_step s (begin_sync_counter_await s mem client conditions).1
| step_fence_await s mem client fences :
    sync_step s (begin_sync_fence_await s mem client fences).1.

Lemma erase_sync_counter_ok s mem id s' result :
  sync_ok s -> erase_sync_counter s mem id = (s', result) -> sync_ok s'.
Proof.
  intros Hok. unfold erase_sync_counter.
  destruct (sync_counters s !! id) as [counter|] eqn:Hc; [|by intros [= <- _]].
  destruct (ok_counters s Hok id counter Hc) as [Hid Hcv].
  destruct (update_sync_counter s mem counter 0 true) as [s1 r] eqn:E.
  apply update_sync_counter_spec in E as [(-> & _ & ->)|[(-> & Hs & Hq & _)|[-> He]]]; [| | |done].
  - by intros [= <- _].
  - intros [= <- _]. by eapply same_sync_ok.
  - intros [= <- _]. rewrite <- Hid. by apply (erase_counter_ok s).
Qed.

Lemma set_sync_counter_ok s mem counter value s' result :
  sync_ok s -> is_signed 64 value ->
  set_sync_counter s mem counter value = (s', result) -> sync_ok s'.
Proof.
  intros Hok Hv E. unfold set_sync_counter in E.
  apply update_sync_counter_spec in E as [(-> & _ & ->)|[(-> & Hs & Hq & _)|[-> He]]]; [| | |done].
  - done.
  - by eapply same_sync_ok.
  - by eapply set_counter_ok.
Qed.

Lemma erase_sync_alarm_ok s mem id s' result :
  sync_ok s -> erase_sync_alarm s mem id = (s', result) -> sync_ok s'.
Proof.
  intros Hok. unfold erase_sync_alarm.
  destruct (sync_alarms s !! id) as [alarm|] eqn:Ha; [|by intros [= <- _]].
  cbv zeta. destruct (negb _ && _); [by intros [= <- _]|]. destruct (sink_batch _ _ _) as [q ok] eqn:Hb.
  apply sink_batch_spec in Hb as [Hq _]; [|apply Hok].
  pose proof (sync_ok_queues _ q Hok Hq) as Hok1.
  destruct ok; simpl; intros [= <- _]; [|done].
  by apply (delete_alarm_ok _ id _ Hok1).
Qed.

Lemma sync_step_ok s s' : sync_step s s' -> sync_ok s -> sync_ok s'.
Proof.
  intros Hstep Hok. destruct Hstep;
    match goal with |- sync_ok (?op).1 => destruct op as [s1 r] eqn:E end; simpl.
  - by eapply add_sync_counter_ok.
  - by eapply set_sync_counter_ok.
  - by eapply erase_sync_counter_ok.
  - eapply commit_sync_alarm_ok; [done| |exact E].
    match goal with Hv : alarm_values_ok _ |- _ => destruct Hv end. by split.
  - unfold change_sync_alarm in E. destruct (sync_alarm s (alarm_id alarm)); [|by simplify_eq].
    by eapply commit_sync_alarm_ok.
  - by eapply erase_sync_alarm_ok.
  - by eapply add_sync_fence_ok.
  - by eapply trigger_sync_fence_ok.
  - by eapply reset_sync_fence_ok.
  - by eapply erase_sync_fence_ok.
  - by eapply begin_sync_counter_await_ok.
  - by eapply begin_sync_fence_await_ok.
Qed.

Lemma sync_steps_ok s s' : rtc sync_step s s' -> sync_ok s -> sync_ok s'.
Proof. induction 1; [done|]. intros Hok. by apply IHrtc, (sync_step_ok x). Qed.

Definition initial_sync (q : Q) (time : Z) : SyncState :=
  mkSync ∅ ∅ ∅ ∅ ∅ ∅ q time.

Lemma initial_sync_ok q time : sink_ok q -> sync_ok (initial_sync q time).
Proof. intros Hq. by split. Qed.

(** ** Properties *)

(** C19: in every state the SYNC operations can reach, no client stays blocked
    on a counter condition that holds or on a triggered fence, every awaited
    counter and fence exists, and every alarm still active has a trigger that
    does not hold; whether batches of events are refused on the way makes no
    difference. *)
Theorem sync_never_blocks_on_satisfied_condition q time s :
  sink_ok q -> rtc sync_step (initial_sync q time) s ->
  (forall client conditions condition,
     sync_counter_waits s !! client = Some conditions -> condition ∈ conditions ->
     quiet (sync_counters s) (condition_trigger condition)) /\
  (forall client fences id,
     sync_fence_waits s !! client = Some fences -> id ∈ fences -> untriggered (sync_fences s) id) /\
  (forall id alarm, sync_alarms s !! id = Some alarm -> state alarm = alarm_active ->
     quiet (sync_counters s) (trigger alarm)).
Proof.
  intros Hq Hsteps. pose proof (sync_steps_ok _ _ Hsteps (initial_sync_ok q time Hq)) as Hok.
  split_and!.
  - intros client conditions condition Hc Hin. pose proof (ok_waits s Hok _ _ Hc) as Hall.
    rewrite Forall_forall in Hall. auto.
  - intros client fences id Hc Hin. pose proof (ok_fence_waits s Hok _ _ Hc) as Hall.
    rewrite Forall_forall in Hall. auto.
  - intros id alarm Ha. by apply (ok_alarms s Hok id).
Qed.

(** C20: [update_sync_counter] is a transaction: when its events cannot be
    planned nothing changes; when they are refused nothing but the
    (equivalent) queues is touched; when it answers updated,
    every alarm on the counter is revised exactly as [revise_alarm] says,
    exactly the waits with a firing condition are removed, the counter has its
    new value, and exactly the alarm and counter notifications of the sweep
    were queued, in order. *)
Theorem update_sync_counter_transaction s mem counter value destroying s' result :
  sync_ok s -> update_sync_counter s mem counter value destroying = (s', result) ->
  (result = sync_exhausted /\ plan_fails mem = true /\ s' = s) \/
  (result = queue_full /\ same_sync s s' /\ sink_ok (queues s') /\ sink_same (queues s') (queues s)) \/
  (result = updated /\ update_effect s counter value destroying s').
Proof. apply update_sync_counter_spec. Qed.

(** C22: an alarm that went inactive is not skipped by the sweep: as long as
    its trigger holds, every update of its counter notifies its clients
    again. *)
Theorem inactive_alarm_notifies s counter value alarm :
  state alarm = alarm_inactive -> trigger_counter (trigger alarm) = counter_id counter ->
  sync_trigger_fired (trigger alarm) (counter_value counter) value = true ->
  exists alarm', revise_alarm s counter value false alarm =
    Some (alarm', sync_alarm_events s alarm value (test_value (trigger alarm)) alarm_inactive).
Proof.
  intros Hs Hc Hf. unfold revise_alarm. rewrite Hc, Z.eqb_refl. simpl. rewrite Hf. simpl.
  rewrite advance_inactive by (rewrite Hs; done). rewrite Hs. eauto.
Qed.
End Sync.
Arguments SyncState : clear implicits.

(** C21: the 64-bit arithmetic of [advance_alarm] computes the ideal next test
    value: for a comparison the first [test + k * delta] that no longer fires
    at the counter's value, for a transition [test + delta]; the alarm goes
    inactive exactly when that value is not a 64-bit integer or a comparison
    has no delta. *)
Theorem advance_alarm_exact alarm v :
  state alarm = alarm_active -> alarm_values_ok alarm -> is_signed 64 v ->
  (is_comparison (test_type (trigger alarm)) = true -> sync_trigger_fired (trigger alarm) v v = true) ->
  let next := next_test_value alarm v in
  advance_alarm alarm v =
    (if decide (is_signed 64 next /\ (is_comparison (test_type (trigger alarm)) = true -> delta alarm <> 0))
     then (next, alarm_active)
     else (test_value (trigger alarm), alarm_inactive)) /\
  (is_comparison (test_type (trigger alarm)) = true -> delta alarm <> 0 ->
    sync_trigger_fired ((trigger alarm) <| test_value := next |>) v v = false /\
    sync_trigger_fired ((trigger alarm) <| test_value := next - delta alarm |>) v v = true).
Proof.
  intros Hs Hok Hv Hf next. split; [by apply advance_alarm_spec|].
  intros Hc Hd. by apply next_test_value_least.
Qed.

(** ** Witnesses *)

Definition sample_alarm : SyncAlarmRecord :=
  mkAlarm 70 5 (mkTrigger 60 10 10 0 positive_comparison) 7 [5] 0.

Lemma sample_alarm_ok : alarm_values_ok sample_alarm.
Proof. split; by_computation. Qed.

Lemma advance_alarm_exact_witness : advance_alarm sample_alarm 31 = (38, alarm_active).
Proof.
  refine (eq_trans (proj1 (advance_alarm_exact sample_alarm 31 eq_refl sample_alarm_ok _ _)) _).
  - by_computation.
  - intros _. vm_compute. reflexivity.
  - vm_compute. reflexivity.
Defined.

Definition sample_condition : SyncWaitCondition :=
  mkCondition (mkTrigger 60 10 10 0 positive_comparison) 0.

Definition sample_sync : SyncState EventQueues :=
  (begin_sync_counter_await
     (add_sync_alarm (add_sync_counter (initial_sync initial_queues 9) ample_memory (mkCounter 60 3) 5).1
        ample_memory sample_alarm 5).1
     ample_memory 5 [sample_condition]).1.

Lemma sample_sync_reached : rtc sync_step (initial_sync initial_queues 9) sample_sync.
Proof.
  eapply rtc_l; [apply (step_add_counter _ ample_memory (mkCounter 60 3) 5); by_computation|].
  eapply rtc_l; [apply (step_add_alarm _ ample_memory sample_alarm 5), sample_alarm_ok|].
  eapply rtc_l; [apply (step_counter_await _ ample_memory 5 [sample_condition])|].
  apply rtc_refl.
Qed.

Lemma sync_never_blocks_on_satisfied_condition_witness :
  sync_counter_waits sample_sync !! 5 = Some [sample_condition] /\
  quiet (sync_counters sample_sync) (condition_trigger sample_condition).
Proof.
  split; [vm_compute; reflexivity|].
  refine (proj1 (sync_never_blocks_on_satisfied_condition initial_queues 9 sample_sync
    initial_queues_ok sample_sync_reached) 5 [sample_condition] sample_condition _ _).
  - vm_compute. reflexivity.
  - apply list_elem_of_here.
Defined.

(** Setting the counter to 31 fires the alarm and completes the wait. *)
Lemma update_sync_counter_transaction_witness :
  exists s', update_sync_counter sample_sync ample_memory (mkCounter 60 3) 31 false = (s', updated) /\
    update_effect sample_sync (mkCounter 60 3) 31 false s'.
Proof.
  eexists. split; [vm_compute; reflexivity|].
  destruct (update_sync_counter_transaction sample_sync ample_memory (mkCounter 60 3) 31 false
    (update_sync_counter sample_sync ample_memory (mkCounter 60 3) 31 false).1 updated)
    as [[? _]|[[? _]|[_ He]]].
  - apply (sync_steps_ok _ _ sample_sync_reached), initial_sync_ok, initial_queues_ok.
  - vm_compute. reflexivity.
  - discriminate.
  - discriminate.
  - exact He.
Defined.

(** An inactive comparison alarm at 10, its counter moving from 12 to 13. *)
Lemma inactive_alarm_notifies_witness :
  exists alarm', revise_alarm sample_sync (mkCounter 60 12) 13 false
      (mkAlarm 70 5 (mkTrigger 60 10 10 0 positive_comparison) 0 [5] 1) =
    Some (alarm', [(5, SyncAlarmNotify (mkSyncAlarmNotify 70 13 10 9 1 0))]).
Proof.
  refine (inactive_alarm_notifies sample_sync (mkCounter 60 12) 13
    (mkAlarm 70 5 (mkTrigger 60 10 10 0 positive_comparison) 0 [5] 1) _ _ _);
    vm_compute; reflexivity.
Defined.
