(* ===== verification/Region.v ===== *)
(** * Regions

    Model of [src/src/server/region.cpp]: a region is the list of rectangles
    that pixman made of it. The pixman calls are the interface [Pixman]; its
    laws are pixman's documented set semantics, and [slow_pixman] is an
    instance of them. *)
From S2P Require Import Prelude.

(** ** Data *)

Record Rectangle := mkRect { rx : Z; ry : Z; rwidth : Z; rheight : Z }.

#[export] Instance Rectangle_eq_dec : EqDecision Rectangle.
Proof. solve_decision. Defined.

(** [class Region]: its [rectangles_]. *)
Definition Region := list Rectangle.

Inductive RegionOperation := op_set | op_unite | op_intersect | op_subtract | op_invert.

#[export] Instance RegionOperation_eq_dec : EqDecision RegionOperation.
Proof. solve_decision. Defined.

(** [pixman_box32_t]: the corners, the second exclusive. *)
Record Box := mkBox { x1 : Z; y1 : Z; x2 : Z; y2 : Z }.

#[export] Instance Box_eq_dec : EqDecision Box.
Proof. solve_decision. Defined.

(** ** The pixman interface *)

Definition box_contains (b : Box) (px py : Z) : Prop := x1 b <= px < x2 b /\ y1 b <= py < y2 b.

Definition boxes_contain (bs : list Box) (px py : Z) : Prop := Exists (fun b => box_contains b px py) bs.

(** A non-empty box with 32-bit corners. *)
Definition box_ok (b : Box) : Prop :=
  is_signed 32 (x1 b) /\ is_signed 32 (y1 b) /\ is_signed 32 (x2 b) /\ is_signed 32 (y2 b) /\
  x1 b < x2 b /\ y1 b < y2 b.

#[export] Instance box_ok_dec b : Decision (box_ok b).
Proof. unfold box_ok. apply _. Defined.

(** [pixman_region32_init_rects], [_union], [_intersect] and [_subtract]; a
    failed call is [None]. *)
Class Pixman := {
  init_rects : list Box -> option (list Box);
  pixman_union : list Box -> list Box -> option (list Box);
  pixman_intersect : list Box -> list Box -> option (list Box);
  pixman_subtract : list Box -> list Box -> option (list Box)
}.

Definition set_law (op : list Box -> list Box -> option (list Box)) (P : Prop -> Prop -> Prop) : Prop :=
  forall a b r, Forall box_ok a -> Forall box_ok b -> op a b = Some r ->
    Forall box_ok r /\
    forall px py, boxes_contain r px py <-> P (boxes_contain a px py) (boxes_contain b px py).

Class PixmanLaws `{Pixman} := {
  init_rects_law bs r : Forall box_ok bs -> init_rects bs = Some r ->
    Forall box_ok r /\ forall px py, boxes_contain r px py <-> boxes_contain bs px py;
  union_law : set_law pixman_union or;
  intersect_law : set_law pixman_intersect and;
  subtract_law : set_law pixman_subtract (fun P Q => P /\ ~ Q)
}.

(** ** Operations *)

Definition contains (r : Region) (px py : Z) : bool :=
  existsb (fun a =>
    (px >=? rx a) && (py >=? ry a) && (px <? rx a + rwidth a) && (py <? ry a + rheight a)) r.

(** Whether the [n]th vector an operation allocates gets its memory. *)
Definition Reserves := nat -> bool.

(** The loop of [make_boxes]: skips empty rectangles; fails when a corner
    leaves 32 bits. *)
Fixpoint boxes_loop (rectangles : list Rectangle) : option (list Box) :=
  match rectangles with
  | [] => Some []
  | a :: rest =>
      if (rwidth a =? 0) || (rheight a =? 0) then boxes_loop rest
      else
        let right := rx a + rwidth a in
        let bottom := ry a + rheight a in
        if (right >? smax 32) || (bottom >? smax 32) then None
        else
          match boxes_loop rest with
          | Some boxes => Some (mkBox (rx a) (ry a) (i32 right) (i32 bottom) :: boxes)
          | None => None
          end
  end.

Definition make_boxes (reserved : bool) (rectangles : list Rectangle) : option (list Box) :=
  if negb reserved then None
  else match boxes_loop rectangles with
  | Some boxes => if zlen boxes <=? smax 32 then Some boxes else None
  | None => None
  end.

(** The differences are those of 32-bit integers. *)
Definition box_rectangle (b : Box) : Rectangle :=
  mkRect (x1 b) (y1 b) (u32 (i32 (x2 b - x1 b))) (u32 (i32 (y2 b - y1 b))).

Definition make_rectangles (reserved : bool) (boxes : list Box) : option (list Rectangle) :=
  if negb reserved then None else Some (map box_rectangle boxes).

Section Region.
Context `{PixmanLaws}.

Definition canonicalize (mem : Reserves) (rectangles : list Rectangle) : option Region :=
  match make_boxes (mem 0%nat) rectangles with
  | None => None
  | Some boxes =>
      match init_rects boxes with
      | None => None
      | Some region => make_rectangles (mem 1%nat) region
      end
  end.

(** The [switch] of [combine]. *)
Definition combine_regions (operation : RegionOperation) (destination_region source_region : list Box)
    : option (list Box) :=
  match operation with
  | op_set => None
  | op_unite => pixman_union destination_region source_region
  | op_intersect => pixman_intersect destination_region source_region
  | op_subtract => pixman_subtract destination_region source_region
  | op_invert => pixman_subtract source_region destination_region
  end.

Definition combine (mem : Reserves) (operation : RegionOperation) (destination source : Region)
    : option Region :=
  if bool_decide (operation = op_set) then (if negb (mem 0%nat) then None else Some source)
  else
    match make_boxes (mem 0%nat) destination, make_boxes (mem 1%nat) source with
    | Some destination_boxes, Some source_boxes =>
        match init_rects destination_boxes, init_rects source_boxes, init_rects [] with
        | Some destination_region, Some source_region, Some _ =>
            match combine_regions operation destination_region source_region with
            | None => None
            | Some combined => make_rectangles (mem 2%nat) combined
            end
        | _, _, _ => None
        end
    | _, _ => None
    end.

Fixpoint translate_rectangles (dx dy : Z) (rectangles : list Rectangle) : option (list Rectangle) :=
  match rectangles with
  | [] => Some []
  | a :: rest =>
      let translated_x := rx a + dx in
      let translated_y := ry a + dy in
      let right := translated_x + rwidth a in
      let bottom := translated_y + rheight a in
      if (translated_x <? smin 32) || (translated_y <? smin 32) ||
         (right >? smax 32) || (bottom >? smax 32)
      then None
      else
        match translate_rectangles dx dy rest with
        | Some translated =>
            Some (mkRect (i32 translated_x) (i32 translated_y) (rwidth a) (rheight a) :: translated)
        | None => None
        end
  end.

Definition translate (mem : Reserves) (r : Region) (dx dy : Z) : option Region :=
  if negb (mem 0%nat) then None
  else match translate_rectangles dx dy r with
  | Some translated => canonicalize (fun n => mem (S n)) translated
  | None => None
  end.

(** The loop of [extents]: left, top, right and bottom so far. *)
Definition extend (e : Z * Z * Z * Z) (a : Rectangle) : Z * Z * Z * Z :=
  let '(l, t, r, b) := e in
  (Z.min l (rx a), Z.min t (ry a), Z.max r (rx a + rwidth a), Z.max b (ry a + rheight a)).

Definition extents (r : Region) : Rectangle :=
  match r with
  | [] => mkRect 0 0 0 0
  | a :: _ =>
      let '(l, t, r, b) := foldl extend (rx a, ry a, rx a + rwidth a, ry a + rheight a) r in
      mkRect l t (u32 (r - l)) (u32 (b - t))
  end.

(** ** Lemmas *)

(** A region as the operations produce it. *)
Definition rectangle_ok (a : Rectangle) : Prop :=
  is_signed 32 (rx a) /\ is_signed 32 (ry a) /\ is_unsigned 32 (rwidth a) /\ is_unsigned 32 (rheight a).

Lemma contains_spec r px py :
  contains r px py = true <->
  Exists (fun a => rx a <= px < rx a + rwidth a /\ ry a <= py < ry a + rheight a) r.
Proof.
  unfold contains. rewrite existsb_exists, Exists_exists. split.
  - intros (a & Hin & Ha). exists a. split; [by apply list_elem_of_In|]. bool_to_prop. lia.
  - intros (a & Hin & Ha). exists a. split; [by apply list_elem_of_In|]. lia.
Qed.

(** The far corner of the rectangle, if it is not empty, is a 32-bit point. *)
Definition fits (a : Rectangle) : Prop :=
  rwidth a = 0 \/ rheight a = 0 \/ (rx a + rwidth a <= smax 32 /\ ry a + rheight a <= smax 32).

Lemma boxes_loop_spec rectangles :
  Forall rectangle_ok rectangles ->
  match boxes_loop rectangles with
  | Some boxes =>
      Forall box_ok boxes /\ zlen boxes <= zlen rectangles /\
      forall px py, boxes_contain boxes px py <-> contains rectangles px py = true
  | None => ~ Forall fits rectangles
  end.
Proof.
  induction 1 as [|a rest Ha Hok IH]; cbn [boxes_loop].
  { split; [constructor|]. split; [done|]. intros. rewrite contains_spec. unfold boxes_contain. by rewrite !Exists_nil. }
  destruct Ha as (Hx & Hy & Hw & Hh). unfold is_signed, is_unsigned in Hx, Hy, Hw, Hh.
  destruct ((rwidth a =? 0) || (rheight a =? 0)) eqn:Hempty.
  - destruct (boxes_loop rest) as [bs|]; [|by intros [_ ?]%Forall_cons].
    destruct IH as (Hbs & Hlen & Hiff). split; [done|]. split; [rewrite zlen_cons; lia|]. intros px py.
    rewrite Hiff, contains_spec, contains_spec, Exists_cons.
    bool_to_prop. assert (~ (rx a <= px < rx a + rwidth a /\ ry a <= py < ry a + rheight a))
      by (destruct Hempty; bool_to_prop; lia). tauto.
  - cbv zeta. destruct ((rx a + rwidth a >? smax 32) || (ry a + rheight a >? smax 32)) eqn:Hover.
    { intros [Hf _]%Forall_cons. unfold fits in Hf. bool_to_prop. destruct Hover; bool_to_prop; lia. }
    destruct (boxes_loop rest) as [bs|]; [|by intros [_ ?]%Forall_cons].
    destruct IH as (Hbs & Hlen & Hiff). bool_to_prop.
    unfold smax in *. rewrite !(swrap_id 32) by (done || (unfold is_signed; lia)). split_and!.
    + constructor; [|done]. unfold box_ok, is_signed. simpl. lia.
    + rewrite !zlen_cons. lia.
    + intros px py. rewrite contains_spec, Exists_cons, <- contains_spec, <- Hiff.
      unfold boxes_contain at 1. rewrite Exists_cons. unfold box_contains at 1. simpl. done.
Qed.

(** Why a list of rectangles is refused. *)
Definition refused (reserved : bool) (rectangles : list Rectangle) : Prop :=
  reserved = false \/ ~ Forall fits rectangles \/ smax 32 < zlen rectangles.

Lemma make_boxes_spec reserved rectangles :
  Forall rectangle_ok rectangles ->
  match make_boxes reserved rectangles with
  | Some boxes =>
      Forall box_ok boxes /\
      forall px py, boxes_contain boxes px py <-> contains rectangles px py = true
  | None => refused reserved rectangles
  end.
Proof.
  intros Hok. pose proof (boxes_loop_spec rectangles Hok) as Hloop. unfold make_boxes, refused.
  destruct reserved; simpl; [|by left]. destruct (boxes_loop rectangles) as [bs|]; [|by right; left].
  destruct Hloop as (Hbs & Hlen & Hin). split_if; [done|]. right. right. lia.
Qed.

Lemma box_rectangles_spec boxes :
  Forall box_ok boxes ->
  Forall rectangle_ok (map box_rectangle boxes) /\
  forall px py, contains (map box_rectangle boxes) px py = true <-> boxes_contain boxes px py.
Proof.
  intros Hok.
  assert (forall b, box_ok b -> u32 (i32 (x2 b - x1 b)) = x2 b - x1 b /\ u32 (i32 (y2 b - y1 b)) = y2 b - y1 b) as Hw.
  { intros b (H1 & H2 & H3 & H4 & H5 & H6). unfold is_signed in *.
    rewrite !wrap_swrap by done. rewrite !wrap_id by (unfold is_unsigned; lia). done. }
  split.
  - apply Forall_fmap. eapply Forall_impl; [done|]. intros b (H1 & H2 & H3 & H4 & H5 & H6).
    unfold rectangle_ok, compose. simpl. split_and!; [done..| |]; by apply wrap_range.
  - intros px py. rewrite contains_spec, Exists_fmap. unfold boxes_contain, compose. simpl.
    rewrite Forall_forall in Hok. rewrite !Exists_exists. split; intros (b & Hb & Hc); exists b; (split; [done|]);
      destruct (Hw b (Hok b Hb)) as [E1 E2]; unfold box_contains in *; rewrite ?E1, ?E2 in *; lia.
Qed.

Lemma make_rectangles_spec reserved boxes :
  Forall box_ok boxes ->
  match make_rectangles reserved boxes with
  | Some r =>
      Forall rectangle_ok r /\
      forall px py, contains r px py = true <-> boxes_contain boxes px py
  | None => reserved = false
  end.
Proof. intros Hok. unfold make_rectangles. destruct reserved; [|done]. by apply box_rectangles_spec. Qed.

(** Some call of pixman runs out of memory. *)
Definition pixman_fails : Prop :=
  exists a b, init_rects a = None \/ pixman_union a b = None \/ pixman_intersect a b = None \/
    pixman_subtract a b = None.

Lemma canonicalize_spec mem rectangles :
  Forall rectangle_ok rectangles ->
  match canonicalize mem rectangles with
  | Some r =>
      Forall rectangle_ok r /\
      forall px py, contains r px py = true <-> contains rectangles px py = true
  | None => refused (mem 0%nat) rectangles \/ mem 1%nat = false \/ pixman_fails
  end.
Proof.
  intros Hok. unfold canonicalize. pose proof (make_boxes_spec (mem 0%nat) rectangles Hok) as Hmake.
  destruct (make_boxes _ rectangles) as [bs|]; [|by left]. destruct Hmake as [Hbs Hin].
  destruct (init_rects bs) as [cs|] eqn:Ei; [|right; right; exists bs, []; tauto].
  destruct (init_rects_law bs cs Hbs Ei) as [Hcs Hin'].
  pose proof (make_rectangles_spec (mem 1%nat) cs Hcs) as Hr.
  destruct (make_rectangles _ cs) as [r|]; [|by right; left]. destruct Hr as [Hr Hin'']. split; [done|].
  intros px py. by rewrite Hin'', Hin', Hin.
Qed.

(** What each operation means on membership. *)
Definition combined (operation : RegionOperation) (in_destination in_source : Prop) : Prop :=
  match operation with
  | op_set => in_source
  | op_unite => in_destination \/ in_source
  | op_intersect => in_destination /\ in_source
  | op_subtract => in_destination /\ ~ in_source
  | op_invert => in_source /\ ~ in_destination
  end.

Lemma init_rects_fails bs : init_rects bs = None -> pixman_fails.
Proof. intros E. exists bs, []. auto. Qed.

Lemma combine_regions_spec operation dr sr :
  operation <> op_set -> Forall box_ok dr -> Forall box_ok sr ->
  match combine_regions operation dr sr with
  | Some cb =>
      Forall box_ok cb /\ forall px py,
        boxes_contain cb px py <-> combined operation (boxes_contain dr px py) (boxes_contain sr px py)
  | None => pixman_fails
  end.
Proof.
  intros Hop Hd Hs. destruct (combine_regions operation dr sr) as [cb|] eqn:E; destruct operation; try done; simpl in *.
  - by apply union_law in E.
  - by apply intersect_law in E.
  - by apply subtract_law in E.
  - by apply subtract_law in E.
  - exists dr, sr. auto.
  - exists dr, sr. auto.
  - exists dr, sr. auto.
  - exists sr, dr. auto.
Qed.

(** C23: [Region::combine] computes the set operation on the two regions, for
    every operation, and its result is again a region with 32-bit rectangles;
    it fails only when memory runs out, here or in pixman, or when one of the
    regions is too large for pixman's coordinates or its count of boxes. *)
Theorem combine_correct mem operation destination source :
  Forall rectangle_ok destination -> Forall rectangle_ok source ->
  match combine mem operation destination source with
  | Some r =>
      Forall rectangle_ok r /\
      forall px py, contains r px py = true <->
        combined operation (contains destination px py = true) (contains source px py = true)
  | None =>
      (exists n, mem n = false) \/
      (operation <> op_set /\
       (pixman_fails \/ ~ Forall fits (destination ++ source) \/
        smax 32 < zlen destination \/ smax 32 < zlen source))
  end.
Proof.
  intros Hd Hs. unfold combine. case_bool_decide as Hop.
  { subst. destruct (mem 0%nat) eqn:Hm; [done|]. left. eauto. }
  pose proof (make_boxes_spec (mem 0%nat) destination Hd) as Hmd.
  pose proof (make_boxes_spec (mem 1%nat) source Hs) as Hms. unfold refused in *.
  destruct (make_boxes (mem 0%nat) destination) as [db|]; [|rewrite Forall_app; naive_solver].
  destruct (make_boxes (mem 1%nat) source) as [sb|]; [|rewrite Forall_app; naive_solver].
  destruct Hmd as [Hdb Hdin], Hms as [Hsb Hsin].
  destruct (init_rects db) as [dr|] eqn:Edr; [|apply init_rects_fails in Edr; auto].
  destruct (init_rects sb) as [sr|] eqn:Esr; [|apply init_rects_fails in Esr; auto].
  destruct (init_rects []) as [e|] eqn:Ee; [|apply init_rects_fails in Ee; auto].
  destruct (init_rects_law _ _ Hdb Edr) as [Hdr Hdin'], (init_rects_law _ _ Hsb Esr) as [Hsr Hsin'].
  pose proof (combine_regions_spec operation dr sr Hop Hdr Hsr) as Hc.
  destruct (combine_regions operation dr sr) as [cb|]; [|auto]. destruct Hc as [Hok Hin].
  pose proof (make_rectangles_spec (mem 2%nat) cb Hok) as Hr.
  destruct (make_rectangles _ cb) as [r|]; [|left; eauto]. destruct Hr as [Hr Hrin]. split; [done|].
  intros px py. specialize (Hdin' px py). specialize (Hsin' px py).
  specialize (Hdin px py). specialize (Hsin px py). rewrite Hrin, Hin. unfold combined. destruct operation; tauto.
Qed.

(** The rectangle, moved by the offset, is one of 32-bit corners. *)
Definition stays (dx dy : Z) (a : Rectangle) : Prop :=
  smin 32 <= rx a + dx /\ smin 32 <= ry a + dy /\
  rx a + dx + rwidth a <= smax 32 /\ ry a + dy + rheight a <= smax 32.

Lemma translate_rectangles_spec dx dy rectangles :
  Forall rectangle_ok rectangles -> is_signed 32 dx -> is_signed 32 dy ->
  match translate_rectangles dx dy rectangles with
  | Some translated =>
      Forall rectangle_ok translated /\ Forall fits translated /\ zlen translated = zlen rectangles /\
      forall px py, contains translated px py = true <-> contains rectangles (px - dx) (py - dy) = true
  | None => ~ Forall (stays dx dy) rectangles
  end.
Proof.
  intros Hok Hdx Hdy.
  induction Hok as [|a rest Ha Hok IH]; cbn [translate_rectangles]; cbv zeta.
  { done. }
  destruct ((rx a + dx <? smin 32) || (ry a + dy <? smin 32) ||
     (rx a + dx + rwidth a >? smax 32) || (ry a + dy + rheight a >? smax 32)) eqn:Hover.
  { intros [Hst _]%Forall_cons. unfold stays in Hst. lia. }
  destruct (translate_rectangles dx dy rest) as [ts|]; [|by intros [_ ?]%Forall_cons].
  destruct IH as (Hts & Hfits & Hlen & Hin). bool_to_prop.
  destruct Ha as (Hx & Hy & Hw & Hh). unfold smin, smax, is_signed, is_unsigned in *.
  rewrite !(swrap_id 32) by (done || (unfold is_signed; lia)). split_and!.
  - constructor; [|done]. unfold rectangle_ok, is_signed, is_unsigned. simpl. lia.
  - constructor; [|done]. unfold fits, smax. simpl. lia.
  - rewrite !zlen_cons. lia.
  - intros px py. specialize (Hin px py). rewrite contains_spec in Hin |- *.
    rewrite contains_spec in Hin |- *. rewrite !Exists_cons, Hin. simpl.
    assert (rx a + dx <= px < rx a + dx + rwidth a /\ ry a + dy <= py < ry a + dy + rheight a <->
      rx a <= px - dx < rx a + rwidth a /\ ry a <= py - dy < ry a + rheight a) by lia. tauto.
Qed.

(** C24: [Region::translate] moves the region by exactly the offset: a point is
    in the result when the point moved back was in the original region, and
    every rectangle has 32-bit coordinates. It fails only when memory runs out,
    here or in pixman, when a moved rectangle would leave the 32-bit
    coordinates, or when there are too many rectangles for pixman. *)
Theorem translate_correct mem dx dy r :
  Forall rectangle_ok r -> is_signed 32 dx -> is_signed 32 dy ->
  match translate mem r dx dy with
  | Some r' =>
      Forall rectangle_ok r' /\
      forall px py, contains r' px py = true <-> contains r (px - dx) (py - dy) = true
  | None =>
      (exists n, mem n = false) \/ pixman_fails \/ ~ Forall (stays dx dy) r \/ smax 32 < zlen r
  end.
Proof.
  intros Hok Hdx Hdy. unfold translate. destruct (mem 0%nat) eqn:Hm; simpl; [|left; eauto].
  pose proof (translate_rectangles_spec dx dy r Hok Hdx Hdy) as Ht.
  destruct (translate_rectangles dx dy r) as [ts|]; [|auto].
  destruct Ht as (Hts & Hfits & Hlen & Hin).
  pose proof (canonicalize_spec (fun n => mem (S n)) ts Hts) as Hc.
  destruct (canonicalize _ ts) as [r'|].
  - destruct Hc as [Hr' Hin']. split; [done|]. intros px py. by rewrite Hin', Hin.
  - unfold refused in Hc. rewrite Hlen in Hc. naive_solver.
Qed.

(** The box of an extents computation holds the rectangle. *)
Definition inside (e : Z * Z * Z * Z) (a : Rectangle) : Prop :=
  let '(l, t, r, b) := e in l <= rx a /\ t <= ry a /\ rx a + rwidth a <= r /\ ry a + rheight a <= b.

Lemma foldl_extend_spec rectangles : forall e,
  Forall (inside (foldl extend e rectangles)) rectangles /\
  (let '(l, t, r, b) := e in let '(l', t', r', b') := foldl extend e rectangles in
   l' <= l /\ t' <= t /\ r <= r' /\ b <= b') /\
  forall l t r b,
    (let '(el, et, er, eb) := e in l <= el /\ t <= et /\ er <= r /\ eb <= b) ->
    Forall (inside (l, t, r, b)) rectangles ->
    let '(l', t', r', b') := foldl extend e rectangles in l <= l' /\ t <= t' /\ r' <= r /\ b' <= b.
Proof.
  induction rectangles as [|a rest IH]; intros [[[el et] er] eb]; simpl.
  { split_and!; [constructor|lia..|]. intros; done. }
  destruct (IH (extend (el, et, er, eb) a)) as (H1 & H2 & H3). cbn [extend] in *.
  destruct (foldl extend (Z.min el (rx a), Z.min et (ry a), Z.max er (rx a + rwidth a),
    Z.max eb (ry a + rheight a)) rest) as [[[l' t'] r'] b'] eqn:E.
  split_and!; [|lia..|].
  - constructor; [|done]. unfold inside. lia.
  - intros l t r b He [Ha Hrest]%Forall_cons. apply H3; [|done]. unfold inside in Ha. lia.
Qed.

(** The sides of the extents before the final casts. *)
Definition extents_sides (a : Rectangle) (r : Region) : Z * Z * Z * Z :=
  foldl extend (rx a, ry a, rx a + rwidth a, ry a + rheight a) (a :: r).

(** C25: the extents of a non-empty region hold every one of its rectangles,
    and no smaller box does: any box that holds them all holds the extents. *)
Theorem extents_least a r :
  Forall rectangle_ok (a :: r) ->
  Forall (fun c => rx c + rwidth c <= smax 32 /\ ry c + rheight c <= smax 32) (a :: r) ->
  let e := extents (a :: r) in
  let box := (rx e, ry e, rx e + rwidth e, ry e + rheight e) in
  Forall (inside box) (a :: r) /\
  forall l t rt b, Forall (inside (l, t, rt, b)) (a :: r) ->
    l <= rx e /\ t <= ry e /\ rx e + rwidth e <= rt /\ ry e + rheight e <= b.
Proof.
  intros Hok Hsmall. cbv zeta. unfold extents. fold (extents_sides a r).
  destruct (foldl_extend_spec (a :: r) (rx a, ry a, rx a + rwidth a, ry a + rheight a)) as (H1 & H2 & H3).
  fold (extents_sides a r) in H1, H2, H3.
  assert (let '(l, t, rt, b) := extents_sides a r in
    - 2 ^ 31 <= l /\ - 2 ^ 31 <= t /\ rt <= 2 ^ 31 - 1 /\ b <= 2 ^ 31 - 1) as Hrange.
  { specialize (H3 (- 2 ^ 31) (- 2 ^ 31) (2 ^ 31 - 1) (2 ^ 31 - 1)).
    assert (Forall (inside (- 2 ^ 31, - 2 ^ 31, 2 ^ 31 - 1, 2 ^ 31 - 1)) (a :: r)) as Hall.
    { apply Forall_forall. intros c Hc. rewrite Forall_forall in Hok, Hsmall.
      destruct (Hok c Hc) as (Hx & Hy & _ & _). specialize (Hsmall c Hc).
      unfold inside, is_signed, smax in *. lia. }
    apply H3; [|done]. apply Forall_cons in Hall as [Ha _]. unfold inside in Ha. lia. }
  destruct (extents_sides a r) as [[[l t] rt] b].
  apply Forall_cons in Hok as [(Hx & Hy & Hw & Hh) _]. unfold is_unsigned in Hw, Hh.
  cbn [rx ry rwidth rheight]. rewrite !wrap_id by (unfold is_unsigned; lia).
  replace (l + (rt - l)) with rt by lia. replace (t + (b - t)) with b by lia. split; [done|].
  intros l' t' rt' b' Hall. apply H3; [|done].
  apply Forall_cons in Hall as [Ha _]. unfold inside in Ha. lia.
Qed.
End Region.

(** ** An instance of the interface

    The set operations on lists of boxes, without pixman's banding. *)
Definition box_nonempty (b : Box) : bool := (x1 b <? x2 b) && (y1 b <? y2 b).

Definition intersect_box (a b : Box) : list Box :=
  List.filter box_nonempty
    [mkBox (Z.max (x1 a) (x1 b)) (Z.max (y1 a) (y1 b)) (Z.min (x2 a) (x2 b)) (Z.min (y2 a) (y2 b))].

Definition subtract_box (a b : Box) : list Box :=
  List.filter box_nonempty
    [mkBox (x1 a) (y1 a) (x2 a) (Z.min (y2 a) (y1 b));
     mkBox (x1 a) (Z.max (y1 a) (y2 b)) (x2 a) (y2 a);
     mkBox (x1 a) (Z.max (y1 a) (y1 b)) (Z.min (x2 a) (x1 b)) (Z.min (y2 a) (y2 b));
     mkBox (Z.max (x1 a) (x2 b)) (Z.max (y1 a) (y1 b)) (x2 a) (Z.min (y2 a) (y2 b))].

Definition slow_intersect (a b : list Box) : list Box :=
  flat_map (fun c => flat_map (intersect_box c) b) a.

Definition slow_subtract (a b : list Box) : list Box :=
  foldl (fun boxes c => flat_map (fun d => subtract_box d c) boxes) a b.

#[export] Instance slow_pixman : Pixman := {|
  init_rects := Some;
  pixman_union a b := Some (a ++ b);
  pixman_intersect a b := Some (slow_intersect a b);
  pixman_subtract a b := Some (slow_subtract a b)
|}.

Lemma boxes_contain_cons b bs px py :
  boxes_contain (b :: bs) px py <-> box_contains b px py \/ boxes_contain bs px py.
Proof. apply Exists_cons. Qed.

Lemma boxes_contain_flat_map (f : Box -> list Box) bs px py :
  boxes_contain (flat_map f bs) px py <-> Exists (fun b => boxes_contain (f b) px py) bs.
Proof.
  induction bs as [|b bs IH]; simpl; [unfold boxes_contain; by rewrite !Exists_nil|].
  rewrite Exists_cons, <- IH. unfold boxes_contain. by rewrite Exists_app.
Qed.

Lemma box_ok_flat_map (f : Box -> list Box) bs :
  (forall b, box_ok b -> Forall box_ok (f b)) -> Forall box_ok bs -> Forall box_ok (flat_map f bs).
Proof.
  intros Hf Hbs. apply Forall_forall. intros c (b & Hb & Hc)%list_elem_of_In%in_flat_map.
  rewrite Forall_forall in Hbs. specialize (Hf b (Hbs b (proj2 (list_elem_of_In _ _) Hb))).
  rewrite Forall_forall in Hf. by apply Hf, list_elem_of_In.
Qed.

Lemma filter_nonempty_spec bs px py :
  boxes_contain (List.filter box_nonempty bs) px py <-> boxes_contain bs px py.
Proof.
  induction bs as [|b bs IH]; simpl; [done|]. rewrite (boxes_contain_cons b), <- IH.
  destruct (box_nonempty b) eqn:E; [apply boxes_contain_cons|].
  split; [by right|]. intros [Hb|?]; [|done].
  unfold box_nonempty, box_contains in *. lia.
Qed.

Lemma subtract_box_ok a b : box_ok a -> box_ok b -> Forall box_ok (subtract_box a b).
Proof.
  intros (A1 & A2 & A3 & A4 & _ & _) (B1 & B2 & B3 & B4 & _ & _). unfold is_signed in *.
  apply Forall_forall. intros c [Hin Hne]%list_elem_of_In%filter_In. unfold box_nonempty in Hne.
  simpl in Hin. destruct Hin as [<-|[<-|[<-|[<-|[]]]]]; unfold box_ok, is_signed; simpl in *; lia.
Qed.

Lemma intersect_box_ok a b : box_ok a -> box_ok b -> Forall box_ok (intersect_box a b).
Proof.
  intros (A1 & A2 & A3 & A4 & _ & _) (B1 & B2 & B3 & B4 & _ & _). unfold is_signed in *.
  apply Forall_forall. intros c [Hin Hne]%list_elem_of_In%filter_In. unfold box_nonempty in Hne.
  simpl in Hin. destruct Hin as [<-|[]]; unfold box_ok, is_signed; simpl in *; lia.
Qed.

Lemma slow_subtract_spec b : forall a, Forall box_ok a -> Forall box_ok b ->
  Forall box_ok (slow_subtract a b) /\
  forall px py, boxes_contain (slow_subtract a b) px py <-> boxes_contain a px py /\ ~ boxes_contain b px py.
Proof.
  induction b as [|c b IH]; intros a Ha Hb; simpl.
  { split; [done|]. intros. unfold boxes_contain at 3. rewrite Exists_nil. tauto. }
  apply Forall_cons in Hb as [Hc Hb].
  destruct (IH (flat_map (fun d => subtract_box d c) a)) as [Hok Hin]; [|done|].
  { apply box_ok_flat_map; [|done]. intros. by apply subtract_box_ok. }
  split; [done|]. intros px py. rewrite Hin, boxes_contain_cons, boxes_contain_flat_map.
  assert (Exists (fun d => boxes_contain (subtract_box d c) px py) a <->
    boxes_contain a px py /\ ~ box_contains c px py) as ->; [|tauto].
  clear. induction a as [|d a IH]; [unfold boxes_contain; rewrite !Exists_nil; tauto|].
  rewrite Exists_cons, IH, boxes_contain_cons.
  assert (boxes_contain (subtract_box d c) px py <-> box_contains d px py /\ ~ box_contains c px py) as ->; [|tauto].
  unfold subtract_box. rewrite filter_nonempty_spec. unfold boxes_contain, box_contains.
  rewrite !Exists_cons, Exists_nil. simpl. lia.
Qed.

#[export] Instance slow_pixman_laws : PixmanLaws.
Proof.
  split; simpl.
  - intros bs r Hok [= <-]. done.
  - intros a b r Ha Hb [= <-]. split; [by apply Forall_app|].
    intros. unfold boxes_contain. by rewrite Exists_app.
  - intros a b r Ha Hb [= <-]. unfold slow_intersect. split.
    + apply box_ok_flat_map; [|done]. intros c Hc. apply box_ok_flat_map; [|done].
      intros. by apply intersect_box_ok.
    + intros px py. rewrite boxes_contain_flat_map.
      assert (forall c d, boxes_contain (intersect_box c d) px py <->
        box_contains c px py /\ box_contains d px py) as Hi.
      { intros c d. unfold intersect_box. rewrite filter_nonempty_spec. unfold boxes_contain, box_contains.
        rewrite Exists_cons, Exists_nil. simpl. lia. }
      clear Ha Hb. induction a as [|c a IHa]; [unfold boxes_contain; rewrite !Exists_nil; tauto|].
      rewrite Exists_cons, IHa, (boxes_contain_cons c), boxes_contain_flat_map.
      assert (Exists (fun d => boxes_contain (intersect_box c d) px py) b <->
        box_contains c px py /\ boxes_contain b px py) as ->; [|tauto].
      clear IHa. induction b as [|d b IHb]; [unfold boxes_contain; rewrite !Exists_nil; tauto|].
      rewrite Exists_cons, IHb, (boxes_contain_cons d), Hi. tauto.
  - intros a b r Ha Hb [= <-]. by apply slow_subtract_spec.
Qed.

(** ** Witnesses *)

Definition sample_region : Region := [mkRect 0 0 10 10; mkRect 20 0 5 5].

Lemma sample_region_ok : Forall rectangle_ok sample_region.
Proof. repeat apply Forall_cons_2; [..|apply Forall_nil_2]; unfold rectangle_ok; split_and!; by_computation. Qed.

(** Every allocation succeeds. *)
Definition ample : Reserves := fun _ => true.

Lemma combine_correct_witness :
  exists r, combine ample op_subtract sample_region [mkRect 5 5 10 10] = Some r /\ contains r 4 9 = true /\
    contains r 5 5 = false.
Proof.
  assert (Forall rectangle_ok [mkRect 5 5 10 10]) as Hs.
  { apply Forall_cons_2; [unfold rectangle_ok; split_and!; by_computation|apply Forall_nil_2]. }
  pose proof (combine_correct ample op_subtract sample_region [mkRect 5 5 10 10] sample_region_ok Hs) as Hc.
  destruct (combine ample op_subtract sample_region [mkRect 5 5 10 10]) as [r|] eqn:E;
    [|vm_compute in E; discriminate].
  destruct Hc as [_ Hin]. exists r. split; [reflexivity|]. split.
  - apply Hin. split; [vm_compute; reflexivity|]. intros H. vm_compute in H. discriminate.
  - apply not_true_iff_false. intros H. apply Hin in H as [_ H]. apply H. vm_compute. reflexivity.
Defined.

Lemma translate_correct_witness :
  exists r, translate ample sample_region 100 (-3) = Some r /\ contains r 105 0 = true.
Proof.
  pose proof (translate_correct ample 100 (-3) sample_region sample_region_ok ltac:(by_computation)
    ltac:(by_computation)) as Ht.
  destruct (translate ample sample_region 100 (-3)) as [r|] eqn:E; [|vm_compute in E; discriminate].
  exists r. split; [reflexivity|]. apply (proj2 Ht). vm_compute. reflexivity.
Defined.

Lemma extents_least_witness :
  extents sample_region = mkRect 0 0 25 10 /\ Forall (inside (0, 0, 25, 10)) sample_region.
Proof.
  split; [vm_compute; reflexivity|].
  refine (proj1 (extents_least (mkRect 0 0 10 10) [mkRect 20 0 5 5] sample_region_ok _)).
  by_computation.
Defined.
