(* ===== verification/Windows.v ===== *)
(** * The window tree

    The window records of [src/src/server/include/xmin/server/server_state.hpp]
    and the queries of [src/src/server/server_state.cpp] that walk the tree:
    upwards ([is_descendant], [absolute_position], [map_state],
    [effective_cursor], [visible_content_area]) and downwards
    ([child_window_at], [deepest_window_at]). The walks run on fuel; in a
    well-formed tree [tree_fuel] is enough. *)
From S2P Require Import Prelude.
From S2P Require Import Region.

(** ** Data *)

Definition root_window_id : Z := 0x00000100.

Definition root_visual_id : Z := 3.

Definition default_colormap_id : Z := 2.

Inductive WindowClass := input_output | input_only.

#[export] Instance WindowClass_eq_dec : EqDecision WindowClass.
Proof. solve_decision. Defined.

Record PropertyValue := mkProperty { property_type : Z; format : Z; data : list Z }.

#[export] Instance PropertyValue_eta : Eta PropertyValue := fun p =>
  mkProperty (property_type p) (format p) (data p).

Section Windows.

(** Surfaces and cursor images are opaque handles. *)
Record WindowRecord := mkWindow {
  id : Z;
  owner : Z;
  parent : Z;
  children : list Z;
  event_masks : gmap Z Z;
  properties : gmap Z PropertyValue;
  shapes : option Region * option Region * option Region;
  shape_event_clients : list Z;
  surface : option Z;
  x : Z;
  y : Z;
  width : Z;
  height : Z;
  border_width : Z;
  do_not_propagate_mask : Z;
  visual : Z;
  colormap : Z;
  background_pixel : Z;
  border_pixel : Z;
  window_cursor : option Z;
  backing_planes : Z;
  backing_pixel : Z;
  depth : Z;
  window_class : WindowClass;
  bit_gravity : Z;
  window_gravity : Z;
  backing_store : Z;
  override_redirect : bool;
  save_under : bool;
  mapped : bool
}.

#[export] Instance WindowRecord_eta : Eta WindowRecord := fun w =>
  mkWindow (id w) (owner w) (parent w) (children w) (event_masks w) (properties w) (shapes w)
    (shape_event_clients w) (surface w) (x w) (y w) (width w) (height w) (border_width w)
    (do_not_propagate_mask w) (visual w) (colormap w) (background_pixel w) (border_pixel w)
    (window_cursor w) (backing_planes w) (backing_pixel w) (depth w) (window_class w)
    (bit_gravity w) (window_gravity w) (backing_store w) (override_redirect w) (save_under w)
    (mapped w).

Definition default_shape (w : WindowRecord) (kind : Z) : Rectangle :=
  if kind =? 1 then mkRect 0 0 (width w) (height w)
  else
    let border := border_width w in
    mkRect (- border) (- border) (u32 (width w + 2 * border_width w))
      (u32 (height w + 2 * border_width w)).

(** [windows_]. *)
Abbreviation WindowMap := (gmap Z WindowRecord).

Implicit Types ws : WindowMap.

(** ** Walking up

    The loops [for (w = window(id); w != nullptr; w = window(w->parent))]:
    [visit] is the body, answering at once ([inr]) or going on ([inl]);
    [missing] is the answer when the next window does not exist. *)
Fixpoint climb {A R : Type} (fuel : nat) (ws : WindowMap) (visit : A -> WindowRecord -> A + R)
    (missing : A -> R) (a : A) (current : Z) : run R :=
  match ws !! current with
  | None => finished (missing a)
  | Some w =>
      match visit a w with
      | inr r => finished r
      | inl a =>
          match fuel with
          | O => out_of_fuel
          | S fuel => climb fuel ws visit missing a (parent w)
          end
      end
  end.

Definition tree_fuel (ws : WindowMap) : nat := size ws.

Definition is_descendant (ws : WindowMap) (candidate ancestor : Z) : run bool :=
  climb (tree_fuel ws) ws
    (fun _ current =>
       if parent current =? 0 then inr false
       else if parent current =? ancestor then inr true
       else inl tt)
    (fun _ => false) tt candidate.

Definition absolute_position (ws : WindowMap) (candidate : Z) : run (Z * Z) :=
  climb (tree_fuel ws) ws
    (fun a current =>
       if parent current =? 0 then inr a
       else inl (i32 (a.1 + (x current + border_width current)),
                 i32 (a.2 + (y current + border_width current))))
    (fun a => a) (0, 0) candidate.

(** 0 unmapped, 1 unviewable, 2 viewable. *)
Definition map_state (ws : WindowMap) (candidate : Z) : run Z :=
  match ws !! candidate with
  | None => finished 0
  | Some w =>
      if negb (mapped w) then finished 0
      else
        climb (tree_fuel ws) ws
          (fun _ current =>
             if negb (mapped current) then inr 1
             else if parent current =? 0 then inr 2
             else inl tt)
          (fun _ => 1) tt candidate
  end.

Definition effective_cursor (ws : WindowMap) (candidate : Z) : run (option Z) :=
  climb (tree_fuel ws) ws
    (fun _ current =>
       match window_cursor current with
       | Some cursor => inr (Some cursor)
       | None => inl tt
       end)
    (fun _ => None) tt candidate.

(** The locals of [visible_content_area]. *)
Record VisibleArea := mkVisible {
  left : Z; top : Z; right : Z; bottom : Z; origin_x : Z; origin_y : Z
}.

Definition visible_content_area (ws : WindowMap) (candidate : WindowRecord)
    (x0 y0 width0 height0 border_width0 : Z) : run (option Rectangle) :=
  climb (tree_fuel ws) ws
    (fun a ancestor =>
       if negb (id ancestor =? root_window_id) && negb (mapped ancestor) then inr None
       else
         let a := mkVisible (Z.max (left a) (- origin_x a)) (Z.max (top a) (- origin_y a))
           (Z.min (right a) (width ancestor - origin_x a))
           (Z.min (bottom a) (height ancestor - origin_y a)) (origin_x a) (origin_y a) in
         if (left a >=? right a) || (top a >=? bottom a) then inr None
         else if parent ancestor =? 0 then
           inr (Some (mkRect (i32 (left a)) (i32 (top a))
                        (u32 (right a - left a)) (u32 (bottom a - top a))))
         else
           inl (mkVisible (left a) (top a) (right a) (bottom a)
                  (origin_x a + (x ancestor + border_width ancestor))
                  (origin_y a + (y ancestor + border_width ancestor))))
    (fun _ => None)
    (mkVisible 0 0 width0 height0 (x0 + border_width0) (y0 + border_width0))
    (parent candidate).

(** ** Walking down *)

Definition shape_misses (shape : option Region) (local_x local_y : Z) : bool :=
  match shape with
  | Some r => negb (contains r local_x local_y)
  | None => false
  end.

(** The hit test of one child: its bordered rectangle and its bounding and
    input shapes. *)
Definition window_hit (child : WindowRecord) (origin : Z * Z) (px py : Z) : bool :=
  let border := border_width child in
  if (px <? origin.1 - border) || (py <? origin.2 - border) ||
     (px >=? origin.1 + width child + border) || (py >=? origin.2 + height child + border)
  then false
  else
    let local_x := px - origin.1 in
    let local_y := py - origin.2 in
    negb (shape_misses (shapes child).1.1 local_x local_y ||
          shape_misses (shapes child).2 local_x local_y).

(** The loop over the children, topmost first. *)
Fixpoint child_scan (ws : WindowMap) (candidates : list Z) (px py : Z) : run Z :=
  match candidates with
  | [] => finished 0
  | candidate :: rest =>
      match ws !! candidate with
      | None => child_scan ws rest px py
      | Some child =>
          let* state := map_state ws (id child) in
          if negb (state =? 2) then child_scan ws rest px py
          else
            let* origin := absolute_position ws (id child) in
            if window_hit child origin px py then finished (id child)
            else child_scan ws rest px py
      end
  end.

Definition child_window_at (ws : WindowMap) (parent_id px py : Z) : run Z :=
  match ws !! parent_id with
  | None => finished 0
  | Some p => child_scan ws (rev (children p)) px py
  end.

(** The recursion of [deepest_window_at]. *)
Fixpoint deepest_from (fuel : nat) (ws : WindowMap) (parent_id px py : Z) : run Z :=
  match ws !! parent_id with
  | None => finished 0
  | Some _ =>
      let* child := child_window_at ws parent_id px py in
      if child =? 0 then finished parent_id
      else match fuel with
      | O => out_of_fuel
      | S fuel => deepest_from fuel ws child px py
      end
  end.

Definition deepest_window_at (ws : WindowMap) (parent_id px py : Z) : run Z :=
  deepest_from (tree_fuel ws) ws parent_id px py.

Definition all_event_masks (candidate : WindowRecord) : Z :=
  foldr (fun selection masks => Z.lor masks selection.2) 0 (map_to_list (event_masks candidate)).

(** [redirect_recipient]: the first client other than the requester that
    selected [mask] on the window, 0 if none. *)
Definition redirect_recipient (w : WindowRecord) (mask requester : Z) : Z :=
  match List.find (fun selection => negb (selection.1 =? requester) &&
          negb (Z.land selection.2 mask =? 0)) (map_to_list (event_masks w)) with
  | Some selection => selection.1
  | None => 0
  end.

(** ** Well-formed trees *)

(** The chain of windows from [i] up to a window without a parent. *)
Inductive chain (ws : WindowMap) : Z -> list Z -> Prop :=
| chain_top i w : ws !! i = Some w -> parent w = 0 -> chain ws i [i]
| chain_up i w l : ws !! i = Some w -> parent w <> 0 -> chain ws (parent w) l -> chain ws i (i :: l).

(** Records are stored under their identifiers, the children lists are the
    inverse of the parent fields, without repetition, and every window's chain
    reaches the root, the only window without a parent. *)
Record tree_ok (ws : WindowMap) : Prop := {
  ok_ids : forall i w, ws !! i = Some w -> id w = i /\ i <> 0;
  ok_chain : forall i w, ws !! i = Some w -> exists l, chain ws i l;
  ok_root : forall i w, ws !! i = Some w -> (parent w = 0 <-> i = root_window_id);
  ok_has_root : is_Some (ws !! root_window_id);
  ok_children : forall p w, ws !! p = Some w ->
    NoDup (children w) /\
    forall c, c ∈ children w <-> exists cw, ws !! c = Some cw /\ parent cw = p
}.

(** [a] is a proper ancestor of [c]. *)
Inductive ancestor (ws : WindowMap) : Z -> Z -> Prop :=
| ancestor_parent c w : ws !! c = Some w -> parent w <> 0 -> ancestor ws (parent w) c
| ancestor_up c w a : ws !! c = Some w -> parent w <> 0 -> ancestor ws a (parent w) -> ancestor ws a c.

Lemma chain_head ws i l : chain ws i l -> exists l', l = i :: l'.
Proof. inversion 1; eauto. Qed.

Lemma chain_functional ws i l l' : chain ws i l -> chain ws i l' -> l = l'.
Proof.
  intros Hl. revert l'. induction Hl as [i w Hi Hp|i w l Hi Hp Hl IH]; intros l' Hl';
    inversion Hl'; simplify_eq; [done|f_equal; auto].
Qed.

(** Every window of a chain starts the rest of it. *)
Lemma chain_suffix ws i l j :
  chain ws i l -> j ∈ l -> exists l1 l2, l = l1 ++ l2 /\ chain ws j l2.
Proof.
  induction 1 as [i w Hi Hp|i w l Hi Hp Hl IH]; intros Hj.
  - apply list_elem_of_singleton in Hj as ->. exists [], [i]. split; [done|by eapply chain_top].
  - apply elem_of_cons in Hj as [->|Hj].
    + exists [], (i :: l). split; [done|by eapply chain_up].
    + destruct (IH Hj) as (l1 & l2 & -> & Hc). by exists (i :: l1), l2.
Qed.

Lemma chain_NoDup ws i l : chain ws i l -> NoDup l.
Proof.
  induction 1 as [i w Hi Hp|i w l Hi Hp Hl IH]; [apply NoDup_singleton|].
  apply NoDup_cons. split; [|done]. intros Hin.
  destruct (chain_suffix _ _ _ _ Hl Hin) as (l1 & l2 & -> & Hc).
  pose proof (chain_functional _ _ _ _ Hc (chain_up _ _ _ _ Hi Hp Hl)) as He.
  apply (f_equal length) in He. simpl in He. rewrite length_app in He. lia.
Qed.

Lemma chain_dom ws i l j : chain ws i l -> j ∈ l -> is_Some (ws !! j).
Proof.
  induction 1 as [i w Hi Hp|i w l Hi Hp Hl IH]; intros Hj.
  - apply list_elem_of_singleton in Hj as ->. eauto.
  - apply elem_of_cons in Hj as [->|Hj]; eauto.
Qed.

(** The fuel bound: a chain is no longer than the tree. *)
Lemma chain_length ws i l : chain ws i l -> (length l <= tree_fuel ws)%nat.
Proof.
  intros Hl. unfold tree_fuel. rewrite <- size_dom.
  rewrite <- (size_list_to_set (C := gset Z) l) by (by eapply chain_NoDup).
  apply subseteq_size. intros j Hj%elem_of_list_to_set.
  apply elem_of_dom. by eapply chain_dom.
Qed.

Lemma chain_ancestor ws i l a : chain ws i l -> ancestor ws a i <-> a ∈ tail l.
Proof.
  intros Hl. split.
  - intros Ha. revert l Hl. induction Ha as [c w Hc Hp|c w a Hc Hp Ha IH]; intros l Hl;
      inversion Hl; simplify_eq; simpl.
    + destruct (chain_head _ _ _ ltac:(eassumption)) as [l' ->]. left.
    + match goal with Hc : chain ws (parent w) ?k |- _ => specialize (IH k Hc);
        destruct (chain_head _ _ _ Hc) as [l' ->] end. by right.
  - induction Hl as [i w Hi Hp|i w l Hi Hp Hl IH]; simpl; intros Hin; [by apply elem_of_nil in Hin|].
    destruct (chain_head _ _ _ Hl) as [l' ->]. apply elem_of_cons in Hin as [->|Hin].
    + by apply ancestor_parent.
    + by eapply ancestor_up, IH.
Qed.

Lemma ancestor_irrefl ws i l : chain ws i l -> ~ ancestor ws i i.
Proof.
  intros Hl Ha. apply (chain_ancestor _ _ _ _ Hl) in Ha.
  pose proof (chain_NoDup _ _ _ Hl) as Hnd. destruct (chain_head _ _ _ Hl) as [l' ->].
  by apply NoDup_cons in Hnd as [? _].
Qed.

(** ** The walks compute over the chain *)

(** A walk as a fold over the records of the chain. *)
Fixpoint climb_list {A R : Type} (ws : WindowMap) (visit : A -> WindowRecord -> A + R)
    (a : A) (l : list Z) : A + R :=
  match l with
  | [] => inl a
  | i :: l =>
      match ws !! i with
      | None => inl a
      | Some w =>
          match visit a w with
          | inr r => inr r
          | inl a => climb_list ws visit a l
          end
      end
  end.

(** With enough fuel a walk gives the fold's answer, or the [missing] answer
    when the body lets it run past the top window. *)
Lemma climb_chain {A R} ws (visit : A -> WindowRecord -> A + R) missing fuel i l a :
  chain ws i l -> ws !! 0 = None -> (length l <= fuel)%nat ->
  climb fuel ws visit missing a i =
  finished (match climb_list ws visit a l with inl a => missing a | inr r => r end).
Proof.
  intros Hl H0. revert a fuel. induction Hl as [i w Hi Hp|i w l Hi Hp Hl IH]; intros a fuel Hf.
  - destruct fuel as [|fuel]; simpl in *; [lia|]. rewrite Hi. destruct (visit a w); [|done].
    rewrite Hp. destruct fuel; simpl; by rewrite H0.
  - destruct fuel as [|fuel]; simpl in *; [lia|]. rewrite Hi. destruct (visit a w); [|done].
    apply IH. lia.
Qed.

Lemma no_window_zero ws : tree_ok ws -> ws !! 0 = None.
Proof.
  intros Hok. destruct (ws !! 0) as [w|] eqn:H0; [|done].
  by destruct (ok_ids ws Hok 0 w H0).
Qed.

(** The walk of a well-formed tree from a window or from anywhere else. *)
Lemma climb_ok {A R} ws (visit : A -> WindowRecord -> A + R) missing i l a :
  tree_ok ws -> chain ws i l ->
  climb (tree_fuel ws) ws visit missing a i =
  finished (match climb_list ws visit a l with inl a => missing a | inr r => r end).
Proof.
  intros Hok Hl. apply climb_chain; [done|by apply no_window_zero|by eapply chain_length].
Qed.

Lemma climb_nowhere {A R} ws (visit : A -> WindowRecord -> A + R) missing fuel i a :
  ws !! i = None -> climb fuel ws visit missing a i = finished (missing a).
Proof. intros Hi. destruct fuel; simpl; by rewrite Hi. Qed.

Lemma is_descendant_spec ws c a :
  tree_ok ws -> exists b, is_descendant ws c a = finished b /\ (b = true <-> ancestor ws a c).
Proof.
  intros Hok. unfold is_descendant. destruct (ws !! c) as [w|] eqn:Hc.
  2: { rewrite climb_nowhere by done. exists false. split; [done|]. split; [done|].
    inversion 1; congruence. }
  destruct (ok_chain ws Hok c w Hc) as [l Hl]. rewrite (climb_ok _ _ _ _ l) by done.
  eexists. split; [done|]. clear w Hc.
  induction Hl as [i w Hi Hp|i w l Hi Hp Hl IH]; simpl; rewrite Hi.
  - rewrite Hp. simpl. split; [done|]. inversion 1; congruence.
  - rewrite (proj2 (Z.eqb_neq _ _) Hp). destruct (Z.eqb_spec (parent w) a) as [<-|Hne].
    + split; [|done]. intros _. by apply ancestor_parent.
    + rewrite IH. split; [by eapply ancestor_up|]. inversion 1; simplify_eq. done.
Qed.

(** Whether every window of the chain is mapped. *)
Definition chain_mapped ws (l : list Z) : Prop :=
  Forall (fun i => exists w, ws !! i = Some w /\ mapped w = true) l.

Lemma map_state_spec ws i l :
  tree_ok ws -> chain ws i l ->
  exists m, map_state ws i = finished m /\
    (m = 2 <-> chain_mapped ws l) /\
    (m = 0 <-> exists w, ws !! i = Some w /\ mapped w = false) /\ 0 <= m <= 2.
Proof.
  intros Hok Hl. unfold map_state.
  destruct (ws !! i) as [w|] eqn:Hi; [|by inversion Hl; congruence].
  destruct (mapped w) eqn:Hm; simpl.
  2: { exists 0. split_and!; [done| | |lia..]; [|split; [eauto|done]]. split; [done|].
    intros Hall. destruct (chain_head _ _ _ Hl) as [l' ->].
    apply Forall_cons in Hall as [(w' & ? & ?) _]. simplify_eq. congruence. }
  rewrite (climb_ok _ _ _ _ l) by done. eexists. split; [done|].
  match goal with |- context [climb_list _ ?v _ _] => set (visit := v) end.
  assert ((match climb_list ws visit tt l with inl _ => 1 | inr r => r end = 2 /\ chain_mapped ws l) \/
    (match climb_list ws visit tt l with inl _ => 1 | inr r => r end = 1 /\ ~ chain_mapped ws l)) as Hcase.
  { clear w Hi Hm. unfold chain_mapped.
    induction Hl as [j w Hj Hp|j w l Hj Hp Hl IH]; simpl; rewrite Hj; subst visit; simpl;
      destruct (mapped w) eqn:Hm; simpl.
    - rewrite Hp. left. split; [done|]. apply Forall_singleton. eauto.
    - right. split; [done|]. rewrite Forall_singleton. intros (? & ? & ?). congruence.
    - rewrite (proj2 (Z.eqb_neq _ _) Hp). destruct IH as [[-> Hall]|[-> Hall]]; [left|right]; split;
        try done; rewrite Forall_cons; [eauto|tauto].
    - right. split; [done|]. rewrite Forall_cons. intros [(? & ? & ?) _]. congruence. }
  assert (~ exists w', Some w = Some w' /\ mapped w' = false) by (intros (? & ? & ?); congruence).
  destruct Hcase as [[-> ?]|[-> ?]]; split_and!; try lia; try tauto;
    split; try done; tauto.
Qed.

Lemma effective_cursor_spec ws i l :
  tree_ok ws -> chain ws i l ->
  effective_cursor ws i =
  finished (match omap (fun j => w ← ws !! j; window_cursor w) l with
            | [] => None
            | cursor :: _ => Some cursor
            end).
Proof.
  intros Hok Hl. unfold effective_cursor. rewrite (climb_ok _ _ _ _ l) by done. f_equal.
  induction Hl as [j w Hj Hp|j w l Hj Hp Hl IH]; cbn; rewrite Hj; cbn;
    destruct (window_cursor w); done.
Qed.

(** The offset one window adds to its descendants' origins. *)
Definition offset (w : WindowRecord) : Z * Z := (x w + border_width w, y w + border_width w).

(** The origin of the chain's first window: the sum of the offsets of all but
    the top window. *)
Definition chain_origin ws (l : list Z) : Z * Z :=
  foldr (fun i o =>
    match ws !! i with
    | Some w => if parent w =? 0 then o else ((offset w).1 + o.1, (offset w).2 + o.2)
    | None => o
    end) (0, 0) l.

(** Geometry fields hold values of their types. *)
Definition geometry_ok (w : WindowRecord) : Prop :=
  is_signed 16 (x w) /\ is_signed 16 (y w) /\ is_unsigned 16 (width w) /\
  is_unsigned 16 (height w) /\ is_unsigned 16 (border_width w).

#[export] Instance geometry_ok_dec w : Decision (geometry_ok w).
Proof. unfold geometry_ok. apply _. Defined.

(** The largest nesting depth for which origins cannot leave 32 bits. *)
Definition safe_depth : Z := 21845.

Lemma offset_bound w : geometry_ok w ->
  -32768 <= (offset w).1 <= 98302 /\ -32768 <= (offset w).2 <= 98302.
Proof. unfold geometry_ok, offset, is_signed, is_unsigned. simpl. lia. Qed.

Lemma absolute_position_spec ws i l :
  tree_ok ws -> chain ws i l -> zlen l <= safe_depth ->
  (forall j w, ws !! j = Some w -> geometry_ok w) ->
  absolute_position ws i = finished (chain_origin ws l).
Proof.
  intros Hok Hl Hlen Hgeo. unfold absolute_position. rewrite (climb_ok _ _ _ _ l) by done. f_equal.
  set (visit := fun (a : Z * Z) (current : WindowRecord) => _).
  assert (forall a n, zlen l + n <= safe_depth -> 0 <= n ->
    - 32768 * n <= a.1 <= 98302 * n ->
    - 32768 * n <= a.2 <= 98302 * n ->
    (match climb_list ws visit a l with inl a => a | inr r => r end) =
    (a.1 + (chain_origin ws l).1, a.2 + (chain_origin ws l).2)) as Hall.
  2: { rewrite (Hall (0, 0) 0) by (simpl; lia). simpl. by destruct (chain_origin ws l). }
  clear Hlen. induction Hl as [j w Hj Hp|j w l Hj Hp Hl IH]; intros a n Hn Hn0 H1 H2; simpl;
    rewrite Hj; unfold visit at 1.
  - rewrite Hp. simpl. destruct a. simpl. f_equal; lia.
  - rewrite (proj2 (Z.eqb_neq _ _) Hp). destruct (offset_bound w (Hgeo j w Hj)) as [Hb1 Hb2].
    unfold offset in Hb1, Hb2. simpl in Hb1, Hb2. rewrite zlen_cons in Hn. pose proof (zlen_nonneg l). unfold safe_depth in *.
    rewrite !(swrap_id 32) by (done || (unfold is_signed; lia)).
    rewrite (IH _ (n + 1)) by (simpl; lia). simpl. f_equal; lia.
Qed.

(** C26: in a well-formed tree the upward queries terminate and answer what
    the parent relation says: [is_descendant] decides proper ancestry,
    [map_state] is viewable exactly when the window and all its ancestors are
    mapped and unmapped exactly when the window itself is not,
    [effective_cursor] is the cursor of the nearest window of the chain that
    has one, and, up to 21845 levels of nesting, [absolute_position] is the
    exact sum of the offsets without 32-bit overflow. *)
Theorem window_queries_correct ws i w :
  tree_ok ws -> ws !! i = Some w ->
  exists l, chain ws i l /\
  (forall a, exists b, is_descendant ws i a = finished b /\ (b = true <-> ancestor ws a i)) /\
  (exists m, map_state ws i = finished m /\ (m = 2 <-> chain_mapped ws l) /\
     (m = 0 <-> mapped w = false) /\ 0 <= m <= 2) /\
  effective_cursor ws i =
    finished (match omap (fun j => w ← ws !! j; window_cursor w) l with
              | [] => None
              | cursor :: _ => Some cursor
              end) /\
  (zlen l <= safe_depth -> (forall j w, ws !! j = Some w -> geometry_ok w) ->
   absolute_position ws i = finished (chain_origin ws l)).
Proof.
  intros Hok Hi. destruct (ok_chain ws Hok i w Hi) as [l Hl]. exists l.
  split_and!; [done| | | |].
  - intros a. by apply is_descendant_spec.
  - destruct (map_state_spec ws i l Hok Hl) as (m & Hm & H2 & H0 & Hr). exists m.
    split_and!; [done..| |lia|lia]. rewrite H0. split; [intros (? & ? & ?); congruence|eauto].
  - by apply effective_cursor_spec.
  - by apply absolute_position_spec.
Qed.

(** ** Hit testing *)

(** The window is viewable and its bordered, shaped area contains the point. *)
Definition hits ws (c px py : Z) : Prop :=
  exists w o, ws !! c = Some w /\ map_state ws c = finished 2 /\
    absolute_position ws c = finished o /\ window_hit w o px py = true.

(** [d] is found from [p] by descending into the topmost child that contains
    the point until no child does. *)
Inductive topmost ws (px py : Z) : Z -> Z -> Prop :=
| topmost_here p w : ws !! p = Some w ->
    Forall (fun c => ~ hits ws c px py) (children w) -> topmost ws px py p p
| topmost_down p w below c above d : ws !! p = Some w ->
    children w = below ++ c :: above -> Forall (fun s => ~ hits ws s px py) above ->
    hits ws c px py -> topmost ws px py c d -> topmost ws px py p d.

Lemma child_scan_spec ws candidates px py :
  tree_ok ws -> Forall (fun c => is_Some (ws !! c)) candidates ->
  exists r, child_scan ws candidates px py = finished r /\
    ((r = 0 /\ Forall (fun c => ~ hits ws c px py) candidates) \/
     (exists above below, candidates = above ++ r :: below /\ r <> 0 /\
        hits ws r px py /\ Forall (fun c => ~ hits ws c px py) above)).
Proof.
  intros Hok. induction candidates as [|c rest IH]; intros Hall; simpl.
  { exists 0. split; [done|]. left. by split. }
  apply Forall_cons in Hall as [[cw Hc] Hall].
  destruct (IH Hall) as (r & Hr & Hspec). rewrite Hc.
  destruct (ok_ids ws Hok c cw Hc) as [-> Hc0].
  destruct (ok_chain ws Hok c cw Hc) as [l Hl].
  destruct (map_state_spec ws c l Hok Hl) as (m & Hm & _ & _ & _). rewrite Hm. simpl.
  assert (~ hits ws c px py -> exists r', child_scan ws rest px py = finished r' /\
    ((r' = 0 /\ Forall (fun c => ~ hits ws c px py) (c :: rest)) \/
     (exists above below, c :: rest = above ++ r' :: below /\ r' <> 0 /\
        hits ws r' px py /\ Forall (fun c => ~ hits ws c px py) above))) as Hskip.
  { intros Hno. exists r. split; [done|]. destruct Hspec as [[-> Hn]|(ab & be & -> & H0 & Hh & Hn)].
    - left. split; [done|]. by constructor.
    - right. exists (c :: ab), be. split_and!; [done..|]. by constructor. }
  destruct (Z.eqb_spec m 2) as [->|Hne]; simpl.
  2: { apply Hskip. intros (w & o & _ & Hm2 & _). congruence. }
  unfold absolute_position at 1. rewrite (climb_ok _ _ _ _ l) by done. simpl.
  match goal with |- context [window_hit cw ?o px py] => destruct (window_hit cw o px py) eqn:Hh end.
  - exists c. split; [done|]. right. exists [], rest. split_and!; [done|done| |done].
    exists cw. eexists. split_and!; [done|done| |exact Hh].
    unfold absolute_position. by rewrite (climb_ok _ _ _ _ l).
  - apply Hskip. intros (w & o & Hw & _ & Ho & Hh'). unfold absolute_position in Ho.
    rewrite (climb_ok _ _ _ _ l) in Ho by done. simplify_eq. congruence.
Qed.

Lemma child_chain ws p w c l :
  tree_ok ws -> ws !! p = Some w -> c ∈ children w -> chain ws p l -> chain ws c (c :: l).
Proof.
  intros Hok Hp Hin Hl. apply (ok_children ws Hok p w Hp) in Hin as (cw & Hc & <-).
  eapply chain_up; [done| |done]. by destruct (ok_ids ws Hok _ _ Hp).
Qed.

Lemma deepest_from_spec ws px py : tree_ok ws -> forall fuel p l,
  chain ws p l -> (tree_fuel ws <= length l + fuel)%nat ->
  exists d, deepest_from fuel ws p px py = finished d /\ topmost ws px py p d.
Proof.
  intros Hok. induction fuel as [|fuel IH]; intros p l Hl Hf;
    (destruct (ws !! p) as [w|] eqn:Hp; [|by inversion Hl; congruence]); simpl; rewrite Hp;
    unfold child_window_at; rewrite Hp;
    (destruct (child_scan_spec ws (rev (children w)) px py Hok) as (r & -> & Hr);
      [apply Forall_forall; intros c Hc; rewrite <- list_elem_of_In, <- in_rev in Hc || idtac;
       apply list_elem_of_In, in_rev, list_elem_of_In, (ok_children ws Hok p w Hp) in Hc
         as (cw & Hc & _); eauto|]); simpl;
    (destruct Hr as [[-> Hn]|(above & below & He & H0 & Hh & Hn)];
     [exists p; split; [done|]; eapply topmost_here; [done|];
      apply Forall_forall; intros c Hc; rewrite Forall_forall in Hn; apply Hn;
      apply list_elem_of_In, in_rev; rewrite rev_involutive; by apply list_elem_of_In|];
     apply (f_equal (@rev Z)) in He; rewrite rev_involutive, rev_app_distr in He; simpl in He;
     rewrite <- app_assoc in He; simpl in He;
     rewrite (proj2 (Z.eqb_neq _ _) H0)).
  - exfalso. assert (chain ws r (r :: l)) as Hc.
    { eapply child_chain; [done..| |done]. rewrite He. set_solver. }
    apply chain_length in Hc. simpl in Hc. lia.
  - assert (chain ws r (r :: l)) as Hc.
    { eapply child_chain; [done..| |done]. rewrite He. set_solver. }
    destruct (IH r (r :: l) Hc) as (d & Hd & Ht); [simpl; lia|]. exists d. split; [done|].
    eapply topmost_down; [done..| |done|done].
    apply Forall_forall. intros c Hcin. rewrite Forall_forall in Hn. apply Hn.
    apply list_elem_of_In, in_rev. by apply list_elem_of_In.
Qed.

Lemma topmost_below ws px py p d w :
  tree_ok ws -> ws !! p = Some w -> topmost ws px py p d ->
  (d = p \/ ancestor ws p d) /\
  exists dw, ws !! d = Some dw /\ Forall (fun c => ~ hits ws c px py) (children dw).
Proof.
  intros Hok Hp Ht. revert w Hp. induction Ht as [p w0 Hp Hn|p w0 be c ab d Hp He Hn Hh Ht IH].
  - intros w Hp'. split; [by left|eauto].
  - intros w Hp'. assert (c ∈ children w0) as Hc by (rewrite He; set_solver).
    apply (ok_children ws Hok p w0 Hp) in Hc as (cw & Hc & Hpar).
    destruct (IH cw Hc) as [Hd Hdw]. split; [|done]. right.
    assert (ancestor ws p c) as Hpc.
    { rewrite <- Hpar. apply ancestor_parent; [done|]. rewrite Hpar.
      by destruct (ok_ids ws Hok p w0 Hp). }
    destruct Hd as [->|Hd]; [done|]. clear -Hpc Hd.
    induction Hd as [d w Hd Hpd|d w a Hd Hpd Ha IH]; [by eapply ancestor_up|].
    eapply ancestor_up; [done..|]. by apply IH.
Qed.

(** C27: the pointer search terminates on every well-formed tree and finds,
    from any window, the window reached by descending into the topmost
    viewable child whose bordered and shaped area contains the point until no
    child contains it. *)
Theorem deepest_window_at_correct ws p w px py :
  tree_ok ws -> ws !! p = Some w ->
  exists d, deepest_window_at ws p px py = finished d /\ topmost ws px py p d /\
    (d = p \/ ancestor ws p d) /\
    exists dw, ws !! d = Some dw /\ Forall (fun c => ~ hits ws c px py) (children dw).
Proof.
  intros Hok Hp. destruct (ok_chain ws Hok p w Hp) as [l Hl].
  destruct (deepest_from_spec ws px py Hok (tree_fuel ws) p l Hl) as (d & Hd & Ht); [lia|].
  exists d. split_and!; [done|done|..]; by eapply topmost_below.
Qed.

(** ** Deciding well-formedness *)

Fixpoint find_chain (fuel : nat) (ws : WindowMap) (i : Z) : option (list Z) :=
  match ws !! i with
  | None => None
  | Some w =>
      if parent w =? 0 then Some [i]
      else match fuel with
      | O => None
      | S fuel => l ← find_chain fuel ws (parent w); Some (i :: l)
      end
  end.

Lemma find_chain_sound fuel ws : forall i l, find_chain fuel ws i = Some l -> chain ws i l.
Proof.
  induction fuel as [|fuel IH]; intros i l; simpl; (destruct (ws !! i) as [w|] eqn:Hi; [|done]);
    destruct (Z.eqb_spec (parent w) 0); try done; try (intros [= <-]; by eapply chain_top).
  destruct (find_chain fuel ws (parent w)) as [l'|] eqn:E; [|done]. intros [= <-].
  eapply chain_up; eauto.
Qed.

Definition tree_check (ws : WindowMap) : bool :=
  bool_decide (is_Some (ws !! root_window_id)) &&
  bool_decide (map_Forall (fun i w =>
    id w = i /\ i <> 0 /\ is_Some (find_chain (tree_fuel ws) ws i) /\
    (parent w =? 0) = (i =? root_window_id) /\
    NoDup (children w) /\
    Forall (fun c => parent <$> ws !! c = Some i) (children w) /\
    map_Forall (fun c cw => parent cw <> i \/ c ∈ children w) ws) ws).

Lemma tree_check_sound ws : tree_check ws = true -> tree_ok ws.
Proof.
  unfold tree_check. intros [Hroot%bool_decide_eq_true Hall%bool_decide_eq_true]%andb_true_iff.
  split; [| | |done|]; intros i w Hi; destruct (Hall i w Hi) as (H1 & H2 & [l Hl] & H4 & H5 & H6 & H7).
  - done.
  - exists l. by eapply find_chain_sound.
  - destruct (Z.eqb_spec (parent w) 0), (Z.eqb_spec i root_window_id); done.
  - split; [done|]. intros c. split.
    + intros Hc. rewrite Forall_forall in H6. apply H6, fmap_Some in Hc as (cw & Hc & ->). eauto.
    + intros (cw & Hc & Hp). destruct (H7 c cw Hc); [congruence|done].
Qed.
End Windows.

(** ** Witnesses *)

Definition sample_window (i p : Z) (cs : list Z) (x0 y0 w0 h0 : Z) : WindowRecord :=
  mkWindow i 5 p cs ∅ ∅ (None, None, None) [] None x0 y0 w0 h0 1 0 3 2 0 0 None 0 0 24
    input_output 0 1 0 false false true.

(** The root with two overlapping children, the upper one with a child. *)
Definition sample_tree : gmap Z WindowRecord :=
  list_to_map [(0x100, sample_window 0x100 0 [1000; 1001] 0 0 640 480);
               (1000, sample_window 1000 0x100 [] 10 10 100 100);
               (1001, sample_window 1001 0x100 [1002] 50 50 100 100);
               (1002, sample_window 1002 1001 [] 5 5 20 20)].

Lemma sample_tree_ok : tree_ok sample_tree.
Proof. apply tree_check_sound. by vm_compute. Qed.

Lemma deepest_window_at_correct_witness :
  deepest_window_at sample_tree 0x100 60 60 = finished 1002 /\
  topmost sample_tree 60 60 0x100 1002.
Proof.
  destruct (deepest_window_at_correct sample_tree 0x100
    (sample_window 0x100 0 [1000; 1001] 0 0 640 480) 60 60 sample_tree_ok) as (d & Hd & Ht & _).
  - vm_compute. reflexivity.
  - assert (deepest_window_at sample_tree 0x100 60 60 = finished 1002) as He by (vm_compute; reflexivity).
    rewrite He in Hd. injection Hd as <-. split; [exact He|exact Ht].
Defined.

Lemma window_queries_correct_witness :
  exists l, chain sample_tree 1002 l /\ absolute_position sample_tree 1002 = finished (chain_origin sample_tree l).
Proof.
  destruct (window_queries_correct sample_tree 1002 (sample_window 1002 1001 [] 5 5 20 20)
    sample_tree_ok) as (l & Hl & _ & _ & _ & Ha).
  - vm_compute. reflexivity.
  - exists l. split; [exact Hl|]. apply Ha.
    + apply chain_length in Hl. change (tree_fuel sample_tree) with 4%nat in Hl.
      unfold zlen, safe_depth. lia.
    + intros j w Hj. revert j w Hj. change (map_Forall (fun _ => geometry_ok) sample_tree).
      by_computation.
Defined.
