(* ===== verification/Tree.v ===== *)
(** * Changing the window tree

    The structural part of the operations of
    [src/src/server/server_state.cpp] that change the tree: [add_window],
    [configure_window]'s restacking, [circulate_window], [reparent_window] and
    [erase_window_tree]. Each keeps the tree well formed. *)
From S2P Require Import Prelude.
From S2P Require Import Windows.

Section Tree.
Implicit Types ws : gmap Z WindowRecord.

(** ** Operations *)

(** The insertion of [add_window] and [parent->children.push_back(id)]. *)
Definition link_window ws (added : WindowRecord) : gmap Z WindowRecord :=
  alter (fun p => p <| children := children p ++ [id added] |>) (parent added)
    (<[id added := added]> ws).

(** [children.erase(std::remove(begin, end, id), end)]. *)
Definition remove_child (i : Z) (l : list Z) : list Z := List.filter (fun c => negb (c =? i)) l.

Fixpoint split_at (i : Z) (l : list Z) : list Z * list Z :=
  match l with
  | [] => ([], [])
  | c :: rest =>
      if c =? i then ([], l)
      else let '(before, after) := split_at i rest in (c :: before, after)
  end.

(** The children list [configure_window] builds for a stack mode: the
    candidate is taken out and inserted at [position]; positions above a
    sibling are past it. *)
Definition restack (l : list Z) (candidate : Z) (sibling : option Z) (stack_mode : Z) : list Z :=
  let l := remove_child candidate l in
  match sibling with
  | Some s =>
      let '(before, after) := split_at s l in
      if (stack_mode =? 0) || (stack_mode =? 2) || (stack_mode =? 4) then
        match after with
        | s' :: rest => before ++ s' :: candidate :: rest
        | [] => before ++ [candidate]
        end
      else before ++ candidate :: after
  | None =>
      if (stack_mode =? 1) || (stack_mode =? 3) then candidate :: l
      else l ++ [candidate]
  end.

(** [std::rotate] of the circulated window to one end. *)
Definition circulate (l : list Z) (circulated : Z) (raise_lowest : bool) : list Z :=
  let '(before, after) := split_at circulated l in
  match after with
  | [] => l
  | c :: rest => if raise_lowest then before ++ rest ++ [c] else c :: before ++ rest
  end.

(** The window [circulate_window] picks: the lowest, respectively highest,
    mapped child; 0 if there is none. *)
Definition circulated_child ws (p : WindowRecord) (raise_lowest : bool) : Z :=
  let is_mapped i :=
    match ws !! i with
    | Some child => mapped child
    | None => false
    end in
  default 0 (List.find is_mapped (if raise_lowest then children p else rev (children p))).

Definition set_children ws (p : Z) (l : list Z) : gmap Z WindowRecord :=
  alter (fun w => w <| children := l |>) p ws.

(** The assignments of [reparent_window] once its checks pass. *)
Definition move_window ws (i old_parent new_parent x0 y0 : Z) : gmap Z WindowRecord :=
  let ws :=
    if old_parent =? new_parent
    then alter (fun p => p <| children := remove_child i (children p) ++ [i] |>) old_parent ws
    else
      alter (fun p => p <| children := children p ++ [i] |>) new_parent
        (alter (fun p => p <| children := remove_child i (children p) |>) old_parent ws) in
  alter (fun w => w <| parent := new_parent |> <| x := x0 |> <| y := y0 |>) i ws.

(** The guard of [reparent_window]: [Some old_parent] when it goes on. *)
Definition reparent_guard ws (i new_parent : Z) : run (option Z) :=
  match ws !! i, ws !! new_parent with
  | Some candidate, Some _ =>
      if (i =? root_window_id) || (i =? new_parent) then finished None
      else
        let* inside := is_descendant ws new_parent i in
        if inside then finished None
        else match ws !! parent candidate with
        | None => finished None
        | Some _ => finished (Some (parent candidate))
        end
  | _, _ => finished None
  end.

Definition reparent_tree ws (i new_parent x0 y0 : Z) : run (option (gmap Z WindowRecord)) :=
  let* guard := reparent_guard ws i new_parent in
  finished ((fun old_parent => move_window ws i old_parent new_parent x0 y0) <$> guard).

(** The removal of one window without children. *)
Definition unlink_window ws (i parent_id : Z) : gmap Z WindowRecord :=
  delete i (alter (fun p => p <| children := remove_child i (children p) |>) parent_id ws).

(** [erase_window_tree]: the last child first, then the window again, until
    it has no children. [erased] lists the windows removed, in order; the
    cleanup of the other components runs once per entry. *)
Fixpoint erase_window_tree (fuel : nat) ws (erased : list Z) (i : Z)
    : run (gmap Z WindowRecord * list Z) :=
  match ws !! i with
  | None => finished (ws, erased)
  | Some w =>
      if i =? root_window_id then finished (ws, erased)
      else match fuel with
      | O => out_of_fuel
      | S fuel =>
          match last (children w) with
          | Some c =>
              let* r := erase_window_tree fuel ws erased c in
              erase_window_tree fuel r.1 r.2 i
          | None => finished (unlink_window ws i (parent w), erased ++ [i])
          end
      end
  end.

(** ** Lemmas on lists *)

Lemma remove_child_spec i l c : c ∈ remove_child i l <-> c ∈ l /\ c <> i.
Proof.
  unfold remove_child. rewrite !list_elem_of_In, filter_In, negb_true_iff, Z.eqb_neq. done.
Qed.

Lemma remove_child_id i l : i ∉ l -> remove_child i l = l.
Proof.
  induction l as [|c l IH]; simpl; [done|]. intros Hni.
  destruct (Z.eqb_spec c i) as [->|]; simpl; [set_solver|]. f_equal. set_solver.
Qed.

Lemma remove_child_NoDup i l : NoDup l -> NoDup (remove_child i l).
Proof.
  induction 1 as [|c l Hni Hnd IH]; simpl; [constructor|].
  destruct (Z.eqb_spec c i); simpl; [done|]. constructor; [|done].
  rewrite remove_child_spec. tauto.
Qed.

Lemma remove_child_app i l k : remove_child i (l ++ k) = remove_child i l ++ remove_child i k.
Proof. apply List.filter_app. Qed.

Lemma split_at_spec i l : l = (split_at i l).1 ++ (split_at i l).2.
Proof.
  induction l as [|c l IH]; simpl; [done|]. destruct (c =? i); [done|].
  destruct (split_at i l). simpl in *. by f_equal.
Qed.

Lemma split_at_found i l : i ∈ l -> exists rest, (split_at i l).2 = i :: rest.
Proof.
  induction l as [|c l IH]; simpl; intros Hi; [by apply elem_of_nil in Hi|].
  destruct (Z.eqb_spec c i) as [->|Hne]; [by exists l|].
  apply elem_of_cons in Hi as [->|Hi]; [done|]. destruct (IH Hi) as [rest Hr].
  exists rest. by destruct (split_at i l).
Qed.

Lemma remove_child_perm i l : NoDup l -> i ∈ l -> i :: remove_child i l ≡ₚ l.
Proof.
  intros Hnd Hi. induction Hnd as [|c l Hni Hnd IH]; [by apply elem_of_nil in Hi|]. simpl.
  destruct (Z.eqb_spec c i) as [->|Hne]; simpl.
  - by rewrite remove_child_id.
  - apply elem_of_cons in Hi as [->|Hi]; [done|]. rewrite <- (IH Hi) at 2.
    apply Permutation_swap.
Qed.

(** ** Lemmas on the tree *)

Definition parents_agree ws ws' (j : Z) : Prop := parent <$> ws' !! j = parent <$> ws !! j.

Lemma chain_transfer ws ws' i l :
  chain ws i l -> Forall (parents_agree ws ws') l -> chain ws' i l.
Proof.
  induction 1 as [i w Hi Hp|i w l Hi Hp Hl IH]; intros Hall; apply Forall_cons in Hall as [Ha Hall];
    unfold parents_agree in Ha; rewrite Hi in Ha; simpl in Ha;
    apply fmap_Some in Ha as (w' & Hi' & Hpp).
  - eapply chain_top; [done|congruence].
  - eapply chain_up; [done|congruence|]. rewrite <- Hpp. auto.
Qed.

Lemma chain_ids ws i l : tree_ok ws -> chain ws i l -> i <> 0.
Proof.
  intros Hok Hl. destruct (chain_dom ws i l i Hl) as [w Hw].
  - destruct (chain_head _ _ _ Hl) as [l' ->]. left.
  - by destruct (ok_ids ws Hok i w Hw).
Qed.

Lemma not_own_parent ws i w : tree_ok ws -> ws !! i = Some w -> parent w <> i.
Proof.
  intros Hok Hi Hp. destruct (ok_ids ws Hok i w Hi) as [_ H0].
  destruct (ok_chain ws Hok i w Hi) as [l Hl].
  apply (ancestor_irrefl _ _ _ Hl). rewrite <- Hp at 1. by apply ancestor_parent; [|congruence].
Qed.

Lemma parent_exists ws i w :
  tree_ok ws -> ws !! i = Some w -> parent w <> 0 -> is_Some (ws !! parent w).
Proof.
  intros Hok Hi Hp. destruct (ok_chain ws Hok i w Hi) as [l Hl].
  inversion Hl; simplify_eq.
  match goal with Hc : chain ws (parent w) _ |- _ =>
    destruct (chain_head _ _ _ Hc) as [l' ->]; eapply chain_dom; [exact Hc|] end.
  by left.
Qed.

Lemma child_of_parent ws i w p :
  tree_ok ws -> ws !! i = Some w -> ws !! parent w = Some p -> i ∈ children p.
Proof. intros Hok Hi Hp. apply (ok_children ws Hok _ _ Hp). eauto. Qed.

Lemma root_parent ws w : tree_ok ws -> ws !! root_window_id = Some w -> parent w = 0.
Proof. intros Hok Hw. by apply (ok_root ws Hok root_window_id w Hw). Qed.

Lemma lookup_alter_fmap (f : WindowRecord -> WindowRecord) i ws j :
  alter f i ws !! j = (fun w => if decide (i = j) then f w else w) <$> ws !! j.
Proof.
  destruct (decide (i = j)) as [<-|Hne].
  - by rewrite lookup_alter_eq.
  - rewrite lookup_alter_ne by done. by destruct (ws !! j).
Qed.

(** Records whose identifier and parent are kept keep ids, chains and root. *)
Lemma tree_ok_same_parents ws ws' :
  tree_ok ws ->
  (forall j, (fun w => (id w, parent w)) <$> ws' !! j = (fun w => (id w, parent w)) <$> ws !! j) ->
  (forall p w', ws' !! p = Some w' -> exists w, ws !! p = Some w /\ children w' ≡ₚ children w) ->
  tree_ok ws'.
Proof.
  intros Hok Hsame Hch.
  assert (forall j w', ws' !! j = Some w' -> exists w, ws !! j = Some w /\ id w' = id w /\ parent w' = parent w) as Hfwd.
  { intros j w' Hj. specialize (Hsame j). rewrite Hj in Hsame. simpl in Hsame.
    symmetry in Hsame. apply fmap_Some in Hsame as (w & Hw & Heq). exists w. by simplify_eq. }
  assert (forall j w, ws !! j = Some w -> exists w', ws' !! j = Some w' /\ parent w' = parent w) as Hbwd.
  { intros j w Hj. specialize (Hsame j). rewrite Hj in Hsame. simpl in Hsame.
    apply fmap_Some in Hsame as (w' & Hw & Heq). exists w'. by simplify_eq. }
  split.
  - intros j w' Hj. destruct (Hfwd j w' Hj) as (w & Hw & -> & _). by apply (ok_ids ws Hok).
  - intros j w' Hj. destruct (Hfwd j w' Hj) as (w & Hw & _). destruct (ok_chain ws Hok j w Hw) as [l Hl].
    exists l. eapply chain_transfer; [done|]. apply Forall_forall. intros k Hk. unfold parents_agree.
    specialize (Hsame k). apply (f_equal (fmap snd)) in Hsame. by rewrite <- !option_fmap_compose in Hsame.
  - intros j w' Hj. destruct (Hfwd j w' Hj) as (w & Hw & _ & ->). by apply (ok_root ws Hok).
  - destruct (ok_has_root ws Hok) as [w Hw]. destruct (Hbwd _ _ Hw) as (w' & Hw' & _). eauto.
  - intros p w' Hp. destruct (Hch p w' Hp) as (w & Hw & Hperm).
    destruct (ok_children ws Hok p w Hw) as [Hnd Hin]. split; [by rewrite Hperm|].
    intros c. rewrite Hperm, Hin. split.
    + intros (cw & Hc & <-). destruct (Hbwd c cw Hc) as (cw' & Hc' & <-). eauto.
    + intros (cw' & Hc' & <-). destruct (Hfwd c cw' Hc') as (cw & Hc & _ & ->). eauto.
Qed.

Lemma set_children_ok ws p w l :
  tree_ok ws -> ws !! p = Some w -> l ≡ₚ children w -> tree_ok (set_children ws p l).
Proof.
  intros Hok Hp Hl. unfold set_children. apply (tree_ok_same_parents ws); [done|..].
  - intros j. rewrite lookup_alter_fmap. destruct (ws !! j); simpl; [|done]. by case_decide.
  - intros q w' Hq. rewrite lookup_alter_fmap in Hq.
    apply fmap_Some in Hq as (w0 & Hq & ->). exists w0. split; [done|].
    case_decide; [|done]. simplify_eq. done.
Qed.

(** Changing fields other than the tree's. *)
Lemma alter_fields_ok ws i (f : WindowRecord -> WindowRecord) :
  tree_ok ws ->
  (forall w, id (f w) = id w /\ parent (f w) = parent w /\ children (f w) = children w) ->
  tree_ok (alter f i ws).
Proof.
  intros Hok Hf. apply (tree_ok_same_parents ws); [done|..].
  - intros j. rewrite lookup_alter_fmap. destruct (ws !! j) as [w|]; simpl; [|done].
    case_decide; [|done]. destruct (Hf w) as (-> & -> & _). done.
  - intros q w' Hq. rewrite lookup_alter_fmap in Hq.
    apply fmap_Some in Hq as (w0 & Hq & ->). exists w0. split; [done|].
    case_decide; [|done]. by destruct (Hf w0) as (_ & _ & ->).
Qed.

Lemma restack_perm l candidate sibling stack_mode :
  NoDup l -> candidate ∈ l -> restack l candidate sibling stack_mode ≡ₚ l.
Proof.
  intros Hnd Hin. rewrite <- (remove_child_perm candidate l) at 2 by done.
  unfold restack. set (k := remove_child candidate l).
  destruct sibling as [s|].
  - pose proof (split_at_spec s k) as Hs. destruct (split_at s k) as [before after]. simpl in Hs.
    rewrite Hs. split_if.
    + destruct after as [|s' rest]; [by rewrite app_nil_r, Permutation_app_comm|].
      by rewrite <- !Permutation_middle, Permutation_swap.
    + by rewrite Permutation_middle.
  - split_if; [done|]. by rewrite Permutation_app_comm.
Qed.

Lemma circulate_perm l circulated raise_lowest : circulate l circulated raise_lowest ≡ₚ l.
Proof.
  unfold circulate. pose proof (split_at_spec circulated l) as Hs.
  destruct (split_at circulated l) as [before after]. simpl in Hs.
  destruct after as [|c rest]; [done|]. rewrite Hs. destruct raise_lowest.
  - apply Permutation_app_head. by rewrite Permutation_app_comm.
  - by rewrite Permutation_middle.
Qed.

(** ** Insertion *)

Lemma lookup_link_window ws added j :
  ws !! id added = None -> parent added <> id added ->
  link_window ws added !! j =
  if decide (j = id added) then Some added
  else (fun w => if decide (parent added = j) then w <| children := children w ++ [id added] |> else w) <$> ws !! j.
Proof.
  intros Hf Hne. unfold link_window. rewrite lookup_alter_fmap.
  destruct (decide (j = id added)) as [Hj|Hj].
  - subst. rewrite lookup_insert_eq. simpl. by rewrite decide_False.
  - by rewrite lookup_insert_ne.
Qed.

Lemma link_window_ok ws added p :
  tree_ok ws -> ws !! parent added = Some p -> ws !! id added = None -> id added <> 0 ->
  children added = [] -> tree_ok (link_window ws added).
Proof.
  intros Hok Hp Hf H0 Hc.
  assert (parent added <> id added) as Hne by congruence.
  pose proof (fun j => lookup_link_window ws added j Hf Hne) as Hl.
  assert (forall j w, ws !! j = Some w -> exists w', link_window ws added !! j = Some w' /\
    id w' = id w /\ parent w' = parent w) as Hbwd.
  { intros j w Hj. rewrite Hl, decide_False, Hj by congruence. eexists. split; [done|]. by case_decide. }
  assert (forall j l, chain ws j l -> chain (link_window ws added) j l) as Hchain.
  { intros j l Hj. eapply chain_transfer; [done|]. apply Forall_forall. intros k Hk.
    destruct (chain_dom _ _ _ _ Hj Hk) as [w Hw]. unfold parents_agree.
    destruct (Hbwd k w Hw) as (w' & -> & _ & Hpp). rewrite Hw. simpl. by rewrite Hpp. }
  assert (exists w', link_window ws added !! id added = Some w' /\ w' = added) as (? & Hadd & ->)
    by (rewrite Hl, decide_True by done; eauto).
  destruct (ok_ids ws Hok _ _ Hp) as [_ Hp0].
  destruct (ok_chain ws Hok _ _ Hp) as [lp Hlp].
  split.
  - intros j w Hj. rewrite Hl in Hj. destruct (decide (j = id added)); [simplify_eq; split; done|].
    apply fmap_Some in Hj as (w0 & Hj & ->). destruct (ok_ids ws Hok j w0 Hj) as [Hi ?].
    split; [|done]. by case_decide.
  - intros j w Hj. destruct (decide (j = id added)) as [->|Hji].
    + exists (id added :: lp). by apply (chain_up _ _ added); auto.
    + rewrite Hl, decide_False in Hj by done. apply fmap_Some in Hj as (w0 & Hj & _).
      destruct (ok_chain ws Hok j w0 Hj) as [l Hlj]. eauto.
  - intros j w Hj. rewrite Hl in Hj. destruct (decide (j = id added)) as [Hji|Hji].
    + simplify_eq. split; [by intros ?|]. intros Hr.
      destruct (ok_has_root ws Hok). rewrite <- Hr in *. congruence.
    + apply fmap_Some in Hj as (w0 & Hj & ->).
      assert (parent (if decide (parent added = j) then w0 <| children := children w0 ++ [id added] |> else w0)
        = parent w0) as -> by by case_decide. by apply (ok_root ws Hok).
  - destruct (ok_has_root ws Hok) as [w Hw]. destruct (Hbwd _ _ Hw) as (w' & ? & _). eauto.
  - intros q w Hq. rewrite Hl in Hq. destruct (decide (q = id added)) as [Hqi|Hqi].
    + injection Hq as <-. rewrite Hc. split; [constructor|]. intros c. split; [intros Hin; by apply elem_of_nil in Hin|].
      intros (cw & Hcw & Hpc). rewrite Hl in Hcw. destruct (decide (c = id added)); [simplify_eq; congruence|].
      apply fmap_Some in Hcw as (cw0 & Hcw & ->).
      assert (parent cw0 = id added) as Hp' by (rewrite <- Hqi, <- Hpc; by case_decide).
      destruct (parent_exists ws c cw0 Hok Hcw) as [? ?]; [congruence|]. congruence.
    + apply fmap_Some in Hq as (w0 & Hq & ->). destruct (ok_children ws Hok q w0 Hq) as [Hnd Hin].
      assert (forall c, (exists cw, link_window ws added !! c = Some cw /\ parent cw = q) <->
        c ∈ children w0 \/ (c = id added /\ parent added = q)) as Hiff.
      { intros c. rewrite Hin. split.
        - intros (cw & Hcw & Hpc). rewrite Hl in Hcw. destruct (decide (c = id added)); [simplify_eq; by right|].
          apply fmap_Some in Hcw as (cw0 & Hcw & ->). left. exists cw0. split; [done|].
          rewrite <- Hpc. by case_decide.
        - intros [(cw & Hcw & <-)|[-> <-]]; [|eauto].
          destruct (Hbwd c cw Hcw) as (cw' & ? & _ & <-). eauto. }
      setoid_rewrite Hiff. case_decide as Hpq; simpl.
      * split; [|set_solver]. apply NoDup_app. split_and!; [done| |by apply NoDup_singleton].
        intros c Hcin ->%list_elem_of_singleton. apply Hin in Hcin as (? & ? & _). congruence.
      * split; [done|]. naive_solver.
Qed.

(** ** Reparenting *)

(** The children list of [j] after the move. *)
Definition moved_children (i old_parent new_parent j : Z) (l : list Z) : list Z :=
  (if decide (j = old_parent) then remove_child i l else l) ++
  (if decide (j = new_parent) then [i] else []).

Lemma lookup_move_window ws i old_parent new_parent x0 y0 j :
  old_parent <> i -> new_parent <> i ->
  move_window ws i old_parent new_parent x0 y0 !! j =
  (fun w => if decide (j = i) then w <| parent := new_parent |> <| x := x0 |> <| y := y0 |>
            else w <| children := moved_children i old_parent new_parent j (children w) |>) <$> ws !! j.
Proof.
  intros Ho Hn. unfold move_window, moved_children. rewrite lookup_alter_fmap.
  destruct (Z.eqb_spec old_parent new_parent) as [<-|Hne]; rewrite !lookup_alter_fmap;
    destruct (ws !! j) as [w|]; simpl; try done; f_equal;
    repeat case_decide; subst; try done; simpl; rewrite ?app_nil_r; by destruct w.
Qed.

Lemma move_window_chain ws i w new_parent x0 y0 ln :
  tree_ok ws -> ws !! i = Some w -> parent w <> 0 ->
  chain ws new_parent ln -> i ∉ ln -> forall j l, chain ws j l ->
  exists l', chain (move_window ws i (parent w) new_parent x0 y0) j l'.
Proof.
  intros Hok Hi Hp Hn Hni.
  assert (new_parent <> i) as Hne.
  { intros ->. apply Hni. destruct (chain_head _ _ _ Hn) as [? ->]. left. }
  pose proof (not_own_parent ws i w Hok Hi) as Hop.
  pose proof (fun j => lookup_move_window ws i (parent w) new_parent x0 y0 j Hop Hne) as Hl.
  assert (chain (move_window ws i (parent w) new_parent x0 y0) new_parent ln) as Hn'.
  { eapply chain_transfer; [done|]. apply Forall_forall. intros k Hk. unfold parents_agree.
    rewrite Hl. destruct (ws !! k); simpl; [|done]. rewrite decide_False; [done|]. by intros ->. }
  induction 1 as [j v Hj Hpj|j v l Hj Hpj Hlj IH].
  - exists [j]. eapply chain_top; [rewrite Hl, Hj; done|]. case_decide; [|done].
    by simplify_eq.
  - destruct (decide (j = i)) as [->|Hji].
    + exists (i :: ln). eapply chain_up; [rewrite Hl, Hj; simpl; by rewrite decide_True| |done].
      simpl. by eapply chain_ids.
    + destruct IH as [l' Hl']. exists (j :: l').
      eapply chain_up; [rewrite Hl, Hj; simpl; by rewrite decide_False|done|done].
Qed.

Lemma move_window_ok ws i w new_parent x0 y0 np :
  tree_ok ws -> ws !! i = Some w -> i <> root_window_id -> ws !! new_parent = Some np ->
  i <> new_parent -> ~ ancestor ws i new_parent ->
  tree_ok (move_window ws i (parent w) new_parent x0 y0).
Proof.
  intros Hok Hi Hr Hn Hne Hanc.
  assert (parent w <> 0) as Hp by (intros Hp; by apply (ok_root ws Hok i w Hi) in Hp).
  pose proof (not_own_parent ws i w Hok Hi) as Hop.
  pose proof (fun j => lookup_move_window ws i (parent w) new_parent x0 y0 j Hop (not_eq_sym Hne)) as Hl.
  destruct (ok_chain ws Hok _ _ Hn) as [ln Hln].
  assert (i ∉ ln) as Hni.
  { intros Hin. destruct (chain_head _ _ _ Hln) as [l' ->].
    apply elem_of_cons in Hin as [?|Hin]; [done|]. apply Hanc.
    by apply (chain_ancestor _ _ _ _ Hln). }
  split.
  - intros j v Hj. rewrite Hl in Hj. apply fmap_Some in Hj as (v0 & Hj & ->).
    destruct (ok_ids ws Hok j v0 Hj). split; [|done]. by case_decide.
  - intros j v Hj. rewrite Hl in Hj. apply fmap_Some in Hj as (v0 & Hj & _).
    destruct (ok_chain ws Hok j v0 Hj) as [l Hlj]. by eapply move_window_chain.
  - intros j v Hj. rewrite Hl in Hj. apply fmap_Some in Hj as (v0 & Hj & ->).
    case_decide as Hji; simpl; [|by apply (ok_root ws Hok)]. subst j.
    split; [|done]. intros H0. by destruct (ok_ids ws Hok _ _ Hn).
  - destruct (ok_has_root ws Hok) as [v Hv]. rewrite Hl, Hv. simpl. eauto.
  - intros p v Hpv. rewrite Hl in Hpv. apply fmap_Some in Hpv as (v0 & Hpv & ->).
    destruct (ok_children ws Hok p v0 Hpv) as [Hnd Hin].
    assert (forall c, (exists cw, move_window ws i (parent w) new_parent x0 y0 !! c = Some cw /\ parent cw = p)
      <-> (c <> i /\ c ∈ children v0) \/ (c = i /\ new_parent = p)) as Hiff.
    { intros c. rewrite Hl, Hin. split.
      - intros (cw & Hcw & Hpc). apply fmap_Some in Hcw as (cw0 & Hcw & ->).
        case_decide as Hci; [right; by subst|left; eauto].
      - intros [[Hci (cw & Hcw & Hpc)]|[-> ->]].
        + rewrite Hcw. simpl. eexists. split; [done|]. by rewrite decide_False.
        + rewrite Hi. simpl. eexists. split; [done|]. by rewrite decide_True. }
    setoid_rewrite Hiff. assert (i ∈ children v0 <-> parent w = p) as Hip.
    { rewrite Hin. split; [intros (? & ? & ?); congruence|eauto]. }
    case_decide as Hpi; simpl.
    + subst p. split; [done|]. intros c. split; [|intros [[_ ?]|[_ ?]]; congruence].
      intros Hc. left. split; [|done]. intros ->. by apply Hip in Hc.
    + unfold moved_children. assert (NoDup (if decide (p = parent w) then remove_child i (children v0) else children v0)
        /\ forall c, c ∈ (if decide (p = parent w) then remove_child i (children v0) else children v0)
          <-> c <> i /\ c ∈ children v0) as [Hnd' Hin'].
      { case_decide as Hpp.
        - split; [by apply remove_child_NoDup|]. intros c. rewrite remove_child_spec. tauto.
        - split; [done|]. intros c. split; [|tauto]. intros Hc. split; [|done].
          intros ->. apply Hip in Hc. congruence. }
      split.
      * apply NoDup_app. split_and!; [done| |destruct (decide (p = new_parent)); [apply NoDup_singleton|constructor]].
        intros c Hc%Hin' Hc2. destruct (decide (p = new_parent)); [|by apply elem_of_nil in Hc2].
        apply list_elem_of_singleton in Hc2. tauto.
      * intros c. rewrite elem_of_app, Hin'. destruct (decide (p = new_parent)).
        -- rewrite list_elem_of_singleton. split; [intros [?|?]; subst; tauto|tauto].
        -- split; [intros [?|Hc]; [tauto|by apply elem_of_nil in Hc]|intros [?|[_ ?]]; [tauto|congruence]].
Qed.

Lemma reparent_tree_spec ws i new_parent x0 y0 :
  tree_ok ws ->
  exists r, reparent_tree ws i new_parent x0 y0 = finished r /\
    match r with
    | None => ws !! i = None \/ ws !! new_parent = None \/ i = root_window_id \/
        i = new_parent \/ ancestor ws i new_parent
    | Some ws' => exists w np, ws !! i = Some w /\ ws !! new_parent = Some np /\
        i <> root_window_id /\ i <> new_parent /\ ~ ancestor ws i new_parent /\
        ws' = move_window ws i (parent w) new_parent x0 y0 /\ tree_ok ws'
    end.
Proof.
  intros Hok. unfold reparent_tree, reparent_guard.
  destruct (ws !! i) as [w|] eqn:Hi; [|exists None; split; [done|by left]].
  destruct (ws !! new_parent) as [np|] eqn:Hn; [|exists None; split; [done|by right; left]].
  destruct (_ || _) eqn:Hg.
  { exists None. split; [done|]. bool_to_prop. destruct Hg; bool_to_prop; tauto. }
  destruct (is_descendant_spec ws new_parent i Hok) as (b & -> & Hb). simpl. bool_to_prop.
  destruct b; [exists None; split; [done|]; tauto|].
  destruct (parent_exists ws i w Hok Hi) as [op Hop].
  { intros Hp. by apply (ok_root ws Hok i w Hi) in Hp. }
  rewrite Hop. simpl. eexists. split; [done|]. simpl. exists w, np.
  assert (~ ancestor ws i new_parent) by (intros Ha; by apply Hb in Ha).
  split_and!; try done. by eapply move_window_ok.
Qed.

(** ** Erasing a subtree *)

#[export] Instance run_eq_dec {A} `{EqDecision A} : EqDecision (run A).
Proof. solve_decision. Defined.

(** The windows of the subtree of [i], [i] included. *)
Definition subtree ws (i : Z) : gset Z :=
  dom (filter (fun kv => kv.1 = i \/ is_descendant ws kv.1 i = finished true) ws).

Lemma elem_of_subtree ws i j :
  tree_ok ws -> j ∈ subtree ws i <-> is_Some (ws !! j) /\ (j = i \/ ancestor ws i j).
Proof.
  intros Hok. unfold subtree. rewrite elem_of_dom. unfold is_Some.
  setoid_rewrite map_lookup_filter_Some. simpl.
  destruct (is_descendant_spec ws j i Hok) as (b & Hb & Hanc). rewrite Hb.
  assert (finished b = finished true <-> ancestor ws i j) as Hiff
    by (rewrite <- Hanc; split; congruence).
  split.
  - intros (v & Hj & Hor). split; [eauto|]. tauto.
  - intros [[v Hj] Hor]. exists v. split; [done|]. tauto.
Qed.

Lemma ancestor_trans ws a b c : ancestor ws a b -> ancestor ws b c -> ancestor ws a c.
Proof.
  intros Hab Hbc. induction Hbc as [c w Hc Hp|c w b Hc Hp Hb IH]; [by eapply ancestor_up|].
  eapply ancestor_up; [done..|]. by apply IH.
Qed.

(** A proper descendant is below some child. *)
Lemma ancestor_child ws a d :
  tree_ok ws -> ancestor ws a d ->
  exists c cw, ws !! c = Some cw /\ parent cw = a /\ (d = c \/ ancestor ws c d).
Proof.
  intros Hok Ha. induction Ha as [d w Hd Hp|d w a Hd Hp Ha IH]; [by exists d, w; auto|].
  destruct (IH) as (c & cw & Hc & Hpc & Hor). exists c, cw. split_and!; [done..|].
  right. destruct Hor as [<-|Hor]; [by apply ancestor_parent|by eapply ancestor_up].
Qed.

Lemma unlink_lookup ws i w j :
  tree_ok ws -> ws !! i = Some w ->
  unlink_window ws i (parent w) !! j =
  if decide (j = i) then None
  else (fun v => if decide (parent w = j) then v <| children := remove_child i (children v) |> else v) <$> ws !! j.
Proof.
  intros Hok Hi. unfold unlink_window. destruct (decide (j = i)) as [->|Hne].
  - apply lookup_delete_eq.
  - rewrite lookup_delete_ne by done. apply lookup_alter_fmap.
Qed.

Lemma unlink_window_ok ws i w :
  tree_ok ws -> ws !! i = Some w -> i <> root_window_id -> children w = [] ->
  tree_ok (unlink_window ws i (parent w)).
Proof.
  intros Hok Hi Hr Hc. pose proof (fun j => unlink_lookup ws i w j Hok Hi) as Hl.
  assert (forall j v, unlink_window ws i (parent w) !! j = Some v ->
    exists v0, ws !! j = Some v0 /\ j <> i /\ id v = id v0 /\ parent v = parent v0) as Hfwd.
  { intros j v Hj. rewrite Hl in Hj. destruct (decide (j = i)); [done|].
    apply fmap_Some in Hj as (v0 & Hj & ->). exists v0. by case_decide. }
  assert (forall j v, ws !! j = Some v -> j <> i ->
    exists v', unlink_window ws i (parent w) !! j = Some v' /\ parent v' = parent v) as Hbwd.
  { intros j v Hj Hne. rewrite Hl, decide_False, Hj by done. eexists. split; [done|]. by case_decide. }
  assert (forall j l, chain ws j l -> j <> i -> i ∉ l) as Hfree.
  { intros j l Hlj Hne Hin. destruct (chain_head _ _ _ Hlj) as [l' ->].
    apply elem_of_cons in Hin as [?|Hin]; [done|].
    assert (ancestor ws i j) as Ha by by apply (chain_ancestor _ _ _ _ Hlj).
    destruct (ancestor_child ws i j Hok Ha) as (c & cw & Hcw & Hpc & _).
    assert (c ∈ children w) as Hin' by (apply (ok_children ws Hok i w Hi); eauto).
    rewrite Hc in Hin'. by apply elem_of_nil in Hin'. }
  split.
  - intros j v Hj. destruct (Hfwd j v Hj) as (v0 & Hj0 & _ & -> & _). by apply (ok_ids ws Hok).
  - intros j v Hj. destruct (Hfwd j v Hj) as (v0 & Hj0 & Hne & _).
    destruct (ok_chain ws Hok j v0 Hj0) as [l Hlj]. exists l. eapply chain_transfer; [done|].
    apply Forall_forall. intros k Hk. unfold parents_agree.
    destruct (chain_dom _ _ _ _ Hlj Hk) as [u Hu]. destruct (Hbwd k u Hu) as (u' & -> & Hp).
    + intros ->. by apply (Hfree j l).
    + rewrite Hu. simpl. by rewrite Hp.
  - intros j v Hj. destruct (Hfwd j v Hj) as (v0 & Hj0 & _ & _ & ->). by apply (ok_root ws Hok).
  - destruct (ok_has_root ws Hok) as [v Hv]. destruct (Hbwd _ _ Hv) as (v' & ? & _); eauto.
  - intros p v Hp. rewrite Hl in Hp. destruct (decide (p = i)) as [|Hpi]; [done|].
    apply fmap_Some in Hp as (v0 & Hp & ->). destruct (ok_children ws Hok p v0 Hp) as [Hnd Hin].
    assert (forall c, (exists cw, unlink_window ws i (parent w) !! c = Some cw /\ parent cw = p) <->
      c ∈ children v0 /\ c <> i) as Hiff.
    { intros c. rewrite Hin. split.
      - intros (cw & Hcw & <-). destruct (Hfwd c cw Hcw) as (cw0 & ? & ? & _ & ->). eauto.
      - intros [(cw & Hcw & <-) Hne]. destruct (Hbwd c cw Hcw Hne) as (cw' & ? & <-). eauto. }
    setoid_rewrite Hiff. case_decide as Hpp; simpl.
    + split; [by apply remove_child_NoDup|]. intros c. by rewrite remove_child_spec.
    + split; [done|]. intros c. split; [|tauto]. intros Hcin. split; [done|]. intros ->.
      apply Hin in Hcin as (? & ? & ?). congruence.
Qed.

(** The tree without the subtree of [i]. *)
Definition pruned ws (i : Z) (w : WindowRecord) ws' : Prop :=
  forall j, ws' !! j =
    if decide (j ∈ subtree ws i) then None
    else (fun v => if decide (parent w = j) then v <| children := remove_child i (children v) |> else v) <$> ws !! j.

Lemma pruned_parents ws i w ws' j :
  pruned ws i w ws' -> j ∉ subtree ws i -> parents_agree ws ws' j.
Proof.
  intros Hpr Hj. unfold parents_agree. rewrite Hpr, decide_False by done.
  destruct (ws !! j); simpl; [|done]. by case_decide.
Qed.

(** The chain of a window outside the subtree stays outside it. *)
Lemma chain_outside ws i j l :
  tree_ok ws -> chain ws j l -> j ∉ subtree ws i -> Forall (fun k => k ∉ subtree ws i) l.
Proof.
  intros Hok Hl Hj. apply Forall_forall. intros k Hk Hks. apply Hj.
  apply elem_of_subtree in Hks as [_ Hor]; [|done].
  apply elem_of_subtree; [done|]. split.
  { destruct (chain_head _ _ _ Hl) as [l' ->]. eapply chain_dom; [done|]. left. }
  destruct (chain_head _ _ _ Hl) as [l' ->]. apply elem_of_cons in Hk as [->|Hk]; [done|].
  assert (ancestor ws k j) by by apply (chain_ancestor _ _ _ _ Hl).
  destruct Hor as [->|]; [by right|]. right. by eapply ancestor_trans.
Qed.

Lemma pruned_chain ws i w ws' j l :
  tree_ok ws -> pruned ws i w ws' -> j ∉ subtree ws i -> chain ws j l -> chain ws' j l.
Proof.
  intros Hok Hpr Hj Hl. eapply chain_transfer; [done|].
  eapply Forall_impl; [by eapply chain_outside|]. intros k. by eapply pruned_parents.
Qed.

Lemma subtree_pruned ws i c cw ws' j :
  tree_ok ws -> tree_ok ws' -> pruned ws c cw ws' -> is_Some (ws !! c) ->
  j ∈ subtree ws' i <-> j ∈ subtree ws i /\ j ∉ subtree ws c.
Proof.
  intros Hok Hok' Hpr Hc. rewrite !(elem_of_subtree _ i) by done.
  destruct (decide (j ∈ subtree ws c)) as [Hin|Hout].
  { split; [|tauto]. intros [[v Hv] _]. rewrite Hpr, decide_True in Hv; done. }
  assert (is_Some (ws' !! j) <-> is_Some (ws !! j)) as ->.
  { rewrite Hpr, decide_False by done. apply fmap_is_Some. }
  destruct (ws !! j) as [v|] eqn:Hj; [|unfold is_Some; naive_solver].
  destruct (ok_chain ws Hok j v Hj) as [l Hl].
  pose proof (pruned_chain ws c cw ws' j l Hok Hpr Hout Hl) as Hl'.
  rewrite (chain_ancestor ws' j l _ Hl'), (chain_ancestor ws j l _ Hl).
  tauto.
Qed.

Lemma child_not_root ws i w c :
  tree_ok ws -> ws !! i = Some w -> c ∈ children w ->
  exists cw, ws !! c = Some cw /\ parent cw = i /\ c <> root_window_id /\ ancestor ws i c.
Proof.
  intros Hok Hi Hc. apply (ok_children ws Hok i w Hi) in Hc as (cw & Hc & Hp).
  destruct (ok_ids ws Hok i w Hi) as [_ H0].
  exists cw. split_and!; [done|done| |].
  - intros ->. apply (root_parent ws cw Hok) in Hc. congruence.
  - rewrite <- Hp. apply ancestor_parent; [done|congruence].
Qed.

Lemma leaf_subtree ws i w :
  tree_ok ws -> ws !! i = Some w -> children w = [] -> subtree ws i = {[i]}.
Proof.
  intros Hok Hi Hc. apply set_eq. intros j. rewrite elem_of_subtree, elem_of_singleton by done. split.
  - intros [_ [->|Ha]]; [done|]. destruct (ancestor_child ws i j Hok Ha) as (c & cw & Hcw & Hp & _).
    assert (c ∈ children w) as Hin by (apply (ok_children ws Hok i w Hi); eauto).
    rewrite Hc in Hin. by apply elem_of_nil in Hin.
  - intros ->. split; [eauto|by left].
Qed.

Lemma erase_window_tree_spec fuel : forall ws erased i w,
  tree_ok ws -> ws !! i = Some w -> i <> root_window_id -> (size (subtree ws i) <= fuel)%nat ->
  exists ws' order, erase_window_tree fuel ws erased i = finished (ws', erased ++ order) /\
    tree_ok ws' /\ pruned ws i w ws' /\ order ≡ₚ elements (subtree ws i) /\ last order = Some i.
Proof.
  induction fuel as [|fuel IH]; intros ws erased i w Hok Hi Hr Hf.
  { exfalso. apply Nat.le_0_r, size_empty_inv in Hf.
    assert (i ∈ subtree ws i) as Hin by (apply elem_of_subtree; [done|]; split; [eauto|by left]).
    set_solver. }
  simpl. rewrite Hi, (proj2 (Z.eqb_neq _ _) Hr).
  destruct (last (children w)) as [c|] eqn:Hlast.
  2: { apply last_None in Hlast. exists (unlink_window ws i (parent w)), [i].
    pose proof (leaf_subtree ws i w Hok Hi Hlast) as Hs.
    split_and!; [done|by apply unlink_window_ok| |by rewrite Hs, elements_singleton|done].
    intros j. rewrite Hs, unlink_lookup by done.
    destruct (decide (j = i)), (decide (j ∈ {[i]})); set_solver. }
  assert (c ∈ children w) as Hcin by (apply last_Some in Hlast as [l ->]; set_solver).
  destruct (child_not_root ws i w c Hok Hi Hcin) as (cw & Hc & Hpc & Hcr & Hanc).
  assert (i ∉ subtree ws c) as Hic.
  { rewrite elem_of_subtree by done. destruct (ok_chain ws Hok i w Hi) as [l Hl].
    destruct (ok_chain ws Hok c cw Hc) as [lc Hlc].
    intros [_ [->|Hci]]; [by apply (ancestor_irrefl _ _ _ Hlc)|].
    apply (ancestor_irrefl _ _ _ Hl). by eapply ancestor_trans. }
  assert (subtree ws c ⊆ subtree ws i) as Hsub.
  { intros j. rewrite !elem_of_subtree by done. intros [Hj [->|Ha]]; (split; [done|]); right; [done|].
    by eapply ancestor_trans. }
  assert (i ∈ subtree ws i) as Hii by (apply elem_of_subtree; [done|]; split; [eauto|by left]).
  assert (c ∈ subtree ws c) as Hcc by (apply elem_of_subtree; [done|]; split; [eauto|by left]).
  assert (subtree ws c ⊂ subtree ws i) as Hssub by (split; [done|set_solver]).
  destruct (IH ws erased c cw Hok Hc Hcr) as (ws1 & order1 & -> & Hok1 & Hpr1 & Hperm1 & _).
  { apply subset_size in Hssub. lia. }
  simpl. assert (exists w1, ws1 !! i = Some w1 /\ parent w1 = parent w) as (w1 & Hi1 & Hp1).
  { rewrite Hpr1, decide_False, Hi by done. eexists. split; [done|]. by case_decide. }
  pose proof (fun j => subtree_pruned ws i c cw ws1 j Hok Hok1 Hpr1 (mk_is_Some _ _ Hc)) as Hs1.
  assert (subtree ws1 i = subtree ws i ∖ subtree ws c) as Hs1'
    by (apply set_eq; intros j; rewrite Hs1; set_solver).
  destruct (IH ws1 (erased ++ order1) i w1 Hok1 Hi1 Hr) as (ws2 & order2 & -> & Hok2 & Hpr2 & Hperm2 & Hlast2).
  { rewrite Hs1'. assert (subtree ws i ∖ subtree ws c ⊂ subtree ws i) as Hlt%subset_size by set_solver. lia. }
  exists ws2, (order1 ++ order2). split_and!; [by rewrite app_assoc|done| | |].
  - intros j. rewrite Hpr2, Hpr1, Hp1. destruct (decide (j ∈ subtree ws i)) as [Hj|Hj].
    + destruct (decide (j ∈ subtree ws1 i)) as [|Hj1]; [done|].
      rewrite decide_True; [done|]. rewrite Hs1 in Hj1. destruct (decide (j ∈ subtree ws c)); tauto.
    + rewrite decide_False by (rewrite Hs1; tauto). rewrite decide_False by set_solver.
      destruct (ws !! j); simpl; [|done]. rewrite (decide_False (P := parent cw = j)); [done|].
      intros <-. by rewrite Hpc in Hj.
  - rewrite Hperm1, Hperm2, Hs1'. rewrite <- elements_disj_union by set_solver.
    by rewrite <- union_difference_L.
  - rewrite last_app, Hlast2. done.
Qed.

(** ** The operations as a transition system *)

(** The tree part of [add_window]: refused when the parent does not exist or
    the identifier is taken; the registry refuses the identifier 0. *)
Definition add_window_tree ws (added : WindowRecord) : option (gmap Z WindowRecord) :=
  match ws !! parent added with
  | None => None
  | Some _ =>
      if bool_decide (is_Some (ws !! id added)) || (id added =? 0) then None
      else Some (link_window ws added)
  end.

(** One structural change: the tree parts of [add_window], [configure_window],
    [circulate_window], [reparent_window] and [erase_window_tree], and writes
    to the other fields of a record. *)
Inductive tree_step : gmap Z WindowRecord -> gmap Z WindowRecord -> Prop :=
| step_add ws added ws' : children added = [] -> add_window_tree ws added = Some ws' -> tree_step ws ws'
| step_restack ws p w candidate sibling stack_mode : ws !! p = Some w -> candidate ∈ children w ->
    tree_step ws (set_children ws p (restack (children w) candidate sibling stack_mode))
| step_circulate ws p w raise_lowest : ws !! p = Some w ->
    tree_step ws (set_children ws p (circulate (children w) (circulated_child ws w raise_lowest) raise_lowest))
| step_reparent ws i new_parent x0 y0 ws' :
    reparent_tree ws i new_parent x0 y0 = finished (Some ws') -> tree_step ws ws'
| step_erase ws i ws' order :
    erase_window_tree (tree_fuel ws) ws [] i = finished (ws', order) -> tree_step ws ws'
| step_fields ws i f :
    (forall w, id (f w) = id w /\ parent (f w) = parent w /\ children (f w) = children w) ->
    tree_step ws (alter f i ws).

Lemma subtree_size ws i : (size (subtree ws i) <= tree_fuel ws)%nat.
Proof.
  unfold subtree, tree_fuel. rewrite size_dom. apply map_subseteq_size, map_filter_subseteq.
Qed.

Lemma erase_window_tree_nothing ws erased i :
  ws !! i = None \/ i = root_window_id ->
  forall fuel, erase_window_tree fuel ws erased i = finished (ws, erased).
Proof.
  intros Hi fuel. destruct fuel; simpl; destruct (ws !! i) as [w|] eqn:E; try done;
    destruct Hi as [?| ->]; done.
Qed.

Lemma tree_step_ok ws ws' : tree_step ws ws' -> tree_ok ws -> tree_ok ws'.
Proof.
  intros Hstep Hok. destruct Hstep as [ws added ws' Hc Hadd|ws p w candidate sibling mode Hp Hin
    |ws p w raise Hp|ws i np x0 y0 ws' Hr|ws i ws' order He|ws i f Hf].
  - unfold add_window_tree in Hadd. destruct (ws !! parent added) as [p|] eqn:Hp; [|done].
    destruct (_ || _) eqn:E; [done|]. simplify_eq. bool_to_prop.
    eapply link_window_ok; [done..| |done|done]. by apply eq_None_not_Some.
  - eapply set_children_ok; [done..|]. apply restack_perm; [|done].
    by apply (ok_children ws Hok p w Hp).
  - eapply set_children_ok; [done..|]. apply circulate_perm.
  - destruct (reparent_tree_spec ws i np x0 y0 Hok) as (r & Hr' & Hspec).
    rewrite Hr in Hr'. injection Hr' as <-.
    by destruct Hspec as (w & np' & _ & _ & _ & _ & _ & _ & Hok').
  - destruct (ws !! i) as [w|] eqn:Hi; [destruct (decide (i = root_window_id)) as [->|Hr]|].
    + rewrite erase_window_tree_nothing in He by auto. by simplify_eq.
    + destruct (erase_window_tree_spec (tree_fuel ws) ws [] i w Hok Hi Hr) as (ws2 & o & He' & Hok' & _);
        [apply subtree_size|]. rewrite He in He'. by simplify_eq.
    + rewrite erase_window_tree_nothing in He by auto. by simplify_eq.
  - by apply alter_fields_ok.
Qed.

(** ** Properties *)

(** C28: every structural operation on the window tree keeps it well formed:
    records stored under their identifiers, children lists without repetition
    that are exactly the inverse of the parent fields, and no cycles: every
    window's chain of parents ends at the root, the only window without a
    parent. *)
Theorem tree_operations_keep_tree_well_formed ws ws' :
  tree_ok ws -> rtc tree_step ws ws' -> tree_ok ws'.
Proof. intros Hok Hsteps. induction Hsteps; eauto using tree_step_ok. Qed.

(** C30: [reparent_window]'s check terminates and refuses exactly an absent
    window or parent, the root, the window itself and its own descendants;
    otherwise the window becomes the topmost child of the new parent, nothing
    else moves, and the tree stays well formed. *)
Theorem reparent_correct ws i new_parent x0 y0 :
  tree_ok ws ->
  exists r, reparent_tree ws i new_parent x0 y0 = finished r /\
    match r with
    | None => ws !! i = None \/ ws !! new_parent = None \/ i = root_window_id \/
        i = new_parent \/ ancestor ws i new_parent
    | Some ws' =>
        tree_ok ws' /\ i <> root_window_id /\ i <> new_parent /\ ~ ancestor ws i new_parent /\
        exists w, ws !! i = Some w /\
        ws' !! i = Some (w <| parent := new_parent |> <| x := x0 |> <| y := y0 |>) /\
        forall j, j <> i -> ws' !! j =
          (fun v => v <| children := moved_children i (parent w) new_parent j (children v) |>) <$> ws !! j
    end.
Proof.
  intros Hok. destruct (reparent_tree_spec ws i new_parent x0 y0 Hok) as (r & Hr & Hspec).
  exists r. split; [done|]. destruct r as [ws'|]; [|done].
  destruct Hspec as (w & np & Hi & Hn & H1 & H2 & H3 & -> & Hok'). split_and!; [done..|].
  exists w. pose proof (not_own_parent ws i w Hok Hi) as Hop. split_and!; [done| |].
  - rewrite lookup_move_window, Hi by done. simpl. by rewrite decide_True.
  - intros j Hj. rewrite lookup_move_window by done. destruct (ws !! j); simpl; [|done].
    by rewrite decide_False.
Qed.

(** C29: [erase_window_tree] terminates and removes exactly the subtree of the
    window, each window once and the window itself last; its parent loses it
    from its children, and every other record is untouched. *)
Theorem erase_window_tree_correct ws i w :
  tree_ok ws -> ws !! i = Some w -> i <> root_window_id ->
  exists ws' order, erase_window_tree (tree_fuel ws) ws [] i = finished (ws', order) /\
    tree_ok ws' /\
    order ≡ₚ elements (subtree ws i) /\ last order = Some i /\
    forall j, ws' !! j =
      if decide (j ∈ subtree ws i) then None
      else (fun v => if decide (parent w = j)
                     then v <| children := remove_child i (children v) |> else v) <$> ws !! j.
Proof.
  intros Hok Hi Hr.
  destruct (erase_window_tree_spec (tree_fuel ws) ws [] i w Hok Hi Hr (subtree_size ws i))
    as (ws' & order & He & Hok' & Hpr & Hperm & Hlast). by exists ws', order.
Qed.
End Tree.

(** ** Witnesses *)

Lemma erase_window_tree_correct_witness :
  exists ws', erase_window_tree (tree_fuel sample_tree) sample_tree [] 1001 = finished (ws', [1002; 1001]) /\
    tree_ok ws'.
Proof.
  destruct (erase_window_tree_correct sample_tree 1001 (sample_window 1001 0x100 [1002] 50 50 100 100)
    sample_tree_ok) as (ws' & order & He & Hok & _).
  - vm_compute. reflexivity.
  - discriminate.
  - exists ws'. split; [|exact Hok]. rewrite He. f_equal. f_equal.
    assert (exists ws2, erase_window_tree (tree_fuel sample_tree) sample_tree [] 1001
      = finished (ws2, [1002; 1001])) as [ws2 He2] by (eexists; vm_compute; reflexivity).
    rewrite He in He2. injection He2 as _ ->. reflexivity.
Defined.

Lemma reparent_correct_witness :
  (exists r, reparent_tree sample_tree 1002 1000 7 8 = finished (Some r) /\ tree_ok r) /\
  ancestor sample_tree 1001 1002.
Proof.
  split.
  - destruct (reparent_correct sample_tree 1002 1000 7 8 sample_tree_ok) as ([r|] & Hr & Hspec).
    + exists r. split; [exact Hr|]. exact (proj1 Hspec).
    + exfalso. vm_compute in Hr. discriminate.
  - destruct (reparent_correct sample_tree 1001 1002 0 0 sample_tree_ok) as ([r|] & Hr & Hspec).
    + exfalso. vm_compute in Hr. discriminate.
    + destruct Hspec as [H|[H|[H|[H|H]]]]; [vm_compute in H; discriminate..|exact H].
Defined.

Lemma tree_operations_keep_tree_well_formed_witness :
  exists ws', rtc tree_step sample_tree ws' /\ tree_ok ws' /\ ws' !! 1001 = None.
Proof.
  destruct (erase_window_tree_spec (tree_fuel sample_tree) sample_tree [] 1001
    (sample_window 1001 0x100 [1002] 50 50 100 100) sample_tree_ok) as (ws' & order & He & _ & Hpr & _).
  - vm_compute. reflexivity.
  - discriminate.
  - apply subtree_size.
  - exists ws'. assert (rtc tree_step sample_tree ws') as Hs
      by (eapply rtc_once, step_erase; exact He).
    split; [exact Hs|]. split.
    + exact (tree_operations_keep_tree_well_formed sample_tree ws' sample_tree_ok Hs).
    + rewrite Hpr. vm_compute. reflexivity.
Defined.
