(* ===== verification/Geometry.v ===== *)
(** * Window resizing and pointer barriers

    The pure geometry of [src/src/server/server_state.cpp]:
    [resize_preservation], which decides what of a resized window is kept and
    what is exposed, the clamping conversions, and
    [constrain_pointer_by_barriers] with the table of barriers. *)
From S2P Require Import Prelude.
From S2P Require Import Resources.
From S2P Require Import Region.

(** ** Conversions *)

Definition wire_coordinate (value : Z) : Z := i16 (Z.max (smin 16) (Z.min value (smax 16))).

Definition wire_size (value : Z) : Z := u16 (Z.min value (umax 16)).

Definition screen_millimetres (pixels : Z) : Z :=
  let tenths := u32 (u32 pixels * 254) in
  u32 (tenths + 480) / 960.

(** ** Resizing *)

(** [exposed] holds the first [exposed_count] entries of the array. *)
Record ResizePreservation := mkPreservation {
  destination_x : Z;
  destination_y : Z;
  exposed : list Rectangle
}.

(** The lambda [add_exposed]. *)
Definition add_exposed (exposed : list Rectangle) (left top width height : Z) : list Rectangle :=
  if (width >? 0) && (height >? 0)
  then exposed ++ [mkRect left top (u32 width) (u32 height)]
  else exposed.

(** The destination of the old contents for a gravity: the [switch]. *)
Definition gravity_destination (gravity old_x old_y old_width old_height
    new_x new_y new_width new_height : Z) : Z * Z :=
  let width_delta := i32 (new_width - old_width) in
  let height_delta := i32 (new_height - old_height) in
  if gravity =? 2 then (Z.quot width_delta 2, 0)
  else if gravity =? 3 then (width_delta, 0)
  else if gravity =? 4 then (0, Z.quot height_delta 2)
  else if gravity =? 5 then (Z.quot width_delta 2, Z.quot height_delta 2)
  else if gravity =? 6 then (width_delta, Z.quot height_delta 2)
  else if gravity =? 7 then (0, height_delta)
  else if gravity =? 8 then (Z.quot width_delta 2, height_delta)
  else if gravity =? 9 then (width_delta, height_delta)
  else if gravity =? 10 then (i32 (old_x - new_x), i32 (old_y - new_y))
  else (0, 0).

Definition resize_preservation (gravity old_x old_y old_width old_height
    new_x new_y new_width new_height : Z) : ResizePreservation :=
  if (gravity =? 0) || (gravity >? 10)
  then mkPreservation 0 0 (add_exposed [] 0 0 new_width new_height)
  else
    let '(dx, dy) := gravity_destination gravity old_x old_y old_width old_height
      new_x new_y new_width new_height in
    let preserved_left := Z.max 0 dx in
    let preserved_top := Z.max 0 dy in
    let preserved_right := Z.min new_width (i32 (dx + old_width)) in
    let preserved_bottom := Z.min new_height (i32 (dy + old_height)) in
    if (preserved_left >=? preserved_right) || (preserved_top >=? preserved_bottom)
    then mkPreservation dx dy (add_exposed [] 0 0 new_width new_height)
    else
      let e := add_exposed [] 0 0 new_width preserved_top in
      let e := add_exposed e 0 preserved_bottom new_width (i32 (new_height - preserved_bottom)) in
      let e := add_exposed e 0 preserved_top preserved_left (i32 (preserved_bottom - preserved_top)) in
      let e := add_exposed e preserved_right preserved_top (i32 (new_width - preserved_right))
        (i32 (preserved_bottom - preserved_top)) in
      mkPreservation dx dy e.

(** ** Barriers *)

Record XFixesBarrierRecord := mkBarrier {
  barrier_id : Z;
  barrier_window : Z;
  barrier_x1 : Z;
  barrier_y1 : Z;
  barrier_x2 : Z;
  barrier_y2 : Z;
  directions : Z;
  devices : list Z
}.

(** One turn of the loop of [constrain_pointer_by_barriers]. *)
Definition apply_barrier (old_x old_y : Z) (new : Z * Z) (barrier : XFixesBarrierRecord) : Z * Z :=
  let '(new_x, new_y) := new in
  if negb (bool_decide (devices barrier = [])) && negb (existsb (Z.eqb 2) (devices barrier))
  then new
  else if barrier_x1 barrier =? barrier_x2 barrier then
    let coordinate := barrier_x1 barrier in
    let low := Z.min (barrier_y1 barrier) (barrier_y2 barrier) in
    let high := Z.max (barrier_y1 barrier) (barrier_y2 barrier) in
    let meets_span := Z.max (Z.min old_y new_y) low <=? Z.min (Z.max old_y new_y) high in
    if negb meets_span then new
    else if (old_x <? coordinate) && (new_x >=? coordinate) && (Z.land (directions barrier) 1 =? 0)
    then (coordinate - 1, new_y)
    else if (old_x >=? coordinate) && (new_x <? coordinate) && (Z.land (directions barrier) 4 =? 0)
    then (coordinate, new_y)
    else new
  else if barrier_y1 barrier =? barrier_y2 barrier then
    let coordinate := barrier_y1 barrier in
    let low := Z.min (barrier_x1 barrier) (barrier_x2 barrier) in
    let high := Z.max (barrier_x1 barrier) (barrier_x2 barrier) in
    let meets_span := Z.max (Z.min old_x new_x) low <=? Z.min (Z.max old_x new_x) high in
    if negb meets_span then new
    else if (old_y <? coordinate) && (new_y >=? coordinate) && (Z.land (directions barrier) 2 =? 0)
    then (new_x, coordinate - 1)
    else if (old_y >=? coordinate) && (new_y <? coordinate) && (Z.land (directions barrier) 8 =? 0)
    then (new_x, coordinate)
    else new
  else new.

Definition constrain_pointer_by_barriers (barriers : list XFixesBarrierRecord)
    (old_x old_y new_x new_y : Z) : Z * Z :=
  foldl (apply_barrier old_x old_y) (new_x, new_y) barriers.

(** The table of barriers, with the registry. *)
Record BarrierState := mkBarriers {
  xfixes_barriers : gmap Z XFixesBarrierRecord;
  barrier_resources : gmap Z ResourceRecord
}.

Definition maximum_xfixes_barriers : Z := 4096.

(** [stored] is false when [emplace] runs out of memory. *)
Definition add_xfixes_barrier (s : BarrierState) (stored : bool) (barrier : XFixesBarrierRecord)
    (owner : Z) : BarrierState * bool :=
  let id := barrier_id barrier in
  if Z.of_nat (size (xfixes_barriers s)) >=? maximum_xfixes_barriers then (s, false)
  else
    let '(inserted, registry) := insert_resource id xfixes_barrier owner (barrier_resources s) in
    if negb inserted then (s, false)
    else if negb stored || bool_decide (is_Some (xfixes_barriers s !! id))
    then (mkBarriers (xfixes_barriers s) (erase_resource id registry).2, false)
    else (mkBarriers (<[id := barrier]> (xfixes_barriers s)) registry, true).

Definition erase_xfixes_barrier (s : BarrierState) (id owner : Z) : BarrierState * bool :=
  match find_resource id (barrier_resources s) with
  | None => (s, false)
  | Some record =>
      if negb (bool_decide (kind record = xfixes_barrier)) || negb (Resources.owner record =? owner) ||
         negb (bool_decide (is_Some (xfixes_barriers s !! id)))
      then (s, false)
      else (mkBarriers (delete id (xfixes_barriers s)) (erase_resource id (barrier_resources s)).2, true)
  end.

(** Every barrier is stored under its own identifier and registered as one,
    and the table is bounded. *)
Definition barriers_ok (s : BarrierState) : Prop :=
  Z.of_nat (size (xfixes_barriers s)) <= maximum_xfixes_barriers /\
  forall id b, xfixes_barriers s !! id = Some b ->
    barrier_id b = id /\ exists o, barrier_resources s !! id = Some (mkResource xfixes_barrier o).

Lemma add_xfixes_barrier_ok s stored barrier owner :
  barriers_ok s -> barriers_ok (add_xfixes_barrier s stored barrier owner).1.
Proof.
  intros [Hsize Hok]. unfold add_xfixes_barrier. split_if; [done|].
  destruct (insert_resource _ _ _ _) as [inserted registry] eqn:Hi. destruct inserted; simpl; [|done].
  apply insert_resource_true in Hi as (_ & Hfree & ->).
  destruct (negb stored || _) eqn:E; simpl.
  - split; [done|]. intros id b Hb. destruct (Hok id b Hb) as (Hid & o & Ho). split; [done|]. exists o.
    simpl. destruct (decide (id = barrier_id barrier)) as [->|Hne]; [congruence|].
    by rewrite lookup_delete_ne, lookup_insert_ne.
  - bool_to_prop. assert (xfixes_barriers s !! barrier_id barrier = None) as Hn.
    { destruct (xfixes_barriers s !! _) eqn:Hb; [|done].
      match goal with H : ~ is_Some _ |- _ => exfalso; apply H; eauto end. }
    split; simpl; [rewrite map_size_insert_None by done; lia|].
    intros id b [[<- <-]|[Hne Hb]]%lookup_insert_Some.
    + split; [done|]. exists owner. apply lookup_insert_eq.
    + destruct (Hok id b Hb) as (Hid & o & Ho). split; [done|]. exists o. by rewrite lookup_insert_ne.
Qed.

Lemma erase_xfixes_barrier_ok s id owner :
  barriers_ok s -> barriers_ok (erase_xfixes_barrier s id owner).1.
Proof.
  intros [Hsize Hok]. unfold erase_xfixes_barrier, find_resource.
  destruct (barrier_resources s !! id) as [record|]; [|done]. split_if; [done|]. split; simpl.
  - rewrite map_size_delete. unfold maximum_xfixes_barriers in *. destruct (xfixes_barriers s !! id); simpl; lia.
  - intros id' b [Hne Hb]%lookup_delete_Some. destruct (Hok id' b Hb) as (Hid & o & Ho).
    split; [done|]. exists o. by rewrite lookup_delete_ne.
Qed.

(** ** Resizing keeps or exposes every pixel, once *)

Definition in_rectangle (a : Rectangle) (px py : Z) : bool :=
  (rx a <=? px) && (px <? rx a + rwidth a) && (ry a <=? py) && (py <? ry a + rheight a).

(** How many of the rectangles hold the point. *)
Definition cover_count (rectangles : list Rectangle) (px py : Z) : Z :=
  zlen (List.filter (fun a => in_rectangle a px py) rectangles).

Lemma cover_count_app l k px py : cover_count (l ++ k) px py = cover_count l px py + cover_count k px py.
Proof. unfold cover_count. by rewrite List.filter_app, zlen_app. Qed.

Lemma cover_count_add e l t w h px py :
  w < 2 ^ 32 -> h < 2 ^ 32 ->
  cover_count (add_exposed e l t w h) px py =
  cover_count e px py + (if (l <=? px) && (px <? l + w) && (t <=? py) && (py <? t + h) then 1 else 0).
Proof.
  intros Hw Hh. unfold add_exposed. destruct ((w >? 0) && (h >? 0)) eqn:E.
  - bool_to_prop. rewrite cover_count_app. f_equal. unfold cover_count. simpl.
    unfold in_rectangle. simpl. rewrite !wrap_id by (unfold is_unsigned; lia).
    destruct (_ && _); done.
  - assert ((l <=? px) && (px <? l + w) && (t <=? py) && (py <? t + h) = false) as ->; [|lia].
    apply not_true_iff_false. intros Ht. apply not_true_iff_false in E. apply E. lia.
Qed.

(** Whether the point shows a pixel of the old window, moved by the
    destination. *)
Definition shows_old_pixel (p : ResizePreservation) (old_width old_height px py : Z) : bool :=
  (0 <=? px - destination_x p) && (px - destination_x p <? old_width) &&
  (0 <=? py - destination_y p) && (py - destination_y p <? old_height).

Lemma gravity_destination_bounds gravity old_x old_y old_width old_height new_x new_y new_width new_height :
  is_signed 16 old_x -> is_signed 16 old_y -> is_unsigned 16 old_width -> is_unsigned 16 old_height ->
  is_signed 16 new_x -> is_signed 16 new_y -> is_unsigned 16 new_width -> is_unsigned 16 new_height ->
  let d := gravity_destination gravity old_x old_y old_width old_height new_x new_y new_width new_height in
  - 65535 <= d.1 <= 65535 /\ - 65535 <= d.2 <= 65535.
Proof.
  unfold is_signed, is_unsigned. intros. cbv zeta. unfold gravity_destination.
  rewrite !(swrap_id 32) by (done || (unfold is_signed; lia)).
  assert (forall z, -65535 <= z <= 65535 -> -65535 <= Z.quot z 2 <= 65535) as Hq.
  { intros z Hz. pose proof (Z.quot_rem' z 2). pose proof (Z.rem_bound_abs z 2). lia. }
  repeat match goal with |- context [if ?b then _ else _] => destruct b end; simpl; split;
    try apply Hq; lia.
Qed.

(** C31: resizing loses and repeats no pixel: for every bit gravity, every
    point of the resized window either shows a pixel of the old contents at
    the computed destination or lies in exactly one exposed rectangle, never
    both, and with a gravity that forgets the contents every point is exposed
    once; at most four rectangles are exposed. *)
Theorem resize_preservation_tiles gravity old_x old_y old_width old_height
    new_x new_y new_width new_height px py :
  is_signed 16 old_x -> is_signed 16 old_y -> is_unsigned 16 old_width -> is_unsigned 16 old_height ->
  is_signed 16 new_x -> is_signed 16 new_y -> is_unsigned 16 new_width -> is_unsigned 16 new_height ->
  0 <= px < new_width -> 0 <= py < new_height ->
  let p := resize_preservation gravity old_x old_y old_width old_height new_x new_y new_width new_height in
  cover_count (exposed p) px py =
    (if negb ((gravity =? 0) || (gravity >? 10)) && shows_old_pixel p old_width old_height px py
     then 0 else 1) /\
  zlen (exposed p) <= 4.
Proof.
  intros H1 H2 H3 H4 H5 H6 H7 H8 Hx Hy. cbv zeta. split.
  2: { unfold resize_preservation. destruct (_ || _); [|destruct (gravity_destination _ _ _ _ _ _ _ _ _) as [dx dy]];
    [|destruct (_ || _)]; unfold add_exposed; repeat case_match; simpl; autorewrite with zlen; simpl; lia. }
  unfold resize_preservation. destruct ((gravity =? 0) || (gravity >? 10)); simpl.
  { rewrite cover_count_add by (unfold is_unsigned in *; lia). change (cover_count [] px py) with 0.
    destruct (_ && _) eqn:E; [done|]. exfalso. apply not_true_iff_false in E. apply E. lia. }
  pose proof (gravity_destination_bounds gravity old_x old_y old_width old_height new_x new_y
    new_width new_height H1 H2 H3 H4 H5 H6 H7 H8) as Hd.
  destruct (gravity_destination _ _ _ _ _ _ _ _ _) as [dx dy]. simpl in Hd.
  unfold is_unsigned in H3, H4, H7, H8.
  rewrite !(swrap_id 32 (dx + _)), !(swrap_id 32 (dy + _)) by (done || (unfold is_signed; lia)).
  unfold shows_old_pixel.
  destruct ((Z.max 0 dx >=? Z.min new_width (dx + old_width)) ||
    (Z.max 0 dy >=? Z.min new_height (dy + old_height))) eqn:Hnone; simpl.
  - rewrite cover_count_add by lia. change (cover_count [] px py) with 0.
    repeat match goal with |- context [if ?b then _ else _] =>
      let E := fresh "E" in destruct b eqn:E end; lia.
  - bool_to_prop. rewrite !(swrap_id 32) by (done || (unfold is_signed; lia)).
    rewrite !cover_count_add by lia. change (cover_count [] px py) with 0.
    repeat match goal with |- context [if ?b then _ else _] =>
      let E := fresh "E" in destruct b eqn:E end; lia.
Qed.

Lemma resize_preservation_tiles_witness :
  let p := resize_preservation 5 0 0 100 80 0 0 140 60 in
  cover_count (exposed p) 10 30 = 1 /\ cover_count (exposed p) 60 30 = 0.
Proof.
  split.
  - refine (eq_trans (proj1 (resize_preservation_tiles 5 0 0 100 80 0 0 140 60 10 30 _ _ _ _ _ _ _ _ _ _)) _);
      [by_computation..|vm_compute; reflexivity].
  - refine (eq_trans (proj1 (resize_preservation_tiles 5 0 0 100 80 0 0 140 60 60 30 _ _ _ _ _ _ _ _ _ _)) _);
      [by_computation..|vm_compute; reflexivity].
Defined.

(** ** Barriers stop what they block *)

Definition between (a r b : Z) : Prop := Z.min a b <= r <= Z.max a b.

(** The directions of the XFIXES protocol, with their bits in [directions]: a
    set bit lets the pointer pass that way. *)
Inductive Direction := positive_x | positive_y | negative_x | negative_y.

Definition direction_bit (d : Direction) : Z :=
  match d with positive_x => 0 | positive_y => 1 | negative_x => 2 | negative_y => 3 end.

Definition blocks (b : XFixesBarrierRecord) (d : Direction) : Prop :=
  (devices b = [] \/ In 2 (devices b)) /\ Z.testbit (directions b) (direction_bit d) = false.

(** Two closed intervals, given by their ends in any order, meet. *)
Definition meets (a b low high : Z) : Prop :=
  Z.max (Z.min a b) (Z.min low high) <= Z.min (Z.max a b) (Z.max low high).

Definition vertical (b : XFixesBarrierRecord) : Prop := barrier_x1 b = barrier_x2 b.

Definition horizontal (b : XFixesBarrierRecord) : Prop :=
  barrier_x1 b <> barrier_x2 b /\ barrier_y1 b = barrier_y2 b.

(** The movement from the old to the new position goes through the barrier in
    the direction: it changes the side, and its extent along the barrier meets
    the barrier. The coordinate of a barrier belongs to its positive side. *)
Definition crosses (b : XFixesBarrierRecord) (d : Direction) (old new : Z * Z) : Prop :=
  match d with
  | positive_x =>
      vertical b /\ meets old.2 new.2 (barrier_y1 b) (barrier_y2 b) /\ old.1 < barrier_x1 b <= new.1
  | negative_x =>
      vertical b /\ meets old.2 new.2 (barrier_y1 b) (barrier_y2 b) /\ new.1 < barrier_x1 b <= old.1
  | positive_y =>
      horizontal b /\ meets old.1 new.1 (barrier_x1 b) (barrier_x2 b) /\ old.2 < barrier_y1 b <= new.2
  | negative_y =>
      horizontal b /\ meets old.1 new.1 (barrier_x1 b) (barrier_x2 b) /\ new.2 < barrier_y1 b <= old.2
  end.

(** Where a pointer that moves in the direction comes to rest. *)
Definition stop (b : XFixesBarrierRecord) (d : Direction) : Z :=
  match d with
  | positive_x => barrier_x1 b - 1
  | positive_y => barrier_y1 b - 1
  | negative_x => barrier_x1 b
  | negative_y => barrier_y1 b
  end.

Definition along_x (d : Direction) : bool :=
  match d with positive_x | negative_x => true | _ => false end.

(** The result of one turn: unchanged, or stopped at the barrier. *)
Definition stopped (b : XFixesBarrierRecord) (old new r : Z * Z) : Prop :=
  r = new \/ exists d, blocks b d /\ crosses b d old new /\
    r = if along_x d then (stop b d, new.2) else (new.1, stop b d).

Lemma blocks_bit b d :
  blocks b d <->
  (devices b = [] \/ In 2 (devices b)) /\ Z.land (directions b) (2 ^ direction_bit d) = 0.
Proof.
  unfold blocks. apply and_iff_compat_l.
  assert (forall z i, 0 <= i -> Z.testbit z i = false <-> Z.land z (2 ^ i) = 0) as Hbit.
  { intros z i Hi. split.
    - intros Hz. apply Z.bits_inj'. intros j Hj. rewrite Z.land_spec, Z.pow2_bits_eqb, Z.bits_0 by done.
      destruct (Z.eqb_spec i j) as [<-|]; [by rewrite Hz|apply andb_false_r].
    - intros Hz. pose proof (Z.land_spec z (2 ^ i) i) as Hs. rewrite Hz, Z.bits_0, Z.pow2_bits_true, andb_true_r in Hs by done.
      done. }
  apply Hbit. by destruct d.
Qed.

Lemma device_test b :
  negb (bool_decide (devices b = [])) && negb (existsb (Z.eqb 2) (devices b)) = false <->
  (devices b = [] \/ In 2 (devices b)).
Proof.
  rewrite andb_false_iff, !negb_false_iff, bool_decide_eq_true, existsb_exists. split.
  - intros [H|(x & Hin & ->%Z.eqb_eq)]; auto.
  - intros [H|H]; [auto|]. right. by exists 2.
Qed.

(** One turn changes the position only to stop a movement the barrier blocks. *)
Lemma apply_barrier_stopped old_x old_y new b :
  stopped b (old_x, old_y) new (apply_barrier old_x old_y new b).
Proof.
  destruct new as [new_x new_y]. unfold apply_barrier.
  destruct (negb _ && negb _) eqn:Hdev; [by left|]. apply device_test in Hdev.
  assert (forall d, Z.land (directions b) (2 ^ direction_bit d) = 0 -> blocks b d) as Hblocks
    by (intros d Hd; by apply blocks_bit).
  pose proof (Hblocks positive_x). pose proof (Hblocks positive_y).
  pose proof (Hblocks negative_x). pose proof (Hblocks negative_y). clear Hblocks. simpl in *.
  repeat match goal with |- context [if ?c then _ else _] =>
    let E := fresh "E" in destruct c eqn:E end; bool_to_prop; try (by left); right.
  - exists positive_x. unfold crosses, vertical, meets. simpl. split_and!; [tauto|lia..|done].
  - exists negative_x. unfold crosses, vertical, meets. simpl. split_and!; [tauto|lia..|done].
  - exists positive_y. unfold crosses, horizontal, meets. simpl. split_and!; [tauto|lia..|done].
  - exists negative_y. unfold crosses, horizontal, meets. simpl. split_and!; [tauto|lia..|done].
Qed.

(** A blocked movement does not get past the turn of its barrier. *)
Lemma apply_barrier_blocked old_x old_y new b d :
  blocks b d -> ~ crosses b d (old_x, old_y) (apply_barrier old_x old_y new b).
Proof.
  intros [Hdev Hbit]%blocks_bit. destruct new as [new_x new_y]. unfold apply_barrier.
  rewrite (proj2 (device_test b) Hdev). intros Hc.
  destruct d; destruct Hc as (Hshape & Hm & Hc); unfold vertical, horizontal, meets in *; simpl in *;
    match type of Hbit with Z.land _ ?m = 0 => let v := eval vm_compute in m in change m with v in Hbit end;
    revert Hm Hc; repeat match goal with |- context [if ?c then _ else _] =>
      let E := fresh "E" in destruct c eqn:E end; simpl; lia.
Qed.

Lemma stopped_between b old new r :
  stopped b old new r -> between old.1 r.1 new.1 /\ between old.2 r.2 new.2.
Proof.
  unfold between. intros [->|(d & _ & Hc & ->)]; [lia|].
  destruct d; destruct Hc as (_ & _ & Hc); simpl in *; lia.
Qed.

(** A shorter movement crosses less. *)
Lemma crosses_shorter b d old new r :
  between old.1 r.1 new.1 -> between old.2 r.2 new.2 -> crosses b d old r -> crosses b d old new.
Proof.
  unfold between. intros Hx Hy. destruct d; intros (Hs & Hm & Hc); unfold crosses, meets in *; simpl in *;
    (split; [done|]); lia.
Qed.

Lemma constrain_between barriers old_x old_y : forall new,
  between old_x (foldl (apply_barrier old_x old_y) new barriers).1 new.1 /\
  between old_y (foldl (apply_barrier old_x old_y) new barriers).2 new.2.
Proof.
  induction barriers as [|b barriers IH]; intros new; simpl; [unfold between; lia|].
  pose proof (stopped_between _ _ _ _ (apply_barrier_stopped old_x old_y new b)) as Hb.
  specialize (IH (apply_barrier old_x old_y new b)). unfold between in *. simpl in Hb. lia.
Qed.

(** Each coordinate of the result is that of the movement or where a barrier
    that blocks the movement stops it. *)
Lemma constrain_stops barriers old_x old_y : forall new,
  let r := foldl (apply_barrier old_x old_y) new barriers in
  forall axis : bool, let coordinate (p : Z * Z) := if axis then p.1 else p.2 in
  coordinate r = coordinate new \/
  exists b d, In b barriers /\ along_x d = axis /\ blocks b d /\
    crosses b d (old_x, old_y) new /\ coordinate r = stop b d.
Proof.
  induction barriers as [|b barriers IH]; intros new; simpl; [by left|]. intros axis.
  pose proof (apply_barrier_stopped old_x old_y new b) as Hstop.
  destruct (stopped_between _ _ _ _ Hstop) as [Hx Hy].
  destruct (IH (apply_barrier old_x old_y new b) axis) as [->|(b' & d & Hin & Ha & Hb & Hc & ->)].
  - destruct Hstop as [->|(d & Hb & Hc & ->)]; [by left|].
    destruct (Bool.bool_dec (along_x d) axis) as [<-|Hne].
    + right. exists b, d. split_and!; [by left|done..|]. by destruct (along_x d).
    + left. by destruct (along_x d), axis.
  - right. exists b', d. split_and!; [by right|done..| |done]. by eapply crosses_shorter.
Qed.

(** C32: the barriers, applied in any order, keep the pointer from every
    movement they block and from no other. The result lies between the old and
    the new position; the movement to it crosses no barrier in a direction
    this barrier blocks; and where a coordinate is not the one asked for, the
    pointer stands at a barrier that blocks the movement asked for in that
    direction, just in front of it or on its coordinate. *)
Theorem constrain_pointer_correct barriers old_x old_y new_x new_y :
  let old := (old_x, old_y) in
  let new := (new_x, new_y) in
  let r := constrain_pointer_by_barriers barriers old_x old_y new_x new_y in
  between old_x r.1 new_x /\ between old_y r.2 new_y /\
  (forall b d, In b barriers -> blocks b d -> ~ crosses b d old r) /\
  (r.1 <> new_x -> exists b d, In b barriers /\ along_x d = true /\ blocks b d /\
     crosses b d old new /\ r.1 = stop b d) /\
  (r.2 <> new_y -> exists b d, In b barriers /\ along_x d = false /\ blocks b d /\
     crosses b d old new /\ r.2 = stop b d).
Proof.
  cbv zeta. unfold constrain_pointer_by_barriers.
  destruct (constrain_between barriers old_x old_y (new_x, new_y)) as [Hx Hy].
  split_and!; [done..| | |].
  - intros b d (before & after & ->)%in_split Hb Hc. rewrite foldl_app in Hc. simpl in Hc.
    set (mid := foldl _ (new_x, new_y) before) in Hc.
    destruct (constrain_between after old_x old_y (apply_barrier old_x old_y mid b)) as [Hax Hay].
    apply (apply_barrier_blocked old_x old_y mid b d Hb). eapply crosses_shorter; [exact Hax|exact Hay|exact Hc].
  - intros Hne. by destruct (constrain_stops barriers old_x old_y (new_x, new_y) true).
  - intros Hne. by destruct (constrain_stops barriers old_x old_y (new_x, new_y) false).
Qed.

(** A one-way barrier at x = 10 that lets the pointer pass to the right only:
    it comes back no further than the barrier. *)
Definition one_way : XFixesBarrierRecord := mkBarrier 1 0 10 0 10 100 1 [].

Lemma constrain_pointer_correct_witness :
  constrain_pointer_by_barriers [one_way] 5 50 15 60 = (15, 60) /\
  constrain_pointer_by_barriers [one_way] 15 60 5 50 = (10, 50) /\
  ~ crosses one_way negative_x (15, 60) (10, 50).
Proof.
  split; [vm_compute; reflexivity|]. split; [vm_compute; reflexivity|].
  destruct (constrain_pointer_correct [one_way] 15 60 5 50) as (_ & _ & Hno & _).
  apply (Hno one_way negative_x); [by left|]. split; [by left|vm_compute; reflexivity].
Defined.
