(* ===== verification/Properties.v ===== *)
(** * Window and device properties

    The property operations of [src/src/server/server_state.cpp]:
    [set_property], [delete_property], [rotate_properties], their
    notifications, the XInput device properties and the release of a window's
    properties by [erase_window_tree]. All of them share the byte counter
    [property_bytes_]. The event queues are used through [EventSink]. *)
From S2P Require Import Prelude.
From S2P Require Import Events.
From S2P Require Import EventSink.
From S2P Require Import EventQueue.
From S2P Require Import Region.
From S2P Require Import Windows.

Definition maximum_property_bytes : Z := 1024 * 1024.

Definition maximum_server_property_bytes : Z := 16 * 1024 * 1024.

Definition maximum_xi2_properties_per_device : Z := 256.

Definition property_change_mask : Z := Z.shiftl 1 22.

Definition xi2_all_devices : Z := 0.

Definition xi2_all_master_devices : Z := 1.

Definition xi2_pointer_device_id : Z := 2.

Definition xi2_keyboard_device_id : Z := 3.

Record Xi2EventMask := mkXi2Mask { mask_device : Z; words : list Z }.

Record Xi2EventSelection := mkXi2Selection {
  selection_owner : Z; selection_window : Z; masks : list Xi2EventMask
}.

Inductive Xi2Update := xi2_updated | xi2_resource_exhausted | xi2_queue_full.

Definition property_size (value : PropertyValue) : Z := zlen (data value).

Section Properties.
Context {Q : Type} `{EventSinkLaws Q}.

(** The fields of [ServerState] the property operations use. *)
Record PropertyState := mkPropertyState {
  windows : gmap Z WindowRecord;
  xi2_properties_ : list (gmap Z PropertyValue);
  xi2_selections : list Xi2EventSelection;
  property_bytes : Z;
  queues : Q;
  current_time : Z
}.

#[export] Instance PropertyState_eta : Eta PropertyState := fun s =>
  mkPropertyState (windows s) (xi2_properties_ s) (xi2_selections s) (property_bytes s)
    (queues s) (current_time s).

(** ** Notifications *)

Definition notified_clients (candidate : WindowRecord) : list Z :=
  map fst (List.filter (fun selection => negb (Z.land selection.2 property_change_mask =? 0))
    (map_to_list (event_masks candidate))).

(** The planned events, property by property. *)
Definition property_notifications (time : Z) (candidate : WindowRecord) (atoms : list Z)
    (state : Z) : list PlannedEvent :=
  concat (map (fun atom =>
    map (fun client => (client, PropertyNotify (mkPropertyNotify state (id candidate) atom time 0)))
      (notified_clients candidate)) atoms).

Definition queue_property_notifications (s : PropertyState) (mem : Memory)
    (candidate : WindowRecord) (atoms : list Z) (state : Z) : PropertyState * EventDelivery :=
  let count := zlen atoms in
  if count =? 0 then (s, no_recipient)
  else
    let recipients := zlen (notified_clients candidate) in
    if recipients =? 0 then (s, no_recipient)
    else if count >? maximum_pending_events / recipients then (s, queue_full)
    else
      let event_count := u64 (count * recipients) in
      if event_count >? u64 (maximum_pending_events - sink_pending (queues s)) then (s, queue_full)
      else if plan_fails mem then (s, queue_full)
      else
        let '(q, ok) := sink_batch (queues s) (pushes mem)
          (property_notifications (current_time s) candidate atoms state) in
        (s <| queues := q |>, if ok then delivered else queue_full).

(** ** Window properties

    [candidate] of the C++ functions is a reference into [windows_]; here it
    is the key of the record. *)

Definition set_window_properties (s : PropertyState) (window : Z) (candidate : WindowRecord)
    (table : gmap Z PropertyValue) : PropertyState :=
  s <| windows := <[window := candidate <| properties := table |>]> (windows s) |>.

Definition found_size (found : option PropertyValue) : Z := from_option property_size 0 found.

Definition set_property (s : PropertyState) (mem : Memory) (window property : Z)
    (value : PropertyValue) : PropertyState * EventDelivery :=
  match windows s !! window with
  | None => (s, no_recipient)
  | Some candidate =>
      if property_size value >? maximum_property_bytes then (s, queue_full)
      else
        let found := properties candidate !! property in
        let old_size := found_size found in
        if u64 (property_bytes s - old_size) >?
           u64 (maximum_server_property_bytes - property_size value)
        then (s, queue_full)
        else
          let new_size := property_size value in
          let inserted := bool_decide (found = None) in
          if inserted && store_fails mem then (s, queue_full)
          else
            let table := <[property := value]> (properties candidate) in
            let s := set_window_properties s window candidate table in
            let s := s <| property_bytes := u64 (u64 (property_bytes s - old_size) + new_size) |> in
            let '(s, delivery) :=
              queue_property_notifications s mem (candidate <| properties := table |>) [property] 0 in
            match delivery with
            | queue_full =>
                let s := s <| property_bytes :=
                  u64 (u64 (property_bytes s - new_size) + old_size) |> in
                let table :=
                  match found with
                  | None => delete property table
                  | Some previous => <[property := previous]> table
                  end in
                (set_window_properties s window candidate table, queue_full)
            | _ => (s, delivery)
            end
  end.

Definition delete_property (s : PropertyState) (mem : Memory) (window property : Z)
    : PropertyState * EventDelivery :=
  match windows s !! window with
  | None => (s, no_recipient)
  | Some candidate =>
      match properties candidate !! property with
      | None => (s, no_recipient)
      | Some found =>
          let '(s, delivery) := queue_property_notifications s mem candidate [property] 1 in
          match delivery with
          | queue_full => (s, queue_full)
          | _ =>
              let s := s <| property_bytes := u64 (property_bytes s - property_size found) |> in
              (set_window_properties s window candidate (delete property (properties candidate)),
               delivery)
          end
      end
  end.

(** The first loop of [rotate_properties]: every value is moved out, which
    leaves its vector empty. *)
Fixpoint take_values (table : gmap Z PropertyValue) (atoms : list Z)
    : gmap Z PropertyValue * list PropertyValue :=
  match atoms with
  | [] => (table, [])
  | atom :: rest =>
      let value := default (mkProperty 0 0 []) (table !! atom) in
      let '(table, values) := take_values (<[atom := value <| data := [] |>]> table) rest in
      (table, value :: values)
  end.

(** The second loop: the value at [index] goes to
    [atoms[(index + delta) % atoms.size()]]. *)
Fixpoint put_values (table : gmap Z PropertyValue) (atoms : list Z) (delta index : nat)
    (values : list PropertyValue) : gmap Z PropertyValue :=
  match values with
  | [] => table
  | value :: rest =>
      let destination := ((index + delta) mod length atoms)%nat in
      put_values (<[default 0 (atoms !! destination) := value]> table) atoms delta (S index) rest
  end.

Definition rotate_properties (s : PropertyState) (mem : Memory) (window : Z) (atoms : list Z)
    (delta : nat) : PropertyState * EventDelivery :=
  match windows s !! window with
  | None => (s, no_recipient)
  | Some candidate =>
      if bool_decide (atoms = []) then (s, no_recipient)
      else
        let delta := (delta mod length atoms)%nat in
        if (delta =? 0)%nat then (s, no_recipient)
        else if store_fails mem then (s, queue_full)
        else
          let '(s, delivery) := queue_property_notifications s mem candidate atoms 0 in
          match delivery with
          | queue_full => (s, queue_full)
          | _ =>
              let '(table, values) := take_values (properties candidate) atoms in
              (set_window_properties s window candidate (put_values table atoms delta 0 values),
               delivery)
          end
  end.

(** The part of [erase_window_tree] that releases the properties of one
    window. *)
Definition release_window (s : PropertyState) (window : Z) : PropertyState :=
  match windows s !! window with
  | None => s
  | Some found =>
      s <| property_bytes :=
          foldl (fun bytes entry => u64 (bytes - property_size entry.2)) (property_bytes s)
            (map_to_list (properties found)) |>
        <| windows := delete window (windows s) |>
  end.

(** ** Device properties *)

(** The index of a device in the array [xi2_properties_]. *)
Definition device_index (device : Z) : nat := Z.to_nat (device - xi2_pointer_device_id).

Definition xi2_properties (s : PropertyState) (device : Z) : gmap Z PropertyValue :=
  if (device <? xi2_pointer_device_id) || (device >? xi2_keyboard_device_id) then ∅
  else default ∅ (xi2_properties_ s !! device_index device).

Definition xi2_mask_selected (selection : Xi2EventSelection) (device event_type : Z) : bool :=
  let word := event_type / 32 in
  let bit := u32 (Z.shiftl 1 (event_type mod 32)) in
  existsb (fun mask =>
    ((mask_device mask =? xi2_all_devices) || (mask_device mask =? xi2_all_master_devices) ||
     (mask_device mask =? device)) &&
    (word <? zlen (words mask)) &&
    negb (Z.land (default 0 (words mask !! Z.to_nat word)) bit =? 0)) (masks selection).

(** The planning loop: one event per owner, at its first selection. *)
Definition plan_xi2 (device : Z) (event : ClientEvent) (events : list PlannedEvent)
    (selection : Xi2EventSelection) : list PlannedEvent :=
  if negb (xi2_mask_selected selection device 12) then events
  else if existsb (fun planned => planned.1 =? selection_owner selection) events then events
  else events ++ [(selection_owner selection, event)].

Definition xi2_notifications (s : PropertyState) (device property what : Z) : list PlannedEvent :=
  foldl (plan_xi2 device (Xi2Property (mkXi2Property device (current_time s) property what 0)))
    [] (xi2_selections s).

Definition set_xi2_property (s : PropertyState) (mem : Memory) (device property : Z)
    (value : PropertyValue) : PropertyState * Xi2Update :=
  let table := default ∅ (xi2_properties_ s !! device_index device) in
  let found := table !! property in
  if bool_decide (found = None) && (Z.of_nat (size table) >=? maximum_xi2_properties_per_device)
  then (s, xi2_resource_exhausted)
  else
    let old_size := found_size found in
    if (property_size value >? maximum_property_bytes) ||
       (u64 (property_bytes s - old_size) >?
        u64 (maximum_server_property_bytes - property_size value))
    then (s, xi2_resource_exhausted)
    else
      let new_size := property_size value in
      if store_fails mem || plan_fails mem then (s, xi2_resource_exhausted)
      else
        let '(q, ok) := sink_batch (queues s) (pushes mem)
          (xi2_notifications s device property (if bool_decide (found = None) then 1 else 2)) in
        let s := s <| queues := q |> in
        if negb ok then (s, xi2_queue_full)
        else
          (s <| xi2_properties_ :=
               <[device_index device := <[property := value]> table]> (xi2_properties_ s) |>
             <| property_bytes := u64 (u64 (property_bytes s - old_size) + new_size) |>,
           xi2_updated).

Definition delete_xi2_property (s : PropertyState) (mem : Memory) (device property : Z)
    : PropertyState * Xi2Update :=
  let table := default ∅ (xi2_properties_ s !! device_index device) in
  match table !! property with
  | None => (s, xi2_updated)
  | Some found =>
      if plan_fails mem then (s, xi2_resource_exhausted)
      else
        let '(q, ok) := sink_batch (queues s) (pushes mem)
          (xi2_notifications s device property 0) in
        let s := s <| queues := q |> in
        if negb ok then (s, xi2_queue_full)
        else
          (s <| property_bytes := u64 (property_bytes s - property_size found) |>
             <| xi2_properties_ :=
                  <[device_index device := delete property table]> (xi2_properties_ s) |>,
           xi2_updated)
  end.

(** ** The invariant *)

Definition table_bytes (table : gmap Z PropertyValue) : Z := map_sum property_size table.

Definition windows_bytes (ws : gmap Z WindowRecord) : Z :=
  map_sum (fun w => table_bytes (properties w)) ws.

Definition devices_bytes (tables : list (gmap Z PropertyValue)) : Z :=
  foldr (fun table total => table_bytes table + total) 0 tables.

Definition total_bytes (s : PropertyState) : Z :=
  windows_bytes (windows s) + devices_bytes (xi2_properties_ s).

Definition table_limited (table : gmap Z PropertyValue) : Prop :=
  map_Forall (fun _ value => property_size value <= maximum_property_bytes) table.

(** [property_bytes_] is the size of everything stored, and every limit
    holds. *)
Record properties_ok (s : PropertyState) : Prop := {
  ok_accounted : property_bytes s = total_bytes s;
  ok_server_limit : property_bytes s <= maximum_server_property_bytes;
  ok_windows_limited : map_Forall (fun _ w => table_limited (properties w)) (windows s);
  ok_devices : length (xi2_properties_ s) = 2%nat;
  ok_devices_limited : Forall (fun table => table_limited table /\
    Z.of_nat (size table) <= maximum_xi2_properties_per_device) (xi2_properties_ s);
  ok_sink : sink_ok (queues s)
}.

Lemma property_size_nonneg value : 0 <= property_size value.
Proof. apply zlen_nonneg. Qed.

Lemma table_bytes_nonneg table : 0 <= table_bytes table.
Proof. apply map_sum_nonneg. apply property_size_nonneg. Qed.

Lemma windows_bytes_nonneg ws : 0 <= windows_bytes ws.
Proof. apply map_sum_nonneg. intros. apply table_bytes_nonneg. Qed.

Lemma devices_bytes_nonneg tables : 0 <= devices_bytes tables.
Proof. induction tables as [|t l IH]; simpl; [done|]. pose proof (table_bytes_nonneg t). lia. Qed.

Lemma table_bytes_insert table k v :
  table_bytes (<[k := v]> table) = table_bytes table - found_size (table !! k) + property_size v.
Proof. apply map_sum_insert. Qed.

Lemma table_bytes_delete table k :
  table_bytes (delete k table) = table_bytes table - found_size (table !! k).
Proof. apply map_sum_delete. Qed.

Lemma found_size_bounds table k : 0 <= found_size (table !! k) <= table_bytes table.
Proof.
  destruct (table !! k) as [v|] eqn:E; simpl; [|pose proof (table_bytes_nonneg table); lia].
  split; [apply property_size_nonneg|]. by apply (map_sum_entry property_size _ _ _ property_size_nonneg E).
Qed.

Lemma devices_bytes_insert tables i old table : tables !! i = Some old ->
  devices_bytes (<[i := table]> tables) = devices_bytes tables - table_bytes old + table_bytes table.
Proof.
  revert i. induction tables as [|t l IH]; intros [|i] Hi; simplify_eq/=; [lia|].
  rewrite (IH _ Hi). lia.
Qed.

Lemma total_bytes_parts s window candidate :
  windows s !! window = Some candidate ->
  0 <= table_bytes (properties candidate) <= total_bytes s.
Proof.
  intros Hw. split; [apply table_bytes_nonneg|]. unfold total_bytes, windows_bytes.
  pose proof (map_sum_entry (fun w => table_bytes (properties w)) (windows s) window candidate
    (fun w => table_bytes_nonneg (properties w)) Hw).
  pose proof (devices_bytes_nonneg (xi2_properties_ s)). simpl in *. lia.
Qed.

Lemma devices_bytes_part tables i table :
  tables !! i = Some table -> table_bytes table <= devices_bytes tables.
Proof.
  revert i. induction tables as [|t l IH]; intros [|i] Hi; simplify_eq/=.
  - pose proof (devices_bytes_nonneg l). lia.
  - specialize (IH _ Hi). pose proof (table_bytes_nonneg t). lia.
Qed.

Lemma total_bytes_set s window candidate table :
  windows s !! window = Some candidate ->
  total_bytes (set_window_properties s window candidate table) =
  total_bytes s - table_bytes (properties candidate) + table_bytes table.
Proof.
  intros Hw. unfold total_bytes, windows_bytes, set_window_properties. simpl.
  rewrite map_sum_insert, Hw. simpl. lia.
Qed.

Lemma table_limited_insert table k v :
  table_limited table -> property_size v <= maximum_property_bytes -> table_limited (<[k := v]> table).
Proof. intros. by apply map_Forall_insert_2. Qed.

Lemma table_limited_delete table k : table_limited table -> table_limited (delete k table).
Proof. intros. by apply map_Forall_delete. Qed.

(** Replacing the properties of one window and the counter accordingly. *)
Lemma properties_ok_set s window candidate table bytes q :
  properties_ok s -> windows s !! window = Some candidate -> table_limited table -> sink_ok q ->
  bytes = property_bytes s - table_bytes (properties candidate) + table_bytes table ->
  bytes <= maximum_server_property_bytes ->
  properties_ok ((set_window_properties s window candidate table) <| property_bytes := bytes |>
    <| queues := q |>).
Proof.
  intros [Ha Hl Hw Hd Hdl Hq] Hc Ht Hq' Hb Hmax.
  split; try done.
  - change (bytes = total_bytes (set_window_properties s window candidate table)).
    rewrite total_bytes_set by done. lia.
  - simpl. by apply map_Forall_insert_2.
Qed.

(** ** Notifications *)

Lemma notifications_nil time candidate atoms state :
  notified_clients candidate = [] -> property_notifications time candidate atoms state = [].
Proof. intros Hn. unfold property_notifications. rewrite Hn. by induction atoms. Qed.

Lemma queue_property_notifications_spec s mem candidate atoms state s' delivery :
  sink_ok (queues s) ->
  queue_property_notifications s mem candidate atoms state = (s', delivery) ->
  let events := property_notifications (current_time s) candidate atoms state in
  s' = s <| queues := queues s' |> /\ sink_ok (queues s') /\
  match delivery with
  | queue_full => sink_same (queues s') (queues s)
  | _ => sink_extends (queues s) (queues s') events
  end /\
  (delivery = no_recipient <-> events = []) .
Proof.
  intros Hq. unfold queue_property_notifications.
  assert (s = s <| queues := queues s |>) as Heta by (by destruct s).
  assert (sink_same (queues s) (queues s)) as Hsame by reflexivity.
  destruct (Z.eqb_spec (zlen atoms) 0) as [Hc|Hc].
  { intros [= <- <-]. destruct atoms; [|exfalso; unfold zlen in Hc; simpl in Hc; lia].
    split_and!; [done..|by apply sink_extends_nil|done]. }
  destruct (Z.eqb_spec (zlen (notified_clients candidate)) 0) as [Hr|Hr].
  { intros [= <- <-].
    assert (notified_clients candidate = []) as Hn by (destruct (notified_clients candidate); done).
    cbv zeta. rewrite notifications_nil by done.
    split_and!; [done..|by apply sink_extends_nil|done]. }
  assert (property_notifications (current_time s) candidate atoms state <> []) as Hne.
  { destruct atoms as [|a atoms]; [done|]. unfold property_notifications.
    destruct (notified_clients candidate); done. }
  destruct (_ >? _); [intros [= <- <-]; by split_and!|].
  destruct (_ >? _); [intros [= <- <-]; by split_and!|].
  destruct (plan_fails mem); [intros [= <- <-]; by split_and!|].
  destruct (sink_batch _ _ _) as [q ok] eqn:Hb. intros [= <- <-].
  apply sink_batch_spec in Hb as [Hq' Hb]; [|done]. simpl.
  by destruct ok; split_and!.
Qed.

(** ** Setting *)

(** The part of [property_bytes_] arithmetic that every operation needs: no
    wrap-around ever happens in a reachable state. *)
Lemma bytes_exact total old new :
  0 <= old <= total -> total <= maximum_server_property_bytes ->
  0 <= new <= maximum_property_bytes ->
  u64 (total - old) = total - old /\
  u64 (maximum_server_property_bytes - new) = maximum_server_property_bytes - new /\
  u64 (u64 (total - old) + new) = total - old + new /\
  u64 (u64 (total - old + new - new) + old) = total.
Proof.
  unfold maximum_server_property_bytes, maximum_property_bytes. intros.
  rewrite !(wrap_id 64) by (unfold is_unsigned; rewrite ?wrap_id by (unfold is_unsigned; lia); lia).
  lia.
Qed.

Lemma ok_bytes_bounds s window candidate property :
  properties_ok s -> windows s !! window = Some candidate ->
  0 <= found_size (properties candidate !! property) <= property_bytes s.
Proof.
  intros Hok Hw. pose proof (found_size_bounds (properties candidate) property).
  pose proof (total_bytes_parts s window candidate Hw). rewrite (ok_accounted s Hok). lia.
Qed.

(** What setting a property comes to. *)
Definition property_set (s : PropertyState) (window property : Z) (candidate : WindowRecord)
    (value : PropertyValue) (q : Q) : PropertyState :=
  (set_window_properties s window candidate (<[property := value]> (properties candidate)))
    <| property_bytes := property_bytes s - found_size (properties candidate !! property) +
         property_size value |>
    <| queues := q |>.

Lemma set_window_properties_id s window candidate :
  windows s !! window = Some candidate ->
  set_window_properties s window candidate (properties candidate) = s.
Proof.
  intros Hw. unfold set_window_properties.
  assert (candidate <| properties := properties candidate |> = candidate) as -> by (by destruct candidate).
  simpl. rewrite insert_id by done. by destruct s.
Qed.

(** The rollback restores the table. *)
Lemma restored_table (table : gmap Z PropertyValue) property value :
  match table !! property with
  | None => delete property (<[property := value]> table)
  | Some previous => <[property := previous]> (<[property := value]> table)
  end = table.
Proof.
  destruct (table !! property) eqn:E.
  - by rewrite insert_insert_eq, insert_id.
  - by apply delete_insert_id.
Qed.

Lemma set_property_spec s mem window property value candidate s' delivery :
  properties_ok s -> windows s !! window = Some candidate ->
  set_property s mem window property value = (s', delivery) ->
  match delivery with
  | queue_full => s' = s <| queues := queues s' |> /\ sink_same (queues s') (queues s)
  | _ =>
      property_size value <= maximum_property_bytes /\
      s' = property_set s window property candidate value (queues s') /\
      property_bytes s' <= maximum_server_property_bytes /\
      let events := property_notifications (current_time s) candidate [property] 0 in
      sink_extends (queues s) (queues s') events /\ (delivery = no_recipient <-> events = [])
  end /\ sink_ok (queues s').
Proof.
  intros Hok Hw. pose proof (ok_bytes_bounds s window candidate property Hok Hw) as Hb.
  pose proof (ok_server_limit s Hok) as Hmax. pose proof (property_size_nonneg value) as Hnew.
  unfold set_property. rewrite Hw.
  destruct (Z.gtb_spec (property_size value) maximum_property_bytes) as [|Hsz].
  { intros [= <- <-]. split_and!; [by destruct s|done|apply Hok]. }
  set (old := found_size (properties candidate !! property)) in *.
  destruct (bytes_exact (property_bytes s) old (property_size value)) as (H1 & H2 & Hset & Hback); [lia..|].
  rewrite H1, H2.
  destruct (Z.gtb_spec (property_bytes s - old) (maximum_server_property_bytes - property_size value)) as [|Hroom].
  { intros [= <- <-]. split_and!; [by destruct s|done|apply Hok]. }
  destruct (_ && _) eqn:Hstore.
  { intros [= <- <-]. split_and!; [by destruct s|done|apply Hok]. }
  cbv zeta. simpl.
  destruct (queue_property_notifications _ _ _ _ _) as [s2 d] eqn:Hqn.
  apply queue_property_notifications_spec in Hqn as (Hs2 & Hq2 & Hd & Hnone); [|apply Hok].
  simpl in Hnone, Hd. set (q2 := queues s2) in *. clearbody q2. subst s2.
  unfold property_notifications, notified_clients in Hd, Hnone. simpl in Hd, Hnone.
  destruct d; intros [= <- <-]; simpl; rewrite Hset.
  1, 2: split_and!; (done || lia || apply Hd || apply Hnone).
  rewrite Hback, restored_table. split_and!; [|done..].
  unfold set_window_properties. simpl. rewrite insert_insert_eq.
  match goal with |- context [<[window := ?w]> (windows s)] =>
    replace w with candidate by (by destruct candidate) end.
  rewrite insert_id by done. by destruct s.
Qed.

(** A change of queues alone keeps the invariant. *)
Lemma properties_ok_queues s q : properties_ok s -> sink_ok q -> properties_ok (s <| queues := q |>).
Proof. by intros []; split. Qed.

Lemma property_set_ok s window property candidate value q :
  properties_ok s -> windows s !! window = Some candidate -> sink_ok q ->
  property_size value <= maximum_property_bytes ->
  property_bytes (property_set s window property candidate value q) <= maximum_server_property_bytes ->
  properties_ok (property_set s window property candidate value q).
Proof.
  intros Hok Hw Hq Hsz Hmax. simpl in Hmax. apply properties_ok_set; try done.
  - apply table_limited_insert; [|done]. by apply (ok_windows_limited s Hok window).
  - rewrite table_bytes_insert. lia.
Qed.

Lemma set_property_ok s mem window property value s' delivery :
  properties_ok s -> set_property s mem window property value = (s', delivery) -> properties_ok s'.
Proof.
  intros Hok Heq. destruct (windows s !! window) as [candidate|] eqn:Hw.
  2: { unfold set_property in Heq. rewrite Hw in Heq. by injection Heq as <- _. }
  destruct (set_property_spec _ _ _ _ _ _ _ _ Hok Hw Heq) as [Hd Hq].
  destruct delivery.
  - destruct Hd as (? & He & ? & _). rewrite He in *. by apply property_set_ok.
  - destruct Hd as (? & He & ? & _). rewrite He in *. by apply property_set_ok.
  - destruct Hd as [-> _]. by apply properties_ok_queues.
Qed.

(** ** Deleting *)

Definition property_deleted (s : PropertyState) (window property : Z) (candidate : WindowRecord)
    (q : Q) : PropertyState :=
  (set_window_properties s window candidate (delete property (properties candidate)))
    <| property_bytes := property_bytes s - found_size (properties candidate !! property) |>
    <| queues := q |>.

Lemma delete_property_spec s mem window property candidate s' delivery :
  properties_ok s -> windows s !! window = Some candidate ->
  delete_property s mem window property = (s', delivery) ->
  sink_ok (queues s') /\
  match properties candidate !! property with
  | None => s' = s /\ delivery = no_recipient
  | Some _ =>
      match delivery with
      | queue_full => s' = s <| queues := queues s' |> /\ sink_same (queues s') (queues s)
      | _ =>
          s' = property_deleted s window property candidate (queues s') /\
          let events := property_notifications (current_time s) candidate [property] 1 in
          sink_extends (queues s) (queues s') events /\ (delivery = no_recipient <-> events = [])
      end
  end.
Proof.
  intros Hok Hw. pose proof (ok_bytes_bounds s window candidate property Hok Hw) as Hb.
  pose proof (ok_server_limit s Hok) as Hmax. unfold maximum_server_property_bytes in Hmax.
  unfold delete_property, property_deleted. rewrite Hw.
  destruct (properties candidate !! property) as [found|] eqn:Hf; simpl in *.
  2: { intros [= <- <-]. split; [apply Hok|done]. }
  destruct (queue_property_notifications _ _ _ _ _) as [s2 d] eqn:Hqn.
  apply queue_property_notifications_spec in Hqn as (Hs2 & Hq2 & Hd & Hnone); [|apply Hok].
  set (q2 := queues s2) in *. clearbody q2. subst s2. simpl in *.
  rewrite wrap_id by (unfold is_unsigned; lia).
  by destruct d; intros [= <- <-].
Qed.

Lemma delete_property_ok s mem window property s' delivery :
  properties_ok s -> delete_property s mem window property = (s', delivery) -> properties_ok s'.
Proof.
  intros Hok Heq. destruct (windows s !! window) as [candidate|] eqn:Hw.
  2: { unfold delete_property in Heq. rewrite Hw in Heq. by injection Heq as <- _. }
  destruct (delete_property_spec _ _ _ _ _ _ _ Hok Hw Heq) as [Hq Hd].
  destruct (properties candidate !! property) as [found|] eqn:Hf; [|by destruct Hd as [-> _]].
  assert (forall q, sink_ok q -> properties_ok (property_deleted s window property candidate q)) as Hdel.
  { intros q Hq'. pose proof (ok_bytes_bounds s window candidate property Hok Hw).
    pose proof (ok_server_limit s Hok). apply properties_ok_set; try done.
    - apply table_limited_delete. by apply (ok_windows_limited s Hok window).
    - rewrite table_bytes_delete. lia.
    - lia. }
  destruct delivery.
  - destruct Hd as (-> & _). by apply Hdel.
  - destruct Hd as (-> & _). by apply Hdel.
  - destruct Hd as [-> _]. by apply properties_ok_queues.
Qed.

(** ** Rotating *)

Lemma take_values_spec atoms : forall table,
  NoDup atoms ->
  (take_values table atoms).2 = map (fun atom => default (mkProperty 0 0 []) (table !! atom)) atoms /\
  forall k, k ∉ atoms -> (take_values table atoms).1 !! k = table !! k.
Proof.
  induction atoms as [|atom atoms IH]; intros table Hnd; simpl; [done|].
  apply NoDup_cons in Hnd as [Hni Hnd].
  set (value := default _ (table !! atom)).
  destruct (IH (<[atom := value <| data := [] |>]> table) Hnd) as [Hv Ht].
  destruct (take_values _ atoms) as [table' values] eqn:E. simpl in *. split.
  - f_equal. rewrite Hv. apply map_ext_in. intros a Ha%list_elem_of_In.
    rewrite lookup_insert_ne; [done|]. by intros <-.
  - intros k Hk. apply not_elem_of_cons in Hk as [Hne Hk]. rewrite Ht by done.
    by rewrite lookup_insert_ne.
Qed.

(** Two positions of one turn of the wheel are distinct. *)
Lemma rotated_index_inj n delta i j :
  (i < n)%nat -> (j < n)%nat -> ((i + delta) mod n = (j + delta) mod n)%nat -> i = j.
Proof.
  intros Hi Hj He. pose proof (Nat.div_mod_eq (i + delta) n). pose proof (Nat.div_mod_eq (j + delta) n).
  rewrite He in *. set (q1 := ((i + delta) / n)%nat) in *. set (q2 := ((j + delta) / n)%nat) in *.
  destruct (Nat.lt_trichotomy q1 q2) as [|[|]]; nia.
Qed.

(** Where the value of position [index] goes. *)
Definition rotated_atom (atoms : list Z) (delta index : nat) : Z :=
  default 0 (atoms !! ((index + delta) mod length atoms)%nat).

Lemma rotated_atom_inj atoms delta i j :
  NoDup atoms -> (i < length atoms)%nat -> (j < length atoms)%nat ->
  rotated_atom atoms delta i = rotated_atom atoms delta j -> i = j.
Proof.
  intros Hnd Hi Hj. unfold rotated_atom.
  destruct (lookup_lt_is_Some_2 atoms ((i + delta) mod length atoms)) as [a Ha];
    [apply Nat.mod_upper_bound; lia|].
  destruct (lookup_lt_is_Some_2 atoms ((j + delta) mod length atoms)) as [b Hb];
    [apply Nat.mod_upper_bound; lia|].
  rewrite Ha, Hb. simpl. intros ->. apply (rotated_index_inj (length atoms) delta); [done..|].
  by eapply NoDup_lookup.
Qed.

Lemma put_values_other atoms delta values : forall table index k,
  (forall i, (index <= i < index + length values)%nat -> rotated_atom atoms delta i <> k) ->
  put_values table atoms delta index values !! k = table !! k.
Proof.
  induction values as [|v values IH]; intros table index k Hk; simpl; [done|].
  rewrite IH by (intros i Hi; apply Hk; simpl; lia).
  rewrite lookup_insert_ne; [done|]. apply (Hk index). simpl. lia.
Qed.

Lemma put_values_at atoms delta values : NoDup atoms -> forall table index j v,
  (index + length values <= length atoms)%nat -> values !! j = Some v ->
  put_values table atoms delta index values !! rotated_atom atoms delta (index + j) = Some v.
Proof.
  intros Hnd. induction values as [|v0 values IH]; intros table index j v Hlen Hj; [done|].
  simpl in *. destruct j as [|j]; simplify_eq/=.
  - rewrite Nat.add_0_r, put_values_other; [apply lookup_insert_eq|].
    intros i Hi He. apply rotated_atom_inj in He; [lia|done|lia..].
  - rewrite Nat.add_succ_r, <- Nat.add_succ_l. apply IH; [lia|done].
Qed.

(** The table a successful rotation leaves. *)
Definition rotated_table (table : gmap Z PropertyValue) (atoms : list Z) (delta : nat)
    : gmap Z PropertyValue :=
  let '(table, values) := take_values table atoms in put_values table atoms delta 0 values.

Lemma rotated_table_at table atoms delta i a :
  NoDup atoms -> atoms !! i = Some a -> is_Some (table !! a) ->
  rotated_table table atoms delta !! rotated_atom atoms delta i = table !! a.
Proof.
  intros Hnd Hi [v Hv]. unfold rotated_table.
  destruct (take_values_spec atoms table Hnd) as [Hvs _].
  destruct (take_values table atoms) as [table' values]. simpl in Hvs. subst values.
  rewrite (put_values_at atoms delta _ Hnd table' 0 i v); [done|by rewrite length_map|].
  rewrite (list_lookup_fmap (fun atom => default (mkProperty 0 0 []) (table !! atom)) atoms), Hi. simpl.
  by rewrite Hv.
Qed.

Lemma rotated_atom_in atoms delta i : atoms <> [] -> rotated_atom atoms delta i ∈ atoms.
Proof.
  intros Hne. unfold rotated_atom.
  destruct (lookup_lt_is_Some_2 atoms ((i + delta) mod length atoms)) as [a Ha].
  { apply Nat.mod_upper_bound. by destruct atoms. }
  rewrite Ha. by apply list_elem_of_lookup_2 in Ha.
Qed.

Lemma rotated_table_other table atoms delta k :
  NoDup atoms -> k ∉ atoms -> rotated_table table atoms delta !! k = table !! k.
Proof.
  intros Hnd Hk. unfold rotated_table.
  destruct (take_values_spec atoms table Hnd) as [Hvs Ht].
  destruct (take_values table atoms) as [table' values]. simpl in *.
  rewrite put_values_other; [by apply Ht|]. intros i Hi <-. apply Hk, rotated_atom_in. intros ->. simpl in Hvs.
  subst values. simpl in Hi. lia.
Qed.

(** The bytes stored under a list of atoms. *)
Definition bytes_at (table : gmap Z PropertyValue) (atoms : list Z) : Z :=
  foldr (fun atom total => found_size (table !! atom) + total) 0 atoms.

Lemma bytes_at_permutation table l k : l ≡ₚ k -> bytes_at table l = bytes_at table k.
Proof. induction 1; simpl; lia. Qed.

Lemma bytes_at_ext table table' l :
  (forall a, a ∈ l -> table !! a = table' !! a) -> bytes_at table l = bytes_at table' l.
Proof.
  induction l as [|a l IH]; intros He; simpl; [done|].
  rewrite IH by set_solver. by rewrite He by set_solver.
Qed.

Lemma table_bytes_split atoms : forall table, NoDup atoms ->
  table_bytes table = bytes_at table atoms + table_bytes (foldl (fun m k => delete k m) table atoms).
Proof.
  induction atoms as [|a atoms IH]; intros table Hnd; simpl; [lia|].
  apply NoDup_cons in Hnd as [Hni Hnd]. pose proof (IH (delete a table) Hnd) as Hs.
  rewrite table_bytes_delete in Hs.
  rewrite (bytes_at_ext (delete a table) table) in Hs; [lia|].
  intros b Hb. rewrite lookup_delete_ne; [done|]. by intros <-.
Qed.

Lemma rotated_atoms_permutation atoms delta :
  NoDup atoms -> map (rotated_atom atoms delta) (seq 0 (length atoms)) ≡ₚ atoms.
Proof.
  intros Hnd. apply Permutation.NoDup_Permutation_bis.
  - apply NoDup_ListNoDup, NoDup_fmap_2_strong; [|apply NoDup_seq].
    intros i j Hi%elem_of_seq Hj%elem_of_seq. apply rotated_atom_inj; (done || lia).
  - by rewrite length_map, length_seq.
  - intros a Ha. apply list_elem_of_In. apply in_map_iff in Ha as (i & <- & Hi).
    apply rotated_atom_in. by intros ->.
Qed.

Lemma bytes_at_map table (f : nat -> Z) l :
  bytes_at table (map f l) = foldr (fun i total => found_size (table !! f i) + total) 0 l.
Proof. induction l as [|i l IH]; simpl; [done|]. by rewrite IH. Qed.

Lemma positions_of (atoms : list Z) :
  map (fun i => default 0 (atoms !! i)) (seq 0 (length atoms)) = atoms.
Proof.
  induction atoms as [|a atoms IH]; simpl; [done|]. f_equal.
  rewrite <- seq_shift, map_map. by rewrite <- IH at 2.
Qed.

Lemma rotated_table_bytes table atoms delta :
  NoDup atoms -> Forall (fun a => is_Some (table !! a)) atoms ->
  table_bytes (rotated_table table atoms delta) = table_bytes table.
Proof.
  intros Hnd Hall. rewrite (table_bytes_split atoms table Hnd), (table_bytes_split atoms (rotated_table _ _ _) Hnd).
  f_equal.
  - rewrite <- (bytes_at_permutation _ _ _ (rotated_atoms_permutation atoms delta Hnd)).
    assert (bytes_at table atoms = bytes_at table (map (fun i => default 0 (atoms !! i)) (seq 0 (length atoms))))
      as -> by (by rewrite positions_of).
    rewrite !bytes_at_map.
    assert (forall i, i ∈ seq 0 (length atoms) ->
      rotated_table table atoms delta !! rotated_atom atoms delta i = table !! default 0 (atoms !! i)) as He.
    { intros i Hi%elem_of_seq. destruct (lookup_lt_is_Some_2 atoms i) as [a Ha]; [lia|].
      rewrite Ha. apply rotated_table_at; [done..|].
      rewrite Forall_forall in Hall. apply Hall. by eapply list_elem_of_lookup_2. }
    revert He. induction (seq 0 (length atoms)) as [|i l IH]; intros He; simpl; [done|].
    rewrite IH by set_solver. by rewrite He by set_solver.
  - f_equal. apply map_eq. intros k. rewrite !lookup_foldl_delete. case_bool_decide; [done|].
    by apply rotated_table_other.
Qed.

(** Every value a rotation leaves was there before. *)
Lemma rotated_table_limited table atoms delta :
  NoDup atoms -> Forall (fun a => is_Some (table !! a)) atoms ->
  table_limited table -> table_limited (rotated_table table atoms delta).
Proof.
  intros Hnd Hall Hl k v Hk. destruct (decide (k ∈ atoms)) as [Hin|Hni].
  2: { rewrite rotated_table_other in Hk by done. by apply (Hl k). }
  rewrite <- (rotated_atoms_permutation atoms delta Hnd) in Hin.
  apply list_elem_of_fmap in Hin as (i & -> & Hi%elem_of_seq).
  destruct (lookup_lt_is_Some_2 atoms i) as [a Ha]; [lia|].
  assert (is_Some (table !! a)) as Hs.
  { rewrite Forall_forall in Hall. apply Hall. by eapply list_elem_of_lookup_2. }
  rewrite (rotated_table_at table atoms delta i a) in Hk by done. by apply (Hl a).
Qed.

Lemma rotate_properties_spec s mem window atoms delta candidate s' delivery :
  properties_ok s -> windows s !! window = Some candidate ->
  rotate_properties s mem window atoms delta = (s', delivery) ->
  sink_ok (queues s') /\
  if (delta mod length atoms =? 0)%nat then s' = s /\ delivery = no_recipient
  else match delivery with
  | queue_full => s' = s <| queues := queues s' |> /\ sink_same (queues s') (queues s)
  | _ =>
      s' = (set_window_properties s window candidate
              (rotated_table (properties candidate) atoms (delta mod length atoms)))
             <| queues := queues s' |> /\
      let events := property_notifications (current_time s) candidate atoms 0 in
      sink_extends (queues s) (queues s') events /\ (delivery = no_recipient <-> events = [])
  end.
Proof.
  intros Hok Hw. unfold rotate_properties. rewrite Hw.
  case_bool_decide as He.
  { subst atoms. intros [= <- <-]. split; [apply Hok|].
    destruct (delta mod _ =? 0)%nat; [done|].
    change (rotated_table _ [] _) with (properties candidate).
    rewrite set_window_properties_id by done. split; [by destruct s|].
    split; [by apply sink_extends_nil|done]. }
  destruct (Nat.eqb_spec (delta mod length atoms) 0) as [Hd|Hd].
  { intros [= <- <-]. split; [apply Hok|done]. }
  destruct (store_fails mem).
  { intros [= <- <-]. split_and!; [apply Hok|by destruct s|done]. }
  destruct (queue_property_notifications _ _ _ _ _) as [s2 d] eqn:Hqn.
  apply queue_property_notifications_spec in Hqn as (Hs2 & Hq2 & Hdel & Hnone); [|apply Hok].
  set (q2 := queues s2) in *. clearbody q2. subst s2. unfold rotated_table.
  destruct (take_values _ _) as [table values]. by destruct d; intros [= <- <-].
Qed.

Lemma rotate_properties_ok s mem window atoms delta s' delivery :
  properties_ok s ->
  (forall candidate, windows s !! window = Some candidate ->
     NoDup atoms /\ Forall (fun a => is_Some (properties candidate !! a)) atoms) ->
  rotate_properties s mem window atoms delta = (s', delivery) -> properties_ok s'.
Proof.
  intros Hok Hguard Heq. destruct (windows s !! window) as [candidate|] eqn:Hw.
  2: { unfold rotate_properties in Heq. rewrite Hw in Heq. by injection Heq as <- _. }
  destruct (Hguard candidate eq_refl) as [Hnd Hall].
  destruct (rotate_properties_spec _ _ _ _ _ _ _ _ Hok Hw Heq) as [Hq Hd].
  assert (forall n q, sink_ok q -> properties_ok ((set_window_properties s window candidate
    (rotated_table (properties candidate) atoms n)) <| queues := q |>)) as Hrot.
  { intros n q Hq'. pose proof (properties_ok_set s window candidate
      (rotated_table (properties candidate) atoms n) (property_bytes s) q Hok Hw) as Hset.
    apply Hset; [|done| |apply Hok].
    - apply rotated_table_limited; [done..|]. by apply (ok_windows_limited s Hok window).
    - rewrite rotated_table_bytes by done. lia. }
  destruct (_ =? _)%nat; [by destruct Hd as [-> _]|].
  destruct delivery.
  - destruct Hd as (-> & _). by apply Hrot.
  - destruct Hd as (-> & _). by apply Hrot.
  - destruct Hd as [-> _]. by apply properties_ok_queues.
Qed.

(** ** Releasing a window *)

Lemma release_fold (l : list (Z * PropertyValue)) : forall bytes,
  let total := foldr (fun entry total => property_size entry.2 + total) 0 l in
  total <= bytes < 2 ^ 64 ->
  foldl (fun bytes entry => u64 (bytes - property_size entry.2)) bytes l = bytes - total.
Proof.
  induction l as [|e l IH]; intros bytes; cbv zeta; simpl; intros Hb; [lia|].
  assert (0 <= foldr (fun entry total => property_size entry.2 + total) 0 l).
  { clear. induction l as [|e l IH]; simpl; [done|]. pose proof (property_size_nonneg e.2). lia. }
  pose proof (property_size_nonneg e.2).
  rewrite wrap_id by (unfold is_unsigned; lia). rewrite IH by lia. lia.
Qed.

Lemma table_bytes_list table :
  foldr (fun entry total => property_size entry.2 + total) 0 (map_to_list table) = table_bytes table.
Proof.
  unfold table_bytes, map_sum. rewrite map_fold_foldr.
  induction (map_to_list table) as [|[k v] l IH]; simpl; [done|]. by rewrite IH.
Qed.

Lemma release_window_spec s window candidate :
  properties_ok s -> windows s !! window = Some candidate ->
  release_window s window =
    s <| property_bytes := property_bytes s - table_bytes (properties candidate) |>
      <| windows := delete window (windows s) |>.
Proof.
  intros Hok Hw. unfold release_window. rewrite Hw.
  pose proof (total_bytes_parts s window candidate Hw). pose proof (ok_server_limit s Hok) as Hmax.
  unfold maximum_server_property_bytes in Hmax. rewrite <- (ok_accounted s Hok) in *.
  rewrite release_fold; rewrite table_bytes_list; [done|lia].
Qed.

Lemma release_window_ok s window : properties_ok s -> properties_ok (release_window s window).
Proof.
  intros Hok. destruct (windows s !! window) as [candidate|] eqn:Hw.
  2: { unfold release_window. by rewrite Hw. }
  rewrite (release_window_spec s window candidate) by done.
  pose proof (total_bytes_parts s window candidate Hw). destruct Hok. split; simpl; try done.
  - unfold total_bytes, windows_bytes in *. simpl. rewrite map_sum_delete, Hw. simpl. lia.
  - lia.
  - by apply map_Forall_delete.
Qed.

(** ** Device properties *)

Lemma plan_xi2_step device event events selection :
  NoDup (map fst events) -> NoDup (map fst (plan_xi2 device event events selection)).
Proof.
  intros Hnd. unfold plan_xi2. destruct (negb _); [done|]. destruct (existsb _ events) eqn:E; [done|].
  rewrite map_app. apply NoDup_app. split_and!; [done| |apply NoDup_singleton].
  intros o Ho Hs. apply list_elem_of_singleton in Hs. simpl in Hs.
  apply not_true_iff_false in E. apply E, existsb_exists.
  apply list_elem_of_fmap in Ho as (e & He & Hin). exists e. split; [by apply list_elem_of_In|].
  apply Z.eqb_eq. congruence.
Qed.

(** Whether a client selected the property events of the device. *)
Definition wants_xi2 (device : Z) (selections : list Xi2EventSelection) (client : Z) : Prop :=
  exists selection, selection ∈ selections /\ selection_owner selection = client /\
    xi2_mask_selected selection device 12 = true.

(** The plan holds one copy of the event for each client that selected it. *)
Lemma plan_xi2_spec device event selections :
  let events := foldl (plan_xi2 device event) [] selections in
  NoDup (map fst events) /\ Forall (fun planned => planned.2 = event) events /\
  forall client, client ∈ map fst events <-> wants_xi2 device selections client.
Proof.
  cbv zeta. induction selections as [|s l IH] using rev_ind; simpl.
  { split_and!; [constructor|constructor|]. intros c. split; [by intros ?%elem_of_nil|].
    by intros (? & ?%elem_of_nil & _). }
  rewrite foldl_app. simpl. set (events := foldl _ [] l) in *.
  destruct IH as (Hnd & Hev & Hc). split_and!.
  - by apply plan_xi2_step.
  - unfold plan_xi2. destruct (negb _); [done|]. destruct (existsb _ events); [done|].
    apply Forall_app. split; [done|]. by apply Forall_singleton.
  - intros c. unfold wants_xi2. setoid_rewrite elem_of_app. setoid_rewrite list_elem_of_singleton.
    transitivity (wants_xi2 device l c \/ (selection_owner s = c /\ xi2_mask_selected s device 12 = true)).
    2: { unfold wants_xi2. naive_solver. }
    rewrite <- Hc. unfold plan_xi2. destruct (xi2_mask_selected s device 12) eqn:Hm; simpl; [|naive_solver].
    destruct (existsb _ events) eqn:E.
    + apply existsb_exists in E as (e & Hin & He%Z.eqb_eq). split; [tauto|]. intros [|[<- _]]; [done|].
      rewrite <- He. apply list_elem_of_fmap_2, list_elem_of_In, Hin.
    + rewrite map_app, elem_of_app. simpl. rewrite list_elem_of_singleton. naive_solver.
Qed.

Definition is_master_device (device : Z) : Prop :=
  device = xi2_pointer_device_id \/ device = xi2_keyboard_device_id.

Lemma device_table s device :
  properties_ok s -> is_master_device device ->
  exists table, xi2_properties_ s !! device_index device = Some table /\ xi2_properties s device = table.
Proof.
  intros Hok Hd. pose proof (ok_devices s Hok) as Hl. unfold xi2_properties.
  destruct (xi2_properties_ s) as [|t0 [|t1 []]]; try done.
  by destruct Hd as [-> | ->]; eexists.
Qed.

(** Replacing the properties of one device and the counter accordingly. *)
Lemma properties_ok_device s i old table bytes q :
  properties_ok s -> xi2_properties_ s !! i = Some old -> table_limited table -> sink_ok q ->
  Z.of_nat (size table) <= maximum_xi2_properties_per_device ->
  bytes = property_bytes s - table_bytes old + table_bytes table ->
  bytes <= maximum_server_property_bytes ->
  properties_ok (s <| queues := q |> <| xi2_properties_ := <[i := table]> (xi2_properties_ s) |>
    <| property_bytes := bytes |>).
Proof.
  intros [Ha Hl Hw Hd Hdl Hq] Ho Ht Hq' Hsz Hb Hmax. split; simpl; try done.
  - unfold total_bytes in *. simpl. rewrite (devices_bytes_insert _ _ _ _ Ho). lia.
  - by rewrite length_insert.
  - by apply Forall_insert.
Qed.

Lemma device_bytes_bounds s i table property :
  properties_ok s -> xi2_properties_ s !! i = Some table ->
  0 <= found_size (table !! property) <= property_bytes s.
Proof.
  intros Hok Hi. pose proof (found_size_bounds table property).
  pose proof (devices_bytes_part _ _ _ Hi). pose proof (windows_bytes_nonneg (windows s)).
  rewrite (ok_accounted s Hok). unfold total_bytes. lia.
Qed.

Lemma set_xi2_property_spec s mem device property value s' update :
  properties_ok s -> is_master_device device ->
  set_xi2_property s mem device property value = (s', update) ->
  let found := xi2_properties s device !! property in
  properties_ok s' /\
  match update with
  | xi2_updated =>
      s' = s <| queues := queues s' |>
             <| xi2_properties_ := <[device_index device := <[property := value]>
                  (xi2_properties s device)]> (xi2_properties_ s) |>
             <| property_bytes := property_bytes s - found_size found + property_size value |> /\
      sink_extends (queues s) (queues s')
        (xi2_notifications s device property (if bool_decide (found = None) then 1 else 2))
  | _ => s' = s <| queues := queues s' |> /\ sink_same (queues s') (queues s)
  end.
Proof.
  intros Hok Hdev. destruct (device_table s device Hok Hdev) as (table & Hi & Ht). rewrite Ht.
  unfold set_xi2_property. rewrite Hi. cbv zeta. simpl default.
  assert (s = s <| queues := queues s |>) as Heta by (by destruct s).
  assert (sink_same (queues s) (queues s)) as Hsame by reflexivity.
  pose proof (device_bytes_bounds s _ _ property Hok Hi) as Hb.
  pose proof (ok_server_limit s Hok) as Hmax. pose proof (property_size_nonneg value) as Hnew.
  destruct (bool_decide (table !! property = None) && _) eqn:Hcount; [by intros [= <- <-]|].
  destruct (Z.gtb_spec (property_size value) maximum_property_bytes) as [|Hsz]; [by intros [= <- <-]|].
  set (old := found_size (table !! property)) in *.
  destruct (bytes_exact (property_bytes s) old (property_size value)) as (H1 & H2 & H3 & _); [lia..|].
  rewrite H1, H2. simpl orb. destruct (Z.gtb_spec (property_bytes s - old)
    (maximum_server_property_bytes - property_size value)) as [|Hroom]; [by intros [= <- <-]|].
  destruct (_ || _); [by intros [= <- <-]|].
  destruct (sink_batch _ _ _) as [q ok] eqn:Hbatch.
  apply sink_batch_spec in Hbatch as [Hq Hbatch]; [|apply Hok].
  destruct ok; intros [= <- <-]; simpl.
  2: { split_and!; [by apply properties_ok_queues|done|done]. }
  rewrite H3. split_and!; [|done|done].
  pose proof (ok_devices_limited s Hok) as Hall. rewrite Forall_lookup in Hall.
  destruct (Hall _ _ Hi) as [Hl Hn].
  apply (properties_ok_device s _ table); try done.
  - by apply table_limited_insert.
  - destruct (table !! property) eqn:E; simpl in Hcount.
    + by rewrite map_size_insert_Some by eauto.
    + rewrite map_size_insert_None by done. lia.
  - rewrite table_bytes_insert. fold old. lia.
  - lia.
Qed.

Lemma delete_xi2_property_spec s mem device property s' update :
  properties_ok s -> is_master_device device ->
  delete_xi2_property s mem device property = (s', update) ->
  let found := xi2_properties s device !! property in
  properties_ok s' /\
  match update with
  | xi2_updated =>
      xi2_properties s' device = delete property (xi2_properties s device) /\
      property_bytes s' = property_bytes s - found_size found /\
      sink_extends (queues s) (queues s')
        (if bool_decide (found = None) then [] else xi2_notifications s device property 0)
  | _ => s' = s <| queues := queues s' |> /\ sink_same (queues s') (queues s)
  end.
Proof.
  intros Hok Hdev. destruct (device_table s device Hok Hdev) as (table & Hi & Ht). rewrite Ht.
  unfold delete_xi2_property. rewrite Hi. cbv zeta. simpl default.
  assert (s = s <| queues := queues s |>) as Heta by (by destruct s).
  assert (sink_same (queues s) (queues s)) as Hsame by reflexivity.
  pose proof (device_bytes_bounds s _ _ property Hok Hi) as Hb.
  pose proof (ok_server_limit s Hok) as Hmax.
  destruct (table !! property) as [found|] eqn:Hf; simpl in Hb |- *.
  2: { intros [= <- <-]. rewrite Ht. split_and!; [done|by rewrite delete_id|lia|by apply sink_extends_nil]. }
  destruct (plan_fails mem); [by intros [= <- <-]|].
  destruct (sink_batch _ _ _) as [q ok] eqn:Hbatch.
  apply sink_batch_spec in Hbatch as [Hq Hbatch]; [|apply Hok].
  destruct ok; intros [= <- <-]; simpl.
  2: { split_and!; [by apply properties_ok_queues|done|done]. }
  unfold maximum_server_property_bytes in Hmax.
  rewrite wrap_id by (unfold is_unsigned; lia). split_and!; [|..|done|done].
  - pose proof (ok_devices_limited s Hok) as Hall. rewrite Forall_lookup in Hall.
    destruct (Hall _ _ Hi) as [Hl Hn].
    pose proof (properties_ok_device s _ table (delete property table)
      (property_bytes s - property_size found) q Hok Hi) as Hset. apply Hset; [|done| | |].
    + by apply table_limited_delete.
    + rewrite map_size_delete_Some by eauto. lia.
    + rewrite table_bytes_delete, Hf. simpl. lia.
    + unfold maximum_server_property_bytes. pose proof (property_size_nonneg found). lia.
  - unfold xi2_properties. simpl. rewrite list_lookup_insert_eq by (by eapply lookup_lt_Some).
    by destruct Hdev as [-> | ->].
Qed.

(** ** Reachable states

    The calls the server makes, with the checks [Connection] makes before
    them; the last three rules stand for the rest of the server, which opens
    windows without properties and changes the other fields. *)
Inductive property_step : relation PropertyState :=
| step_set s mem window property value :
    property_step s (set_property s mem window property value).1
| step_delete s mem window property :
    property_step s (delete_property s mem window property).1
| step_rotate s mem window atoms delta :
    (forall candidate, windows s !! window = Some candidate ->
      NoDup atoms /\ Forall (fun a => is_Some (properties candidate !! a)) atoms) ->
    property_step s (rotate_properties s mem window atoms delta).1
| step_release s window : property_step s (release_window s window)
| step_set_xi2 s mem device property value :
    is_master_device device ->
    property_step s (set_xi2_property s mem device property value).1
| step_delete_xi2 s mem device property :
    is_master_device device ->
    property_step s (delete_xi2_property s mem device property).1
| step_open s window w :
    windows s !! window = None -> properties w = ∅ ->
    property_step s (s <| windows := <[window := w]> (windows s) |>)
| step_window s window w w' :
    windows s !! window = Some w -> properties w' = properties w ->
    property_step s (s <| windows := <[window := w']> (windows s) |>)
| step_rest s q selections time :
    sink_ok q ->
    property_step s (s <| queues := q |> <| xi2_selections := selections |>
      <| current_time := time |>).

Definition initial_properties (root : WindowRecord) (q : Q) (time : Z) : PropertyState :=
  mkPropertyState {[root_window_id := root]} [∅; ∅] [] 0 q time.

Lemma initial_properties_ok root q time :
  properties root = ∅ -> sink_ok q -> properties_ok (initial_properties root q time).
Proof.
  intros Hr Hq. split; simpl; try done.
  - unfold total_bytes, windows_bytes, initial_properties. simpl.
    rewrite <- insert_empty, map_sum_insert_fresh, Hr by done. done.
  - apply map_Forall_singleton. by rewrite Hr.
  - by repeat constructor.
Qed.

Lemma property_step_ok s s' : properties_ok s -> property_step s s' -> properties_ok s'.
Proof.
  intros Hok Hs. inversion Hs as [? mem w p v|? mem w p|? mem w atoms d Hg|? w|? mem d p v Hd|? mem d p Hd
    |? i w Hi Hp|? i w w' Hi Hp|? q sel t Hq]; subst.
  - eapply set_property_ok; [done|apply surjective_pairing].
  - eapply delete_property_ok; [done|apply surjective_pairing].
  - eapply rotate_properties_ok; [done..|apply surjective_pairing].
  - by apply release_window_ok.
  - destruct (set_xi2_property_spec s mem d p v _ _ Hok Hd (surjective_pairing _)). done.
  - destruct (delete_xi2_property_spec s mem d p _ _ Hok Hd (surjective_pairing _)). done.
  - destruct Hok. split; simpl; try done.
    + unfold total_bytes, windows_bytes in *. simpl. rewrite map_sum_insert_fresh, Hp by done.
      change (table_bytes ∅) with 0. lia.
    + apply map_Forall_insert_2; [by rewrite Hp|done].
  - destruct Hok as [Ha ? Hl]. split; simpl; try done.
    + unfold total_bytes, windows_bytes in *. simpl. rewrite map_sum_insert, Hi, Hp. simpl. lia.
    + apply map_Forall_insert_2; [|done]. rewrite Hp. by apply (Hl i).
  - destruct Hok. by split.
Qed.

(** C33: whatever sequence of property operations the server goes through,
    with whatever allocation failures, [property_bytes_] is exactly the number
    of bytes stored in all window and device properties, it never exceeds the
    server limit, and no single property exceeds its own limit. *)
Theorem property_accounting root q time s :
  properties root = ∅ -> sink_ok q ->
  rtc property_step (initial_properties root q time) s ->
  property_bytes s = total_bytes s /\ total_bytes s <= maximum_server_property_bytes /\
  forall window w atom value, windows s !! window = Some w -> properties w !! atom = Some value ->
    property_size value <= maximum_property_bytes.
Proof.
  intros Hr Hq Hs. assert (properties_ok s) as Hok.
  { pose proof (initial_properties_ok root q time Hr Hq) as Hinit.
    induction Hs as [|s1 s2 s3 Hs _ IH]; [done|]. apply IH. by apply (property_step_ok s1). }
  split_and!.
  - apply Hok.
  - rewrite <- (ok_accounted s Hok). apply Hok.
  - intros window w atom value Hw Hv. by apply (ok_windows_limited s Hok window w Hw atom).
Qed.

(** ** The operations as transactions *)

(** What [GetProperty] sees. *)
Definition window_property (s : PropertyState) (window atom : Z) : option PropertyValue :=
  match windows s !! window with
  | None => None
  | Some w => properties w !! atom
  end.

(** Nothing but the representation of the queues changed. *)
Definition untouched (s s' : PropertyState) : Prop :=
  s' = s <| queues := queues s' |> /\ sink_same (queues s') (queues s).

Lemma window_property_set s window candidate table bytes q w atom :
  window_property ((set_window_properties s window candidate table) <| property_bytes := bytes |>
    <| queues := q |>) w atom =
  if w =? window then table !! atom else window_property s w atom.
Proof.
  unfold window_property, set_window_properties. simpl. destruct (Z.eqb_spec w window) as [->|].
  - by rewrite lookup_insert_eq.
  - by rewrite lookup_insert_ne.
Qed.

(** C34: setting a property is a transaction: either it is refused and nothing
    at all has changed, the earlier value, the byte counter and the event
    queues included, or exactly that property has the new value and every
    client that selected property changes is sent one notification; it is
    always refused when a limit would be exceeded. *)
Theorem set_property_transaction s mem window property value candidate s' delivery :
  properties_ok s -> windows s !! window = Some candidate ->
  set_property s mem window property value = (s', delivery) ->
  if decide (delivery = queue_full) then untouched s s'
  else
    property_size value <= maximum_property_bytes /\
    total_bytes s - found_size (window_property s window property) + property_size value
      <= maximum_server_property_bytes /\
    (forall w atom, window_property s' w atom =
       if (w =? window) && (atom =? property) then Some value else window_property s w atom) /\
    sink_extends (queues s) (queues s')
      (map (fun client => (client, PropertyNotify
              (mkPropertyNotify 0 (id candidate) property (current_time s) 0)))
         (notified_clients candidate)) /\
    (delivery = no_recipient <-> notified_clients candidate = []).
Proof.
  intros Hok Hw Heq. pose proof (ok_accounted s Hok) as Ha.
  destruct (set_property_spec _ _ _ _ _ _ _ _ Hok Hw Heq) as [Hd _].
  destruct (decide (delivery = queue_full)) as [->|Hne]; [exact Hd|].
  assert (forall l : list Z, map (fun client => (client, PropertyNotify
    (mkPropertyNotify 0 (id candidate) property (current_time s) 0))) l = [] <-> l = []) as Hnil
    by (by intros []).
  destruct delivery; [..|done]; destruct Hd as (Hsz & Hs' & Hmax & Hev & Hno); rewrite Hs' in Hmax;
    simpl in Hmax; unfold property_notifications in Hev, Hno; simpl in Hev, Hno; rewrite app_nil_r in Hev, Hno;
    (split; [done|split; [unfold window_property; rewrite Hw; lia|
      split; [|split; [done|by rewrite Hno, Hnil]]]]).
  all: intros w atom; rewrite Hs'; unfold property_set; rewrite window_property_set.
  all: destruct (Z.eqb_spec w window) as [->|]; simpl; [|done].
  all: destruct (Z.eqb_spec atom property) as [->|]; [by rewrite lookup_insert_eq|].
  all: rewrite lookup_insert_ne by done; unfold window_property; by rewrite Hw.
Qed.

(** C35: rotating a list of distinct, existing properties moves the value of
    every property [delta] places along the list, around its end, changes no
    other property and no byte count, and sends every interested client one
    notification per property of the list in order; when the notifications
    cannot be queued nothing has changed. *)
Theorem rotate_properties_correct s mem window atoms delta candidate s' delivery :
  properties_ok s -> windows s !! window = Some candidate ->
  NoDup atoms -> Forall (fun a => is_Some (window_property s window a)) atoms ->
  (delta mod length atoms <> 0)%nat ->
  rotate_properties s mem window atoms delta = (s', delivery) ->
  if decide (delivery = queue_full) then untouched s s'
  else
    (forall i a, atoms !! i = Some a ->
       exists b, atoms !! ((i + delta) mod length atoms)%nat = Some b /\
         window_property s' window b = window_property s window a) /\
    (forall w atom, w <> window \/ atom ∉ atoms -> window_property s' w atom = window_property s w atom) /\
    total_bytes s' = total_bytes s /\ property_bytes s' = property_bytes s /\
    sink_extends (queues s) (queues s') (property_notifications (current_time s) candidate atoms 0).
Proof.
  intros Hok Hw Hnd Hall Hdelta Heq.
  assert (Forall (fun a => is_Some (properties candidate !! a)) atoms) as Hall'.
  { unfold window_property in Hall. by rewrite Hw in Hall. }
  destruct (rotate_properties_spec _ _ _ _ _ _ _ _ Hok Hw Heq) as [_ Hd].
  rewrite (proj2 (Nat.eqb_neq _ _) Hdelta) in Hd.
  destruct (decide (delivery = queue_full)) as [->|Hne]; [exact Hd|].
  set (table := rotated_table (properties candidate) atoms (delta mod length atoms)) in Hd.
  assert (s' = (set_window_properties s window candidate table) <| queues := queues s' |> /\
    sink_extends (queues s) (queues s') (property_notifications (current_time s) candidate atoms 0))
    as [Hs' Hev] by (destruct delivery; [..|done]; by destruct Hd as (? & ? & _)).
  assert (forall w atom, window_property s' w atom =
    if w =? window then table !! atom else window_property s w atom) as Hwp.
  { intros w atom. rewrite Hs'. apply (window_property_set s window candidate table (property_bytes s)). }
  split_and!; [| | | |done].
  - intros i a Hi. destruct (lookup_lt_is_Some_2 atoms ((i + delta) mod length atoms)) as [b Hb].
    { apply Nat.mod_upper_bound. intros He. apply length_zero_iff_nil in He. by subst atoms. }
    exists b. split; [done|]. rewrite Hwp, Z.eqb_refl. unfold window_property. rewrite Hw.
    assert (rotated_atom atoms (delta mod length atoms) i = b) as <-.
    { unfold rotated_atom. rewrite Nat.Div0.add_mod_idemp_r. by rewrite Hb. }
    apply rotated_table_at; [done..|]. rewrite Forall_forall in Hall'. apply Hall'.
    by eapply list_elem_of_lookup_2.
  - intros w atom Hor. rewrite Hwp. destruct (Z.eqb_spec w window) as [->|]; [|done].
    destruct Hor as [|Hni]; [done|]. unfold table. rewrite rotated_table_other by done.
    unfold window_property. by rewrite Hw.
  - rewrite Hs'. pose proof (total_bytes_set s window candidate table Hw) as Ht.
    change (total_bytes (set_window_properties s window candidate table) = total_bytes s).
    rewrite Ht. unfold table. rewrite rotated_table_bytes by done. lia.
  - by rewrite Hs'.
Qed.

(** C36: changing a device property is a transaction too, and every client
    that selected property events of the device, in however many windows, is
    sent exactly one event. *)
Theorem set_xi2_property_correct s mem device property value s' update :
  properties_ok s -> is_master_device device ->
  set_xi2_property s mem device property value = (s', update) ->
  match update with
  | xi2_updated =>
      (forall d atom, is_master_device d -> xi2_properties s' d !! atom =
         if (d =? device) && (atom =? property) then Some value else xi2_properties s d !! atom) /\
      exists clients, NoDup clients /\
        (forall client, client ∈ clients <-> wants_xi2 device (xi2_selections s) client) /\
        sink_extends (queues s) (queues s') (map (fun client => (client, Xi2Property
          (mkXi2Property device (current_time s) property
             (if bool_decide (xi2_properties s device !! property = None) then 1 else 2) 0))) clients)
  | _ => untouched s s'
  end.
Proof.
  intros Hok Hdev Heq. destruct (set_xi2_property_spec _ _ _ _ _ _ _ Hok Hdev Heq) as [_ Hu].
  destruct update; [|exact Hu|exact Hu]. destruct Hu as [Hs' Hev]. split.
  - intros d atom Hd. rewrite Hs'.
    destruct (device_table s d Hok Hd) as (td & Hid & Htd).
    destruct (device_table s device Hok Hdev) as (t & Hi & Ht).
    assert (forall i, xi2_properties (s <| queues := queues s' |> <| xi2_properties_ := i |> <| property_bytes :=
      property_bytes s - found_size (xi2_properties s device !! property) + property_size value |>) d =
      default ∅ (i !! device_index d)) as -> by (intros; by destruct Hd as [-> | ->]).
    destruct (Z.eqb_spec d device) as [->|Hne]; simpl.
    + rewrite list_lookup_insert_eq by (by eapply lookup_lt_Some). simpl.
      destruct (Z.eqb_spec atom property) as [->|]; [by rewrite lookup_insert_eq|].
      by rewrite lookup_insert_ne.
    + rewrite list_lookup_insert_ne, Hid; [by rewrite Htd|].
      destruct Hd as [-> | ->], Hdev as [-> | ->]; done.
  - unfold xi2_notifications in Hev.
    match type of Hev with context [foldl (plan_xi2 device ?e) [] _] => set (event := e) in * end.
    destruct (plan_xi2_spec device event (xi2_selections s)) as (Hnd & Hall & Hc).
    set (events := foldl _ _ _) in *. exists (map fst events). split_and!; [done..|].
    rewrite map_map.
    assert (map (fun planned => (planned.1, event)) events = events) as ->; [|done].
    clear -Hall. induction Hall as [|[c e] l He _ IH]; simpl in *; [done|]. by rewrite He, IH.
Qed.
End Properties.

Arguments PropertyState Q : clear implicits.

(** ** Examples *)

Definition sample_property : PropertyValue := mkProperty 31 8 [104; 105].

(** A window that client 5 watches. *)
Definition sample_property_window : WindowRecord :=
  (sample_window 1000 0x100 [] 10 10 100 100)
    <| event_masks := {[5 := property_change_mask]} |>.

Definition opened_properties : PropertyState EventQueues :=
  (initial_properties (sample_window 0x100 0 [1000] 0 0 640 480) initial_queues 7)
    <| windows := {[root_window_id := sample_window 0x100 0 [1000] 0 0 640 480;
                    1000 := sample_property_window]} |>
    <| xi2_selections := [mkXi2Selection 5 1000 [mkXi2Mask 0 [4096]];
                          mkXi2Selection 5 0x100 [mkXi2Mask 2 [4096]]] |>.

(** The same window with two properties. *)
Definition sample_properties : PropertyState EventQueues :=
  (set_property (set_property opened_properties ample_memory 1000 40 sample_property).1
     ample_memory 1000 41 (mkProperty 31 8 [98; 121; 101])).1.

Lemma sample_properties_reached :
  rtc property_step (initial_properties (sample_window 0x100 0 [1000] 0 0 640 480) initial_queues 7)
    sample_properties.
Proof.
  set (s0 := initial_properties _ _ _).
  transitivity (s0 <| windows := <[1000 := sample_property_window]> (windows s0) |>).
  { by apply rtc_once, step_open. }
  transitivity opened_properties.
  { apply rtc_once. refine (step_rest _ initial_queues (xi2_selections opened_properties) 7 _).
    apply initial_queues_ok. }
  eapply rtc_l; [apply (step_set opened_properties ample_memory 1000 40 sample_property)|].
  apply rtc_once, step_set.
Qed.

Lemma sample_properties_ok : properties_ok sample_properties.
Proof.
  pose proof sample_properties_reached as Hr.
  pose proof (initial_properties_ok (sample_window 0x100 0 [1000] 0 0 640 480) initial_queues 7
    eq_refl initial_queues_ok) as Hok.
  induction Hr as [|s1 s2 s3 Hs _ IH]; [done|]. apply IH. by apply (property_step_ok s1).
Qed.

Lemma property_accounting_witness :
  property_bytes sample_properties = 5 /\ total_bytes sample_properties = 5.
Proof.
  assert (property_bytes sample_properties = 5) as Hb by (vm_compute; reflexivity).
  split; [exact Hb|].
  pose proof (property_accounting (sample_window 0x100 0 [1000] 0 0 640 480) initial_queues 7
    sample_properties eq_refl initial_queues_ok sample_properties_reached) as [Ha _].
  rewrite <- Ha. exact Hb.
Defined.

(** Replacing the first property, and the same without memory for the
    event. *)
Lemma set_property_transaction_witness :
  let s := sample_properties in
  let value := mkProperty 31 8 [106] in
  window_property (set_property s ample_memory 1000 40 value).1 1000 40 = Some value /\
  untouched s (set_property s (mkMemory false false (fun _ => event_alloc_fails)) 1000 40 value).1.
Proof.
  cbv zeta. split.
  - destruct (windows sample_properties !! 1000) as [w|] eqn:Hw; [|vm_compute in Hw; discriminate Hw].
    pose proof (set_property_transaction sample_properties ample_memory 1000 40 (mkProperty 31 8 [106])
      w _ _ sample_properties_ok Hw (surjective_pairing _)) as Ht.
    assert ((set_property sample_properties ample_memory 1000 40 (mkProperty 31 8 [106])).2 = delivered)
      as He by (vm_compute; reflexivity).
    rewrite He in Ht. destruct Ht as (_ & _ & Ht & _). apply (Ht 1000 40).
  - destruct (windows sample_properties !! 1000) as [w|] eqn:Hw; [|vm_compute in Hw; discriminate Hw].
    pose proof (set_property_transaction sample_properties (mkMemory false false (fun _ => event_alloc_fails))
      1000 40 (mkProperty 31 8 [106]) w _ _ sample_properties_ok Hw (surjective_pairing _)) as Ht.
    assert ((set_property sample_properties (mkMemory false false (fun _ => event_alloc_fails)) 1000 40
      (mkProperty 31 8 [106])).2 = queue_full) as He by (vm_compute; reflexivity).
    rewrite He in Ht. exact Ht.
Defined.

(** Rotating the two properties by one exchanges them. *)
Lemma rotate_properties_correct_witness :
  let s' := (rotate_properties sample_properties ample_memory 1000 [40; 41] 1).1 in
  window_property s' 1000 41 = Some sample_property /\ total_bytes s' = total_bytes sample_properties.
Proof.
  cbv zeta.
  destruct (windows sample_properties !! 1000) as [w|] eqn:Hw; [|vm_compute in Hw; discriminate Hw].
  assert ((rotate_properties sample_properties ample_memory 1000 [40; 41] 1).2 = delivered)
    as He by (vm_compute; reflexivity).
  assert (Forall (fun a => is_Some (window_property sample_properties 1000 a)) [40; 41]) as Hall.
  { apply Forall_cons. split; [|apply Forall_singleton]; vm_compute; eauto. }
  assert (NoDup [40; 41]) as Hnd by by_computation.
  pose proof (rotate_properties_correct sample_properties ample_memory 1000 [40; 41] 1 w _ _
    sample_properties_ok Hw Hnd Hall ltac:(discriminate) (surjective_pairing _)) as Ht.
  rewrite He in Ht. destruct Ht as (Hrot & _ & Htot & _). split; [|exact Htot].
  destruct (Hrot 0%nat 40 eq_refl) as (b & Hb & Hv). vm_compute in Hb. injection Hb as <-.
  rewrite Hv. vm_compute. reflexivity.
Defined.

(** Client 5, which selected the events twice, gets one. *)
Lemma set_xi2_property_correct_witness :
  let s' := (set_xi2_property sample_properties ample_memory 2 60 sample_property).1 in
  xi2_properties s' 2 !! 60 = Some sample_property /\
  zlen (sink_queue (queues s') 5) = zlen (sink_queue (queues sample_properties) 5) + 1.
Proof.
  cbv zeta.
  assert ((set_xi2_property sample_properties ample_memory 2 60 sample_property).2 = xi2_updated)
    as He by (vm_compute; reflexivity).
  pose proof (set_xi2_property_correct sample_properties ample_memory 2 60 sample_property _ _
    sample_properties_ok (or_introl eq_refl) (surjective_pairing _)) as Ht.
  rewrite He in Ht. destruct Ht as [Ht _]. split; [|vm_compute; reflexivity].
  rewrite (Ht 2 60 (or_introl eq_refl)). reflexivity.
Defined.
