(* ===== verification/Extensions.v ===== *)
(** * The extension registry

    Model of [src/src/server/include/xmin/server/extension_registry.hpp]: the
    table of extensions with their opcodes and event and error numbers, and
    the two lookups. *)
From stdpp Require Import strings.
From S2P Require Import Prelude.

Inductive ExtensionKind :=
  | big_requests | xc_misc | generic_event | xtest | shape | sync | render | xfixes | randr
  | damage | composite | present | xkb | xinput | shm | xinerama | screensaver | dbe | glx.

#[export] Instance ExtensionKind_eq_dec : EqDecision ExtensionKind.
Proof. solve_decision. Defined.

Record ExtensionInfo := mkExtension {
  name : string;
  major_opcode : Z;
  first_event : Z;
  first_error : Z;
  major_version : Z;
  minor_version : Z;
  kind : ExtensionKind
}.

Definition big_requests_extension := mkExtension "BIG-REQUESTS" 128 0 0 0 0 big_requests.
Definition xc_misc_extension := mkExtension "XC-MISC" 129 0 0 1 1 xc_misc.
Definition generic_event_extension :=
  mkExtension "Generic Event Extension" 130 0 0 1 0 generic_event.
Definition xtest_extension := mkExtension "XTEST" 131 0 0 2 2 xtest.
Definition shape_extension := mkExtension "SHAPE" 132 64 0 1 1 shape.
Definition sync_extension := mkExtension "SYNC" 133 65 128 3 1 sync.
Definition render_extension := mkExtension "RENDER" 134 0 131 0 11 render.
Definition xfixes_extension := mkExtension "XFIXES" 135 67 136 6 0 xfixes.
Definition randr_extension := mkExtension "RANDR" 136 69 138 1 6 randr.
Definition damage_extension := mkExtension "DAMAGE" 137 71 142 1 1 damage.
Definition composite_extension := mkExtension "Composite" 138 0 0 0 4 composite.
Definition present_extension := mkExtension "Present" 139 0 0 1 4 present.
Definition xkb_extension := mkExtension "XKEYBOARD" 140 72 143 1 0 xkb.
Definition xinput_extension := mkExtension "XInputExtension" 141 0 144 2 4 xinput.
Definition shm_extension := mkExtension "MIT-SHM" 142 73 149 1 2 shm.
Definition xinerama_extension := mkExtension "XINERAMA" 143 0 0 1 1 xinerama.
Definition screensaver_extension := mkExtension "MIT-SCREEN-SAVER" 144 74 0 1 1 screensaver.
Definition dbe_extension := mkExtension "DOUBLE-BUFFER" 145 0 150 1 0 dbe.
Definition glx_extension := mkExtension "GLX" 146 75 151 1 4 glx.

(** [have_mitshm] is the build's [XMIN_HAVE_MITSHM]. *)
Definition extension_registry (have_mitshm : bool) : list ExtensionInfo :=
  [big_requests_extension; xc_misc_extension; generic_event_extension; xtest_extension;
   shape_extension; sync_extension; render_extension; xfixes_extension; randr_extension;
   damage_extension; composite_extension; present_extension; xkb_extension; xinput_extension] ++
  (if have_mitshm then [shm_extension] else []) ++
  [xinerama_extension; screensaver_extension; dbe_extension; glx_extension].

Definition extension_by_name (have_mitshm : bool) (n : string) : option ExtensionInfo :=
  List.find (fun extension => bool_decide (name extension = n)) (extension_registry have_mitshm).

Definition extension_by_opcode (have_mitshm : bool) (opcode : Z) : option ExtensionInfo :=
  List.find (fun extension => major_opcode extension =? opcode) (extension_registry have_mitshm).

(** Both lookups find every registered extension, itself. *)
Lemma extension_lookups have_mitshm e :
  e ∈ extension_registry have_mitshm ->
  extension_by_name have_mitshm (name e) = Some e /\
  extension_by_opcode have_mitshm (major_opcode e) = Some e.
Proof.
  intros He. destruct have_mitshm; cbn in He;
    repeat (apply elem_of_cons in He as [->|He]; [by vm_compute|]); by apply elem_of_nil in He.
Qed.

Lemma extension_by_opcode_registered have_mitshm opcode e :
  extension_by_opcode have_mitshm opcode = Some e ->
  e ∈ extension_registry have_mitshm /\ major_opcode e = opcode.
Proof.
  intros [Hin Hop]%List.find_some. split; [by apply list_elem_of_In|]. by apply Z.eqb_eq.
Qed.
