(* ===== verification/Encode.v ===== *)
(** * Encoding of events

    [Connection::encode_event] of [src/src/server/connection.cpp]: the bytes a
    client receives for each event. Every branch is a sequence of
    [WireWriter] calls, here a list of fields; [encode_event] runs the writer
    over it. *)
From S2P Require Import Prelude.
From S2P Require Import Wire.
From S2P Require Import Events.
From S2P Require Import Windows.
From S2P Require Import Properties.
From S2P Require Extensions.

(** The parameter conversions of [WireWriter::u8], [u16], [i16], [u32] and
    [u64]. *)
Definition U8 (v : Z) : field := FU8 (u8 v).
Definition U16 (v : Z) : field := FU16 (u16 v).
Definition I16 (v : Z) : field := FU16 (u16 (i16 v)).
Definition U32 (v : Z) : field := FU32 (u32 v).
Definition U64 (v : Z) : field := FU64 (u64 v).
Definition Pad (n : Z) : field := FPad n.
Definition flag (b : bool) : field := U8 (if b then 1 else 0).

Definition sync_int64 (value : Z) : list field :=
  let bits := u64 value in [U32 (Z.shiftr bits 32); U32 bits].

(** ** Selections, messages and properties *)

Definition selection_clear_fields (e : SelectionClearEvent) : list field :=
  [U8 29; U8 0; U16 (sc_sequence e); U32 (sc_time e); U32 (sc_window e); U32 (sc_selection e); Pad 16].

Definition selection_request_fields (e : SelectionRequestEvent) : list field :=
  [U8 30; U8 0; U16 (sr_sequence e); U32 (sr_time e); U32 (sr_owner e); U32 (sr_requestor e);
   U32 (sr_selection e); U32 (sr_target e); U32 (sr_property e)].

Definition selection_notify_fields (e : SelectionNotifyEvent) : list field :=
  [U8 31; U8 0; U16 (sn_sequence e); U32 (sn_time e); U32 (sn_requestor e); U32 (sn_selection e);
   U32 (sn_target e); U32 (sn_property e); Pad 4].

(** [160 / format] items of the data array. *)
Definition client_message_fields (e : ClientMessageEvent) : list field :=
  let count := Z.to_nat (160 / cm_format e) in
  [U8 (Z.lor 33 0x80); U8 (cm_format e); U16 (cm_sequence e); U32 (cm_window e); U32 (cm_type e)] ++
  map (fun index =>
    let item := default 0 (cm_data e !! index) in
    if cm_format e =? 8 then U8 item else if cm_format e =? 16 then U16 item else U32 item)
    (seq 0 count).

Definition property_notify_fields (e : PropertyNotifyEvent) : list field :=
  [U8 28; U8 0; U16 (pn_sequence e); U32 (pn_window e); U32 (pn_atom e); U32 (pn_time e);
   U8 (pn_state e); Pad 15].

(** ** Window structure *)

Definition create_notify_fields (e : CreateNotifyEvent) : list field :=
  [U8 16; U8 0; U16 (cn_sequence e); U32 (cn_parent e); U32 (cn_window e); I16 (cn_x e);
   I16 (cn_y e); U16 (cn_width e); U16 (cn_height e); U16 (cn_border_width e);
   flag (cn_override_redirect e); U8 0; Pad 8].

Definition map_notify_fields (e : MapNotifyEvent) : list field :=
  [U8 19; U8 0; U16 (mn2_sequence e); U32 (mn2_event e); U32 (mn2_window e);
   flag (mn2_override_redirect e); Pad 19].

Definition map_request_fields (e : MapRequestEvent) : list field :=
  [U8 20; U8 0; U16 (mr_sequence e); U32 (mr_parent e); U32 (mr_window e); Pad 20].

Definition unmap_notify_fields (e : UnmapNotifyEvent) : list field :=
  [U8 18; U8 0; U16 (un_sequence e); U32 (un_event e); U32 (un_window e);
   flag (un_from_configure e); Pad 19].

Definition visibility_notify_fields (e : VisibilityNotifyEvent) : list field :=
  [U8 15; U8 0; U16 (vn_sequence e); U32 (vn_window e); U8 (vn_state e); Pad 23].

Definition expose_fields (e : ExposeEvent) : list field :=
  [U8 12; U8 0; U16 (e_sequence e); U32 (e_window e); U16 (e_x e); U16 (e_y e); U16 (e_width e);
   U16 (e_height e); U16 (e_count e); Pad 14].

Definition no_expose_fields (e : NoExposeEvent) : list field :=
  [U8 14; U8 0; U16 (ne_sequence e); U32 (ne_drawable e); U16 (ne_minor_opcode e);
   U8 (ne_major_opcode e); Pad 21].

Definition configure_notify_fields (e : ConfigureNotifyEvent) : list field :=
  [U8 22; U8 0; U16 (cn2_sequence e); U32 (cn2_event e); U32 (cn2_window e);
   U32 (cn2_above_sibling e); I16 (cn2_x e); I16 (cn2_y e); U16 (cn2_width e);
   U16 (cn2_height e); U16 (cn2_border_width e); flag (cn2_override_redirect e); U8 0; Pad 4].

Definition configure_request_fields (e : ConfigureRequestEvent) : list field :=
  [U8 23; U8 (cr_stack_mode e); U16 (cr_sequence e); U32 (cr_parent e); U32 (cr_window e);
   U32 (cr_sibling e); I16 (cr_x e); I16 (cr_y e); U16 (cr_width e); U16 (cr_height e);
   U16 (cr_border_width e); U16 (cr_value_mask e); Pad 4].

Definition resize_request_fields (e : ResizeRequestEvent) : list field :=
  [U8 25; U8 0; U16 (rr_sequence e); U32 (rr_window e); U16 (rr_width e); U16 (rr_height e); Pad 20].

Definition circulate_notify_fields (e : CirculateNotifyEvent) : list field :=
  [U8 26; U8 0; U16 (cn3_sequence e); U32 (cn3_event e); U32 (cn3_window e); Pad 4;
   U8 (cn3_place e); Pad 15].

Definition circulate_request_fields (e : CirculateRequestEvent) : list field :=
  [U8 27; U8 0; U16 (cr2_sequence e); U32 (cr2_parent e); U32 (cr2_window e); Pad 4;
   U8 (cr2_place e); Pad 15].

Definition mapping_notify_fields (e : MappingNotifyEvent) : list field :=
  [U8 34; U8 0; U16 (mn_sequence e); U8 (mn_request e); U8 (mn_first_keycode e); U8 (mn_count e);
   Pad 25].

(** ** Extension events *)

Definition shape_notify_fields (e : ShapeNotifyEvent) : list field :=
  [U8 (Extensions.first_event Extensions.shape_extension); U8 (sn2_kind e); U16 (sn2_sequence e);
   U32 (sn2_window e); I16 (sn2_x e); I16 (sn2_y e); U16 (sn2_width e); U16 (sn2_height e);
   U32 (sn2_time e); flag (sn2_shaped e); Pad 11].

Definition counter_notify_fields (e : SyncCounterNotifyEvent) : list field :=
  [U8 (Extensions.first_event Extensions.sync_extension); U8 0; U16 (scn_sequence e);
   U32 (scn_counter e)] ++
  sync_int64 (scn_wait_value e) ++ sync_int64 (scn_counter_value e) ++
  [U32 (scn_time e); U16 (scn_count e); flag (scn_destroyed e); U8 0].

Definition alarm_notify_fields (e : SyncAlarmNotifyEvent) : list field :=
  [U8 (Extensions.first_event Extensions.sync_extension + 1); U8 1; U16 (san_sequence e);
   U32 (san_alarm e)] ++
  sync_int64 (san_counter_value e) ++ sync_int64 (san_alarm_value e) ++
  [U32 (san_time e); U8 (san_state e); Pad 3].

Definition xfixes_selection_fields (e : XFixesSelectionNotifyEvent) : list field :=
  [U8 (Extensions.first_event Extensions.xfixes_extension); U8 (xfsn_subtype e);
   U16 (xfsn_sequence e); U32 (xfsn_window e); U32 (xfsn_owner e); U32 (xfsn_selection e);
   U32 (xfsn_time e); U32 (xfsn_selection_time e); Pad 8].

Definition xfixes_cursor_fields (e : XFixesCursorNotifyEvent) : list field :=
  [U8 (Extensions.first_event Extensions.xfixes_extension + 1); U8 (xfcn_subtype e);
   U16 (xfcn_sequence e); U32 (xfcn_window e); U32 (xfcn_cursor_serial e); U32 (xfcn_time e);
   U32 (xfcn_name e); Pad 12].

Definition randr_screen_fields (e : RandrScreenChangeNotifyEvent) : list field :=
  [U8 (Extensions.first_event Extensions.randr_extension); U8 (rscn_rotation e);
   U16 (rscn_sequence e); U32 (rscn_timestamp e); U32 (rscn_config_timestamp e);
   U32 root_window_id; U32 (rscn_request_window e); U16 0; U16 0; U16 (rscn_width e);
   U16 (rscn_height e); U16 (rscn_millimetre_width e); U16 (rscn_millimetre_height e)].

(** The [switch] on the subtype; nothing on its default. *)
Definition randr_notify_fields (e : RandrNotifyEvent) : option (list field) :=
  let header := [U8 (Extensions.first_event Extensions.randr_extension + 1); U8 (rn_subtype e);
                 U16 (rn_sequence e)] in
  if rn_subtype e =? 0 then
    Some (header ++ [U32 (rn_timestamp e); U32 (rn_window e); U32 (rn_crtc e); U32 (rn_mode e);
      U16 (rn_rotation e); Pad 2; I16 (rn_x e); I16 (rn_y e); U16 (rn_width e); U16 (rn_height e)])
  else if rn_subtype e =? 1 then
    Some (header ++ [U32 (rn_timestamp e); U32 (rn_config_timestamp e); U32 (rn_window e);
      U32 (rn_output e); U32 (rn_crtc e); U32 (rn_mode e); U16 (rn_rotation e);
      U8 (rn_connection e); U8 (rn_subpixel_order e)])
  else if rn_subtype e =? 2 then
    Some (header ++ [U32 (rn_window e); U32 (rn_output e); U32 (rn_atom e); U32 (rn_timestamp e);
      U8 (rn_property_status e); Pad 11])
  else if rn_subtype e =? 5 then
    Some (header ++ [U32 (rn_timestamp e); U32 (rn_window e); Pad 20])
  else None.

Definition damage_notify_fields (e : DamageNotifyEvent) : list field :=
  [U8 (Extensions.first_event Extensions.damage_extension); U8 (dn_level e); U16 (dn_sequence e);
   U32 (dn_drawable e); U32 (dn_damage e); U32 (dn_timestamp e); I16 (dn_area_x e);
   I16 (dn_area_y e); U16 (dn_area_width e); U16 (dn_area_height e); I16 (dn_geometry_x e);
   I16 (dn_geometry_y e); U16 (dn_geometry_width e); U16 (dn_geometry_height e)].

Definition present_configure_fields (e : PresentConfigureNotifyEvent) : list field :=
  [U8 35; U8 (Extensions.major_opcode Extensions.present_extension); U16 (pcn_sequence e); U32 2;
   U16 0; Pad 2; U32 (pcn_event e); U32 (pcn_window e); I16 (pcn_x e); I16 (pcn_y e);
   U16 (pcn_width e); U16 (pcn_height e); I16 (pcn_off_x e); I16 (pcn_off_y e);
   U16 (pcn_pixmap_width e); U16 (pcn_pixmap_height e); U32 (pcn_pixmap_flags e)].

Definition present_complete_fields (e : PresentCompleteNotifyEvent) : list field :=
  [U8 35; U8 (Extensions.major_opcode Extensions.present_extension); U16 (pcn2_sequence e); U32 2;
   U16 1; U8 (pcn2_kind e); U8 (pcn2_mode e); U32 (pcn2_event e); U32 (pcn2_window e);
   U32 (pcn2_serial e); U64 (pcn2_ust e); U64 (pcn2_msc e)].

Definition present_idle_fields (e : PresentIdleNotifyEvent) : list field :=
  [U8 35; U8 (Extensions.major_opcode Extensions.present_extension); U16 (pin_sequence e); U32 0;
   U16 2; Pad 2; U32 (pin_event e); U32 (pin_window e); U32 (pin_serial e); U32 (pin_pixmap e);
   U32 (pin_idle_fence e)].

Definition xkb_map_fields (e : XkbMapNotifyEvent) : list field :=
  [U8 (Extensions.first_event Extensions.xkb_extension); U8 1; U16 (xkbmn_sequence e);
   U32 (xkbmn_time e); U8 (xkbmn_device e); U8 0; U16 (xkbmn_changed e); U8 (xkbmn_min_keycode e);
   U8 (xkbmn_max_keycode e); U8 (xkbmn_first_type e); U8 (xkbmn_type_count e);
   U8 (xkbmn_first_keysym e); U8 (xkbmn_keysym_count e); U8 0; U8 0; U8 0; U8 0; U8 0; U8 0;
   U8 (xkbmn_first_modmap e); U8 (xkbmn_modmap_count e); U8 0; U8 0; U16 0; Pad 2].

Definition xkb_state_fields (e : XkbStateNotifyEvent) : list field :=
  [U8 (Extensions.first_event Extensions.xkb_extension); U8 2; U16 (xkbsn_sequence e);
   U32 (xkbsn_time e); U8 (xkbsn_device e); U8 (xkbsn_mods e); U8 (xkbsn_base_mods e);
   U8 (xkbsn_latched_mods e); U8 (xkbsn_locked_mods e); U8 (xkbsn_group e);
   I16 (xkbsn_base_group e); I16 (xkbsn_latched_group e); U8 (xkbsn_locked_group e);
   U8 (xkbsn_mods e); U8 (xkbsn_mods e); U8 (xkbsn_mods e); U8 (xkbsn_mods e); U8 (xkbsn_mods e);
   U16 (xkbsn_pointer_buttons e); U16 (xkbsn_changed e); U8 (xkbsn_keycode e);
   U8 (xkbsn_event_type e); U8 (xkbsn_request_major e); U8 (xkbsn_request_minor e)].

Definition xkb_controls_fields (e : XkbControlsNotifyEvent) : list field :=
  [U8 (Extensions.first_event Extensions.xkb_extension); U8 3; U16 (xkbcn_sequence e);
   U32 (xkbcn_time e); U8 (xkbcn_device e); U8 (xkbcn_groups e); Pad 2; U32 (xkbcn_changed e);
   U32 (xkbcn_enabled e); U32 (xkbcn_enabled_changes e); U8 (xkbcn_keycode e);
   U8 (xkbcn_event_type e); U8 (xkbcn_request_major e); U8 (xkbcn_request_minor e); Pad 4].

(** ** Input events *)

(** A coordinate in 16.16 and in 32.32 fixed point. *)
Definition fixed (value : Z) : Z := u32 (Z.shiftl (u32 (Z.max (smin 16) (Z.min value (smax 16)))) 16).

Definition long_fixed (value : Z) : Z := u64 (value * 2 ^ 32).

Definition xi2_device_fields (e : Xi2DeviceEvent) : list field :=
  let pointer := xid_device e =? xi2_pointer_device_id in
  let valuators := pointer && (xid_event_type e =? 6) in
  let extra_words := if valuators then 18 else 13 in
  [U8 35; U8 (Extensions.major_opcode Extensions.xinput_extension); U16 (xid_sequence e);
   U32 extra_words; U16 (xid_event_type e); U16 (xid_device e); U32 (xid_time e);
   U32 (xid_detail e); U32 (xid_root e); U32 (xid_event e); U32 (xid_child e);
   U32 (fixed (xid_root_x e)); U32 (fixed (xid_root_y e)); U32 (fixed (xid_event_x e));
   U32 (fixed (xid_event_y e)); U16 1; U16 (if valuators then 1 else 0); U16 (xid_source e); Pad 2;
   U32 (xid_flags e); U32 (xid_base_mods e); U32 (xid_latched_mods e); U32 (xid_locked_mods e);
   U32 (xid_effective_mods e); U8 (xid_base_group e); U8 (xid_latched_group e);
   U8 (xid_locked_group e); U8 (xid_effective_group e); U32 (xid_buttons e)] ++
  (if valuators then [U32 3; U64 (long_fixed (xid_root_x e)); U64 (long_fixed (xid_root_y e))] else []).

Definition xi2_raw_fields (e : Xi2RawEvent) : list field :=
  let valuators := xir_event_type e =? 17 in
  [U8 35; U8 (Extensions.major_opcode Extensions.xinput_extension); U16 (xir_sequence e);
   U32 (if valuators then 9 else 0); U16 (xir_event_type e); U16 (xir_device e); U32 (xir_time e);
   U32 (xir_detail e); U16 (xir_source e); U16 (if valuators then 1 else 0); U32 (xir_flags e);
   Pad 4] ++
  (if valuators
   then [U32 3; U64 (long_fixed (xir_root_x e)); U64 (long_fixed (xir_root_y e));
         U64 (long_fixed (xir_root_x e)); U64 (long_fixed (xir_root_y e))]
   else []).

Definition xi2_property_fields (e : Xi2PropertyEvent) : list field :=
  [U8 35; U8 (Extensions.major_opcode Extensions.xinput_extension); U16 (xip_sequence e); U32 0;
   U16 12; U16 (xip_device e); U32 (xip_time e); U32 (xip_property e); U8 (xip_what e); Pad 11].

Definition xi2_crossing_fields (e : Xi2CrossingEvent) : list field :=
  [U8 35; U8 (Extensions.major_opcode Extensions.xinput_extension); U16 (xic_sequence e); U32 11;
   U16 (xic_event_type e); U16 (xic_device e); U32 (xic_time e); U16 (xic_source e);
   U8 (xic_mode e); U8 (xic_detail e); U32 (xic_root e); U32 (xic_event e); U32 (xic_child e);
   U32 (fixed (xic_root_x e)); U32 (fixed (xic_root_y e)); U32 (fixed (xic_event_x e));
   U32 (fixed (xic_event_y e)); flag (xic_same_screen e); flag (xic_focus e); U16 1;
   U32 (xic_base_mods e); U32 (xic_latched_mods e); U32 (xic_locked_mods e);
   U32 (xic_effective_mods e); U8 (xic_base_group e); U8 (xic_latched_group e);
   U8 (xic_locked_group e); U8 (xic_effective_group e); U32 (xic_buttons e)].

Definition core_input_fields (e : CoreInputEvent) : list field :=
  [U8 (ci_type e); U8 (ci_detail e); U16 (ci_sequence e); U32 (ci_time e); U32 (ci_root e);
   U32 (ci_event e); U32 (ci_child e); I16 (ci_root_x e); I16 (ci_root_y e); I16 (ci_event_x e);
   I16 (ci_event_y e); U16 (ci_state e); flag (ci_same_screen e); U8 0].

Definition crossing_fields (e : CrossingEvent) : list field :=
  [U8 (c_type e); U8 (c_detail e); U16 (c_sequence e); U32 (c_time e); U32 (c_root e);
   U32 (c_event e); U32 (c_child e); I16 (c_root_x e); I16 (c_root_y e); I16 (c_event_x e);
   I16 (c_event_y e); U16 (c_state e); U8 (c_mode e);
   U8 (Z.lor (if c_same_screen e then 1 else 0) (if c_focus e then 2 else 0))].

Definition focus_fields (e : FocusEvent) : list field :=
  [U8 (f_type e); U8 (f_detail e); U16 (f_sequence e); U32 (f_event e); U8 (f_mode e); Pad 23].

(** ** The whole function *)

Definition event_fields (event : ClientEvent) : option (list field) :=
  match event with
  | SelectionClear e => Some (selection_clear_fields e)
  | SelectionRequest e => Some (selection_request_fields e)
  | SelectionNotify e => Some (selection_notify_fields e)
  | ClientMessage e => Some (client_message_fields e)
  | PropertyNotify e => Some (property_notify_fields e)
  | MappingNotify e => Some (mapping_notify_fields e)
  | CreateNotify e => Some (create_notify_fields e)
  | MapNotify e => Some (map_notify_fields e)
  | MapRequest e => Some (map_request_fields e)
  | UnmapNotify e => Some (unmap_notify_fields e)
  | VisibilityNotify e => Some (visibility_notify_fields e)
  | Expose e => Some (expose_fields e)
  | NoExpose e => Some (no_expose_fields e)
  | ConfigureNotify e => Some (configure_notify_fields e)
  | ConfigureRequest e => Some (configure_request_fields e)
  | ResizeRequest e => Some (resize_request_fields e)
  | CirculateNotify e => Some (circulate_notify_fields e)
  | CirculateRequest e => Some (circulate_request_fields e)
  | ShapeNotify e => Some (shape_notify_fields e)
  | SyncCounterNotify e => Some (counter_notify_fields e)
  | SyncAlarmNotify e => Some (alarm_notify_fields e)
  | XFixesSelectionNotify e => Some (xfixes_selection_fields e)
  | XFixesCursorNotify e => Some (xfixes_cursor_fields e)
  | RandrScreenChangeNotify e => Some (randr_screen_fields e)
  | RandrNotify e => randr_notify_fields e
  | DamageNotify e => Some (damage_notify_fields e)
  | PresentConfigureNotify e => Some (present_configure_fields e)
  | PresentCompleteNotify e => Some (present_complete_fields e)
  | PresentIdleNotify e => Some (present_idle_fields e)
  | XkbMapNotify e => Some (xkb_map_fields e)
  | XkbStateNotify e => Some (xkb_state_fields e)
  | XkbControlsNotify e => Some (xkb_controls_fields e)
  | Xi2Device e => Some (xi2_device_fields e)
  | Xi2Raw e => Some (xi2_raw_fields e)
  | Xi2Property e => Some (xi2_property_fields e)
  | Xi2Crossing e => Some (xi2_crossing_fields e)
  | CoreInput e => Some (core_input_fields e)
  | Crossing e => Some (crossing_fields e)
  | Focus e => Some (focus_fields e)
  end.

Definition encode_event (order : option ByteOrder) (event : ClientEvent) : list Z :=
  match order with
  | None => []
  | Some order =>
      match event_fields event with
      | None => []
      | Some fields => bytes_ (write_fields fields (writer order))
      end
  end.

Arguments encode_event : simpl never.

(** ** What the client relies on *)

(** The event structures the server builds: the formats of client messages
    and the subtypes and types it uses. The encoding of [SelectionRequest] is
    not one a client can receive, nor that of [SelectionNotify], see
    [selection_events_short]. *)
Definition encodable (event : ClientEvent) : Prop :=
  match event with
  | SelectionRequest _ | SelectionNotify _ => False
  | ClientMessage e => cm_format e = 8 \/ cm_format e = 16 \/ cm_format e = 32
  | RandrNotify e => rn_subtype e = 0 \/ rn_subtype e = 1 \/ rn_subtype e = 2 \/ rn_subtype e = 5
  | CoreInput e => 2 <= ci_type e <= 6
  | Crossing e => 7 <= c_type e <= 8
  | Focus e => 9 <= f_type e <= 10
  | _ => True
  end.

(** How a client finds the end of an event: 32 bytes, and for a GenericEvent
    as many 4-byte units more as its length field says. *)
Definition event_length (order : ByteOrder) (bytes : list Z) : option Z :=
  let reader := reader_of bytes order in
  match read_u8 reader with
  | (None, _) => None
  | (Some type, reader) =>
      if negb (Z.land type 127 =? 35) then Some 32
      else
        let '(_, reader) := read_u8 reader in
        let '(_, reader) := read_u16 reader in
        match read_u32 reader with
        | (None, _) => None
        | (Some units, _) => Some (32 + 4 * units)
        end
  end.

(** The sequence number a client reads in the third and fourth byte. *)
Definition received_sequence (order : ByteOrder) (bytes : list Z) : option Z :=
  let reader := reader_of bytes order in
  let '(_, reader) := read_u8 reader in
  let '(_, reader) := read_u8 reader in
  (read_u16 reader).1.

Definition field_size (f : field) : Z :=
  match f with FU8 _ => 1 | FU16 _ => 2 | FU32 _ => 4 | FU64 _ => 8 | FPad n => n end.

Definition fields_size (fs : list field) : Z := foldr (fun f n => field_size f + n) 0 fs.

Lemma field_bytes_size order f : field_ok f -> zlen (field_bytes order f) = field_size f.
Proof.
  unfold zlen. destruct f; simpl; intros Hok; rewrite ?length_map, ?loop_shifts_length, ?length_replicate; try done.
  lia.
Qed.

Lemma fields_bytes_size order fs :
  Forall field_ok fs -> zlen (concat (map (field_bytes order) fs)) = fields_size fs.
Proof.
  induction 1 as [|f fs Hf _ IH]; simpl; [done|]. rewrite zlen_app, field_bytes_size, IH by done. done.
Qed.

Lemma field_bytes_byte order f : field_ok f -> Forall is_byte (field_bytes order f).
Proof.
  destruct f; simpl; intros Hok; try (apply Forall_map, Forall_true; intros; by apply wrap_range).
  - by apply Forall_singleton.
  - apply Forall_replicate. split; lia.
Qed.

Lemma ok_U8 v : field_ok (U8 v). Proof. by apply wrap_range. Qed.
Lemma ok_U16 v : field_ok (U16 v). Proof. by apply wrap_range. Qed.
Lemma ok_I16 v : field_ok (I16 v). Proof. by apply wrap_range. Qed.
Lemma ok_U32 v : field_ok (U32 v). Proof. by apply wrap_range. Qed.
Lemma ok_U64 v : field_ok (U64 v). Proof. by apply wrap_range. Qed.
Lemma ok_flag b : field_ok (flag b). Proof. by apply wrap_range. Qed.
Lemma ok_Pad n : 0 <= n -> field_ok (Pad n). Proof. done. Qed.
#[export] Hint Resolve ok_U8 ok_U16 ok_I16 ok_U32 ok_U64 ok_flag ok_Pad : xmin.

(** The layout of an encoding: the four header fields in front, all fields in
    range, and the size that the header announces. *)
Record framed (event : ClientEvent) (fields : list field) : Prop := {
  framed_ok : Forall field_ok fields;
  framed_header : exists type detail rest,
    fields = U8 type :: U8 detail :: U16 (event_sequence event) :: rest /\
    (Z.land (u8 type) 127 <> 35 /\ fields_size fields = 32 \/
     u8 type = 35 /\ exists units rest', rest = U32 units :: rest' /\
       fields_size fields = 32 + 4 * u32 units)
}.

Ltac field_list := repeat (apply Forall_cons_2; [by auto with xmin|]); apply Forall_nil_2.

Lemma fields_size_map_seq (f : nat -> field) n k :
  (forall i, field_size (f i) = n) -> fields_size (map f (seq 0 k)) = n * Z.of_nat k.
Proof.
  intros Hf. generalize 0%nat. induction k as [|k IH]; intros a; simpl; [lia|].
  rewrite Hf, IH. lia.
Qed.

Lemma fields_size_app l k : fields_size (l ++ k) = fields_size l + fields_size k.
Proof. induction l as [|f l IH]; simpl; [done|]. rewrite IH. lia. Qed.

Lemma client_message_framed e :
  cm_format e = 8 \/ cm_format e = 16 \/ cm_format e = 32 ->
  framed (ClientMessage e) (client_message_fields e).
Proof.
  intros Hf. split.
  - unfold client_message_fields. apply Forall_app. split; [field_list|].
    apply Forall_map, Forall_true. intros i. repeat case_match; auto with xmin.
  - do 3 eexists. split; [reflexivity|]. left. split; [by vm_compute|].
    unfold client_message_fields. rewrite fields_size_app.
    destruct Hf as [-> | [-> | ->]].
    + rewrite (fields_size_map_seq _ 1) by done. done.
    + rewrite (fields_size_map_seq _ 2) by done. done.
    + rewrite (fields_size_map_seq _ 4) by done. done.
Qed.

Lemma small_type t : 2 <= t <= 10 -> Z.land (u8 t) 127 <> 35.
Proof.
  intros Ht. assert (t ∈ seqZ 2 9) as Hin by (apply elem_of_seqZ; lia).
  revert Hin. clear. vm_compute (seqZ 2 9). intros Hin.
  repeat (apply elem_of_cons in Hin as [->|Hin]; [by vm_compute|]). by apply elem_of_nil in Hin.
Qed.

(** An explicit list of fields: a core event and a generic event. *)
Ltac framed_core :=
  split; [field_list|do 3 eexists; split; [reflexivity|left; split; [by vm_compute|reflexivity]]].

Ltac framed_generic :=
  split; [field_list|do 3 eexists; split; [reflexivity|right; split; [by vm_compute|
    do 2 eexists; split; [reflexivity|by vm_compute]]]].

Ltac framed_input :=
  split; [field_list|do 3 eexists; split; [reflexivity|left; split; [apply small_type; lia|reflexivity]]].

Lemma event_fields_framed event :
  encodable event -> exists fields, event_fields event = Some fields /\ framed event fields.
Proof.
  destruct event; simpl; intros He.
  all: try done.
  all: try (eexists; split; [reflexivity|]; first [framed_core | framed_generic | framed_input]).
  - eexists; split; [reflexivity|]. by apply client_message_framed.
  - unfold randr_notify_fields. destruct He as [-> | [-> | [-> | ->]]]; simpl;
      (eexists; split; [reflexivity|framed_core]).
  - eexists; split; [reflexivity|]. unfold xi2_device_fields.
    destruct (_ && _); framed_generic.
  - eexists; split; [reflexivity|]. unfold xi2_raw_fields. destruct (_ =? _); framed_generic.
Qed.

Lemma encode_event_bytes order event fields :
  event_fields event = Some fields ->
  encode_event (Some order) event = concat (map (field_bytes order) fields).
Proof.
  intros Hf. unfold encode_event. rewrite Hf.
  destruct (write_fields_bytes fields (writer order)) as [-> _]. done.
Qed.

(** Reading the header of an encoding. *)
Lemma read_header order type detail sequence rest :
  Forall field_ok (U8 type :: U8 detail :: U16 sequence :: rest) ->
  let bytes := concat (map (field_bytes order) (U8 type :: U8 detail :: U16 sequence :: rest)) in
  exists r1 r2 r3,
    read_u8 (reader_of bytes order) = (Some (u8 type), r1) /\ read_u8 r1 = (Some (u8 detail), r2) /\
    read_u16 r2 = (Some (u16 sequence), r3) /\ reader_wf r3 /\ order_ r3 = order /\
    rest_of r3 = concat (map (field_bytes order) rest).
Proof.
  intros Hok bytes. rewrite !Forall_cons in Hok. destruct Hok as (H1 & H2 & H3 & Hrest).
  assert (reader_wf (reader_of bytes order)) as Hwf by apply reader_of_wf.
  destruct (read_field_spec (U8 type) (reader_of bytes order)
    (concat (map (field_bytes order) (U8 detail :: U16 sequence :: rest))) H1 Hwf
    (rest_of_reader_of _ _)) as (r1 & E1 & Hwf1 & Hr1 & Ho1).
  simpl in Ho1.
  assert (rest_of r1 = field_bytes (order_ r1) (U8 detail) ++
    concat (map (field_bytes order) (U16 sequence :: rest))) as Hr1' by (by rewrite Ho1).
  destruct (read_field_spec (U8 detail) r1
    (concat (map (field_bytes order) (U16 sequence :: rest))) H2 Hwf1 Hr1') as (r2 & E2 & Hwf2 & Hr2 & Ho2).
  rewrite Ho1 in Ho2.
  assert (rest_of r2 = field_bytes (order_ r2) (U16 sequence) ++ concat (map (field_bytes order) rest)) as Hr2'
    by (by rewrite Ho2).
  destruct (read_field_spec (U16 sequence) r2 (concat (map (field_bytes order) rest)) H3 Hwf2 Hr2')
    as (r3 & E3 & Hwf3 & Hr3 & Ho3).
  rewrite Ho2 in Ho3. exists r1, r2, r3.
  unfold U8, U16 in E1, E2, E3. simpl in E1, E2, E3.
  destruct (read_u8 (reader_of bytes order)) as [[]], (read_u8 r1) as [[]], (read_u16 r2) as [[]];
    simplify_eq/=; by split_and!.
Qed.

(** The size of an encoding is one a client can receive. *)
Lemma encode_event_size order event :
  encodable event ->
  32 <= zlen (encode_event (Some order) event) /\ zlen (encode_event (Some order) event) mod 4 = 0.
Proof.
  intros He. destruct (event_fields_framed event He) as (fields & Hf & [Hok Hframe]).
  rewrite (encode_event_bytes order event fields Hf), fields_bytes_size by done.
  destruct Hframe as (type & detail & rest & -> & [[_ ->]|(_ & units & rest' & _ & ->)]); [done|].
  pose proof (wrap_range 32 units ltac:(lia)) as Hu. unfold is_unsigned in Hu. split; [lia|].
  replace (32 + 4 * u32 units) with ((8 + u32 units) * 4) by lia. by apply Z_mod_mult.
Qed.

(** Every event the server sends, [SelectionRequest] and
    [SelectionNotify] apart, is encoded as
    a packet of bytes whose size is exactly the one its client computes from
    the header: 32 bytes, or 32 plus the announced units for generic events;
    the client reads the stamped sequence number, and reading the fields in
    order gives back every value that was written, in both byte orders. *)
Theorem encode_event_framed order event :
  encodable event ->
  let bytes := encode_event (Some order) event in
  event_length order bytes = Some (zlen bytes) /\ 32 <= zlen bytes /\ zlen bytes mod 4 = 0 /\
  Forall is_byte bytes /\ received_sequence order bytes = Some (u16 (event_sequence event)) /\
  exists fields r, event_fields event = Some fields /\
    read_fields fields (reader_of bytes order) = (Some fields, r) /\ remaining r = 0.
Proof.
  intros He. pose proof (encode_event_size order event He) as [Hge Hmod].
  destruct (event_fields_framed event He) as (fields & Hf & [Hok Hframe]). cbv zeta.
  rewrite (encode_event_bytes order event fields Hf) in *. rewrite fields_bytes_size in * by done.
  assert (Forall is_byte (concat (map (field_bytes order) fields))) as Hbytes.
  { clear -Hok. induction Hok as [|f fs Hf _ IH]; simpl; [constructor|].
    apply Forall_app. split; [by apply field_bytes_byte|done]. }
  destruct (read_fields_spec fields (reader_of (concat (map (field_bytes order) fields)) order) [] Hok
    (reader_of_wf _ _)) as (r & Hread & Hwf & Hrest).
  { rewrite rest_of_reader_of. by rewrite app_nil_r. }
  destruct Hframe as (type & detail & rest & -> & Hsize).
  destruct (read_header order type detail (event_sequence event) rest Hok)
    as (r1 & r2 & r3 & E1 & E2 & E3 & Hwf3 & Ho3 & Hr3).
  unfold event_length, received_sequence. rewrite E1, E2, E3.
  split_and!; [|done..|].
  2: { exists (U8 type :: U8 detail :: U16 (event_sequence event) :: rest), r. split_and!; [done..|].
    rewrite <- rest_of_length, Hrest by done. done. }
  destruct Hsize as [[Ht ->]|(Ht & units & rest' & -> & ->)].
  - by rewrite (proj2 (Z.eqb_neq _ _) Ht).
  - rewrite Ht. simpl.
    destruct (read_field_spec (U32 units) r3 (concat (map (field_bytes order) rest'))) as (r4 & E4 & _).
    { apply ok_U32. } { done. } { rewrite Ho3. exact Hr3. }
    unfold U32 in E4. simpl in E4. by destruct (read_u32 r3) as [[] ?]; simplify_eq/=.
Qed.

Lemma encode_event_framed_witness :
  event_length big (encode_event (Some big)
    (PresentConfigureNotify (mkPresentConfigureNotify 1 1000 (-5) 10 100 100 0 0 100 100 0 9))) = Some 40.
Proof.
  assert (zlen (encode_event (Some big)
    (PresentConfigureNotify (mkPresentConfigureNotify 1 1000 (-5) 10 100 100 0 0 100 100 0 9))) = 40) as Hl
    by (vm_compute; reflexivity).
  rewrite <- Hl. exact (proj1 (encode_event_framed big
    (PresentConfigureNotify (mkPresentConfigureNotify 1 1000 (-5) 10 100 100 0 0 100 100 0 9)) I)).
Defined.

(** The encodings of [SelectionRequest] and [SelectionNotify] lack four bytes
    of the protocol's padding. *)
Lemma selection_events_short order event :
  match event with SelectionRequest _ | SelectionNotify _ => True | _ => False end ->
  zlen (encode_event (Some order) event) = 28.
Proof.
  destruct event; try done; intros _.
  - rewrite (encode_event_bytes order _ (selection_request_fields e)) by done.
    rewrite fields_bytes_size; [done|]. unfold selection_request_fields. field_list.
  - rewrite (encode_event_bytes order _ (selection_notify_fields e)) by done.
    rewrite fields_bytes_size; [done|]. unfold selection_notify_fields. field_list.
Qed.
