(* ===== verification/Connection.v ===== *)
(** * Connections: buffers, setup and request framing

    The protocol engine of [src/src/server/connection.cpp]: the output buffer,
    the delivery of queued events, the connection setup, and the division of
    the input stream into requests. The handlers behind [dispatch] and the
    server state are an interface, [ConnectionServer]: handlers read a
    request, change the server and write to the output; they have no access
    to the input stream and the framing state, which [Session] leaves out. *)
From S2P Require Import Prelude.
From S2P Require Import Checked.
From S2P Require Import Wire.
From S2P Require Import Events.
From S2P Require Import EventQueue.
From S2P Require Import Windows.
From S2P Require Import Encode.

(** ** Results

    [Result<T>]; the messages, which only diagnostics use, are left out. *)
Inductive ErrorCode := io | unexpected_eof | malformed | invalid_argument | busy.

Inductive Result (A : Type) := success (a : A) | failure (code : ErrorCode).
Arguments success {A} a.
Arguments failure {A} code.

(** ** Data *)

Definition protocol_major : Z := 11.
Definition protocol_minor : Z := 0.
Definition maximum_core_request_units : Z := 65535.
Definition maximum_extended_request_units : Z := 262144.
Definition maximum_core_request_bytes : Z := maximum_core_request_units * 4.
Definition maximum_extended_request_bytes : Z := maximum_extended_request_units * 4.
Definition maximum_buffered_input : Z := maximum_extended_request_bytes + 16384.
Definition maximum_buffered_output : Z := 1024 * 1024.

Definition bad_request : Z := 1.
Definition bad_length : Z := 16.

(** ["MIT-MAGIC-COOKIE-1"]. *)
Definition cookie_protocol : list Z :=
  [77; 73; 84; 45; 77; 65; 71; 73; 67; 45; 67; 79; 79; 75; 73; 69; 45; 49].

Record ServerConfig := mkConfig {
  resource_base : Z;
  cookie : list Z;
  allow_unauthenticated : bool
}.

Inductive State := setup_prefix | setup_authentication | requests.

#[export] Instance State_eq_dec : EqDecision State.
Proof. solve_decision. Defined.

(** The output buffer; a pending descriptor is its position and its handle. *)
Record Output := mkOutput {
  output_ : list Z;
  output_offset_ : Z;
  pending_output_fds_ : list (Z * Z)
}.

#[export] Instance Output_eta : Eta Output := fun o =>
  mkOutput (output_ o) (output_offset_ o) (pending_output_fds_ o).

(** The part of the connection that handlers work on. [extensions] stands for
    the negotiated versions, the GLX records and the received descriptors. *)
Record Session (E : Type) := mkSession {
  output : Output;
  big_requests_enabled_ : bool;
  extensions : E
}.
Arguments mkSession {E}.
Arguments output {E}.
Arguments big_requests_enabled_ {E}.
Arguments extensions {E}.

#[export] Instance Session_eta E : Eta (Session E) := fun s =>
  mkSession (output s) (big_requests_enabled_ s) (extensions s).

Record Connection (E : Type) := mkConnection {
  session : Session E;
  state_ : State;
  byte_order_ : option ByteOrder;
  input_ : list Z;
  setup_payload_size_ : Z;
  setup_name_size_ : Z;
  setup_data_size_ : Z;
  setup_padded_name_size_ : Z;
  sequence_ : Z;
  resume_sync_input_ : bool;
  close_after_output_ : bool;
  finished_ : bool
}.
Arguments mkConnection {E}.
Arguments session {E}.
Arguments state_ {E}.
Arguments byte_order_ {E}.
Arguments input_ {E}.
Arguments setup_payload_size_ {E}.
Arguments setup_name_size_ {E}.
Arguments setup_data_size_ {E}.
Arguments setup_padded_name_size_ {E}.
Arguments sequence_ {E}.
Arguments resume_sync_input_ {E}.
Arguments close_after_output_ {E}.
Arguments finished_ {E}.

#[export] Instance Connection_eta E : Eta (Connection E) := fun c =>
  mkConnection (session c) (state_ c) (byte_order_ c) (input_ c) (setup_payload_size_ c)
    (setup_name_size_ c) (setup_data_size_ c) (setup_padded_name_size_ c) (sequence_ c)
    (resume_sync_input_ c) (close_after_output_ c) (finished_ c).

Record RequestContext := mkContext {
  order : ByteOrder;
  opcode : Z;
  data : Z;
  sequence : Z;
  request : list Z
}.

(** What the engine asks of [ServerState] and of the handlers. *)
Class ConnectionServer (S E : Type) := {
  queued_events : S -> Z -> list ClientEvent;
  pop_event : S -> Z -> S;
  note_client_sequence : S -> Z -> Z -> S;
  register_client : S -> Z -> S * bool;
  sync_waiting : S -> Z -> bool;
  advance_time : S -> S;
  screen_size : S -> Z * Z;
  dispatch : RequestContext -> S -> Session E -> S * Session E * Result unit
}.

(** The engine's assumptions: popping removes the first event and nothing
    that a client waits for; noting the
    sequence number of a client is visible to nothing but the stamping of
    later events, and the last note wins. *)
Class ConnectionServerLaws (S E : Type) `{ConnectionServer S E} := {
  pop_event_queue s client : queued_events (pop_event s client) client = tail (queued_events s client);
  pop_waiting s client c : sync_waiting (pop_event s client) c = sync_waiting s c;
  note_queue s client n c : queued_events (note_client_sequence s client n) c = queued_events s c;
  note_waiting s client n c : sync_waiting (note_client_sequence s client n) c = sync_waiting s c;
  note_note s client n k :
    note_client_sequence (note_client_sequence s client n) client k = note_client_sequence s client k
}.

(** ** The output buffer *)

Definition compact_output (o : Output) : Output :=
  if output_offset_ o =? 0 then o
  else if output_offset_ o =? zlen (output_ o) then mkOutput [] 0 []
  else
    let consumed := output_offset_ o in
    mkOutput (drop (Z.to_nat consumed) (output_ o)) 0
      (map (fun pending => (u64 (pending.1 - consumed), pending.2)) (pending_output_fds_ o)).

Section Connection.

(** Whether [vector::reserve] of a size succeeds. *)
Context (can_reserve : Z -> bool).

Definition queue (bytes : list Z) (o : Output) : Output * Result unit :=
  if bool_decide (bytes = []) then (o, success tt)
  else
    let o := compact_output o in
    match checked_add Unsigned 64 (zlen (output_ o)) (zlen bytes) with
    | None => (o, failure io)
    | Some new_size =>
        if new_size >? maximum_buffered_output then (o, failure io)
        else if negb (can_reserve new_size) then (o, failure io)
        else (o <| output_ := output_ o ++ bytes |>, success tt)
    end.

Definition queue_with_fd (bytes : list Z) (fd : option Z) (o : Output) : Output * Result unit :=
  match fd with
  | None => (o, failure invalid_argument)
  | Some fd =>
      if bool_decide (bytes = []) then (o, failure invalid_argument)
      else
        let o := compact_output o in
        match checked_add Unsigned 64 (zlen (output_ o)) (zlen bytes) with
        | None => (o, failure io)
        | Some new_size =>
            if new_size >? maximum_buffered_output then (o, failure io)
            else if negb (can_reserve new_size) then (o, failure io)
            else
              let offset := zlen (output_ o) in
              (o <| pending_output_fds_ := pending_output_fds_ o ++ [(offset, fd)] |>
                 <| output_ := output_ o ++ bytes |>, success tt)
        end
  end.

Definition send_error (order : ByteOrder) (code opcode sequence bad_value minor_opcode : Z)
    (o : Output) : Output * Result unit :=
  queue (bytes_ (write_fields
    [U8 0; U8 code; U16 sequence; U32 bad_value; U16 minor_opcode; U8 opcode; Pad 21]
    (writer order))) o.

Context {S E : Type} `{CS : ConnectionServer S E}.
Context (config : ServerConfig).

Abbreviation client := (resource_base config).

(** ** The connection monad

    State passing, errors and fuel. *)
Record World := mkWorld { server : S; connection : Connection E }.

#[export] Instance World_eta : Eta World := fun w => mkWorld (server w) (connection w).

Definition M (A : Type) : Type := World -> run (World * Result A).

Definition ret {A} (a : A) : M A := fun w => finished (w, success a).

Definition fail {A} (code : ErrorCode) : M A := fun w => finished (w, failure code).

Definition bind {A B} (m : M A) (k : A -> M B) : M B := fun w =>
  match m w with
  | out_of_fuel => out_of_fuel
  | finished (w, failure code) => finished (w, failure code)
  | finished (w, success a) => k a w
  end.

Declare Scope connection_scope.
Notation "'do' p <- m ; k" := (bind m (fun p => k))
  (at level 10, p pattern, m at level 100, k at level 200) : connection_scope.
#[local] Open Scope connection_scope.

Definition get_connection : M (Connection E) := fun w => finished (w, success (connection w)).

Definition on_connection (f : Connection E -> Connection E) : M unit := fun w =>
  finished (w <| connection := f (connection w) |>, success tt).

Definition on_output (f : Output -> Output * Result unit) : M unit := fun w =>
  let c := connection w in
  let '(o, r) := f (output (session c)) in
  finished (w <| connection := c <| session := (session c) <| output := o |> |> |>, r).

Definition on_server (f : S -> S) : M unit := fun w =>
  finished (w <| server := f (server w) |>, success tt).

Definition server_register_client : M bool := fun w =>
  let '(s, ok) := register_client (E := E) (server w) client in
  finished (w <| server := s |>, success ok).

Definition run_dispatch (context : RequestContext) : M unit := fun w =>
  let c := connection w in
  let '(s, session', r) := dispatch context (server w) (session c) in
  finished (w <| server := s |> <| connection := c <| session := session' |> |>, r).

Definition consume_input (size : Z) : M unit :=
  on_connection (fun c => c <| input_ := drop (Z.to_nat size) (input_ c) |>).

Definition clear_input : M unit := on_connection (fun c => c <| input_ := [] |>).

Definition close_after_output : M unit := on_connection (fun c =>
  let o := output (session c) in
  let c := c <| close_after_output_ := true |> in
  if output_offset_ o =? zlen (output_ o) then c <| finished_ := true |> else c).

(** [++sequence_] or [--sequence_], and the note to the server. *)
Definition set_sequence_number (n : Z) : M unit :=
  do _ <- on_connection (fun c => c <| sequence_ := n |>) ;
  on_server (fun s => note_client_sequence (E := E) s client n).

(** ** Events *)

(** [(encoded.size() & 3U) != 0] and the size check. *)
Definition packet_ok (encoded : list Z) : bool :=
  negb ((zlen encoded <? 32) || negb (Z.land (zlen encoded) 3 =? 0)).

Fixpoint drain_loop (fuel : nat) : M unit := fun w =>
  match queued_events (E := E) (server w) client with
  | [] => finished (w, success tt)
  | event :: _ =>
      match fuel with
      | O => out_of_fuel
      | Datatypes.S fuel =>
          (do c <- get_connection ;
           let encoded := encode_event (byte_order_ c) event in
           if negb (packet_ok encoded) then fail malformed
           else
             do _ <- on_output (queue encoded) ;
             do _ <- on_server (fun s => pop_event (E := E) s client) ;
             drain_loop fuel) w
      end
  end.

Definition drain_pending_events : M unit := fun w =>
  drain_loop (length (queued_events (E := E) (server w) client)) w.

(** ** Setup *)

Definition millimetres (pixels : Z) : Z := u16 (u32 (u32 (pixels * 254) + 480) / 960).

(** [reason] is the message's bytes. *)
Definition send_setup_failure (order : ByteOrder) (reason : list Z) : M unit :=
  let reason := take 255 reason in
  match padded_to_four (zlen reason) with
  | None => fail malformed
  | Some padded_reason =>
      let w := write_fields [U8 0; U8 (zlen reason); U16 protocol_major; U16 protocol_minor;
        U16 (padded_reason / 4)] (writer order) in
      on_output (queue (bytes_ (pad (padded_reason - zlen reason) (write_bytes reason w))))
  end.

Definition setup_pixmap_formats : list (Z * Z) := [(1, 1); (4, 8); (8, 8); (24, 32); (32, 32)].

Definition setup_depth_fields (depth : Z) : list field :=
  [U8 depth; U8 0; U16 (if depth =? 24 then 1 else 0); Pad 4] ++
  (if depth =? 24
   then [U32 root_visual_id; U8 4; U8 8; U16 256; U32 0x00ff0000; U32 0x0000ff00; U32 0x000000ff; Pad 4]
   else []).

Definition client_resource_mask : Z := 0x001fffff.
Definition minimum_keycode : Z := 8.
Definition maximum_keycode : Z := 255.

(** The payload of a successful setup; [host] is the byte order of the
    machine, ["Xmin"] the vendor. *)
Definition setup_payload (host : ByteOrder) (width height : Z) : list field :=
  let image_order := match host with little => 0 | big => 1 end in
  [U32 1; U32 client; U32 client_resource_mask; U32 0; U16 4; U16 maximum_core_request_units;
   U8 1; U8 5; U8 image_order; U8 image_order; U8 32; U8 32; U8 minimum_keycode;
   U8 maximum_keycode; Pad 4; U8 88; U8 109; U8 105; U8 110] ++
  concat (map (fun format => [U8 format.1; U8 format.2; U8 32; Pad 5]) setup_pixmap_formats) ++
  [U32 root_window_id; U32 default_colormap_id; U32 0x00ffffff; U32 0; U32 0; U16 width; U16 height;
   U16 (millimetres width); U16 (millimetres height); U16 1; U16 1; U32 root_visual_id; U8 0; U8 0;
   U8 24; U8 5] ++
  concat (map setup_depth_fields [1; 4; 8; 24; 32]).

Definition send_setup_success (host order : ByteOrder) : M unit := fun w =>
  let '(width, height) := screen_size (E := E) (server w) in
  let payload := bytes_ (write_fields (setup_payload host width height) (writer order)) in
  (if negb (Z.land (zlen payload) 3 =? 0) || (zlen payload / 4 >? 65535) then fail malformed
   else
     on_output (queue (bytes_ (write_bytes payload (write_fields
       [U8 1; U8 0; U16 protocol_major; U16 protocol_minor; U16 (zlen payload / 4)]
       (writer order)))))) w.

Definition cookies_equal (left right : list Z) : bool :=
  if negb (zlen left =? zlen right) then false
  else
    foldl (fun difference pair => Z.lor difference (Z.lxor pair.1 pair.2)) 0 (combine left right) =? 0.

(** ["X11 protocol 11.0 required"]. *)
Definition protocol_required : list Z :=
  [88; 49; 49; 32; 112; 114; 111; 116; 111; 99; 111; 108; 32; 49; 49; 46; 48; 32; 114; 101; 113;
   117; 105; 114; 101; 100].

(** ["Authentication failed"]. *)
Definition authentication_failed : list Z :=
  [65; 117; 116; 104; 101; 110; 116; 105; 99; 97; 116; 105; 111; 110; 32; 102; 97; 105; 108; 101; 100].

(** The tail shared by the two refusals of a setup. *)
Definition refuse_setup (order : ByteOrder) (reason : list Z) : M bool :=
  do _ <- send_setup_failure order reason ;
  do _ <- clear_input ;
  do _ <- close_after_output ;
  ret true.

Definition process_setup_prefix : M bool :=
  do c <- get_connection ;
  let prefix_size := 12 in
  if zlen (input_ c) <? prefix_size then ret false
  else
    let first := default 0 (input_ c !! 0%nat) in
    match (if first =? 108 then Some little else if first =? 66 then Some big else None) with
    | None => fail malformed
    | Some order =>
        let reader := reader_of (take 12 (input_ c)) order in
        let '(byte_order, reader) := read_u8 reader in
        let '(unused, reader) := read_u8 reader in
        let '(major, reader) := read_u16 reader in
        let '(minor, reader) := read_u16 reader in
        let '(auth_name_size, reader) := read_u16 reader in
        let '(auth_data_size, reader) := read_u16 reader in
        match byte_order, unused, major, minor, auth_name_size, auth_data_size, (skip 2 reader).1 with
        | Some _, Some _, Some major, Some minor, Some name_size, Some data_size, true =>
            do _ <- consume_input prefix_size ;
            do _ <- on_connection (fun c => c <| byte_order_ := Some order |>) ;
            if negb (major =? protocol_major) || negb (minor =? protocol_minor)
            then refuse_setup order protocol_required
            else
              match padded_to_four name_size, padded_to_four data_size with
              | Some padded_name, Some padded_data =>
                  if (padded_name >? 1024) || (padded_data >? 1024) then fail malformed
                  else
                    match checked_add Unsigned 64 padded_name padded_data with
                    | None => fail malformed
                    | Some payload_size =>
                        do _ <- on_connection (fun c => c <| setup_payload_size_ := payload_size |>
                          <| setup_name_size_ := name_size |> <| setup_data_size_ := data_size |>
                          <| setup_padded_name_size_ := padded_name |>
                          <| state_ := setup_authentication |>) ;
                        ret true
                    end
              | _, _ => fail malformed
              end
        | _, _, _, _, _, _, _ => fail malformed
        end
    end.

(** [host] is the byte order of the machine. *)
Definition process_setup_authentication (host : ByteOrder) : M bool :=
  do c <- get_connection ;
  if zlen (input_ c) <? setup_payload_size_ c then ret false
  else
    match byte_order_ c with
    | None => fail malformed
    | Some order =>
        let auth_name := take (Z.to_nat (setup_name_size_ c)) (input_ c) in
        let auth_data := take (Z.to_nat (setup_data_size_ c))
          (drop (Z.to_nat (setup_padded_name_size_ c)) (input_ c)) in
        do _ <- consume_input (setup_payload_size_ c) ;
        let authenticated :=
          if allow_unauthenticated config
          then bool_decide (auth_name = []) && bool_decide (auth_data = [])
          else negb (bool_decide (cookie config = [])) && bool_decide (auth_name = cookie_protocol) &&
               cookies_equal auth_data (cookie config) in
        if negb authenticated then refuse_setup order authentication_failed
        else
          do registered <- server_register_client ;
          if negb registered then fail busy
          else
            do _ <- send_setup_success host order ;
            do _ <- on_connection (fun c => c <| state_ := requests |>) ;
            ret true
    end.

(** ** Requests *)

(** The end of [process_request], once the size of the request is known. *)
Definition process_sized_request (order : ByteOrder) (opcode data wire_header_size request_size
    maximum_size : Z) : M bool :=
  do c <- get_connection ;
  if (request_size <? wire_header_size) || (request_size >? maximum_size) then
    do _ <- on_output (send_error order bad_length opcode (sequence_ c) 0 0) ;
    do _ <- clear_input ;
    do _ <- close_after_output ;
    ret true
  else if zlen (input_ c) <? request_size then
    do _ <- set_sequence_number (u16 (sequence_ c - 1)) ;
    ret false
  else
    let request :=
      if wire_header_size =? 4 then take (Z.to_nat request_size) (input_ c)
      else take 4 (input_ c) ++
           take (Z.to_nat (request_size - wire_header_size)) (drop (Z.to_nat wire_header_size) (input_ c)) in
    do _ <- consume_input request_size ;
    do _ <- on_server (advance_time (E := E)) ;
    do _ <- run_dispatch (mkContext order opcode data (sequence_ c) request) ;
    ret true.

(** The length of a big request, when the length of the header is 0. *)
Definition process_extended_request (order : ByteOrder) (opcode data : Z) : M bool :=
  do c <- get_connection ;
  if negb (big_requests_enabled_ (session c)) then
    do _ <- consume_input 4 ;
    do _ <- on_output (send_error order bad_length opcode (sequence_ c) 0 0) ;
    ret true
  else if zlen (input_ c) <? 8 then
    do _ <- set_sequence_number (u16 (sequence_ c - 1)) ;
    ret false
  else
    match (read_u32 (reader_of (take 4 (drop 4 (input_ c))) order)).1 with
    | None => fail malformed
    | Some extended_length_units =>
        process_sized_request order opcode data 8
          (default 0 (checked_multiply 64 extended_length_units 4)) maximum_extended_request_bytes
    end.

(** The request after its header of four bytes. *)
Definition process_header (order : ByteOrder) (opcode data length_units : Z) : M bool :=
  do c <- get_connection ;
  do _ <- set_sequence_number (u16 (sequence_ c + 1)) ;
  if length_units =? 0 then process_extended_request order opcode data
  else
    process_sized_request order opcode data 4
      (default 0 (checked_multiply 64 length_units 4)) maximum_core_request_bytes.

Definition process_request : M bool :=
  do c <- get_connection ;
  if zlen (input_ c) <? 4 then ret false
  else
    match byte_order_ c with
    | None => fail malformed
    | Some order =>
        let header := reader_of (take 4 (input_ c)) order in
        let '(opcode, header) := read_u8 header in
        let '(data, header) := read_u8 header in
        let '(length_units, _) := read_u16 header in
        match opcode, data, length_units with
        | Some opcode, Some data, Some length_units => process_header order opcode data length_units
        | _, _, _ => fail malformed
        end
    end.

(** The guard of the loop of [process_input]. *)
Definition may_process (w : World) : bool :=
  let c := connection w in
  negb (finished_ c) && negb (close_after_output_ c) &&
  negb (bool_decide (state_ c = requests) && sync_waiting (E := E) (server w) client).

Definition mark_resume : M unit := fun w =>
  let c := connection w in
  if bool_decide (state_ c = requests) && sync_waiting (E := E) (server w) client
  then on_connection (fun c => c <| resume_sync_input_ := true |>) w
  else ret tt w.

(** The [switch] on the state. *)
Definition process_state (host : ByteOrder) (state : State) : M bool :=
  match state with
  | setup_prefix => process_setup_prefix
  | setup_authentication => process_setup_authentication host
  | requests => process_request
  end.

(** Queued events go out before the replies to newer requests. *)
Definition drain_first (state : State) : M unit :=
  if bool_decide (state = requests) then drain_pending_events else ret tt.

(** One turn of the loop: true when it should go on. *)
Definition process_turn (host : ByteOrder) : M bool :=
  do c <- get_connection ;
  do _ <- drain_first (state_ c) ;
  do processed <- process_state host (state_ c) ;
  if negb processed then ret false
  else do _ <- mark_resume ; ret true.

Fixpoint process_loop (fuel : nat) (host : ByteOrder) : M unit := fun w =>
  if negb (may_process w) then ret tt w
  else
    match fuel with
    | O => out_of_fuel
    | Datatypes.S fuel =>
        (do more <- process_turn host ;
         if more then process_loop fuel host else ret tt) w
    end.

(** Every turn that goes on consumes a request of at least four bytes or
    advances the setup. *)
Definition input_fuel (w : World) : nat := Datatypes.S (Datatypes.S (length (input_ (connection w)))).

Definition reset_resume (w : World) : World :=
  let c := connection w in
  if bool_decide (state_ c = requests) && negb (sync_waiting (E := E) (server w) client)
  then w <| connection := c <| resume_sync_input_ := false |> |> else w.

Definition process_input (host : ByteOrder) : M unit := fun w =>
  process_loop (input_fuel w) host (reset_resume w).

(** ** Reading from the socket

    The branch [count > 0] of [on_readable]: what happens to one block of
    received bytes. *)
Definition may_read (w : World) : bool := may_process w.

Definition receive (host : ByteOrder) (bytes : list Z) : M unit :=
  do c <- get_connection ;
  match checked_add Unsigned 64 (zlen (input_ c)) (zlen bytes) with
  | None => fail malformed
  | Some new_size =>
      if new_size >? maximum_buffered_input then fail malformed
      else
        do _ <- on_connection (fun c => c <| input_ := input_ c ++ bytes |>) ;
        process_input host
  end.

(** The loop of [on_readable] over the blocks that [read] would return; the
    answer is the blocks left in the socket when the connection stops reading. *)
Fixpoint receive_all (host : ByteOrder) (blocks : list (list Z)) : M (list (list Z)) := fun w =>
  if negb (may_read w) then ret blocks w
  else
    match blocks with
    | [] => ret [] w
    | block :: rest => (do _ <- receive host block ; receive_all host rest) w
    end.

Context {CL : ConnectionServerLaws S E}.

(** ** Steps that do not look at the input *)

Definition add_input (bytes : list Z) (w : World) : World :=
  w <| connection := (connection w) <| input_ := input_ (connection w) ++ bytes |> |>.

Definition after {A} (f : World -> World) (r : run (World * Result A)) : run (World * Result A) :=
  match r with
  | finished (w, x) => finished (f w, x)
  | out_of_fuel => out_of_fuel
  end.

(** [m] does the same whatever follows in the input. *)
Definition blind {A} (m : M A) : Prop := forall bytes w, m (add_input bytes w) = after (add_input bytes) (m w).

Lemma blind_ret {A} (a : A) : blind (ret a).
Proof. done. Qed.

Lemma blind_fail {A} code : blind (@fail A code).
Proof. done. Qed.

Lemma blind_bind {A B} (m : M A) (k : A -> M B) :
  blind m -> (forall a, blind (k a)) -> blind (bind m k).
Proof.
  intros Hm Hk bytes w. unfold bind. rewrite Hm. destruct (m w) as [[w' [a|e]]|]; simpl; [apply Hk|done|done].
Qed.

Lemma blind_get {B} (k : Connection E -> M B) :
  (forall c bytes, k (c <| input_ := input_ c ++ bytes |>) = k c) ->
  (forall c, blind (k c)) -> blind (do c <- get_connection ; k c).
Proof.
  intros Hc Hk bytes w.
  change (k ((connection w) <| input_ := input_ (connection w) ++ bytes |>) (add_input bytes w) =
    after (add_input bytes) (k (connection w) w)).
  rewrite Hc. apply Hk.
Qed.

Lemma blind_on_connection f :
  (forall c bytes, f (c <| input_ := input_ c ++ bytes |>) = (f c) <| input_ := input_ (f c) ++ bytes |>) ->
  blind (on_connection f).
Proof. 
  intros Hf bytes w. pose proof (Hf (connection w) bytes) as He. unfold on_connection, add_input.
  simpl in *. by rewrite He.
Qed.

Lemma blind_on_output f : blind (on_output f).
Proof. intros bytes w. unfold on_output, add_input. simpl. by destruct (f _). Qed.

Lemma blind_on_server f : blind (on_server f).
Proof. done. Qed.

Lemma blind_register : blind server_register_client.
Proof. intros bytes w. unfold server_register_client, add_input. simpl. by destruct (register_client _ _). Qed.

Lemma blind_dispatch context : blind (run_dispatch context).
Proof. intros bytes w. unfold run_dispatch, add_input. simpl. by destruct (dispatch _ _ _) as [[s se] r]. Qed.

Lemma blind_close : blind close_after_output.
Proof. apply blind_on_connection. intros c bytes. simpl. by destruct (_ =? _). Qed.

Lemma blind_set_sequence n : blind (set_sequence_number n).
Proof. apply blind_bind; [by apply blind_on_connection|]. intros. apply blind_on_server. Qed.

Lemma blind_mark_resume : blind mark_resume.
Proof.
  intros bytes w. unfold mark_resume.
  change (server (add_input bytes w)) with (server w).
  change (state_ (connection (add_input bytes w))) with (state_ (connection w)).
  by destruct (_ && _).
Qed.

Create HintDb blind discriminated.
#[local] Hint Resolve blind_ret blind_fail blind_on_output blind_on_server blind_register blind_dispatch
  blind_close blind_set_sequence blind_mark_resume : blind.

Lemma blind_drain_loop fuel : blind (drain_loop fuel).
Proof.
  induction fuel as [|fuel IH]; intros bytes w; simpl;
    change (server (add_input bytes w)) with (server w);
    (destruct (queued_events (server w) client) as [|event rest]; [done|]); [done|].
  refine (blind_get _ _ _ bytes w); [done|]. intros c.
  destruct (negb _); [done|]. apply blind_bind; [auto with blind|]. intros.
  apply blind_bind; auto with blind.
Qed.

Lemma blind_drain : blind drain_pending_events.
Proof. intros bytes w. unfold drain_pending_events. apply blind_drain_loop. Qed.

Lemma blind_send_setup_failure order reason : blind (send_setup_failure order reason).
Proof. unfold send_setup_failure. destruct (padded_to_four _); auto with blind. Qed.

Lemma blind_send_setup_success host order : blind (send_setup_success host order).
Proof.
  intros bytes w. unfold send_setup_success. change (server (add_input bytes w)) with (server w).
  destruct (screen_size (server w)) as [width height]. destruct (_ || _); [done|]. apply blind_on_output.
Qed.
#[local] Hint Resolve blind_drain blind_send_setup_failure blind_send_setup_success : blind.

(** ** Turns and what follows in the input

    [turns bytes m w]: [m] takes a turn on the input it sees in [w], and would
    take the same turn with [bytes] following. *)
Definition turns (bytes : list Z) (m : M bool) (w : World) : Prop :=
  match m w with
  | finished (w', success true) =>
      exists w'', m (add_input bytes w) = finished (w'', success true) /\
        (w'' = add_input bytes w' \/ close_after_output_ (connection w') = true /\ w'' = w')
  | finished (_, success false) => False
  | finished (_, failure code) => exists w'', m (add_input bytes w) = finished (w'', failure code)
  | out_of_fuel => True
  end.

Lemma turns_ret bytes w : turns bytes (ret true) w.
Proof. eexists. split; [done|by left]. Qed.

Lemma turns_fail bytes code w : turns bytes (fail code) w.
Proof. by eexists. Qed.

Lemma turns_blind {A} bytes (m : M A) k w :
  blind m -> (forall a w', m w = finished (w', success a) -> turns bytes (k a) w') -> turns bytes (bind m k) w.
Proof.
  intros Hm Hk. unfold turns, bind. rewrite Hm.
  destruct (m w) as [[w' [a|code]]|] eqn:Hmw; simpl; [by apply Hk|by eexists|done].
Qed.

Lemma turns_consume bytes n k w :
  n <= zlen (input_ (connection w)) ->
  (forall w', consume_input n w = finished (w', success tt) -> turns bytes k w') ->
  turns bytes (do _ <- consume_input n ; k) w.
Proof.
  intros Hn Hk. specialize (Hk _ eq_refl). unfold turns in *.
  change ((do _ <- consume_input n ; k) w) with
    (k (w <| connection := (connection w) <| input_ := drop (Z.to_nat n) (input_ (connection w)) |> |>)).
  assert ((do _ <- consume_input n ; k) (add_input bytes w) =
    k (add_input bytes (w <| connection := (connection w) <| input_ := drop (Z.to_nat n) (input_ (connection w)) |> |>))) as ->; [|done].
  unfold bind, consume_input, on_connection, add_input. simpl. f_equal. do 2 f_equal.
  rewrite drop_app_le; [done|]. unfold zlen in Hn. lia.
Qed.

Lemma turns_clear bytes w :
  turns bytes (do _ <- clear_input ; do _ <- close_after_output ; ret true) w.
Proof.
  unfold turns. eexists. split; [reflexivity|]. right. simpl. by destruct (_ =? _).
Qed.

Lemma turns_refuse bytes order reason w : turns bytes (refuse_setup order reason) w.
Proof.
  unfold refuse_setup. apply turns_blind; [auto with blind|]. intros [] w' _. apply turns_clear.
Qed.

Lemma turns_get bytes (k : Connection E -> M bool) w :
  k (connection (add_input bytes w)) = k (connection w) -> turns bytes (k (connection w)) w ->
  turns bytes (do c <- get_connection ; k c) w.
Proof.
  intros Hk Ht. unfold turns in *. change ((do c <- get_connection ; k c) w) with (k (connection w) w).
  change ((do c <- get_connection ; k c) (add_input bytes w)) with
    (k (connection (add_input bytes w)) (add_input bytes w)).
  by rewrite Hk.
Qed.

(** Reading from a prefix that is there. *)
Lemma take_prefix n (l k : list Z) : Z.of_nat n <= zlen l -> take n (l ++ k) = take n l.
Proof. intros Hn. apply take_app_le. unfold zlen in Hn. lia. Qed.

Lemma drop_prefix n (l k : list Z) : Z.of_nat n <= zlen l -> drop n (l ++ k) = drop n l ++ k.
Proof. intros Hn. apply drop_app_le. unfold zlen in Hn. lia. Qed.

Lemma longer_input (l k : list Z) n : (zlen l <? n) = false -> (zlen (l ++ k) <? n) = false.
Proof. rewrite zlen_app, !Z.ltb_ge. pose proof (zlen_nonneg k). lia. Qed.

Lemma zlen_drop n (l : list Z) : Z.of_nat n <= zlen l -> zlen (drop n l) = zlen l - Z.of_nat n.
Proof. unfold zlen. rewrite length_drop. lia. Qed.

Lemma prefix_turn bytes w :
  process_setup_prefix w = finished (w, success false) \/ turns bytes process_setup_prefix w.
Proof.
  destruct (zlen (input_ (connection w)) <? 12) eqn:Hl.
  { left. unfold process_setup_prefix, bind at 1, get_connection. simpl. by rewrite Hl. }
  right. unfold process_setup_prefix. apply turns_get.
  { change (input_ (connection (add_input bytes w))) with (input_ (connection w) ++ bytes). cbv zeta.
    rewrite (longer_input _ bytes 12 Hl), Hl. bool_to_prop.
    rewrite take_prefix by lia. by rewrite lookup_app_l by (unfold zlen in Hl; lia). }
  cbv zeta. rewrite Hl. bool_to_prop.
  destruct (if _ =? 108 then _ else _) as [order|]; [|apply turns_fail].
  repeat match goal with |- context [let '(_, _) := ?o in _] => destruct o as [[]] end; try apply turns_fail.
  destruct (skip 2 _).1; [|apply turns_fail].
  apply turns_consume; [lia|]. intros ? _. apply turns_blind; [by apply blind_on_connection|]. intros _ ? _.
  destruct (_ || _); [apply turns_refuse|].
  destruct (padded_to_four _); [|apply turns_fail]. destruct (padded_to_four _); [|apply turns_fail].
  destruct (_ || _); [apply turns_fail|]. destruct (checked_add _ _ _ _); [|apply turns_fail].
  apply turns_blind; [by apply blind_on_connection|]. intros _ ? _. apply turns_ret.
Qed.

(** ** The invariant of the framing state *)

Record framing_ok (c : Connection E) : Prop := {
  ok_sequence : is_unsigned 16 (sequence_ c);
  ok_setup_resume : state_ c <> requests -> resume_sync_input_ c = false;
  ok_setup_sizes : state_ c = setup_authentication ->
    0 <= setup_name_size_ c <= setup_padded_name_size_ c /\ 0 <= setup_data_size_ c /\
    setup_padded_name_size_ c + setup_data_size_ c <= setup_payload_size_ c
}.

Lemma authentication_turn host bytes w :
  framing_ok (connection w) -> state_ (connection w) = setup_authentication ->
  process_setup_authentication host w = finished (w, success false) \/
  turns bytes (process_setup_authentication host) w.
Proof.
  intros Hok Hst. destruct (ok_setup_sizes _ Hok Hst) as (Hn & Hd & Hp).
  destruct (zlen (input_ (connection w)) <? setup_payload_size_ (connection w)) eqn:Hl.
  { left. unfold process_setup_authentication, bind at 1, get_connection. simpl. by rewrite Hl. }
  right. unfold process_setup_authentication. apply turns_get.
  { change (input_ (connection (add_input bytes w))) with (input_ (connection w) ++ bytes).
    change (setup_payload_size_ (connection (add_input bytes w))) with (setup_payload_size_ (connection w)).
    rewrite (longer_input _ bytes _ Hl), Hl. bool_to_prop.
    change (setup_name_size_ (connection (add_input bytes w))) with (setup_name_size_ (connection w)).
    change (setup_data_size_ (connection (add_input bytes w))) with (setup_data_size_ (connection w)).
    change (setup_padded_name_size_ (connection (add_input bytes w))) with (setup_padded_name_size_ (connection w)).
    rewrite take_prefix by lia. rewrite drop_prefix by lia.
    rewrite take_prefix by (rewrite zlen_drop; lia). done. }
  cbv zeta. rewrite Hl. bool_to_prop.
  destruct (byte_order_ (connection w)) as [order|]; [|apply turns_fail].
  apply turns_consume; [lia|]. intros ? _.
  match goal with |- context [if negb ?b then _ else _] => destruct b end; simpl; [|apply turns_refuse].
  apply turns_blind; [auto with blind|]. intros registered ? _. destruct registered; [|apply turns_fail].
  apply turns_blind; [auto with blind|]. intros _ ? _.
  apply turns_blind; [by apply blind_on_connection|]. intros _ ? _. apply turns_ret.
Qed.

(** ** Incomplete requests *)

(** The world after [set_sequence_number]. *)
Definition noted (n : Z) (w : World) : World :=
  w <| connection := (connection w) <| sequence_ := n |> |>
    <| server := note_client_sequence (E := E) (server w) client n |>.

Lemma set_sequence_noted n w : set_sequence_number n w = finished (noted n w, success tt).
Proof. done. Qed.

Lemma noted_noted n k w : noted k (noted n w) = noted k w.
Proof. unfold noted. simpl. by rewrite note_note. Qed.

(** Runs a leading [set_sequence_number]. *)
Ltac run_noted :=
  match goal with
  | |- context [bind (set_sequence_number ?n) ?k ?w] =>
      change (bind (set_sequence_number n) k w) with (k tt (noted n w)); cbv beta
  | Hr : context [bind (set_sequence_number ?n) ?k ?w] |- _ =>
      change (bind (set_sequence_number n) k w) with (k tt (noted n w)) in Hr; cbv beta in Hr
  end.

Lemma sequence_back n : is_unsigned 16 n -> u16 (u16 (n + 1) - 1) = n.
Proof. intros Hn. rewrite wrap_sub_l. rewrite wrap_id; [lia|]. by replace (n + 1 - 1) with n by lia. Qed.

(** A request whose end has not arrived: the sequence number is put back. *)
Lemma sized_request_short order opcode data header size maximum w w' :
  process_sized_request order opcode data header size maximum w = finished (w', success false) ->
  w' = noted (u16 (sequence_ (connection w) - 1)) w.
Proof.
  unfold process_sized_request, bind at 1, get_connection. simpl.
  destruct ((size <? header) || _).
  { unfold bind. destruct (on_output _ _) as [[? [[]|]]|]; done. }
  destruct (zlen _ <? size); [by intros [= <-]|].
  unfold bind. simpl. destruct (run_dispatch _ _) as [[? [[]|]]|]; done.
Qed.

Lemma extended_request_short order opcode data w w' :
  process_extended_request order opcode data w = finished (w', success false) ->
  w' = noted (u16 (sequence_ (connection w) - 1)) w.
Proof.
  unfold process_extended_request, bind at 1, get_connection.
  destruct (negb _).
  - unfold bind, consume_input, on_connection. destruct (on_output _ _) as [[? [[]|]]|]; done.
  - destruct (zlen _ <? 8); [run_noted; by intros [= <-]|].
    destruct (read_u32 _).1; [|done]. apply sized_request_short.
Qed.

(** The header is the same request whether or not its sequence number was
    counted and put back before. *)
Lemma header_again order opcode data units v w :
  connection v = connection w ->
  server v = server w \/ (exists n, server v = note_client_sequence (E := E) (server w) client n) ->
  process_header order opcode data units v = process_header order opcode data units w.
Proof.
  intros Hv Hs. assert (forall n, noted n v = noted n w) as Hn.
  { intros n. unfold noted. rewrite Hv. destruct Hs as [-> | [k ->]]; [done|]. by rewrite note_note. }
  unfold process_header.
  unfold bind at 1, get_connection at 1. run_noted. rewrite Hv, Hn.
  unfold bind at 1, get_connection at 1. by run_noted.
Qed.

Lemma header_short order opcode data units w w' :
  framing_ok (connection w) -> process_header order opcode data units w = finished (w', success false) ->
  w' = noted (sequence_ (connection w)) w.
Proof.
  intros Hok. pose proof (sequence_back _ (ok_sequence _ Hok)) as Hseq.
  assert (noted (sequence_ (connection w)) w = noted (u16 (u16 (sequence_ (connection w) + 1) - 1))
    (noted (u16 (sequence_ (connection w) + 1)) w)) as -> by (by rewrite noted_noted, Hseq).
  unfold process_header, bind at 1, get_connection. run_noted. destruct (units =? 0).
  - apply extended_request_short.
  - apply sized_request_short.
Qed.

Lemma request_short w w' :
  framing_ok (connection w) -> process_request w = finished (w', success false) ->
  w' = w \/
  (w' = noted (sequence_ (connection w)) w /\
   forall bytes, process_request (add_input bytes w') = process_request (add_input bytes w)).
Proof.
  intros Hok Hr. unfold process_request, bind at 1, get_connection in Hr. revert Hr.
  destruct (zlen (input_ (connection w)) <? 4) eqn:Hl; [intros [= <-]; by left|].
  destruct (byte_order_ (connection w)) as [order|] eqn:Ho; [|done].
  destruct (read_u8 (reader_of _ order)) as [[opcode|] h1] eqn:E1; [|by destruct (read_u8 h1), (read_u16 _)].
  destruct (read_u8 h1) as [[data|] h2] eqn:E2; [|by destruct (read_u16 _)].
  destruct (read_u16 h2) as [[units|] h3] eqn:E3; [|done].
  intros ->%header_short; [|done]. right. split; [done|]. intros bytes.
  unfold process_request, bind at 1 2, get_connection.
  change (input_ (connection (add_input bytes (noted (sequence_ (connection w)) w))))
    with (input_ (connection w) ++ bytes).
  change (input_ (connection (add_input bytes w))) with (input_ (connection w) ++ bytes).
  change (byte_order_ (connection (add_input bytes (noted (sequence_ (connection w)) w))))
    with (byte_order_ (connection w)).
  change (byte_order_ (connection (add_input bytes w))) with (byte_order_ (connection w)).
  rewrite (longer_input _ bytes 4 Hl). bool_to_prop. rewrite take_prefix, Ho, E1, E2, E3 by done.
  apply header_again; [by destruct w as [? []]|right; by eexists].
Qed.

Definition short_or_turns (bytes : list Z) (m : M bool) (w : World) : Prop :=
  (exists w', m w = finished (w', success false)) \/ turns bytes m w.

Lemma short_or_blind {A} bytes (m : M A) k w :
  blind m -> (forall a w', m w = finished (w', success a) -> short_or_turns bytes (k a) w') ->
  short_or_turns bytes (bind m k) w.
Proof.
  intros Hm Hk. destruct (m w) as [[w' [a|code]]|] eqn:Hmw.
  - destruct (Hk a w' eq_refl) as [(w'' & Hs)|Ht].
    + left. exists w''. unfold bind. by rewrite Hmw.
    + right. apply turns_blind; [done|]. intros a' w''. rewrite Hmw. by intros [= <- <-].
  - right. apply turns_blind; [done|]. intros a' w''. by rewrite Hmw.
  - right. apply turns_blind; [done|]. intros a' w''. by rewrite Hmw.
Qed.

Lemma sized_turn bytes order opcode data header size maximum w :
  4 <= header ->
  short_or_turns bytes (process_sized_request order opcode data header size maximum) w.
Proof.
  intros Hh. destruct ((size <? header) || (size >? maximum)) eqn:Hsz.
  { right. unfold process_sized_request. apply turns_get.
    { by rewrite Hsz. } { rewrite Hsz. apply turns_blind; [auto with blind|]. intros ? ? _. apply turns_clear. } }
  destruct (zlen (input_ (connection w)) <? size) eqn:Hl.
  { left. eexists. unfold process_sized_request, bind at 1, get_connection. rewrite Hsz, Hl. reflexivity. }
  right. bool_to_prop. unfold process_sized_request. apply turns_get.
  { rewrite (proj2 (orb_false_iff _ _)) by (split; lia).
    change (input_ (connection (add_input bytes w))) with (input_ (connection w) ++ bytes).
    change (sequence_ (connection (add_input bytes w))) with (sequence_ (connection w)).
    rewrite (longer_input _ bytes size), (proj2 (Z.ltb_ge _ _)) by (done || by apply Z.ltb_ge).
    rewrite !take_prefix, drop_prefix by lia. rewrite take_prefix by (rewrite zlen_drop; lia). done. }
  rewrite (proj2 (orb_false_iff _ _)) by (split; lia). rewrite (proj2 (Z.ltb_ge _ _)) by done. cbv zeta.
  apply turns_consume; [done|]. intros ? _.
  apply turns_blind; [auto with blind|]. intros [] ? _.
  apply turns_blind; [auto with blind|]. intros [] ? _. apply turns_ret.
Qed.

Lemma short_or_get bytes (k : Connection E -> M bool) w :
  k (connection (add_input bytes w)) = k (connection w) -> short_or_turns bytes (k (connection w)) w ->
  short_or_turns bytes (do c <- get_connection ; k c) w.
Proof. intros Hk [Hs|Ht]; [by left|right]. by apply turns_get. Qed.

Lemma extended_turn bytes order opcode data w :
  4 <= zlen (input_ (connection w)) ->
  short_or_turns bytes (process_extended_request order opcode data) w.
Proof.
  intros Hl. unfold process_extended_request.
  destruct (negb (big_requests_enabled_ (session (connection w)))) eqn:Hbig.
  { apply short_or_get.
    { change (session (connection (add_input bytes w))) with (session (connection w)). by rewrite Hbig. }
    rewrite Hbig. right. apply turns_consume; [done|]. intros ? _.
    apply turns_blind; [auto with blind|]. intros [] ? _. apply turns_ret. }
  destruct (zlen (input_ (connection w)) <? 8) eqn:Hl8.
  { left. eexists. unfold bind at 1, get_connection. rewrite Hbig, Hl8. reflexivity. }
  apply short_or_get.
  { change (session (connection (add_input bytes w))) with (session (connection w)).
    change (input_ (connection (add_input bytes w))) with (input_ (connection w) ++ bytes).
    rewrite Hbig, (longer_input _ bytes 8 Hl8), Hl8. bool_to_prop.
    rewrite drop_prefix, take_prefix by (rewrite ?zlen_drop; lia). done. }
  rewrite Hbig, Hl8. destruct (read_u32 _).1; [|right; apply turns_fail]. by apply sized_turn.
Qed.

Lemma header_turn bytes order opcode data units w :
  4 <= zlen (input_ (connection w)) ->
  short_or_turns bytes (process_header order opcode data units) w.
Proof.
  intros Hl. unfold process_header. apply short_or_get; [done|].
  apply short_or_blind; [auto with blind|]. intros [] w' [= <-].
  destruct (units =? 0); [by apply extended_turn|by apply sized_turn].
Qed.

Lemma request_turn bytes w : short_or_turns bytes process_request w.
Proof.
  destruct (zlen (input_ (connection w)) <? 4) eqn:Hl.
  { left. eexists. unfold process_request, bind at 1, get_connection. rewrite Hl. reflexivity. }
  unfold process_request. apply short_or_get.
  { change (input_ (connection (add_input bytes w))) with (input_ (connection w) ++ bytes).
    rewrite (longer_input _ bytes 4 Hl), Hl. bool_to_prop. by rewrite take_prefix. }
  rewrite Hl. bool_to_prop.
  destruct (byte_order_ _) as [order|]; [|right; apply turns_fail].
  destruct (read_u8 _) as [[opcode|] h1]; destruct (read_u8 h1) as [[data|] h2];
    destruct (read_u16 h2) as [[units|] h3]; try (right; apply turns_fail).
  by apply header_turn.
Qed.

(** ** Totality

    Only the delivery of events runs on fuel, and it always has enough. *)
Definition total {A} (m : M A) : Prop := forall w, m w <> out_of_fuel.

Lemma total_bind {A B} (m : M A) (k : A -> M B) : total m -> (forall a, total (k a)) -> total (bind m k).
Proof.
  intros Hm Hk w. unfold bind. specialize (Hm w). destruct (m w) as [[w' [a|]]|]; [apply Hk|done|done].
Qed.

Lemma total_ret {A} (a : A) : total (ret a). Proof. done. Qed.
Lemma total_fail {A} code : total (@fail A code). Proof. done. Qed.
Lemma total_get : total get_connection. Proof. done. Qed.
Lemma total_on_connection f : total (on_connection f). Proof. done. Qed.
Lemma total_on_server f : total (on_server f). Proof. done. Qed.
Lemma total_on_output f : total (on_output f).
Proof. intros w. unfold on_output. by destruct (f _). Qed.
Lemma total_register : total server_register_client.
Proof. intros w. unfold server_register_client. by destruct (register_client _ _). Qed.
Lemma total_dispatch context : total (run_dispatch context).
Proof. intros w. unfold run_dispatch. by destruct (dispatch _ _ _) as [[? ?] ?]. Qed.

Create HintDb total discriminated.
#[local] Hint Resolve total_bind total_ret total_fail total_get total_on_connection total_on_server
  total_on_output total_register total_dispatch : total.

(** Goes through a computation, branch by branch. *)
Ltac total_step :=
  match goal with
  | |- total (bind _ _) => apply total_bind; [|intros]
  | |- total (match ?o with _ => _ end) => destruct o
  | |- total (let '(_, _) := ?o in _) => destruct o
  | |- total (let _ := _ in _) => cbv zeta
  | |- total _ => solve [auto with total]
  end.

Lemma drain_loop_total fuel : forall w,
  (length (queued_events (E := E) (server w) client) <= fuel)%nat -> drain_loop fuel w <> out_of_fuel.
Proof.
  induction fuel as [|fuel IH]; intros w Hf; simpl;
    destruct (queued_events (server w) client) as [|event rest] eqn:Hq; simpl in Hf; [done|lia|done|].
  unfold bind at 1, get_connection. destruct (negb _); [done|].
  unfold bind at 1. destruct (on_output _ w) as [[w1 [[]|]]|] eqn:Ho; [|done|by apply total_on_output in Ho].
  assert (server w1 = server w) as Hs.
  { unfold on_output in Ho. destruct (queue _ _). by injection Ho as <- _. }
  unfold bind. simpl. apply IH. simpl. rewrite pop_event_queue, Hs, Hq. simpl. lia.
Qed.

Lemma drain_total : total drain_pending_events.
Proof. intros w. by apply drain_loop_total. Qed.
#[local] Hint Resolve drain_total : total.

Lemma send_setup_success_total host order : total (send_setup_success host order).
Proof.
  intros w. unfold send_setup_success. destruct (screen_size _). destruct (_ || _); [done|].
  apply total_on_output.
Qed.

Lemma mark_resume_total : total mark_resume.
Proof. intros w. unfold mark_resume. by destruct (_ && _). Qed.
#[local] Hint Resolve send_setup_success_total mark_resume_total : total.

Lemma turn_total host : total (process_turn host).
Proof.
  unfold process_turn, drain_first, process_state, process_setup_prefix, process_setup_authentication, process_request, process_header,
    process_extended_request, process_sized_request, refuse_setup, send_setup_failure, set_sequence_number,
    consume_input, clear_input, close_after_output.
  repeat total_step.
Qed.

(** ** Assertions *)

Definition hoare {A} (P : World -> Prop) (m : M A) (Q : A -> World -> Prop) : Prop :=
  forall w, P w -> match m w with finished (w', success a) => Q a w' | _ => True end.

Lemma hoare_bind {A B} P (m : M A) R (k : A -> M B) Q :
  hoare P m R -> (forall a, hoare (R a) (k a) Q) -> hoare P (bind m k) Q.
Proof.
  intros Hm Hk w Hp. specialize (Hm w Hp). unfold bind. destruct (m w) as [[w' [a|]]|]; [|done|done].
  by apply Hk.
Qed.

Lemma hoare_ret {A} (P : World -> Prop) (a : A) (Q : A -> World -> Prop) :
  (forall w, P w -> Q a w) -> hoare P (ret a) Q.
Proof. intros HQ w Hp. by apply HQ. Qed.

Lemma hoare_fail {A} P code (Q : A -> World -> Prop) : hoare P (fail code) Q.
Proof. done. Qed.

(** The framing state during a turn: sound, not resuming, with at most [n]
    bytes of input, in state [st]. *)
Record framed_at (n : Z) (st : State) (w : World) : Prop := {
  at_ok : framing_ok (connection w);
  at_resume : resume_sync_input_ (connection w) = false;
  at_input : zlen (input_ (connection w)) <= n;
  at_state : state_ (connection w) = st
}.

(** Operations on the session and the server keep the assertion. *)
Lemma framed_at_session n st w o s :
  framed_at n st w ->
  framed_at n st (w <| connection := (connection w) <| session := o |> |> <| server := s |>).
Proof. intros [[] ? ? ?]. by split. Qed.

Definition keeps_framed {A} (m : M A) : Prop :=
  forall n st, hoare (framed_at n st) m (fun _ => framed_at n st).

Lemma keeps_on_output f : keeps_framed (on_output f).
Proof.
  intros n st w Hw. unfold on_output. destruct (f _) as [o [[]|]]; [|done].
  by apply (framed_at_session _ _ _ ((session (connection w)) <| output := o |>) (server w)) in Hw.
Qed.

Lemma keeps_on_server f : keeps_framed (on_server f).
Proof.
  intros n st w Hw. simpl.
  apply (framed_at_session _ _ _ (session (connection w)) (f (server w))) in Hw.
  destruct w as [s []]. done.
Qed.

Lemma keeps_dispatch context : keeps_framed (run_dispatch context).
Proof.
  intros n st w Hw. unfold run_dispatch. destruct (dispatch _ _ _) as [[s se] [[]|]]; [|done].
  by apply (framed_at_session _ _ _ se s) in Hw.
Qed.

Lemma keeps_register : keeps_framed server_register_client.
Proof.
  intros n st w Hw. unfold server_register_client. destruct (register_client _ _) as [s ok].
  apply (framed_at_session _ _ _ (session (connection w)) s) in Hw. destruct w as [? []]. done.
Qed.

Lemma keeps_bind {A B} (m : M A) (k : A -> M B) :
  keeps_framed m -> (forall a, keeps_framed (k a)) -> keeps_framed (bind m k).
Proof. intros Hm Hk n st. eapply hoare_bind; [apply Hm|]. intros a. apply Hk. Qed.

Lemma keeps_set_sequence k : is_unsigned 16 k -> keeps_framed (set_sequence_number k).
Proof.
  intros Hk. apply keeps_bind; [|intros; apply keeps_on_server].
  intros n st w [[] ? ? ?]. simpl. by split; [split|..].
Qed.

Lemma keeps_drain_loop fuel : keeps_framed (drain_loop fuel).
Proof.
  induction fuel as [|fuel IH]; intros n st w Hw; simpl; destruct (queued_events _ _); try done.
  unfold bind at 1, get_connection. destruct (negb _); [done|].
  refine (keeps_bind _ _ (keeps_on_output _) _ n st w Hw). intros _.
  apply keeps_bind; [apply keeps_on_server|done].
Qed.

Lemma keeps_drain : keeps_framed drain_pending_events.
Proof. intros n st w Hw. by apply keeps_drain_loop. Qed.

Lemma keeps_send_setup_success host order : keeps_framed (send_setup_success host order).
Proof.
  intros n st w Hw. unfold send_setup_success. destruct (screen_size _). destruct (_ || _); [done|].
  by apply keeps_on_output.
Qed.

Lemma hoare_consume n st k :
  0 <= k <= n -> hoare (framed_at n st) (consume_input k) (fun _ => framed_at (n - k) st).
Proof.
  intros Hk w [[] ? ? ?]. simpl. split; simpl; [by split|done| |done].
  unfold zlen in *. rewrite length_drop. lia.
Qed.

Definition turn_measure (n : Z) (st : State) : Z := n + (if bool_decide (st = requests) then 0 else 1).

(** The end of a turn that goes on: closed, or with less to do. *)
Definition turned (m : Z) (w : World) : Prop :=
  close_after_output_ (connection w) = true \/
  exists n st, framed_at n st w /\ turn_measure n st < m.

Definition turn_post (n : Z) (st : State) (more : bool) (w : World) : Prop :=
  if more then turned (turn_measure n st) w else framed_at n st w.

Lemma hoare_close (P : World -> Prop) n st :
  hoare P (do _ <- clear_input ; do _ <- close_after_output ; ret true) (turn_post n st).
Proof. intros w _. simpl. left. simpl. by destruct (_ =? _). Qed.

Lemma hoare_refuse n st n' st' order reason :
  hoare (framed_at n st) (refuse_setup order reason) (turn_post n' st').
Proof.
  unfold refuse_setup. eapply hoare_bind; [|intros; apply hoare_close].
  unfold send_setup_failure. destruct (padded_to_four _); [apply keeps_on_output|apply hoare_fail].
Qed.

(** Where the setup sizes come from. *)
Lemma read_u16_unsigned r v r' : read_u16 r = (Some v, r') -> is_unsigned 16 v.
Proof.
  unfold read_u16. destruct (_ <? _); [done|]. destruct (order_ r); intros [= <- _]; by apply wrap_range.
Qed.

Lemma padded_ge v p : is_unsigned 16 v -> padded_to_four v = Some p -> v <= p <= 65540.
Proof.
  unfold is_unsigned. intros Hv. rewrite padded_to_four_exact by (unfold is_unsigned; lia).
  case_decide; [|done]. intros [= <-].
  pose proof (Z.div_mod (v + 3) 4 ltac:(lia)). pose proof (Z.mod_pos_bound (v + 3) 4 ltac:(lia)). lia.
Qed.

Lemma checked_add_sum a b c :
  0 <= a <= 65540 -> 0 <= b <= 65540 -> checked_add Unsigned 64 a b = Some c -> c = a + b.
Proof.
  intros Ha Hb. rewrite checked_add_exact; [|lia|simpl; unfold is_unsigned; lia..].
  case_decide; [|done]. by intros [= <-].
Qed.

(** An assertion that pins the state the computation is built from. *)
Lemma hoare_get {B} (P : World -> Prop) (k : Connection E -> M B) Q :
  (forall w, P w -> match k (connection w) w with finished (w', success a) => Q a w' | _ => True end) ->
  hoare P (do c <- get_connection ; k c) Q.
Proof. intros Hk w Hw. by apply Hk. Qed.

Lemma hoare_prefix n :
  hoare (framed_at n setup_prefix) process_setup_prefix (turn_post n setup_prefix).
Proof.
  apply hoare_get. intros w Hw. cbv zeta.
  destruct (zlen (input_ (connection w)) <? 12) eqn:Hl; [exact Hw|]. bool_to_prop.
  pose proof (at_input _ _ _ Hw) as Hn.
  destruct (if _ =? 108 then _ else _) as [order|]; [|done].
  destruct (read_u8 _) as [o1 r1]. destruct (read_u8 r1) as [o2 r2].
  destruct (read_u16 r2) as [o3 r3]. destruct (read_u16 r3) as [o4 r4].
  destruct (read_u16 r4) as [o5 r5] eqn:E5. destruct (read_u16 r5) as [o6 r6] eqn:E6.
  destruct o1, o2, o3, o4, o5 as [name|], o6 as [dat|]; try done.
  apply read_u16_unsigned in E5, E6. destruct (skip 2 r6).1; [|done].
  assert (12 <= n) as H12 by lia.
  match goal with |- match ?m w with _ => _ end =>
    cut (hoare (framed_at n setup_prefix) m (turn_post n setup_prefix)); [intros Hh; by apply Hh|] end.
  eapply hoare_bind; [apply hoare_consume; lia|]. intros ?.
  eapply (hoare_bind _ _ (fun _ => framed_at (n - 12) setup_prefix)).
  { intros v [[] ? ? ?]. simpl. by split; [split|..]. }
  intros ?. destruct (_ || _); [apply hoare_refuse|].
  destruct (padded_to_four name) as [pn|] eqn:En; [|done].
  destruct (padded_to_four dat) as [pd|] eqn:Ed; [|done].
  destruct (_ || _); [done|]. destruct (checked_add _ _ _ _) as [size|] eqn:Es; [|done].
  apply padded_ge in En, Ed; [|done..]. unfold is_unsigned in E5, E6.
  apply checked_add_sum in Es as ->; [|lia..].
  intros v [[] ? ? ?]. simpl. right. exists (n - 12), setup_authentication. split.
  - split; simpl; try done. split; simpl; try done. lia.
  - unfold turn_measure. rewrite !bool_decide_false by done. lia.
Qed.

Lemma hoare_authentication host n :
  hoare (framed_at n setup_authentication) (process_setup_authentication host)
    (turn_post n setup_authentication).
Proof.
  apply hoare_get. intros w Hw.
  destruct (zlen (input_ (connection w)) <? setup_payload_size_ (connection w)) eqn:Hl; [exact Hw|].
  bool_to_prop. pose proof (at_input _ _ _ Hw) as Hn.
  destruct (ok_setup_sizes _ (at_ok _ _ _ Hw) (at_state _ _ _ Hw)) as (? & ? & ?).
  destruct (byte_order_ (connection w)) as [order|]; [|done].
  assert (0 <= setup_payload_size_ (connection w) <= n) as Hp by lia. cbv zeta.
  match goal with |- match ?m w with _ => _ end =>
    cut (hoare (framed_at n setup_authentication) m (turn_post n setup_authentication));
      [intros Hh; by apply Hh|] end.
  eapply hoare_bind; [by apply hoare_consume|]. intros ?.
  match goal with |- context [if negb ?b then _ else _] => destruct b end; simpl; [|apply hoare_refuse].
  eapply hoare_bind; [apply keeps_register|]. intros [|]; [|done]. simpl.
  eapply hoare_bind; [apply keeps_send_setup_success|]. intros ? v [[] ? ? ?]. simpl. right.
  eexists _, requests. split.
  - by split; [split|..].
  - unfold turn_measure. rewrite bool_decide_true, bool_decide_false by done. lia.
Qed.

Lemma hoare_sized n order opcode data header size maximum :
  4 <= header ->
  hoare (framed_at n requests) (process_sized_request order opcode data header size maximum)
    (turn_post n requests).
Proof.
  intros Hh. apply hoare_get. intros w Hw. pose proof (at_input _ _ _ Hw) as Hn.
  destruct ((size <? header) || (size >? maximum)) eqn:Hsz.
  { match goal with |- match ?m w with _ => _ end =>
      cut (hoare (framed_at n requests) m (turn_post n requests)); [intros Hr; by apply Hr|] end.
    eapply hoare_bind; [apply keeps_on_output|]. intros. apply hoare_close. }
  destruct (zlen (input_ (connection w)) <? size) eqn:Hl.
  { change (turn_post n requests false (noted (u16 (sequence_ (connection w) - 1)) w)).
    apply (keeps_set_sequence (u16 (sequence_ (connection w) - 1)) ltac:(by apply wrap_range) n requests w Hw). }
  bool_to_prop. cbv zeta.
  match goal with |- match ?m w with _ => _ end =>
    cut (hoare (framed_at n requests) m (turn_post n requests)); [intros Hr; by apply Hr|] end.
  eapply hoare_bind; [apply hoare_consume; lia|]. intros ?.
  eapply hoare_bind; [apply keeps_on_server|]. intros ?.
  eapply hoare_bind; [apply keeps_dispatch|]. intros ? v Hv. right.
  exists (n - size), requests. split; [done|]. unfold turn_measure. lia.
Qed.

Lemma hoare_header n order opcode data units :
  4 <= n ->
  hoare (framed_at n requests) (process_header order opcode data units) (turn_post n requests).
Proof.
  intros H4. apply hoare_get. intros w Hw.
  match goal with |- match ?m w with _ => _ end =>
    cut (hoare (framed_at n requests) m (turn_post n requests)); [intros Hr; by apply Hr|] end.
  eapply hoare_bind; [apply keeps_set_sequence; by apply wrap_range|]. intros ?.
  destruct (units =? 0); [|by apply hoare_sized].
  apply hoare_get. clear w Hw. intros w Hw. destruct (negb _).
  { match goal with |- match ?m w with _ => _ end =>
      cut (hoare (framed_at n requests) m (turn_post n requests)); [intros Hr; by apply Hr|] end.
    eapply hoare_bind; [apply hoare_consume; lia|]. intros ?.
    eapply hoare_bind; [apply keeps_on_output|]. intros ? v Hv. right.
    exists (n - 4), requests. split; [done|]. unfold turn_measure. lia. }
  destruct (zlen (input_ (connection w)) <? 8).
  { change (turn_post n requests false (noted (u16 (sequence_ (connection w) - 1)) w)).
    apply (keeps_set_sequence (u16 (sequence_ (connection w) - 1)) ltac:(by apply wrap_range) n requests w Hw). }
  destruct (read_u32 _).1; [|done]. by apply hoare_sized.
Qed.

Lemma hoare_request n : hoare (framed_at n requests) process_request (turn_post n requests).
Proof.
  apply hoare_get. intros w Hw. pose proof (at_input _ _ _ Hw) as Hn.
  destruct (zlen (input_ (connection w)) <? 4) eqn:Hl; [exact Hw|]. bool_to_prop.
  destruct (byte_order_ _) as [order|]; [|done]. cbv zeta.
  destruct (read_u8 _) as [[opcode|] h1]; destruct (read_u8 h1) as [[data|] h2];
    destruct (read_u16 h2) as [[units|] h3]; try done.
  apply hoare_header; [lia|done].
Qed.

(** ** Turns *)

(** Resuming is only recorded while the client waits. *)
Definition loop_ok (w : World) : Prop :=
  framing_ok (connection w) /\ (may_process w = true -> resume_sync_input_ (connection w) = false) /\
  (state_ (connection w) = requests -> sync_waiting (E := E) (server w) client = false ->
   resume_sync_input_ (connection w) = false).

Lemma framed_at_loop_ok n st w : framed_at n st w -> loop_ok w.
Proof. intros [? ? ? ?]. split_and!; auto. Qed.

Lemma mark_resume_loop_ok n st w w' :
  framed_at n st w -> mark_resume w = finished (w', success tt) ->
  loop_ok w' /\ zlen (input_ (connection w')) <= n /\ state_ (connection w') = st /\
  close_after_output_ (connection w') = close_after_output_ (connection w).
Proof.
  intros Hw. unfold mark_resume. destruct (_ && _) eqn:Hc; intros [= <-].
  - destruct Hw as [[] ? ? ?]. bool_to_prop.
    assert (may_process (w <| connection := (connection w) <| resume_sync_input_ := true |> |>) = false) as Hmay.
    { unfold may_process. simpl. rewrite bool_decide_true by done.
      match goal with H : sync_waiting _ _ = true |- _ => rewrite H end. by rewrite andb_false_r. }
    split; [split; [|split]|done].
    + split; simpl; first [done | intros; congruence].
    + simpl in Hmay |- *. congruence.
    + simpl. intros. congruence.
  - split_and!; [by eapply framed_at_loop_ok|by destruct Hw..|done].
Qed.

Lemma may_process_resume w : loop_ok w -> may_process w = true -> framed_at (zlen (input_ (connection w))) (state_ (connection w)) w.
Proof. intros (? & Hr & _) Hm. split; auto. done. Qed.

Definition world_measure (w : World) : Z := turn_measure (zlen (input_ (connection w))) (state_ (connection w)).

Lemma process_state_hoare host n st :
  hoare (framed_at n st) (process_state host st) (turn_post n st).
Proof. destruct st; [apply hoare_prefix|apply hoare_authentication|apply hoare_request]. Qed.

Lemma turn_progress host w w' more :
  loop_ok w -> may_process w = true -> process_turn host w = finished (w', success more) ->
  if more then close_after_output_ (connection w') = true \/ loop_ok w' /\ world_measure w' < world_measure w
  else loop_ok w' /\ world_measure w' <= world_measure w.
Proof.
  intros Hok Hm Ht. pose proof (may_process_resume w Hok Hm) as Hw.
  set (n := zlen (input_ (connection w))) in *. set (st := state_ (connection w)) in *.
  assert (hoare (framed_at n st) (process_turn host) (fun more w' =>
    if more then close_after_output_ (connection w') = true \/ loop_ok w' /\ world_measure w' < turn_measure n st
    else loop_ok w' /\ world_measure w' <= turn_measure n st)) as Hh.
  { unfold process_turn. apply hoare_get. intros v Hv. rewrite (at_state _ _ _ Hv).
    match goal with |- match ?m v with _ => _ end => cut (hoare (framed_at n st) m (fun more w' =>
      if more then close_after_output_ (connection w') = true \/ loop_ok w' /\ world_measure w' < turn_measure n st
      else loop_ok w' /\ world_measure w' <= turn_measure n st)); [intros Hr; by apply Hr|] end.
    eapply (hoare_bind _ _ (fun _ => framed_at n st)).
    { unfold drain_first. destruct (bool_decide _); [apply keeps_drain|by apply hoare_ret]. }
    intros ?. eapply hoare_bind; [apply process_state_hoare|]. intros [|]; simpl.
    2: { intros u Hu. split; [by eapply framed_at_loop_ok|]. destruct Hu as [_ _ Hi Hs].
      unfold world_measure, turn_measure. rewrite Hs. lia. }
    intros u Hu. unfold bind. destruct (mark_resume u) as [[u' [[]|]]|] eqn:Hmr; [|done|done]. simpl.
    destruct Hu as [Hcl|(n' & st' & Hu & Hlt)].
    - left. unfold mark_resume in Hmr. destruct (_ && _) in Hmr; by injection Hmr as <-.
    - right. destruct (mark_resume_loop_ok _ _ _ _ Hu Hmr) as (Hl & Hn & Hs & _). split; [done|].
      unfold world_measure, turn_measure in *. rewrite Hs. lia. }
  specialize (Hh w Hw). by rewrite Ht in Hh.
Qed.

(** Draining the queue of a client. *)
Lemma drain_loop_facts fuel : forall w w' r,
  drain_loop fuel w = finished (w', r) ->
  (exists o, connection w' = (connection w) <| session := o |>) /\
  (forall c, sync_waiting (E := E) (server w') c = sync_waiting (E := E) (server w) c) /\
  (r = success tt -> queued_events (E := E) (server w') client = []).
Proof.
  induction fuel as [|fuel IH]; intros w w' r; simpl;
    destruct (queued_events (server w) client) as [|event rest] eqn:Hq; try done.
  1, 2: intros [= <- <-]; split_and!; [by exists (session (connection w)); destruct (connection w)|done..].
  unfold bind at 1, get_connection. destruct (negb _).
  { intros [= <- <-]. split_and!; [by exists (session (connection w)); destruct (connection w)|done..]. }
  unfold bind at 1. unfold on_output. destruct (queue _ _) as [o [[]|code]].
  2: { intros [= <- <-]. split_and!; [by eexists|done..]. }
  unfold bind, on_server. intros (Hc & Hw & Hr)%IH. simpl in *. split_and!; [|..|done].
  - destruct Hc as [o' ->]. by exists o'.
  - intros c. rewrite Hw. apply pop_waiting.
Qed.

Lemma drain_nothing w : queued_events (E := E) (server w) client = [] -> drain_pending_events w = finished (w, success tt).
Proof. intros Hq. unfold drain_pending_events. rewrite Hq. simpl. by rewrite Hq. Qed.

Lemma may_process_ext v w :
  state_ (connection v) = state_ (connection w) -> finished_ (connection v) = finished_ (connection w) ->
  close_after_output_ (connection v) = close_after_output_ (connection w) ->
  sync_waiting (E := E) (server v) client = sync_waiting (E := E) (server w) client ->
  may_process v = may_process w.
Proof. unfold may_process. by intros -> -> -> ->. Qed.

Lemma may_process_add bytes w : may_process (add_input bytes w) = may_process w.
Proof. done. Qed.

(** The loop's turn in a known state: what is done after the events are out,
    and the whole turn. *)
Definition turn_body (host : ByteOrder) (st : State) (w : World) : run (World * Result bool) :=
  match process_state host st w with
  | finished (w, success true) => (do _ <- mark_resume ; ret true) w
  | finished (w, success false) => finished (w, success false)
  | finished (w, failure code) => finished (w, failure code)
  | out_of_fuel => out_of_fuel
  end.

Lemma process_turn_in host st w :
  state_ (connection w) = st ->
  process_turn host w =
    match drain_first st w with
    | finished (w, success _) => turn_body host st w
    | finished (w, failure code) => finished (w, failure code)
    | out_of_fuel => out_of_fuel
    end.
Proof.
  intros <-. unfold process_turn, turn_body.
  change (bind get_connection _ w) with ((do _ <- drain_first (state_ (connection w)) ;
    do processed <- process_state host (state_ (connection w)) ;
    if negb processed then ret false else do _ <- mark_resume ; ret true) w).
  unfold bind at 1. destruct (drain_first _ w) as [[w1 [[]|code]]|]; [|done|done].
  unfold bind at 1. by destruct (process_state _ _ _) as [[? [[|]|]]|].
Qed.

Lemma turn_body_mark host st w w1 :
  process_state host st w = finished (w1, success true) ->
  turn_body host st w = (do _ <- mark_resume ; ret true) w1.
Proof. intros Hs. unfold turn_body. by rewrite Hs. Qed.

Lemma drain_first_facts st w w1 :
  drain_first st w = finished (w1, success tt) ->
  (exists o, connection w1 = (connection w) <| session := o |>) /\
  sync_waiting (E := E) (server w1) client = sync_waiting (E := E) (server w) client /\
  (st = requests -> queued_events (E := E) (server w1) client = []).
Proof.
  unfold drain_first. case_bool_decide.
  - intros (? & ? & ?)%drain_loop_facts. auto.
  - intros [= <-]. split_and!; [by exists (session (connection w)); destruct (connection w)|done|done].
Qed.

(** What stops short in a turn, and the same turn once more has arrived. *)
Lemma state_short host st w w' :
  framing_ok (connection w) -> state_ (connection w) = st -> (st = requests -> queued_events (E := E) (server w) client = []) ->
  process_state host st w = finished (w', success false) ->
  (forall bytes, process_state host st (add_input bytes w') = process_state host st (add_input bytes w)) /\
  (st = requests -> queued_events (E := E) (server w') client = []) /\
  may_process w' = may_process w /\ state_ (connection w') = st.
Proof.
  intros Hok Hst Hq Hs. destruct st; simpl in *.
  - destruct (prefix_turn [] w) as [Hp|Ht]; [|unfold turns in Ht; by rewrite Hs in Ht].
    rewrite Hp in Hs. by injection Hs as <-.
  - destruct (authentication_turn host [] w Hok Hst) as [Hp|Ht]; [|unfold turns in Ht; by rewrite Hs in Ht].
    rewrite Hp in Hs. by injection Hs as <-.
  - apply request_short in Hs as [->|[-> Hs]]; [|..|done]; [by auto|].
    split_and!; [done| | |done].
    + intros _. unfold noted. simpl. rewrite note_queue. by apply Hq.
    + apply may_process_ext; try done. unfold noted. simpl. apply note_waiting.
Qed.

Lemma state_turns host bytes st w :
  framing_ok (connection w) -> state_ (connection w) = st ->
  (exists w', process_state host st w = finished (w', success false)) \/ turns bytes (process_state host st) w.
Proof.
  intros Hok Hst. destruct st; simpl.
  - destruct (prefix_turn bytes w); [left; by eexists|by right].
  - destruct (authentication_turn host bytes w Hok Hst); [left; by eexists|by right].
  - apply request_turn.
Qed.

Lemma blind_drain_first st : blind (drain_first st).
Proof. unfold drain_first. destruct (bool_decide _); auto with blind. Qed.

(** A turn on a part of the input and on the whole. *)
Lemma turn_split host bytes w :
  loop_ok w -> may_process w = true ->
  match process_turn host w with
  | out_of_fuel => True
  | finished (_, failure code) => exists w'', process_turn host (add_input bytes w) = finished (w'', failure code)
  | finished (w', success true) =>
      exists w'', process_turn host (add_input bytes w) = finished (w'', success true) /\
        (w'' = add_input bytes w' \/ close_after_output_ (connection w') = true /\ w'' = w')
  | finished (w', success false) =>
      process_turn host (add_input bytes w') = process_turn host (add_input bytes w) /\ may_process w' = true
  end.
Proof.
  intros (Hok & _) Hm. set (st := state_ (connection w)).
  rewrite (process_turn_in host st (add_input bytes w)), (process_turn_in host st w) by done.
  rewrite blind_drain_first.
  destruct (drain_first st w) as [[w1 [[]|code]]|] eqn:Hd; simpl; [|by eexists|done].
  pose proof (drain_first_facts st w w1 Hd) as ((o & Ho) & Hwait & Hq).
  assert (framing_ok (connection w1) /\ state_ (connection w1) = st) as [Hok1 Hst1].
  { rewrite Ho. split; [|done]. by destruct Hok; split. }
  destruct (state_turns host bytes st w1 Hok1 Hst1) as [(w2 & Hs)|Ht].
  - pose proof (state_short host st w1 w2 Hok1 Hst1 Hq Hs) as (Hagain & Hq2 & Hm2 & Hst2).
    unfold turn_body at 1. rewrite Hs. split.
    + rewrite (process_turn_in host st) by done.
      assert (drain_first st (add_input bytes w2) = finished (add_input bytes w2, success tt)) as ->.
      { unfold drain_first. case_bool_decide as Hr; [|done]. apply drain_nothing. by apply Hq2. }
      unfold turn_body. by rewrite Hagain.
    + rewrite Hm2. rewrite <- Hm. apply may_process_ext; by rewrite ?Ho, ?Hwait.
  - unfold turns in Ht. unfold turn_body at 1.
    destruct (process_state host st w1) as [[w2 [[|]|code]]|] eqn:Hs; [|done| |done].
    + destruct Ht as (w3 & Ht & [->|[Hcl ->]]); rewrite (turn_body_mark _ _ _ _ Ht); unfold bind.
      * rewrite blind_mark_resume.
        destruct (mark_resume w2) as [[w4 [[]|]]|]; simpl; [|by eexists|done]. eexists. split; [done|by left].
      * destruct (mark_resume w2) as [[w4 [[]|]]|] eqn:Hmr; simpl; [|by eexists|done].
        eexists. split; [done|]. right. split; [|done].
        unfold mark_resume in Hmr. destruct (_ && _) in Hmr; by injection Hmr as <-.
    + destruct Ht as (w3 & Ht). exists w3. unfold turn_body. by rewrite Ht.
Qed.

(** ** The loop *)

Lemma process_loop_unfold host fuel w :
  may_process w = true ->
  process_loop (Datatypes.S fuel) host w =
    match process_turn host w with
    | finished (w', success true) => process_loop fuel host w'
    | finished (w', success false) => finished (w', success tt)
    | finished (w', failure code) => finished (w', failure code)
    | out_of_fuel => out_of_fuel
    end.
Proof.
  intros Hm. simpl. rewrite Hm. simpl. unfold bind. by destruct (process_turn host w) as [[? [[|]|]]|].
Qed.

Lemma process_loop_stop host fuel w : may_process w = false -> process_loop fuel host w = finished (w, success tt).
Proof. intros Hm. destruct fuel; simpl; by rewrite Hm. Qed.

Lemma closed_stops w : close_after_output_ (connection w) = true -> may_process w = false.
Proof. unfold may_process. intros ->. simpl. by rewrite andb_false_r. Qed.

Lemma process_loop_mono host fuel k x : forall w,
  process_loop fuel host w = finished x -> process_loop (fuel + k) host w = finished x.
Proof.
  induction fuel as [|fuel IH]; intros w Hx.
  - destruct (may_process w) eqn:Hm; [simpl in Hx; by rewrite Hm in Hx|].
    rewrite process_loop_stop in Hx by done. by rewrite process_loop_stop.
  - destruct (may_process w) eqn:Hm; [|rewrite process_loop_stop in Hx by done; by rewrite process_loop_stop].
    simpl plus. rewrite process_loop_unfold in Hx |- * by done.
    destruct (process_turn host w) as [[? [[|]|]]|]; auto.
Qed.

(** Enough fuel, and what the loop leaves. *)
Lemma process_loop_result host fuel : forall w,
  loop_ok w -> world_measure w < Z.of_nat fuel ->
  exists w' r, process_loop fuel host w = finished (w', r) /\
    (r = success tt -> close_after_output_ (connection w') = true \/
       loop_ok w' /\ world_measure w' <= world_measure w).
Proof.
  induction fuel as [|fuel IH]; intros w Hok Hf.
  { unfold world_measure, turn_measure in Hf. pose proof (zlen_nonneg (input_ (connection w))).
    destruct (bool_decide _); lia. }
  destruct (may_process w) eqn:Hm.
  2: { rewrite process_loop_stop by done. do 2 eexists. split; [done|]. intros _. right. split; [done|lia]. }
  rewrite process_loop_unfold by done.
  destruct (process_turn host w) as [[w1 [more|code]]|] eqn:Ht; [|by do 2 eexists|by apply turn_total in Ht].
  pose proof (turn_progress host w w1 more Hok Hm Ht) as Hp. destruct more.
  - destruct Hp as [Hcl|[Hok1 Hlt]].
    + rewrite process_loop_stop by (by apply closed_stops). do 2 eexists. split; [done|by left].
    + destruct (IH w1 Hok1 ltac:(lia)) as (w2 & r & -> & Hr). do 2 eexists. split; [done|].
      intros Hs. destruct (Hr Hs) as [|[? ?]]; [by left|right]. split; [done|lia].
  - do 2 eexists. split; [done|]. intros _. right. done.
Qed.

(** Two worlds that differ in the input only. *)
Definition erase_input (w : World) : World := w <| connection := (connection w) <| input_ := [] |> |>.

Lemma erase_add bytes w : erase_input (add_input bytes w) = erase_input w.
Proof. done. Qed.

Lemma process_loop_split host bytes fuel : forall w w1,
  loop_ok w -> process_loop fuel host w = finished (w1, success tt) ->
  (close_after_output_ (connection w1) = true /\
   exists w2, process_loop fuel host (add_input bytes w) = finished (w2, success tt) /\
     erase_input w2 = erase_input w1) \/
  (forall k x, process_loop k host (add_input bytes w1) = finished x ->
     process_loop (fuel + k) host (add_input bytes w) = finished x).
Proof.
  induction fuel as [|fuel IH]; intros w w1 Hok Hl.
  - right. intros k x Hx. destruct (may_process w) eqn:Hm; [simpl in Hl; by rewrite Hm in Hl|].
    rewrite process_loop_stop in Hl by done. by injection Hl as <-.
  - destruct (may_process w) eqn:Hm.
    2: { right. intros k x Hx. rewrite process_loop_stop in Hl by done. injection Hl as <-.
      rewrite process_loop_stop in Hx |- * by done. done. }
    rewrite process_loop_unfold in Hl by done. pose proof (turn_split host bytes w Hok Hm) as Hsplit.
    destruct (process_turn host w) as [[w' [more|code]]|] eqn:Ht; [|done|done].
    pose proof (turn_progress host w w' more Hok Hm Ht) as Hp. destruct more.
    + destruct Hsplit as (w'' & Ht' & Hw'').
      destruct (close_after_output_ (connection w')) eqn:Hcl.
      * left. rewrite process_loop_stop in Hl by (by apply closed_stops). injection Hl as <-. split; [done|].
        exists w''. rewrite process_loop_unfold, Ht' by done.
        destruct Hw'' as [->|[_ ->]]; rewrite process_loop_stop by (by apply closed_stops); done.
      * destruct Hp as [|[Hok' _]]; [done|]. destruct Hw'' as [->|[? _]]; [|done].
        destruct (IH w' w1 Hok' Hl) as [[Hc (w2 & Hl2 & He)]|Hr].
        -- left. split; [done|]. exists w2. by rewrite process_loop_unfold, Ht'.
        -- right. intros k x Hx. simpl plus. rewrite process_loop_unfold, Ht' by done. by apply Hr.
    + injection Hl as <-. destruct Hsplit as [Heq Hm']. right. intros k x Hx. simpl plus.
      destruct k as [|k]; [simpl in Hx; rewrite may_process_add, Hm' in Hx; done|].
      rewrite process_loop_unfold in Hx by done. rewrite process_loop_unfold by done.
      rewrite Heq in Hx. destruct (process_turn host (add_input bytes w)) as [[v [[|]|c]]|]; [|done|done|done].
      rewrite Nat.add_comm. simpl plus.
      replace (Datatypes.S (k + fuel))%nat with (k + Datatypes.S fuel)%nat by lia. by apply process_loop_mono.
Qed.

Lemma process_loop_failure host bytes fuel : forall w w1 code,
  loop_ok w -> process_loop fuel host w = finished (w1, failure code) ->
  exists w2, process_loop fuel host (add_input bytes w) = finished (w2, failure code).
Proof.
  induction fuel as [|fuel IH]; intros w w1 code Hok Hl.
  - destruct (may_process w) eqn:Hm; [simpl in Hl; by rewrite Hm in Hl|]. by rewrite process_loop_stop in Hl.
  - destruct (may_process w) eqn:Hm; [|by rewrite process_loop_stop in Hl].
    rewrite process_loop_unfold in Hl |- * by done. pose proof (turn_split host bytes w Hok Hm) as Hsplit.
    destruct (process_turn host w) as [[w' [[|]|c]]|] eqn:Ht; [| |by injection Hl as <- <-; destruct Hsplit as (w2 & ->); by exists w2|done].
    + pose proof (turn_progress host w w' true Hok Hm Ht) as Hp. destruct Hsplit as (w'' & -> & Hw'').
      destruct Hp as [Hcl|[Hok' _]]; [by rewrite process_loop_stop in Hl by (by apply closed_stops)|].
      destruct Hw'' as [->|[Hcl _]]; [by eapply IH|].
      by rewrite process_loop_stop in Hl by (by apply closed_stops).
    + done.
Qed.

(** ** Blocks of input *)

Lemma reset_add bytes w : reset_resume (add_input bytes w) = add_input bytes (reset_resume w).
Proof.
  unfold reset_resume. change (server (add_input bytes w)) with (server w).
  change (state_ (connection (add_input bytes w))) with (state_ (connection w)). by destruct (_ && _).
Qed.

Lemma reset_loop_ok w : framing_ok (connection w) -> loop_ok (reset_resume w).
Proof.
  intros Hok. unfold loop_ok, reset_resume. destruct (_ && _) eqn:Hc.
  - simpl. split_and!; [|done..]. by destruct Hok; split.
  - split_and!; [done| |].
    + unfold may_process. intros Hm. destruct (decide (state_ (connection w) = requests)) as [Hs|Hs].
      * rewrite bool_decide_true in Hc, Hm by done. destruct (sync_waiting (server w) client); simpl in Hc, Hm; bool_to_prop; done.
      * by apply (ok_setup_resume _ Hok).
    + intros Hs Hw. rewrite bool_decide_true, Hw in Hc by done. done.
Qed.

Lemma reset_id w : loop_ok w -> reset_resume w = w.
Proof.
  intros (_ & _ & Hr). unfold reset_resume. destruct (_ && _) eqn:Hc; [|done]. bool_to_prop.
  destruct w as [s []]. simpl in *. by rewrite Hr.
Qed.

Lemma reset_measure w : world_measure (reset_resume w) = world_measure w.
Proof. unfold reset_resume. by destruct (_ && _). Qed.

Lemma input_fuel_enough w : world_measure (reset_resume w) < Z.of_nat (input_fuel w).
Proof.
  rewrite reset_measure. unfold world_measure, turn_measure, input_fuel, zlen. destruct (bool_decide _); lia.
Qed.

Lemma receive_process host bytes w :
  zlen (input_ (connection w)) + zlen bytes <= maximum_buffered_input ->
  receive host bytes w =
    process_loop (input_fuel (add_input bytes w)) host (add_input bytes (reset_resume w)).
Proof.
  intros Hsize. pose proof (zlen_nonneg (input_ (connection w))). pose proof (zlen_nonneg bytes).
  unfold maximum_buffered_input, maximum_extended_request_bytes, maximum_extended_request_units in Hsize.
  unfold receive, bind at 1, get_connection.
  rewrite checked_add_exact; [|lia|simpl; unfold is_unsigned; lia..].
  rewrite decide_True by (simpl; unfold is_unsigned; lia).
  destruct (Z.gtb_spec (zlen (input_ (connection w)) + zlen bytes) maximum_buffered_input) as [Hgt|_].
  { unfold maximum_buffered_input, maximum_extended_request_bytes, maximum_extended_request_units in Hgt. lia. }
  change (process_input host (add_input bytes w) = process_loop (input_fuel (add_input bytes w)) host (add_input bytes (reset_resume w))).
  unfold process_input. by rewrite reset_add.
Qed.

(** The two outcomes of reading leave the same connection, seen with the bytes
    it has yet to read; once closed, a connection reads no more. *)
Definition same_stream (r1 r2 : run (World * Result (list (list Z)))) : Prop :=
  match r1, r2 with
  | finished (w1, success unread1), finished (w2, success unread2) =>
      close_after_output_ (connection w1) = close_after_output_ (connection w2) /\
      if close_after_output_ (connection w1) then erase_input w1 = erase_input w2
      else add_input (concat unread1) w1 = add_input (concat unread2) w2
  | finished (_, failure code1), finished (_, failure code2) => code1 = code2
  | _, _ => False
  end.

Lemma same_stream_trans r1 r2 r3 : same_stream r1 r2 -> same_stream r2 r3 -> same_stream r1 r3.
Proof.
  destruct r1 as [[w1 [u1|c1]]|], r2 as [[w2 [u2|c2]]|], r3 as [[w3 [u3|c3]]|]; simpl; try done; [|congruence].
  intros [H1 H2] [H3 H4]. split; [congruence|]. rewrite <- H1 in H4.
  destruct (close_after_output_ (connection w1)); congruence.
Qed.

Lemma loop_framing w : loop_ok w -> framing_ok (connection w). Proof. by intros []. Qed.

Lemma add_input_app a b w : add_input b (add_input a w) = add_input (a ++ b) w.
Proof. unfold add_input. simpl. by rewrite <- app_assoc. Qed.

Lemma add_input_nil w : add_input [] w = w.
Proof. unfold add_input. rewrite app_nil_r. by destruct w as [s []]. Qed.

Lemma receive_one host a w :
  may_read w = true ->
  receive_all host [a] w =
    match receive host a w with
    | finished (w', success _) => finished (w', success [])
    | finished (w', failure code) => finished (w', failure code)
    | out_of_fuel => out_of_fuel
    end.
Proof.
  intros Hm. simpl. rewrite Hm. simpl. unfold bind.
  destruct (receive host a w) as [[w' [[]|]]|]; [|done|done]. by destruct (may_read w').
Qed.

Lemma receive_cons host a rest w :
  may_read w = true ->
  receive_all host (a :: rest) w =
    match receive host a w with
    | finished (w', success _) => receive_all host rest w'
    | finished (w', failure code) => finished (w', failure code)
    | out_of_fuel => out_of_fuel
    end.
Proof. intros Hm. simpl. rewrite Hm. simpl. unfold bind. by destruct (receive host a w) as [[w' [[]|]]|]. Qed.

(** Two blocks are as good as one. *)
Lemma loop_ok_add bytes w : loop_ok w -> loop_ok (add_input bytes w).
Proof. intros (Hf & H1 & H2). split_and!; [|done..]. by destruct Hf; split. Qed.

Lemma measure_add bytes w : world_measure (add_input bytes w) = world_measure w + zlen bytes.
Proof. unfold world_measure, turn_measure. simpl. rewrite zlen_app. lia. Qed.

(** Two runs of the loop agree. *)
Lemma process_loop_agree host f1 f2 w x y :
  process_loop f1 host w = finished x -> process_loop f2 host w = finished y -> x = y.
Proof.
  intros H1 H2. apply (process_loop_mono _ _ f2) in H1. apply (process_loop_mono _ _ f1) in H2.
  rewrite (Nat.add_comm f2) in H2. congruence.
Qed.

(** What receiving one block comes to. *)
Lemma receive_result host bytes w :
  framing_ok (connection w) -> world_measure w + zlen bytes <= maximum_buffered_input ->
  exists w' r, receive host bytes w = finished (w', r) /\
    process_loop (input_fuel (add_input bytes w)) host (add_input bytes (reset_resume w)) = finished (w', r) /\
    (r = success tt -> close_after_output_ (connection w') = true \/
       loop_ok w' /\ world_measure w' <= world_measure w + zlen bytes).
Proof.
  intros Hok Hsize.
  destruct (process_loop_result host (input_fuel (add_input bytes w)) (add_input bytes (reset_resume w)))
    as (w' & r & Hl & Hr).
  - by apply loop_ok_add, reset_loop_ok.
  - rewrite <- reset_add. apply input_fuel_enough.
  - exists w', r. rewrite receive_process.
    2: { unfold world_measure, turn_measure in Hsize. destruct (bool_decide _); lia. }
    split_and!; [done..|]. by rewrite measure_add, reset_measure in Hr.
Qed.

(** Two blocks are as good as one. *)
Lemma receive_two host a b w :
  framing_ok (connection w) -> world_measure w + zlen a + zlen b <= maximum_buffered_input ->
  same_stream (receive_all host [a; b] w) (receive_all host [a ++ b] w).
Proof.
  intros Hok Hsize. pose proof (zlen_nonneg b) as Hb.
  destruct (may_read w) eqn:Hm.
  2: { simpl. rewrite Hm. simpl. split; [done|]. rewrite !app_nil_r. by destruct (close_after_output_ _). }
  rewrite receive_cons, receive_one by done.
  destruct (receive_result host a w Hok ltac:(lia)) as (w1 & r1 & -> & Hl1 & Hr1).
  destruct (receive_result host (a ++ b) w Hok) as (w2 & r2 & -> & Hl2 & _); [rewrite zlen_app; lia|].
  rewrite <- !add_input_app in Hl2.
  assert (loop_ok (add_input a (reset_resume w))) as HW by (by apply loop_ok_add, reset_loop_ok).
  destruct r1 as [[]|code].
  2: { destruct (process_loop_failure host b _ _ _ _ HW Hl1) as (w3 & Hl3).
    pose proof (process_loop_agree _ _ _ _ _ _ Hl2 Hl3) as He. by injection He as -> ->. }
  destruct (process_loop_split host b _ _ _ HW Hl1) as [[Hcl (w3 & Hl3 & He)]|Hcont].
  - pose proof (process_loop_agree _ _ _ _ _ _ Hl2 Hl3) as Hx. injection Hx as -> ->.
    simpl. unfold may_read. rewrite closed_stops by done. simpl. rewrite Hcl.
    split; [|done]. rewrite <- Hcl. by apply (f_equal (fun w => close_after_output_ (connection w))) in He.
  - destruct (may_process w1) eqn:Hm1.
    + destruct (Hr1 eq_refl) as [Hcl|[Hok1 Hmeas]]; [by rewrite closed_stops in Hm1|].
      rewrite receive_one by done.
      destruct (receive_result host b w1 (loop_framing _ Hok1) ltac:(lia)) as (w3 & r3 & -> & Hl3 & _).
      rewrite reset_id in Hl3 by done. pose proof (process_loop_agree _ _ _ _ _ _ Hl2 (Hcont _ _ Hl3)) as Hx.
      injection Hx as -> ->. destruct r3; simpl; [|done]. split; [done|].
      destruct (close_after_output_ (connection w3)); reflexivity.
    + pose proof (process_loop_stop host 0 (add_input b w1)) as Hl3. rewrite may_process_add in Hl3.
      pose proof (process_loop_agree _ _ _ _ _ _ Hl2 (Hcont _ _ (Hl3 Hm1))) as Hx. injection Hx as -> ->.
      simpl. unfold may_read. rewrite Hm1. simpl. split; [done|].
      rewrite add_input_nil, app_nil_r. by destruct (close_after_output_ _).
Qed.

(** C40: how the network cuts the byte stream of a client into blocks makes no
    difference: reading the blocks one by one, processing after each, comes to
    the same connection and the same server state, with the same requests
    dispatched in the same order, the same replies in the output and the same
    failure if any, as reading all the bytes at once; what a waiting client
    has left unread is the same part of the stream. *)
Theorem receive_chunking host blocks w :
  blocks <> [] -> framing_ok (connection w) ->
  zlen (input_ (connection w)) + zlen (concat blocks) < maximum_buffered_input ->
  same_stream (receive_all host blocks w) (receive_all host [concat blocks] w).
Proof.
  intros Hne Hok Hsize.
  assert (world_measure w + zlen (concat blocks) <= maximum_buffered_input) as Hmeas
    by (unfold world_measure, turn_measure; destruct (bool_decide _); lia).
  clear Hsize. revert w Hok Hmeas. induction blocks as [|a [|b rest] IH]; intros w Hok Hmeas; [done| |].
  - simpl concat. rewrite app_nil_r. unfold same_stream.
    destruct (receive_all host [a] w) as [[w1 [u|c]]|] eqn:Hr; [|done|].
    + split; [done|]. by destruct (close_after_output_ _).
    + exfalso. destruct (may_read w) eqn:Hm; [|simpl in Hr; by rewrite Hm in Hr].
      rewrite receive_one in Hr by done.
      destruct (receive_result host a w Hok) as (w1 & r1 & E1 & _); [simpl in Hmeas; rewrite app_nil_r in Hmeas; lia|].
      rewrite E1 in Hr. by destruct r1.
  - change (concat (a :: b :: rest)) with (a ++ concat (b :: rest)) in *. rewrite zlen_app in Hmeas.
    eapply same_stream_trans; [|apply receive_two; [done|lia]].
    destruct (may_read w) eqn:Hm.
    2: { simpl. rewrite Hm. simpl. split; [done|]. rewrite !app_nil_r. by destruct (close_after_output_ _). }
    rewrite (receive_cons host a (b :: rest)), (receive_cons host a [concat (b :: rest)]) by done.
    pose proof (zlen_nonneg (concat (b :: rest))).
    destruct (receive_result host a w Hok ltac:(lia)) as (w1 & r1 & E1 & _ & Hr1).
    rewrite E1. destruct r1 as [[]|code]; [|done].
    destruct (Hr1 eq_refl) as [Hcl|[Hok1 Hm1]].
    + unfold receive_all at 1 2. unfold may_read. rewrite closed_stops by done. simpl. rewrite Hcl. done.
    + apply IH; [done|by apply loop_framing|lia].
Qed.

(** ** Authentication *)

Lemma cookies_equal_spec left right : cookies_equal left right = true <-> left = right.
Proof.
  unfold cookies_equal.
  assert (forall l acc, foldl (fun difference pair => Z.lor difference (Z.lxor pair.1 pair.2)) acc l = 0 <->
    acc = 0 /\ Forall (fun pair : Z * Z => pair.1 = pair.2) l) as Hfold.
  { induction l as [|[a b] l IH]; intros acc; simpl; [split; [done|by intros []]|].
    rewrite IH, Z.lor_eq_0_iff, Z.lxor_eq_0_iff, Forall_cons. simpl. tauto. }
  destruct (Z.eqb_spec (zlen left) (zlen right)) as [Hl|Hl]; simpl.
  2: { split; [done|]. by intros ->. }
  rewrite Z.eqb_eq, Hfold. split; [|intros ->].
  - intros [_ Hall]. unfold zlen in Hl. revert right Hl Hall.
    induction left as [|a left IH]; intros [|b right] Hl Hall; simpl in *; try done; try lia.
    apply Forall_cons in Hall as [He Hall]. simpl in He. f_equal; [done|]. apply IH; [lia|done].
  - split; [done|]. clear. induction right as [|a right IH]; simpl; constructor; done.
Qed.

(** The credentials in a complete setup message. *)
Definition sent_name (c : Connection E) : list Z := take (Z.to_nat (setup_name_size_ c)) (input_ c).

Definition sent_data (c : Connection E) : list Z :=
  take (Z.to_nat (setup_data_size_ c)) (drop (Z.to_nat (setup_padded_name_size_ c)) (input_ c)).

Definition credentials_ok (c : Connection E) : Prop :=
  if allow_unauthenticated config then sent_name c = [] /\ sent_data c = []
  else cookie config <> [] /\ sent_name c = cookie_protocol /\ sent_data c = cookie config.

(** C37: a client is let in only with the right credentials: from the
    authentication state a connection reaches the state in which requests are
    dispatched only when the complete setup message carries the server's
    non-empty cookie under the right protocol name, or, when the server allows
    unauthenticated clients, no credentials at all; any other message leaves
    the connection closing, with nothing more of its input to process. *)
Theorem authentication_required host w w' :
  state_ (connection w) = setup_authentication ->
  process_setup_authentication host w = finished (w', success true) ->
  (state_ (connection w') = requests /\ credentials_ok (connection w)) \/
  (close_after_output_ (connection w') = true /\ input_ (connection w') = [] /\
   state_ (connection w') = setup_authentication /\ ~ credentials_ok (connection w)).
Proof.
  intros Hst. unfold process_setup_authentication, bind at 1, get_connection.
  destruct (zlen _ <? _); [done|]. destruct (byte_order_ _) as [order|]; [|done]. cbv zeta.
  unfold bind at 1, consume_input, on_connection.
  match goal with |- context [if negb ?b then _ else _] => set (ok := b) end.
  assert (ok = true <-> credentials_ok (connection w)) as Hok.
  { unfold ok, credentials_ok. destruct (allow_unauthenticated config).
    - rewrite andb_true_iff, !bool_decide_eq_true. done.
    - rewrite !andb_true_iff, negb_true_iff, bool_decide_eq_false, bool_decide_eq_true, cookies_equal_spec. unfold sent_name, sent_data. tauto. }
  destruct ok; simpl.
  - unfold bind at 1, server_register_client. destruct (register_client _ _) as [s [|]]; [|done]. simpl.
    unfold bind at 1. unfold send_setup_success. destruct (screen_size _). destruct (_ || _); [done|].
    unfold on_output. destruct (queue _ _) as [o [[]|]]; [|done]. intros [= <-]. left. split; [done|]. by apply Hok.
  - unfold refuse_setup, bind at 1, send_setup_failure.
    destruct (padded_to_four _); [|done]. unfold on_output. destruct (queue _ _) as [o [[]|]]; [|done].
    unfold bind, clear_input, close_after_output, on_connection. intros [= <-]. right.
    simpl. destruct (_ =? _); simpl; (split_and!; [done..|]); intros Hc%Hok; done.
Qed.

(** ** Delivering events *)

(** The bytes that are still to be sent, and where among them the pending
    descriptors go. *)
Definition unsent (o : Output) : list Z := drop (Z.to_nat (output_offset_ o)) (output_ o).

Record output_ok (o : Output) : Prop := {
  ok_offset : 0 <= output_offset_ o <= zlen (output_ o);
  ok_size : zlen (output_ o) <= maximum_buffered_output;
  ok_positions : Forall (fun pending => output_offset_ o <= pending.1 < zlen (output_ o)) (pending_output_fds_ o)
}.

Definition unsent_fds (o : Output) : list (Z * Z) :=
  map (fun pending => (pending.1 - output_offset_ o, pending.2)) (pending_output_fds_ o).

Lemma compact_output_spec o :
  output_ok o -> output_ok (compact_output o) /\ output_offset_ (compact_output o) = 0 /\
  unsent (compact_output o) = unsent o /\ unsent_fds (compact_output o) = unsent_fds o.
Proof.
  intros Hok. pose proof (ok_offset o Hok) as Ho. pose proof (ok_size o Hok) as Hsz.
  unfold maximum_buffered_output in Hsz. unfold compact_output.
  destruct (Z.eqb_spec (output_offset_ o) 0) as [H0|H0]; [done|].
  destruct (Z.eqb_spec (output_offset_ o) (zlen (output_ o))) as [He|He].
  - assert (pending_output_fds_ o = []) as Hp.
    { destruct (pending_output_fds_ o) as [|p l] eqn:Hl; [done|]. pose proof (ok_positions o Hok) as Hpos.
      rewrite Hl in Hpos. apply Forall_cons in Hpos as [Hpos _]. lia. }
    split_and!; [|done| |].
    + split; simpl; [done|unfold maximum_buffered_output; rewrite zlen_nil; lia|constructor].
    + unfold unsent. simpl. rewrite He. unfold zlen. rewrite Nat2Z.id. by rewrite drop_all.
    + unfold unsent_fds. simpl. by rewrite Hp.
  - assert (Forall (fun pending => 0 <= u64 (pending.1 - output_offset_ o) /\
      u64 (pending.1 - output_offset_ o) = pending.1 - output_offset_ o /\
      pending.1 - output_offset_ o < zlen (output_ o) - output_offset_ o) (pending_output_fds_ o)) as Hall.
    { eapply Forall_impl; [apply Hok|]. intros p Hp. simpl in Hp.
      rewrite wrap_id by (unfold is_unsigned; lia). lia. }
    assert (zlen (drop (Z.to_nat (output_offset_ o)) (output_ o)) = zlen (output_ o) - output_offset_ o) as Hlen.
    { rewrite zlen_drop; lia. }
    split_and!; [|done|done|].
    + split; simpl; rewrite ?Hlen; [lia|unfold maximum_buffered_output; lia|].
      apply Forall_map. eapply Forall_impl; [apply Hall|]. simpl. intros p Hp. lia.
    + unfold unsent_fds. simpl. rewrite map_map. simpl.
      apply map_ext_Forall. eapply Forall_impl; [apply Hall|]. simpl. intros p (_ & -> & _). f_equal. lia.
Qed.

Lemma queue_spec bytes o o' r :
  output_ok o -> queue bytes o = (o', r) ->
  output_ok o' /\ unsent_fds o' = unsent_fds o /\
  unsent o' = unsent o ++ (match r with success _ => bytes | failure _ => [] end) /\
  (r <> failure malformed).
Proof.
  intros Hok. unfold queue. case_bool_decide as Hb.
  { intros [= <- <-]. subst. by rewrite app_nil_r. }
  destruct (compact_output_spec o Hok) as (Hok' & H0 & Hu & Hf).
  pose proof (ok_size _ Hok') as Hsz. pose proof (zlen_nonneg bytes).
  destruct (checked_add _ _ _ _) as [size|] eqn:Hadd.
  2: { intros [= <- <-]. by rewrite app_nil_r. }
  destruct (Z.gtb_spec size maximum_buffered_output) as [|Hmax]; [intros [= <- <-]; by rewrite app_nil_r|].
  destruct (can_reserve size); simpl; intros [= <- <-]; [|by rewrite app_nil_r].
  assert (zlen (output_ (compact_output o)) + zlen bytes <= maximum_buffered_output) as Hfit.
  { unfold checked_add in Hadd. destruct (Z.gtb_spec (zlen bytes) (umax 64 - zlen (output_ (compact_output o)))) as [|Hle]; [done|].
    injection Hadd as <-. simpl in Hmax. rewrite wrap_id in Hmax; [done|].
    pose proof (zlen_nonneg (output_ (compact_output o))). unfold is_unsigned, umax in *. lia. }
  pose proof (ok_offset _ Hok') as Hoff.
  split_and!; [|done| |done].
  - split; simpl; rewrite ?zlen_app; [lia|done|]. eapply Forall_impl; [apply (ok_positions _ Hok')|]. simpl. lia.
  - rewrite <- Hu. unfold unsent. simpl. rewrite H0. done.
Qed.

Lemma packet_ok_spec encoded : packet_ok encoded = true <-> 32 <= zlen encoded /\ zlen encoded mod 4 = 0.
Proof.
  unfold packet_ok. change 3 with (Z.ones 2). rewrite Z.land_ones by done. change (2 ^ 2) with 4.
  destruct (Z.ltb_spec (zlen encoded) 32), (Z.eqb_spec (zlen encoded mod 4) 0); simpl; split; try done; try lia.
Qed.

Lemma drain_loop_output order fuel : forall w w' r,
  byte_order_ (connection w) = Some order -> output_ok (output (session (connection w))) ->
  drain_loop fuel w = finished (w', r) ->
  let events := queued_events (E := E) (server w) client in
  exists k, (k <= length events)%nat /\ queued_events (E := E) (server w') client = drop k events /\
    output_ok (output (session (connection w'))) /\
    unsent_fds (output (session (connection w'))) = unsent_fds (output (session (connection w))) /\
    unsent (output (session (connection w'))) = unsent (output (session (connection w))) ++
      concat (map (encode_event (Some order)) (take k events)) /\
    (r = success tt <-> k = length events) /\
    (r = failure malformed -> exists event, events !! k = Some event /\
       packet_ok (encode_event (Some order) event) = false).
Proof.
  induction fuel as [|fuel IH]; intros w w' r Ho Hok; cbv zeta; simpl;
    destruct (queued_events (server w) client) as [|event rest] eqn:Hq; try done.
  1, 2: intros [= <- <-]; exists 0%nat; rewrite Hq; simpl; rewrite app_nil_r; by split_and!.
  unfold bind at 1, get_connection. rewrite Ho.
  destruct (packet_ok (encode_event (Some order) event)) eqn:Hp; simpl.
  2: { intros [= <- <-]. exists 0%nat. rewrite Hq. simpl. rewrite app_nil_r.
    split_and!; [lia|done..|]. by exists event. }
  unfold bind at 1, on_output. destruct (queue _ _) as [o r1] eqn:Hqueue.
  pose proof (queue_spec _ _ _ _ Hok Hqueue) as (Hok' & Hfds & Hun & Hnm).
  destruct r1 as [[]|code].
  2: { intros [= <- <-]. exists 0%nat. simpl. rewrite Hq. simpl. rewrite app_nil_r in Hun |- *.
    split_and!; [lia|done..|]. congruence. }
  unfold bind at 1, on_server. simpl. intros Hl.
  pose proof (fun h1 h2 => IH _ _ _ h1 h2 Hl) as Hi. simpl in Hi.
  destruct (Hi Ho Hok') as (k & Hk & Hq' & Ho' & Hf' & Hu' & Hr & Hm). clear Hi. simpl in *.
  rewrite pop_event_queue, Hq in *. simpl in *. exists (Datatypes.S k).
  split_and!; [lia|done|done|by rewrite Hf'| | |done].
  - rewrite Hu', Hun. simpl. by rewrite <- app_assoc.
  - rewrite Hr. lia.
Qed.

(** Delivering the queued events of a client never loses, repeats or
    reorders one: whatever the outcome, exactly the events that left the queue
    have been appended, encoded and in order, to the bytes still to be sent,
    and the delivery succeeds exactly when the queue is empty; it can only be
    called malformed by an event the encoder does not support. *)
Theorem drain_in_order order w w' r :
  byte_order_ (connection w) = Some order -> output_ok (output (session (connection w))) ->
  drain_pending_events w = finished (w', r) ->
  let events := queued_events (E := E) (server w) client in
  exists k, (k <= length events)%nat /\ queued_events (E := E) (server w') client = drop k events /\
    unsent (output (session (connection w'))) = unsent (output (session (connection w))) ++
      concat (map (encode_event (Some order)) (take k events)) /\
    unsent_fds (output (session (connection w'))) = unsent_fds (output (session (connection w))) /\
    (r = success tt <-> k = length events) /\
    (r = failure malformed -> exists event, events !! k = Some event /\ ~ encodable event).
Proof.
  intros Ho Hok Hd. destruct (drain_loop_output order _ _ _ _ Ho Hok Hd) as (k & Hk & Hq & _ & Hf & Hu & Hr & Hm).
  exists k. split_and!; [done..| |]; [by apply Hr..|].
  intros Hfail. destruct (Hm Hfail) as (event & Hev & Hp). exists event. split; [done|].
  intros He. apply not_true_iff_false in Hp. by apply Hp, packet_ok_spec, encode_event_size.
Qed.

(** A conversion of a selection ends a connection: the first
    [SelectionRequest] or [SelectionNotify] event in the queue of a client,
    whose encodings have 28 bytes, makes the delivery of events fail as
    malformed, whatever the event holds, and the server drops the connection
    of the selection's owner or of the client that asked for it. *)
Theorem selection_conversion_fails order w event rest :
  byte_order_ (connection w) = Some order ->
  match event with SelectionRequest _ | SelectionNotify _ => True | _ => False end ->
  queued_events (E := E) (server w) client = event :: rest ->
  drain_pending_events w = finished (w, failure malformed).
Proof.
  intros Ho He Hq. unfold drain_pending_events. rewrite Hq. simpl. rewrite Hq.
  unfold bind at 1, get_connection. rewrite Ho.
  assert (packet_ok (encode_event (Some order) event) = false) as ->; [|done].
  apply not_true_iff_false. rewrite packet_ok_spec, (selection_events_short order event He). lia.
Qed.

(** ** Complete requests *)

(** The header a client writes in front of a request. *)
Definition request_header (order : ByteOrder) (opcode data units : Z) : list Z :=
  concat (map (field_bytes order) [U8 opcode; U8 data; U16 units]).

(** The length field of a big request. *)
Definition extended_length (order : ByteOrder) (units : Z) : list Z := field_bytes order (U32 units).

Lemma request_header_length order opcode data units : zlen (request_header order opcode data units) = 4.
Proof. unfold request_header. rewrite fields_bytes_size; [done|]. field_list. Qed.

Lemma extended_length_length order units : zlen (extended_length order units) = 4.
Proof. unfold extended_length. by rewrite field_bytes_size by apply ok_U32. Qed.

(** The world in which the request is dispatched. *)
Definition at_dispatch (rest : list Z) (w : World) : World :=
  mkWorld
    (advance_time (E := E) (note_client_sequence (E := E) (server w) client (u16 (sequence_ (connection w) + 1))))
    ((connection w) <| sequence_ := u16 (sequence_ (connection w) + 1) |> <| input_ := rest |>).

Definition dispatched (r : run (World * Result unit)) : run (World * Result bool) :=
  match r with
  | finished (w, success _) => finished (w, success true)
  | finished (w, failure code) => finished (w, failure code)
  | out_of_fuel => out_of_fuel
  end.

Lemma take_exact (n : nat) (l k : list Z) : zlen l = Z.of_nat n -> take n (l ++ k) = l.
Proof. unfold zlen. intros Hn. rewrite take_app_le by lia. apply take_ge. lia. Qed.

Lemma drop_exact (n : nat) (l k : list Z) : zlen l = Z.of_nat n -> drop n (l ++ k) = k.
Proof. unfold zlen. intros Hn. apply drop_app_length'. lia. Qed.

Lemma sized_request_dispatched order opcode data header head size maximum payload rest w :
  input_ (connection w) = head ++ payload ++ rest -> zlen head = header -> header = 4 \/ header = 8 ->
  size = header + zlen payload -> size <= maximum ->
  process_sized_request order opcode data header size maximum w =
  dispatched (run_dispatch (mkContext order opcode data (sequence_ (connection w)) (take 4 head ++ payload))
    (w <| connection := (connection w) <| input_ := rest |> |>
       <| server := advance_time (E := E) (server w) |>)).
Proof.
  intros Hi Hh H48 Hsize Hmax. pose proof (zlen_nonneg payload). pose proof (zlen_nonneg rest).
  unfold process_sized_request, bind at 1, get_connection.
  rewrite (proj2 (orb_false_iff _ _)) by (split; lia).
  assert ((zlen (input_ (connection w)) <? size) = false) as ->.
  { rewrite Hi, !zlen_app. lia. }
  cbv zeta.
  assert ((if header =? 4 then take (Z.to_nat size) (input_ (connection w))
    else take 4 (input_ (connection w)) ++
      take (Z.to_nat (size - header)) (drop (Z.to_nat header) (input_ (connection w)))) = take 4 head ++ payload) as ->.
  { rewrite Hi. destruct H48 as [-> | ->]; simpl.
    - rewrite app_assoc, take_exact by (rewrite zlen_app; lia). by rewrite take_ge by (unfold zlen in *; lia).
    - rewrite take_app_le by (unfold zlen in *; lia). f_equal.
      rewrite drop_exact by (rewrite Hh; done). by rewrite take_exact by lia. }
  unfold bind at 1, consume_input, on_connection. unfold bind at 1, on_server. unfold bind.
  assert (drop (Z.to_nat size) (input_ (connection w)) = rest) as ->.
  { rewrite Hi, app_assoc. apply drop_exact. rewrite zlen_app. lia. }
  simpl. unfold dispatched. by destruct (run_dispatch _ _) as [[? []]|].
Qed.

Lemma extended_request_dispatched order opcode data units head payload rest w :
  input_ (connection w) = head ++ extended_length order (units + 2) ++ payload ++ rest ->
  zlen head = 4 -> zlen payload = 4 * units -> big_requests_enabled_ (session (connection w)) = true ->
  units + 2 <= maximum_extended_request_units ->
  process_extended_request order opcode data w =
  dispatched (run_dispatch (mkContext order opcode data (sequence_ (connection w)) (head ++ payload))
    (w <| connection := (connection w) <| input_ := rest |> |>
       <| server := advance_time (E := E) (server w) |>)).
Proof.
  intros Hi Hh Hpl Hen Hle. unfold maximum_extended_request_units in Hle.
  pose proof (extended_length_length order (units + 2)) as Hel. pose proof (zlen_nonneg payload).
  unfold process_extended_request, bind at 1, get_connection. rewrite Hen.
  assert ((zlen (input_ (connection w)) <? 8) = false) as ->.
  { rewrite Hi, !zlen_app. pose proof (zlen_nonneg rest). lia. }
  assert (take 4 (drop 4 (input_ (connection w))) = extended_length order (units + 2)) as ->.
  { rewrite Hi, drop_exact by done. by apply take_exact. }
  destruct (read_field_spec (U32 (units + 2)) (reader_of (extended_length order (units + 2)) order) [])
    as (r4 & E4 & _).
  { apply ok_U32. } { apply reader_of_wf. } { rewrite rest_of_reader_of. by rewrite app_nil_r. }
  unfold U32 in E4. simpl in E4. destruct (read_u32 _) as [[v|] ?]; [|done]. injection E4 as -> ->.
  cbv beta iota delta [negb fst]. rewrite wrap_id by (unfold is_unsigned; lia).
  rewrite checked_multiply_exact, decide_True by (unfold is_unsigned; lia).
  rewrite (sized_request_dispatched order opcode data 8 (head ++ extended_length order (units + 2)) _ _ payload rest).
  - by rewrite take_exact.
  - by rewrite Hi, <- app_assoc.
  - rewrite zlen_app. lia.
  - by right.
  - simpl. lia.
  - simpl. unfold maximum_extended_request_bytes, maximum_extended_request_units. lia.
Qed.

(** C38: every complete request at the front of the input, short or big, in
    either byte order, is dispatched exactly once and exactly as it was sent:
    with its opcode and data byte, the next sequence number (modulo 2^16),
    which the server was told before, its header and payload without the
    extended length field, one tick later; and exactly its bytes are gone from
    the input. *)
Theorem request_framing_exact order opcode data payload rest big w :
  let units := zlen payload / 4 in
  byte_order_ (connection w) = Some order -> is_unsigned 8 opcode -> is_unsigned 8 data ->
  zlen payload mod 4 = 0 ->
  (if big : bool then big_requests_enabled_ (session (connection w)) = true /\ units + 2 <= maximum_extended_request_units
   else units + 1 <= maximum_core_request_units) ->
  input_ (connection w) =
    request_header order opcode data (if big then 0 else units + 1) ++
    (if big then extended_length order (units + 2) else []) ++ payload ++ rest ->
  process_request w =
    dispatched (run_dispatch (mkContext order opcode data (u16 (sequence_ (connection w) + 1))
      (request_header order opcode data (if big then 0 else units + 1) ++ payload)) (at_dispatch rest w)).
Proof.
  intros units Ho Hop Hda Hmod Hbig Hi.
  assert (0 <= units /\ zlen payload = 4 * units) as [Hu Hpl].
  { pose proof (zlen_nonneg payload). unfold units. pose proof (Z.div_mod (zlen payload) 4 ltac:(lia)). lia. }
  clearbody units. set (u := if big then 0 else units + 1) in *.
  assert (is_unsigned 16 u) as Hu16.
  { unfold is_unsigned, u. unfold maximum_core_request_units in Hbig. destruct big; lia. }
  set (hdr := request_header order opcode data u) in *.
  pose proof (request_header_length order opcode data u) as Hhl. fold hdr in Hhl.
  destruct (read_header order opcode data u [] ltac:(field_list)) as (r1 & r2 & r3 & E1 & E2 & E3 & _).
  unfold process_request, bind at 1, get_connection.
  assert ((zlen (input_ (connection w)) <? 4) = false) as ->.
  { rewrite Hi, zlen_app. pose proof (zlen_nonneg ((if big then extended_length order (units + 2) else []) ++ payload ++ rest)). lia. }
  assert (take 4 (input_ (connection w)) = hdr) as -> by (rewrite Hi; by apply take_exact).
  rewrite Ho. unfold hdr at 1, request_header. rewrite E1, E2, E3. rewrite !wrap_id by done.
  unfold process_header, bind at 1, get_connection. run_noted.
  set (w1 := noted _ w).
  assert (input_ (connection w1) = input_ (connection w) /\ sequence_ (connection w1) = u16 (sequence_ (connection w) + 1))
    as [Hi1 Hs1] by done.
  assert (at_dispatch rest w = w1 <| connection := (connection w1) <| input_ := rest |> |>
    <| server := advance_time (E := E) (server w1) |>) as Hat by done.
  rewrite Hat, <- Hs1. destruct big.
  - change (u =? 0) with true. cbv iota. destruct Hbig as [Hen Hle].
    by rewrite (extended_request_dispatched order opcode data units hdr payload rest) by (done || lia).
  - unfold maximum_core_request_units in Hbig. replace (u =? 0) with false by (unfold u; lia).
    rewrite checked_multiply_exact, decide_True by (unfold is_unsigned, u in *; lia).
    rewrite (sized_request_dispatched order opcode data 4 hdr _ _ payload rest).
    + by rewrite take_ge by (unfold zlen in Hhl; lia).
    + by rewrite Hi1, Hi.
    + done.
    + by left.
    + simpl. unfold u. lia.
    + simpl. unfold u, maximum_core_request_bytes, maximum_core_request_units. lia.
Qed.
End Connection.
