(* ===== verification/Flush.v ===== *)
(** * Writing the output buffer to the socket

    The writing loop of [Connection::on_writable] in
    [src/src/server/connection.cpp]: partial writes, interruptions, and the
    descriptors that travel with the byte they were queued for. The socket is
    a parameter: what each call of [write] or [sendmsg] answers. *)
From stdpp Require Import sorting.
From S2P Require Import Prelude.
From S2P Require Import Checked.
From S2P Require Import Connection.

(** What a call returns: the number of bytes taken, [EINTR], [EAGAIN] or
    [EWOULDBLOCK], or another error. *)
Inductive WriteResult := wrote (count : Z) | interrupted | would_block | write_error.

(** The socket's answer to an attempt to write some bytes, and what [write]
    and [sendmsg] document: they do not take more than they are given. *)
Abbreviation Response := (list Z -> WriteResult).

Definition response_ok (respond : Response) : Prop :=
  forall bytes n, respond bytes = wrote n -> n <= zlen bytes.

(** The front of the queue of descriptors, if it is due at the offset. *)
Definition due_descriptor (o : Output) : option Z :=
  match pending_output_fds_ o with
  | (offset, fd) :: _ => if offset =? output_offset_ o then Some fd else None
  | [] => None
  end.

(** The queue after a successful write: a descriptor that was due is gone. *)
Definition descriptors_left (o : Output) : list (Z * Z) :=
  match due_descriptor o with
  | Some _ => tail (pending_output_fds_ o)
  | None => pending_output_fds_ o
  end.

(** [end]: where the next write has to stop. *)
Definition write_end (o : Output) : Z :=
  match due_descriptor o, pending_output_fds_ o with
  | Some _, _ :: (offset, _) :: _ => offset
  | Some _, _ => zlen (output_ o)
  | None, (offset, _) :: _ => offset
  | None, [] => zlen (output_ o)
  end.

(** The bytes of the next write. *)
Definition write_bytes_of (o : Output) : list Z :=
  take (Z.to_nat (write_end o - output_offset_ o)) (drop (Z.to_nat (output_offset_ o)) (output_ o)).

(** What went out: for each successful call the descriptor and the bytes. *)
Abbreviation Sent := (list (option Z * list Z)).

(** The loop; each turn consumes one answer of the socket, and an exhausted
    list of answers means that the loop is still running. *)
Fixpoint flush (responses : list Response) (o : Output) (sent : Sent) : run (Output * Sent * Result unit) :=
  if output_offset_ o <? zlen (output_ o) then
    if (match pending_output_fds_ o with
        | (offset, _) :: _ => offset <? output_offset_ o
        | [] => false
        end)
    then finished (o, sent, failure malformed)
    else
      match responses with
      | [] => out_of_fuel
      | respond :: responses =>
          match respond (write_bytes_of o) with
          | wrote count =>
              if count >? 0 then
                let written := take (Z.to_nat count) (write_bytes_of o) in
                let sent := sent ++ [(due_descriptor o, written)] in
                let o' := o <| output_offset_ := u64 (output_offset_ o + count) |> in
                flush responses (o' <| pending_output_fds_ := descriptors_left o |>) sent
              else finished (o, sent, failure io)
          | interrupted => flush responses o sent
          | would_block => finished (o, sent, success tt)
          | write_error => finished (o, sent, failure io)
          end
      end
  else
    let o := o <| output_ := [] |> <| output_offset_ := 0 |> in
    match pending_output_fds_ o with
    | [] => finished (o, sent, success tt)
    | _ => finished (o, sent, failure malformed)
    end.

(** ** The stream of bytes and descriptors *)

(** The descriptor queued for a position. *)
Definition descriptor_at (pending : list (Z * Z)) (position : Z) : option Z :=
  snd <$> List.find (fun entry => entry.1 =? position) pending.

(** Bytes from a position on, each with the descriptor a function gives it. *)
Definition tag (descriptor : Z -> option Z) (position : Z) (bytes : list Z) : list (option Z * Z) :=
  imap (fun i byte => (descriptor (position + Z.of_nat i), byte)) bytes.

(** Every byte still to be sent, with the descriptor that goes with it. *)
Definition tagged (o : Output) : list (option Z * Z) :=
  tag (descriptor_at (pending_output_fds_ o)) (output_offset_ o) (unsent o).

(** What one call sent: a descriptor travels with the first byte. *)
Definition tagged_call (call : option Z * list Z) : list (option Z * Z) :=
  tag (fun i => if i =? 0 then call.1 else None) 0 call.2.

Definition tagged_sent (sent : Sent) : list (option Z * Z) := concat (map tagged_call sent).

(** The positions of the descriptors increase. *)
Definition positions_sorted (o : Output) : Prop := StronglySorted Z.lt (map fst (pending_output_fds_ o)).

Lemma tag_app f position l k : tag f position (l ++ k) = tag f position l ++ tag f (position + zlen l) k.
Proof.
  unfold tag. rewrite imap_app. f_equal. apply imap_ext. intros i x _. simpl. unfold zlen. do 2 f_equal. lia.
Qed.

Lemma tag_ext f g p q l :
  (forall i, 0 <= i < zlen l -> f (p + i) = g (q + i)) -> tag f p l = tag g q l.
Proof.
  intros Hfg. unfold tag. apply imap_ext. intros i x Hi. apply lookup_lt_Some in Hi. rewrite Hfg; [done|].
  unfold zlen. lia.
Qed.

Lemma descriptor_at_above pending low position :
  Forall (fun entry => low <= entry.1) pending -> position < low -> descriptor_at pending position = None.
Proof.
  unfold descriptor_at. induction 1 as [|[p fd] l Hle _ IH]; simpl in *; [done|]. intros Hlow.
  rewrite (proj2 (Z.eqb_neq _ _)) by lia. by apply IH.
Qed.

Lemma descriptor_at_app l k position :
  descriptor_at (l ++ k) position =
    match descriptor_at l position with Some fd => Some fd | None => descriptor_at k position end.
Proof.
  unfold descriptor_at. induction l as [|[p fd] l IH]; simpl; [done|]. by destruct (p =? position).
Qed.

Lemma descriptor_at_below pending high position :
  Forall (fun entry => entry.1 < high) pending -> high <= position -> descriptor_at pending position = None.
Proof.
  unfold descriptor_at. induction 1 as [|[p fd] l Hle _ IH]; simpl in *; [done|]. intros Hhigh.
  rewrite (proj2 (Z.eqb_neq _ _)) by lia. by apply IH.
Qed.

Lemma sorted_above p fd (l : list (Z * Z)) :
  StronglySorted Z.lt (map fst ((p, fd) :: l)) -> Forall (fun entry => p < entry.1) l.
Proof. simpl. intros Hs. apply StronglySorted_inv in Hs as [_ Hall]. by rewrite List.Forall_map in Hall. Qed.

Lemma sorted_tail p fd (l : list (Z * Z)) :
  StronglySorted Z.lt (map fst ((p, fd) :: l)) -> StronglySorted Z.lt (map fst l).
Proof. simpl. by intros [? _]%StronglySorted_inv. Qed.

Lemma from_first q f (l : list (Z * Z)) :
  StronglySorted Z.lt (map fst ((q, f) :: l)) -> Forall (fun entry => q <= entry.1) ((q, f) :: l).
Proof.
  intros Hs%sorted_above. constructor; [done|]. eapply Forall_impl; [apply Hs|]. simpl. lia.
Qed.

(** ** Queueing *)

Lemma compact_stream o :
  output_ok o -> positions_sorted o ->
  positions_sorted (compact_output o) /\ tagged (compact_output o) = tagged o.
Proof.
  intros Hok Hs. destruct (compact_output_spec o Hok) as (Hok' & H0 & Hu & Hf).
  pose proof (ok_offset o Hok) as Hoff.
  assert (forall p, List.find (fun entry => entry.1 =? p - output_offset_ o) (unsent_fds o) =
    (fun entry => (entry.1 - output_offset_ o, entry.2)) <$> List.find (fun entry => entry.1 =? p) (pending_output_fds_ o)) as Hfind.
  { intros p. unfold unsent_fds. induction (pending_output_fds_ o) as [|[q fd] l IH]; simpl; [done|].
    destruct (Z.eqb_spec q p) as [->|]; [by rewrite Z.eqb_refl|].
    rewrite (proj2 (Z.eqb_neq _ _)) by lia. apply IH. }
  assert (pending_output_fds_ (compact_output o) = unsent_fds o) as Hp.
  { rewrite <- Hf. unfold unsent_fds. rewrite H0. rewrite <- (map_id (pending_output_fds_ _)) at 1.
    apply map_ext. intros []. simpl. f_equal. lia. }
  split.
  - unfold positions_sorted in *. rewrite Hp. unfold unsent_fds. rewrite map_map. simpl.
    clear - Hs. revert Hs. induction (pending_output_fds_ o) as [|[q fd] l IH]; simpl; intros Hs; [constructor|].
    apply StronglySorted_inv in Hs as [Hs Hall]. constructor; [by apply IH|].
    rewrite List.Forall_map in Hall |- *. eapply Forall_impl; [apply Hall|]. simpl. lia.
  - unfold tagged. rewrite Hp, Hu, H0. apply tag_ext. intros i Hi. unfold descriptor_at.
    replace (0 + i) with (output_offset_ o + i - output_offset_ o) by lia. rewrite Hfind.
    by destruct (List.find _ _).
Qed.

Lemma buffer_fits o (bytes : list Z) size :
  output_ok o -> checked_add Unsigned 64 (zlen (output_ o)) (zlen bytes) = Some size ->
  size <= maximum_buffered_output -> zlen (output_ o) + zlen bytes <= maximum_buffered_output.
Proof.
  intros Hok Hadd Hmax. pose proof (ok_size o Hok) as Hsz. pose proof (zlen_nonneg (output_ o)).
  pose proof (zlen_nonneg bytes). unfold checked_add in Hadd.
  destruct (Z.gtb_spec (zlen bytes) (umax 64 - zlen (output_ o))) as [|Hle]; [done|].
  injection Hadd as <-. simpl in Hmax. unfold maximum_buffered_output in *.
  rewrite wrap_id in Hmax; unfold is_unsigned, umax in *; lia.
Qed.

(** Appending bytes, with a descriptor for the first of them or without. *)
Lemma append_stream o fd bytes :
  output_ok o -> positions_sorted o -> output_offset_ o = 0 -> bytes <> [] ->
  zlen (output_ o) + zlen bytes <= maximum_buffered_output ->
  let o' := mkOutput (output_ o ++ bytes) 0
    (pending_output_fds_ o ++ match fd with Some fd => [(zlen (output_ o), fd)] | None => [] end) in
  output_ok o' /\ positions_sorted o' /\ tagged o' = tagged o ++ tagged_call (fd, bytes).
Proof.
  intros Hok Hs H0 Hne Hfit o'. pose proof (ok_positions o Hok) as Hpos. rewrite H0 in Hpos.
  assert (0 < zlen bytes) as Hb by (destruct bytes; [done|rewrite zlen_cons; pose proof (zlen_nonneg bytes); lia]).
  pose proof (zlen_nonneg (output_ o)) as Hz. split_and!.
  - split; simpl; rewrite ?zlen_app; [lia|done|]. apply Forall_app. split.
    + eapply Forall_impl; [apply Hpos|]. simpl. lia.
    + destruct fd; repeat constructor; simpl; lia.
  - unfold positions_sorted in *. simpl. rewrite map_app. destruct fd as [fd|]; [|by rewrite app_nil_r]. simpl.
    clear - Hs Hpos. induction (pending_output_fds_ o) as [|[q f] l IH]; simpl in *; [repeat constructor|].
    apply StronglySorted_inv in Hs as [Hs Hall]. apply Forall_cons in Hpos as [Hq Hpos]. constructor; [by apply IH|].
    apply Forall_app. split; [done|]. repeat constructor. simpl in Hq. lia.
  - unfold tagged, unsent. cbn [output_ output_offset_ pending_output_fds_ o']. rewrite H0.
    change (Z.to_nat 0) with 0%nat. rewrite !drop_0, tag_app. unfold tagged_call. cbn [fst snd].
    f_equal; apply tag_ext; intros i Hi; rewrite descriptor_at_app.
    + assert (descriptor_at match fd with Some fd => [(zlen (output_ o), fd)] | None => [] end (0 + i) = None) as ->.
      { destruct fd; [|done]. unfold descriptor_at. simpl. by rewrite (proj2 (Z.eqb_neq _ _)) by lia. }
      by destruct (descriptor_at _ _).
    + rewrite descriptor_at_below with (high := zlen (output_ o)); [|eapply Forall_impl; [apply Hpos|]; simpl; lia|lia].
      simpl. destruct fd as [fd|]; unfold descriptor_at; simpl.
      * destruct (Z.eqb_spec i 0) as [->|Hi0]; [by rewrite Z.add_0_r, Z.eqb_refl|].
        rewrite (proj2 (Z.eqb_neq (zlen _) _)) by lia. by rewrite (proj2 (Z.eqb_neq _ 0)) by lia.
      * by destruct (_ =? _).
Qed.

(** Queueing appends to the stream and changes nothing of what is queued
    already, although it moves the unsent bytes and descriptors to the front
    of the buffer: [queue] appends bytes, [queue_with_fd] bytes whose first
    one carries the descriptor, and a refused call appends nothing. *)
Theorem queue_stream can_reserve bytes fd o :
  output_ok o -> positions_sorted o ->
  (forall o' r, queue can_reserve bytes o = (o', r) -> output_ok o' /\ positions_sorted o' /\
     tagged o' = tagged o ++ match r with success _ => tagged_call (None, bytes) | failure _ => [] end) /\
  (forall o' r, queue_with_fd can_reserve bytes fd o = (o', r) -> output_ok o' /\ positions_sorted o' /\
     tagged o' = tagged o ++ match r with success _ => tagged_call (fd, bytes) | failure _ => [] end /\
     (r = success tt -> fd <> None /\ bytes <> [])).
Proof.
  intros Hok Hs. destruct (compact_stream o Hok Hs) as [Hs' Ht]. destruct (compact_output_spec o Hok) as (Hok' & H0 & _).
  pose proof (zlen_nonneg bytes). split; intros o' r.
  - unfold queue. case_bool_decide as Hb; [intros [= <- <-]; subst; by rewrite app_nil_r|].
    destruct (checked_add _ _ _ _) as [size|] eqn:Hadd; [|intros [= <- <-]; by rewrite app_nil_r, Ht].
    destruct (Z.gtb_spec size maximum_buffered_output) as [|Hmax]; [intros [= <- <-]; by rewrite app_nil_r, Ht|].
    destruct (can_reserve size); intros [= <- <-]; [|by rewrite app_nil_r, Ht]. rewrite <- Ht.
    pose proof (append_stream (compact_output o) None bytes Hok' Hs' H0 Hb) as Happ. simpl in Happ.
    rewrite app_nil_r, <- H0 in Happ. apply Happ. eapply buffer_fits; eauto.
  - unfold queue_with_fd. destruct fd as [fd|]; [|intros [= <- <-]; by rewrite app_nil_r].
    case_bool_decide as Hb; [intros [= <- <-]; by rewrite app_nil_r|].
    destruct (checked_add _ _ _ _) as [size|] eqn:Hadd; [|intros [= <- <-]; by rewrite app_nil_r, Ht].
    destruct (Z.gtb_spec size maximum_buffered_output) as [|Hmax]; [intros [= <- <-]; by rewrite app_nil_r, Ht|].
    destruct (can_reserve size); intros [= <- <-]; [|by rewrite app_nil_r, Ht]. rewrite <- Ht.
    pose proof (append_stream (compact_output o) (Some fd) bytes Hok' Hs' H0 Hb) as Happ. simpl in Happ.
    rewrite <- H0 in Happ at 1 2 3. destruct Happ as (? & ? & ?); [eapply buffer_fits; eauto|]. by split_and!.
Qed.

(** Where the next write stops: past the current position, inside the buffer
    and no later than the next descriptor. *)
Lemma write_end_spec o :
  output_ok o -> positions_sorted o -> output_offset_ o < zlen (output_ o) ->
  output_offset_ o < write_end o <= zlen (output_ o) /\
  Forall (fun entry => write_end o <= entry.1) (descriptors_left o) /\
  pending_output_fds_ o =
    match due_descriptor o with Some fd => [(output_offset_ o, fd)] | None => [] end ++ descriptors_left o.
Proof.
  intros [_ _ Hpos] Hs Hlt. unfold positions_sorted in Hs. unfold write_end, descriptors_left, due_descriptor.
  destruct (pending_output_fds_ o) as [|[q fd] l]; [split_and!; [lia..|constructor|done]|].
  apply Forall_cons in Hpos as [Hq Hl]. simpl in Hq.
  destruct (Z.eqb_spec q (output_offset_ o)) as [->|Hne].
  - pose proof (sorted_above _ _ _ Hs) as Hab. apply sorted_tail in Hs.
    destruct l as [|[q' fd'] l]; simpl.
    + split_and!; [lia..|constructor|done].
    + apply Forall_cons in Hl as [Hq' _]. apply Forall_cons in Hab as [Hab _]. simpl in *.
      split_and!; [lia..| |done]. by apply (from_first q' fd').
  - split_and!; [lia..| |done]. by apply (from_first q fd).
Qed.

(** The state after a call that took [count] bytes. *)
Definition advanced (count : Z) (o : Output) : Output :=
  o <| output_offset_ := u64 (output_offset_ o + count) |> <| pending_output_fds_ := descriptors_left o |>.

(** A successful call sends the next bytes of the stream, with the descriptor
    that was queued for the first of them. *)
Lemma call_sends count o :
  output_ok o -> positions_sorted o -> output_offset_ o < zlen (output_ o) ->
  0 < count <= zlen (write_bytes_of o) ->
  output_ok (advanced count o) /\ positions_sorted (advanced count o) /\
  tagged_call (due_descriptor o, take (Z.to_nat count) (write_bytes_of o)) ++ tagged (advanced count o) = tagged o.
Proof.
  intros Hok Hs Hlt Hcount. destruct (write_end_spec o Hok Hs Hlt) as (Hend & Hleft & Hsplit).
  pose proof (ok_offset o Hok) as Hoff. pose proof (ok_size o Hok) as Hsize. unfold maximum_buffered_output in Hsize.
  assert (zlen (write_bytes_of o) = write_end o - output_offset_ o) as Hwb.
  { unfold write_bytes_of, zlen in *. rewrite length_take, length_drop. lia. }
  assert (u64 (output_offset_ o + count) = output_offset_ o + count) as Hu
    by (apply wrap_id; unfold is_unsigned; lia).
  assert (take (Z.to_nat count) (write_bytes_of o) = take (Z.to_nat count) (unsent o)) as Htake.
  { unfold write_bytes_of, unsent. rewrite take_take. f_equal. lia. }
  assert (unsent (advanced count o) = drop (Z.to_nat count) (unsent o)) as Hun.
  { unfold unsent. simpl. rewrite Hu, drop_drop. f_equal. lia. }
  assert (zlen (take (Z.to_nat count) (unsent o)) = count) as Hlen.
  { unfold unsent, zlen in *. rewrite length_take, length_drop. lia. }
  split_and!.
  - split; simpl; [lia|apply (ok_size o Hok)|]. rewrite Hu. pose proof (ok_positions o Hok) as Hpos.
    rewrite Hsplit in Hpos. apply Forall_app in Hpos as [_ Hpos].
    eapply Forall_impl; [apply Forall_and; split; [apply Hleft|apply Hpos]|]. simpl. lia.
  - unfold positions_sorted in *. simpl. rewrite Hsplit in Hs. destruct (due_descriptor o); simpl in Hs; [|done].
    by inversion Hs.
  - unfold tagged. rewrite Hun. transitivity (tag (descriptor_at (pending_output_fds_ o)) (output_offset_ o)
      (take (Z.to_nat count) (unsent o) ++ drop (Z.to_nat count) (unsent o))); [|by rewrite take_drop].
    rewrite tag_app, Hlen, Htake. unfold tagged_call. cbn [fst snd]. f_equal.
    + apply tag_ext. rewrite Hlen, Hsplit. intros i Hi. rewrite Z.add_0_l. unfold descriptor_at.
      destruct (due_descriptor o) as [fd|]; simpl.
      * destruct (Z.eqb_spec i 0) as [->|Hne]; [by rewrite Z.add_0_r, Z.eqb_refl|].
        rewrite (proj2 (Z.eqb_neq (output_offset_ o) _)) by lia. symmetry. apply (descriptor_at_above _ (write_end o)); [done|lia].
      * transitivity (@None Z); [by destruct (_ =? _)|].
        symmetry. apply (descriptor_at_above _ (write_end o)); [done|lia].
    + cbn [output_offset_ advanced]. apply tag_ext. intros i Hi. simpl. rewrite Hu. rewrite Hsplit.
      unfold descriptor_at. destruct (due_descriptor o); simpl; [|done].
      by rewrite (proj2 (Z.eqb_neq (output_offset_ o) _)) by lia.
Qed.

Lemma call_unsent count o :
  output_ok o -> positions_sorted o -> output_offset_ o < zlen (output_ o) ->
  0 < count <= zlen (write_bytes_of o) -> zlen (unsent (advanced count o)) = zlen (unsent o) - count.
Proof.
  intros Hok Hs Hlt Hcount. destruct (write_end_spec o Hok Hs Hlt) as (Hend & _).
  pose proof (ok_offset o Hok) as Hoff. pose proof (ok_size o Hok) as Hsize. unfold maximum_buffered_output in Hsize.
  assert (zlen (write_bytes_of o) = write_end o - output_offset_ o) as Hwb.
  { unfold write_bytes_of, zlen in *. rewrite length_take, length_drop. lia. }
  unfold unsent. simpl. rewrite wrap_id by (unfold is_unsigned; lia). rewrite !zlen_drop by lia. lia.
Qed.

Lemma drained_output o : output_ok o -> zlen (output_ o) <= output_offset_ o ->
  pending_output_fds_ o = [] /\ unsent o = [].
Proof.
  intros Hok Hge. split.
  - pose proof (ok_positions o Hok) as Hpos. destruct (pending_output_fds_ o) as [|p l]; [done|].
    apply Forall_cons in Hpos as [Hp _]. simpl in Hp. lia.
  - apply drop_ge. unfold zlen in *. lia.
Qed.

Lemma flush_end responses o before :
  output_ok o -> zlen (output_ o) <= output_offset_ o ->
  exists o', flush responses o before = finished (o', before, success tt) /\
    output_ok o' /\ positions_sorted o' /\ output_ o' = [] /\ tagged o' = tagged o.
Proof.
  intros Hok Hge. destruct (drained_output o Hok Hge) as [Hp Hu]. exists (mkOutput [] 0 []).
  split_and!; [|by split|constructor|done|unfold tagged; by rewrite Hu].
  destruct responses; simpl; rewrite (proj2 (Z.ltb_ge _ _)) by done; by rewrite Hp.
Qed.

(** The marker the code checks for is never passed. *)
Lemma marker_ahead o : output_ok o ->
  match pending_output_fds_ o with (offset, _) :: _ => offset <? output_offset_ o | [] => false end = false.
Proof.
  intros [_ _ Hpos]. destruct (pending_output_fds_ o) as [|[q f] l]; [done|].
  apply Forall_cons in Hpos as [Hq _]. simpl in Hq. lia.
Qed.

Lemma tagged_sent_app sent call : tagged_sent (sent ++ [call]) = tagged_sent sent ++ tagged_call call.
Proof. unfold tagged_sent. by rewrite map_app, concat_app; simpl; rewrite app_nil_r. Qed.

Definition interrupts (respond : Response) : Prop := exists bytes, respond bytes = interrupted.
Definition blocks (respond : Response) : Prop := exists bytes, respond bytes = would_block.

(** C39: whatever the socket does with each call (it may take any part of the
    bytes it is given, ask to be called again, or fail), the bytes that went
    out followed by the bytes still in the buffer are the bytes that were
    queued, in order, and each descriptor goes with the byte it was queued
    for and with no other. The loop never meets a descriptor it has passed or
    one that is left over. It succeeds with the buffer empty or when a call
    would block, and without interruptions it needs no more calls than there
    are bytes to send. *)
Theorem flush_exact responses o before :
  Forall response_ok responses -> output_ok o -> positions_sorted o ->
  match flush responses o before with
  | out_of_fuel => Exists interrupts responses \/ zlen responses < zlen (unsent o)
  | finished (o', sent, r) =>
      output_ok o' /\ positions_sorted o' /\
      tagged_sent sent ++ tagged o' = tagged_sent before ++ tagged o /\
      match r with
      | success _ => output_ o' = [] \/ Exists blocks responses
      | failure code => code = io
      end
  end.
Proof.
  intros Hr. revert o before. induction Hr as [|respond responses Hone _ IH]; intros o before Hok Hs;
    (destruct (Z.ltb_spec (output_offset_ o) (zlen (output_ o))) as [Hlt|Hge];
      [simpl; rewrite (proj2 (Z.ltb_lt _ _)), marker_ahead by done
      |destruct (flush_end (respond :: responses) o before Hok Hge) as (o' & -> & ? & ? & ? & ->) ||
       destruct (flush_end [] o before Hok Hge) as (o' & -> & ? & ? & ? & ->); split_and!; [done..|by left]]).
  - right. pose proof (ok_offset o Hok). unfold unsent. rewrite zlen_drop by lia. rewrite zlen_nil. lia.
  - destruct (respond (write_bytes_of o)) as [count| | |] eqn:Ha; [|..].
    + pose proof (Hone _ _ Ha) as Hcount. destruct (Z.gtb_spec count 0) as [Hpos|]; [|by split_and!].
      destruct (call_sends count o) as (Hok' & Hs' & Htag); [done..|lia|].
      specialize (IH (advanced count o) (before ++ [(due_descriptor o, take (Z.to_nat count) (write_bytes_of o))]) Hok' Hs').
      unfold advanced in IH at 1. destruct (flush _ _ _) as [[[o' sent] r]|].
      * destruct IH as (? & ? & -> & Hr'). split_and!; [done..| |].
        -- by rewrite tagged_sent_app, <- app_assoc, Htag.
        -- destruct r; [|done]. destruct Hr'; [by left|right; by apply Exists_cons_tl].
      * destruct IH as [?|Hlen]; [left; by apply Exists_cons_tl|right]. rewrite zlen_cons.
        pose proof (call_unsent count o Hok Hs Hlt). lia.
    + specialize (IH o before Hok Hs). destruct (flush _ _ _) as [[[o' sent] r]|].
      * destruct IH as (? & ? & ? & Hr'). split_and!; [done..|].
        destruct r; [|done]. destruct Hr'; [by left|right; by apply Exists_cons_tl].
      * left. apply Exists_cons_hd. by eexists.
    + split_and!; [done..|]. right. apply Exists_cons_hd. by eexists.
    + by split_and!.
Qed.

(** Two replies in the buffer, the second with a descriptor: the socket takes
    three bytes, is interrupted, takes what is left of the first reply, takes
    one byte of the second and then would block. *)
Definition two_replies : Output := mkOutput [1; 2; 3; 4; 5; 6; 7; 8] 0 [(4, 9)].

Definition answers : list Response :=
  [(fun bytes => wrote (Z.min 3 (zlen bytes))); (fun _ => interrupted); (fun bytes => wrote (zlen bytes));
   (fun bytes => wrote (Z.min 1 (zlen bytes))); (fun _ => would_block)].

Lemma flush_exact_witness :
  flush answers two_replies [] =
    finished (mkOutput [1; 2; 3; 4; 5; 6; 7; 8] 5 [], [(None, [1; 2; 3]); (None, [4]); (Some 9, [5])], success tt) /\
  [(None, 1); (None, 2); (None, 3); (None, 4); (Some 9, 5); (None, 6); (None, 7); (None, 8)] = tagged two_replies.
Proof.
  split; [reflexivity|].
  assert (Forall response_ok answers) as Hr.
  { repeat constructor; intros bytes n [= <-]; lia. }
  destruct (flush_exact answers two_replies [] Hr) as (_ & _ & Htag & _).
  - split; [unfold zlen; simpl; lia|by vm_compute|]. repeat constructor; simpl; lia.
  - repeat constructor.
  - exact Htag.
Defined.

(** The same buffer after five bytes went out, and a reply with a descriptor. *)
Lemma queue_stream_witness :
  let o := mkOutput [1; 2; 3; 4; 5; 6; 7; 8] 5 [(6, 9)] in
  let o' := mkOutput [6; 7; 8; 10; 11] 0 [(1, 9); (3, 12)] in
  queue_with_fd (fun _ => true) [10; 11] (Some 12) o = (o', success tt) /\
  tagged o' = [(None, 6); (Some 9, 7); (None, 8)] ++ [(Some 12, 10); (None, 11)].
Proof.
  intros o o'. assert (queue_with_fd (fun _ => true) [10; 11] (Some 12) o = (o', success tt)) as Hq by reflexivity.
  split; [done|].
  destruct (queue_stream (fun _ => true) [10; 11] (Some 12) o) as [_ Hfd].
  - split; [unfold zlen; simpl; lia|by vm_compute|]. repeat constructor; simpl; lia.
  - repeat constructor.
  - destruct (Hfd o' (success tt) Hq) as (_ & _ & Ht & _). exact Ht.
Defined.
