(* ===== verification/Service.v ===== *)
(** * Request handlers and the server behind a connection

    The first request handlers of [src/src/server/connection.cpp] (atoms,
    extensions, BIG-REQUESTS, NoOperation), and the server state the modelled
    components make up, which implements the interface [ConnectionServer] of
    [Connection.v]: its event queues are those of [EventQueue.v], its waiting
    clients those of [Sync.v] and its atoms those of [Atoms.v]. *)
From S2P Require Import Prelude.
From S2P Require Import Checked.
From S2P Require Import Wire.
From S2P Require Import Atoms.
From S2P Require Import Events.
From S2P Require Import EventSink.
From S2P Require Import EventQueue.
From S2P Require Import Sync.
From S2P Require Import Extensions.
From S2P Require Import Encode.
From S2P Require Import Connection.

Definition bad_value : Z := 2.
Definition bad_atom : Z := 5.
Definition bad_alloc : Z := 11.

(** ** The server state

    The parts of [ServerState] that the handlers of this file and the
    connection engine use. *)
Record Server := mkServer {
  sync_part : SyncState EventQueues;
  atoms : AtomTable;
  width : Z;
  height : Z
}.

#[export] Instance Server_eta : Eta Server := fun s => mkServer (sync_part s) (atoms s) (width s) (height s).

(** [++current_time_], and 1 in place of 0. *)
Definition advance_time (time : Z) : Z :=
  let time := u32 (time + 1) in
  if time =? 0 then 1 else time.

Section Handlers.
Context (can_reserve : Z -> bool) (have_mitshm : bool) {E : Type}.

Definition Handler : Type := RequestContext -> Server -> Session E -> Server * Session E * Result unit.

(** A handler's last step: [f] is run on the output buffer. *)
Definition answer (f : Output -> Output * Result unit) (server : Server) (s : Session E)
    : Server * Session E * Result unit :=
  let '(o, r) := f (output s) in (server, s <| output := o |>, r).

Definition error (code bad_value minor : Z) (context : RequestContext) : Output -> Output * Result unit :=
  send_error can_reserve (order context) code (opcode context) (sequence context) bad_value minor.

(** [queue(reply.data())], the reply being built by [write]. *)
Definition reply (context : RequestContext) (write : WireWriter -> WireWriter) : Output -> Output * Result unit :=
  queue can_reserve (bytes_ (write (writer (order context)))).

(** The reader over a request behind its header. *)
Definition request_reader (context : RequestContext) : WireReader :=
  reader_of (drop 4 (request context)) (order context).

Definition handle_intern_atom : Handler := fun context server s =>
  if zlen (request context) <? 8 then answer (error bad_length 0 0 context) server s
  else
    match read_u16 (request_reader context) with
    | (None, _) => (server, s, failure malformed)
    | (Some name_size, reader) =>
        if negb (fst (skip 2 reader)) then (server, s, failure malformed)
        else
          match padded_to_four name_size with
          | None => answer (error bad_length 0 0 context) server s
          | Some padded_name =>
              if negb (zlen (request context) =? 8 + padded_name)
              then answer (error bad_length 0 0 context) server s
              else if (data context >? 1) || (name_size =? 0) || (name_size >? 1024)
              then answer (error bad_value (if data context >? 1 then data context else name_size) 0 context) server s
              else
                let name := text (take (Z.to_nat name_size) (drop 8 (request context))) in
                let '(atom, table) := intern name (negb (data context =? 0)) (atoms server) in
                let server := server <| atoms := table |> in
                if (atom =? 0) && (data context =? 0)
                then answer (error bad_alloc 0 0 context) server s
                else
                  answer (reply context (write_fields
                    [U8 1; U8 0; U16 (sequence context); U32 0; U32 atom; Pad 20])) server s
          end
    end.

Definition handle_get_atom_name : Handler := fun context server s =>
  if negb (zlen (request context) =? 8) then answer (error bad_length 0 0 context) server s
  else
    match fst (read_u32 (request_reader context)) with
    | None => (server, s, failure malformed)
    | Some atom =>
        match atom_name atom (atoms server) with
        | None => answer (error bad_atom atom 0 context) server s
        | Some name =>
            let size := zlen (codes name) in
            answer (reply context (fun w =>
              pad_to_four (write_bytes (codes name) (write_fields
                [U8 1; U8 0; U16 (sequence context); U32 (u64 (size + 3) / 4); U16 size; Pad 22] w))))
              server s
        end
    end.

Definition handle_query_extension : Handler := fun context server s =>
  if zlen (request context) <? 8 then answer (error bad_length 0 0 context) server s
  else
    match read_u16 (request_reader context) with
    | (None, _) => (server, s, failure malformed)
    | (Some name_size, reader) =>
        if negb (fst (skip 2 reader)) then (server, s, failure malformed)
        else
          match padded_to_four name_size with
          | None => answer (error bad_length 0 0 context) server s
          | Some padded_name =>
              if negb (zlen (request context) =? 8 + padded_name)
              then answer (error bad_length 0 0 context) server s
              else
                let name := text (take (Z.to_nat name_size) (drop 8 (request context))) in
                let extension := extension_by_name have_mitshm name in
                let number f := match extension with None => 0 | Some extension => f extension end in
                answer (reply context (write_fields
                  [U8 1; U8 0; U16 (sequence context); U32 0; U8 (number (fun _ => 1));
                   U8 (number major_opcode); U8 (number first_event); U8 (number first_error); Pad 20]))
                  server s
          end
    end.

(** The loop that adds up [payload_size]. *)
Definition registry_payload (registry : list ExtensionInfo) : Z :=
  foldl (fun size extension => u64 (size + (1 + zlen (codes (name extension))))) 0 registry.

Definition handle_list_extensions : Handler := fun context server s =>
  if negb (zlen (request context) =? 4) then answer (error bad_length 0 0 context) server s
  else
    let registry := extension_registry have_mitshm in
    let payload_size := registry_payload registry in
    match padded_to_four payload_size with
    | None => answer (error bad_alloc 0 0 context) server s
    | Some padded_size =>
        answer (reply context (fun w =>
          let w := write_fields
            [U8 1; U8 (zlen registry); U16 (sequence context); U32 (padded_size / 4); Pad 24] w in
          let w := foldl (fun w extension =>
            write_bytes (codes (name extension)) (write_u8 (u8 (zlen (codes (name extension)))) w)) w registry in
          pad (u64 (padded_size - payload_size)) w)) server s
    end.

Definition handle_big_requests : Handler := fun context server s =>
  if negb (data context =? 0) then answer (error bad_request 0 (data context) context) server s
  else if negb (zlen (request context) =? 4) then answer (error bad_length 0 (data context) context) server s
  else
    match answer (reply context (write_fields
      [U8 1; U8 0; U16 (sequence context); U32 0; U32 maximum_extended_request_units; Pad 20])) server s with
    | (server, s, success _) => (server, s <| big_requests_enabled_ := true |>, success tt)
    | failed => failed
    end.

Definition handle_no_operation : Handler := fun _ server s => (server, s, success tt).

(** [dispatch]: the handlers above by opcode; [other] stands for the handlers
    of the extensions and core requests this file does not model and for the
    empty entries of the table. *)
Definition dispatch_request (other : Handler) : Handler := fun context server s =>
  match extension_by_opcode have_mitshm (opcode context) with
  | Some extension =>
      if bool_decide (kind extension = big_requests) then handle_big_requests context server s
      else other context server s
  | None =>
      if opcode context >=? 128 then answer (error bad_request 0 0 context) server s
      else if opcode context =? 16 then handle_intern_atom context server s
      else if opcode context =? 17 then handle_get_atom_name context server s
      else if opcode context =? 98 then handle_query_extension context server s
      else if opcode context =? 99 then handle_list_extensions context server s
      else if opcode context =? 127 then handle_no_operation context server s
      else other context server s
  end.
End Handlers.

(** ** The interface of the connection engine *)

Definition on_queues (f : EventQueues -> EventQueues) (s : Server) : Server :=
  s <| sync_part := (sync_part s) <| queues := f (queues (sync_part s)) |> |>.

#[export] Instance server_of (E : Type)
    (handle : RequestContext -> Server -> Session E -> Server * Session E * Result unit) :
    ConnectionServer Server E := {|
  queued_events s := queue_of (queues (sync_part s));
  pop_event s client := on_queues (fun q => EventQueue.pop_event q client) s;
  Connection.note_client_sequence s client n := on_queues (fun q => EventQueue.note_client_sequence q client n) s;
  Connection.register_client s client :=
    let '(q, ok) := EventQueue.register_client (queues (sync_part s)) client in (on_queues (fun _ => q) s, ok);
  Connection.sync_waiting s client := Sync.sync_waiting (sync_part s) client;
  Connection.advance_time s :=
    s <| sync_part := (sync_part s) <| current_time := advance_time (current_time (sync_part s)) |> |>;
  screen_size s := (width s, height s);
  dispatch := handle
|}.

Lemma set_sequence_twice client n k l : set_sequence client k (set_sequence client n l) = set_sequence client k l.
Proof.
  induction l as [|[c old] l IH]; simpl; [done|]. destruct (c =? client) eqn:Hc; simpl; rewrite Hc; [done|].
  by rewrite IH.
Qed.

#[export] Instance server_laws E handle : ConnectionServerLaws Server E (H := server_of E handle).
Proof.
  split.
  - intros s client. simpl. by rewrite (proj2 (proj2 (pop_event_spec _ _))), Z.eqb_refl.
  - done.
  - done.
  - done.
  - intros s client n k. unfold Connection.note_client_sequence. simpl. unfold on_queues. simpl.
    unfold EventQueue.note_client_sequence. simpl. by rewrite set_sequence_twice.
Qed.

(** ** Well-framed replies *)

(** The length of a packet as a client works it out: an error has 32 bytes, a
    reply 32 and the units its length field announces. *)
Definition packet_length (order : ByteOrder) (bytes : list Z) : option Z :=
  match read_u8 (reader_of bytes order) with
  | (None, _) => None
  | (Some type, r1) =>
      if type =? 0 then Some 32
      else if negb (type =? 1) then None
      else match skip 3 r1 with
           | (false, _) => None
           | (true, r2) => (fun units => 32 + 4 * units) <$> fst (read_u32 r2)
           end
  end.

(** The sequence number of a packet. *)
Definition packet_sequence (order : ByteOrder) (bytes : list Z) : option Z :=
  match skip 2 (reader_of bytes order) with
  | (false, _) => None
  | (true, r) => fst (read_u16 r)
  end.

Lemma fields_written fs order : bytes_ (write_fields fs (writer order)) = concat (map (field_bytes order) fs).
Proof. by destruct (write_fields_bytes fs (writer order)) as [-> _]. Qed.

(** ** Reading fields back *)

Ltac read_back H := intros Hwf Hr;
  let r' := fresh "r'" in let E := fresh "E" in
  destruct (read_field_spec _ _ _ H Hwf Hr) as (r' & E & ? & ? & ?); simpl in E; exists r';
  match type of E with context [let '(_, _) := ?read in _] =>
    destruct read as [[?|] ?]; [injection E as -> ->|done] end.

Lemma read_u8_back v r tail :
  reader_wf r -> rest_of r = field_bytes (order_ r) (U8 v) ++ tail ->
  exists r', read_u8 r = (Some (u8 v), r') /\ reader_wf r' /\ rest_of r' = tail /\ order_ r' = order_ r.
Proof. by read_back (ok_U8 v). Qed.

Lemma read_u16_back v r tail :
  reader_wf r -> rest_of r = field_bytes (order_ r) (U16 v) ++ tail ->
  exists r', read_u16 r = (Some (u16 v), r') /\ reader_wf r' /\ rest_of r' = tail /\ order_ r' = order_ r.
Proof. by read_back (ok_U16 v). Qed.

Lemma read_u32_back v r tail :
  reader_wf r -> rest_of r = field_bytes (order_ r) (U32 v) ++ tail ->
  exists r', read_u32 r = (Some (u32 v), r') /\ reader_wf r' /\ rest_of r' = tail /\ order_ r' = order_ r.
Proof. by read_back (ok_U32 v). Qed.

(** A name behind the fields of a reply, and its padding. *)
Lemma name_written order fs n :
  Forall field_ok fs -> fields_size fs mod 4 = 0 ->
  exists k, bytes_ (pad_to_four (write_bytes n (write_fields fs (writer order)))) =
      bytes_ (write_fields fs (writer order)) ++ n ++ replicate k 0 /\
    zlen n + Z.of_nat k = 4 * ((zlen n + 3) / 4).
Proof.
  intros Hfs H4. destruct (pad_to_four_spec (write_bytes n (write_fields fs (writer order)))) as (k & Hk & Hk4 & Hmod).
  rewrite Hk in Hmod |- *. change (bytes_ (write_bytes n ?w)) with (bytes_ w ++ n) in *.
  rewrite <- app_assoc in *. exists k. split; [done|].
  rewrite fields_written, !zlen_app, fields_bytes_size, zlen_replicate in Hmod by done.
  pose proof (Z.div_mod (fields_size fs) 4 ltac:(lia)). pose proof (Z.div_mod (zlen n + 3) 4 ltac:(lia)).
  pose proof (Z.mod_pos_bound (zlen n + 3) 4 ltac:(lia)).
  pose proof (Z.div_mod (fields_size fs + (zlen n + Z.of_nat k)) 4 ltac:(lia)). lia.
Qed.

Lemma header_fields order type detail sequence units rest :
  Forall field_ok (U8 type :: U8 detail :: U16 sequence :: U32 units :: []) ->
  let bytes := concat (map (field_bytes order) [U8 type; U8 detail; U16 sequence; U32 units]) ++ rest in
  packet_sequence order bytes = Some (u16 sequence) /\
  packet_length order bytes =
    if u8 type =? 0 then Some 32 else if u8 type =? 1 then Some (32 + 4 * u32 units) else None.
Proof.
  intros Hok bytes. rewrite !Forall_cons in Hok. destruct Hok as (H1 & H2 & H3 & H4 & _).
  assert (rest_of (reader_of bytes order) = field_bytes order (U8 type) ++ field_bytes order (U8 detail) ++
    field_bytes order (U16 sequence) ++ field_bytes order (U32 units) ++ rest) as Hr.
  { rewrite rest_of_reader_of. unfold bytes. simpl. by rewrite ?app_nil_r, <- ?app_assoc. }
  pose proof (reader_of_wf bytes order) as Hwf.
  assert (zlen (field_bytes order (U8 type) ++ field_bytes order (U8 detail)) = 2) as Hl2
    by (rewrite zlen_app, !field_bytes_size by done; done).
  assert (zlen (field_bytes order (U8 detail) ++ field_bytes order (U16 sequence)) = 3) as Hl3
    by (rewrite zlen_app, !field_bytes_size by done; done).
  split.
  - unfold packet_sequence. rewrite app_assoc in Hr.
    destruct (skip_spec 2 _ _ _ Hwf Hr Hl2) as (r & -> & Hwf' & Hr' & Ho).
    destruct (read_u16_back sequence r (field_bytes order (U32 units) ++ rest) Hwf') as (r' & -> & _); [by rewrite Ho|done].
  - unfold packet_length.
    destruct (read_u8_back type _ _ Hwf Hr) as (r1 & -> & Hwf1 & Hr1 & Ho1).
    destruct (u8 type =? 0); [done|]. destruct (u8 type =? 1); [simpl|done].
    rewrite app_assoc in Hr1. change (order_ (reader_of bytes order)) with order in Ho1.
    destruct (skip_spec 3 _ _ _ Hwf1 Hr1 Hl3) as (r2 & -> & Hwf2 & Hr2 & Ho2).
    destruct (read_u32_back units r2 rest Hwf2) as (r3 & -> & _); [by rewrite Ho2, Ho1|done].
Qed.

Section Replies.
Context (can_reserve : Z -> bool) (have_mitshm : bool) {E : Type}.

(** What a handler may send for a request: nothing, or one packet with the
    request's sequence number whose size is the one it announces. *)
Definition one_packet (context : RequestContext) (bytes : list Z) : Prop :=
  bytes = [] \/
  (packet_length (order context) bytes = Some (zlen bytes) /\
   packet_sequence (order context) bytes = Some (u16 (sequence context))).

Definition answers (context : RequestContext) (s : Session E) (s' : Session E) : Prop :=
  output_ok (output s') /\ unsent_fds (output s') = unsent_fds (output s) /\
  exists bytes, unsent (output s') = unsent (output s) ++ bytes /\ one_packet context bytes.

Lemma answers_nothing context s : output_ok (output s) -> answers context s s.
Proof. intros Hok. split_and!; [done..|]. exists []. rewrite app_nil_r. split; [done|by left]. Qed.

Lemma answer_queue context bytes server s server' s' r :
  output_ok (output s) -> (zlen bytes <= maximum_buffered_output -> one_packet context bytes) ->
  answer (queue can_reserve bytes) server s = (server', s', r) -> answers context s s' /\ server' = server.
Proof.
  intros Hok Hone. unfold answer. destruct (queue can_reserve bytes (output s)) as [o r'] eqn:Hq.
  intros [= <- <- <-]. split; [|done]. destruct (queue_spec can_reserve bytes _ _ _ Hok Hq) as (Hok' & Hf & Hu & _).
  split_and!; [done..|]. simpl. eexists. split; [done|]. destruct r'; [|by left]. apply Hone.
  assert (zlen bytes <= zlen (unsent o)) by (rewrite Hu, zlen_app; pose proof (zlen_nonneg (unsent (output s))); lia).
  pose proof (ok_size _ Hok'). pose proof (ok_offset _ Hok'). unfold unsent in *. rewrite zlen_drop in * by lia. lia.
Qed.

Lemma fields_packet context type detail units fs rest :
  u8 type = 0 \/ u8 type = 1 -> Forall field_ok fs ->
  (if u8 type =? 0 then 32 else 32 + 4 * u32 units) = 8 + fields_size fs + zlen rest ->
  one_packet context (bytes_ (write_fields (U8 type :: U8 detail :: U16 (sequence context) :: U32 units :: fs)
    (writer (order context))) ++ rest).
Proof.
  intros Ht Hfs Hsize. right. rewrite fields_written.
  change (_ :: _ :: _ :: _ :: fs) with ([U8 type; U8 detail; U16 (sequence context); U32 units] ++ fs).
  rewrite map_app, concat_app, <- app_assoc.
  destruct (header_fields (order context) type detail (sequence context) units
    (concat (map (field_bytes (order context)) fs) ++ rest)) as [Hs Hl]; [field_list|].
  rewrite Hs, Hl, !zlen_app, !fields_bytes_size by (done || field_list). split; [|done].
  change (fields_size [_; _; _; _]) with 8. rewrite Z.add_assoc, <- Hsize. by destruct Ht as [-> | ->].
Qed.

Lemma plain_packet context type detail units fs :
  u8 type = 0 \/ u8 type = 1 -> Forall field_ok fs ->
  (if u8 type =? 0 then 32 else 32 + 4 * u32 units) = 8 + fields_size fs ->
  one_packet context (bytes_ (write_fields (U8 type :: U8 detail :: U16 (sequence context) :: U32 units :: fs)
    (writer (order context)))).
Proof.
  intros Ht Hfs Hsize. rewrite <- (app_nil_r (bytes_ _)). apply fields_packet; [done..|]. rewrite Hsize. symmetry. apply Z.add_0_r.
Qed.

Lemma error_packet context code bad_value minor server s server' s' r :
  output_ok (output s) ->
  answer (error can_reserve code bad_value minor context) server s = (server', s', r) ->
  answers context s s' /\ server' = server.
Proof.
  intros Hok. apply answer_queue; [done|]. intros _. apply plain_packet; [by left|field_list|done].
Qed.

Lemma reply_packet context detail units fs server s server' s' r :
  output_ok (output s) -> Forall field_ok fs -> 24 + 4 * u32 units = fields_size fs ->
  answer (reply can_reserve context (write_fields (U8 1 :: U8 detail :: U16 (sequence context) :: U32 units :: fs)))
    server s = (server', s', r) ->
  answers context s s' /\ server' = server.
Proof.
  intros Hok Hfs Hsize. apply answer_queue; [done|]. intros _. apply plain_packet; [by right|done|].
  change (u8 1 =? 0) with false. cbv iota. lia.
Qed.

(** The names [handle_list_extensions] writes. *)
Definition registry_names (l : list ExtensionInfo) : list Z :=
  concat (map (fun extension => u8 (zlen (codes (name extension))) :: codes (name extension)) l).

Lemma names_written l : forall w,
  foldl (fun w extension =>
    write_bytes (codes (name extension)) (write_u8 (u8 (zlen (codes (name extension)))) w)) w l =
  write_bytes (registry_names l) w.
Proof.
  induction l as [|e l IH]; intros [o bytes]; simpl; [unfold write_bytes, registry_names; simpl; by rewrite app_nil_r|].
  rewrite IH. unfold write_bytes, write_u8. simpl. by rewrite <- !app_assoc.
Qed.

Lemma registry_framed b :
  match padded_to_four (registry_payload (extension_registry b)) with
  | None => True
  | Some padded =>
      32 + 4 * u32 (padded / 4) = 32 + (zlen (registry_names (extension_registry b)) +
        Z.of_nat (Z.to_nat (u64 (padded - registry_payload (extension_registry b)))))
  end.
Proof. by destruct b; vm_compute. Qed.

(** A handler that answers with at most one well-framed packet. *)
Definition answering (handle : Handler) : Prop := forall context server s server' s' r,
  output_ok (output s) -> handle context server s = (server', s', r) -> answers context s s'.

Lemma intern_atom_answering : answering (handle_intern_atom can_reserve).
Proof.
  intros context server s server' s' r Hok. unfold handle_intern_atom.
  split_if; [by intros [? _]%error_packet|].
  destruct (read_u16 _) as [[size|] reader]; [|intros [= <- <- <-]; by apply answers_nothing].
  split_if; [intros [= <- <- <-]; by apply answers_nothing|].
  destruct (padded_to_four size); [|intros H; by apply error_packet in H as [? _]].
  split_if; [by intros [? _]%error_packet|].
  split_if; [by intros [? _]%error_packet|].
  destruct (intern _ _ _) as [atom table].
  split_if; [by intros [? _]%error_packet|].
  intros [? _]%reply_packet; [done|done|field_list|done].
Qed.

Lemma query_extension_answering : answering (handle_query_extension can_reserve have_mitshm).
Proof.
  intros context server s server' s' r Hok. unfold handle_query_extension.
  split_if; [by intros [? _]%error_packet|].
  destruct (read_u16 _) as [[size|] reader]; [|intros [= <- <- <-]; by apply answers_nothing].
  split_if; [intros [= <- <- <-]; by apply answers_nothing|].
  destruct (padded_to_four size); [|intros H; by apply error_packet in H as [? _]].
  split_if; [by intros [? _]%error_packet|].
  intros [? _]%reply_packet; [done|done|field_list|done].
Qed.

Lemma big_requests_answering : answering (handle_big_requests can_reserve).
Proof.
  intros context server s server' s' r Hok. unfold handle_big_requests.
  split_if; [by intros [? _]%error_packet|].
  split_if; [by intros [? _]%error_packet|].
  destruct (answer _ _ _) as [[server1 s1] r1] eqn:Ha.
  apply reply_packet in Ha as [Ha _]; [|done|field_list|done].
  by destruct r1; intros [= <- <- <-].
Qed.

Lemma get_atom_name_answering : answering (handle_get_atom_name can_reserve).
Proof.
  intros context server s server' s' r Hok. unfold handle_get_atom_name.
  split_if; [by intros [? _]%error_packet|].
  destruct (fst (read_u32 _)) as [atom|]; [|intros [= <- <- <-]; by apply answers_nothing].
  destruct (atom_name _ _) as [n|]; [|intros H; by apply error_packet in H as [? _]].
  intros Ha. apply (answer_queue context) in Ha as [? _]; [done|done|]. intros Hmax. clear Ha.
  destruct (name_written (order context)
    [U8 1; U8 0; U16 (sequence context); U32 (u64 (zlen (codes n) + 3) / 4); U16 (zlen (codes n)); Pad 22] (codes n))
    as (k & Hk & Hlen); [field_list|done|].
  rewrite Hk in Hmax |- *. rewrite !zlen_app in Hmax. unfold maximum_buffered_output in Hmax.
  match type of Hmax with ?a + _ <= _ => assert (0 <= a) by apply zlen_nonneg end.
  pose proof (zlen_nonneg (codes n)). rewrite zlen_replicate in Hmax.
  assert (0 <= (zlen (codes n) + 3) / 4 <= 2 ^ 20) as Hdiv by (split; [apply Z.div_pos|apply Z.div_le_upper_bound]; lia).
  apply fields_packet; [by right|field_list|]. change (u8 1 =? 0) with false. cbv iota.
  rewrite (wrap_id 64) by (unfold is_unsigned; lia). rewrite (wrap_id 32) by (unfold is_unsigned; lia).
  change (fields_size [_; _]) with 24. rewrite zlen_app, zlen_replicate. lia.
Qed.

Lemma list_extensions_answering : answering (handle_list_extensions can_reserve have_mitshm).
Proof.
  intros context server s server' s' r Hok. unfold handle_list_extensions.
  split_if; [by intros [? _]%error_packet|]. cbv zeta.
  destruct (padded_to_four _) as [padded|] eqn:Hp; [|by intros [? _]%error_packet].
  intros Ha. apply (answer_queue context) in Ha as [? _]; [done|done|]. intros _. clear Ha.
  pose proof (registry_framed have_mitshm) as Hsize. rewrite Hp in Hsize.
  rewrite names_written. change (bytes_ (pad ?n (write_bytes ?l ?w))) with ((bytes_ w ++ l) ++ replicate (Z.to_nat n) 0).
  rewrite <- app_assoc. apply fields_packet; [by right|field_list|].
  change (u8 1 =? 0) with false. cbv iota. by rewrite zlen_app, zlen_replicate, Hsize.
Qed.
Lemma no_operation_answering : answering handle_no_operation.
Proof. intros context server s server' s' r Hok [= <- <- <-]. by apply answers_nothing. Qed.

(** The answer to a request. Whatever the bytes of a request for one of
    these handlers are, and also for an opcode of no extension, the connection
    queues at most one packet behind what is unsent already: an error of 32
    bytes or a reply whose length field gives its exact size, with the
    sequence number of the request. Nothing is queued partly. *)
Theorem answers_framed other context server s server' s' r :
  opcode context ∈ [16; 17; 98; 99; 127; 128] \/
    (128 <= opcode context /\ extension_by_opcode have_mitshm (opcode context) = None) ->
  output_ok (output s) ->
  dispatch_request can_reserve have_mitshm other context server s = (server', s', r) ->
  answers context s s'.
Proof.
  intros Hop Hok. unfold dispatch_request.
  destruct Hop as [Hin|[Hge ->]].
  2: { rewrite (proj2 (Z.geb_le _ _)) by done. by intros [? _]%error_packet. }
  assert (forall op, op ∈ [16; 17; 98; 99; 127] -> extension_by_opcode have_mitshm op = None) as Hcore.
  { intros op Hop. apply list_elem_of_In in Hop. simpl in Hop.
    destruct Hop as [<-|[<-|[<-|[<-|[<-|[]]]]]]; by destruct have_mitshm. }
  assert (extension_by_opcode have_mitshm 128 = Some big_requests_extension) as H128 by by destruct have_mitshm.
  apply list_elem_of_In in Hin. simpl in Hin.
  destruct Hin as [<-|[<-|[<-|[<-|[<-|[<-|[]]]]]]]; rewrite ?H128, ?Hcore by by_computation; simpl.
  - by apply intern_atom_answering.
  - by apply get_atom_name_answering.
  - by apply query_extension_answering.
  - by apply list_extensions_answering.
  - by apply no_operation_answering.
  - by apply big_requests_answering.
Qed.
End Replies.

(** ** Atoms over the wire *)

Section AtomRequests.
Context (can_reserve : Z -> bool) {E : Type}.

(** The padding behind a name in a request. *)
Definition name_padding (n : list Z) : list Z := replicate (Z.to_nat (4 * ((zlen n + 3) / 4) - zlen n)) 0.

Definition intern_atom_request (order : ByteOrder) (n : list Z) : list Z :=
  field_bytes order (U16 (zlen n)) ++ field_bytes order (Pad 2) ++ n ++ name_padding n.

Definition intern_atom_context (order : ByteOrder) (seq : Z) (only : bool) (head n : list Z) : RequestContext :=
  mkContext order 16 (if only then 1 else 0) seq (head ++ intern_atom_request order n).

Definition get_atom_name_context (order : ByteOrder) (detail seq : Z) (head : list Z) (atom : Z) : RequestContext :=
  mkContext order 17 detail seq (head ++ field_bytes order (U32 atom)).

Lemma request_reader_spec order opcode detail seq head body :
  zlen head = 4 ->
  let r := request_reader (mkContext order opcode detail seq (head ++ body)) in
  reader_wf r /\ order_ r = order /\ rest_of r = body.
Proof.
  intros Hh. simpl. unfold request_reader. simpl. rewrite drop_exact by done.
  split_and!; [apply reader_of_wf|done|apply rest_of_reader_of].
Qed.

Lemma padded_name (n : list Z) : zlen n <= 65535 -> padded_to_four (zlen n) = Some (4 * ((zlen n + 3) / 4)).
Proof.
  intros Hn. pose proof (zlen_nonneg n). rewrite padded_to_four_exact by (unfold is_unsigned; lia).
  by rewrite decide_True by (unfold is_unsigned; lia).
Qed.

Lemma name_padding_size (n : list Z) : zlen n + zlen (name_padding n) = 4 * ((zlen n + 3) / 4).
Proof.
  unfold name_padding. rewrite zlen_replicate. pose proof (Z.div_mod (zlen n + 3) 4 ltac:(lia)).
  pose proof (Z.mod_pos_bound (zlen n + 3) 4 ltac:(lia)). lia.
Qed.

(** A table that further requests have led to. *)
Definition later_table : relation AtomTable := rtc (fun t t' => exists n only, t' = snd (intern n only t)).

Lemma later_name t t' atom n :
  table_wf t -> later_table t t' -> atom_name atom t = Some n -> atom_name atom t' = Some n.
Proof.
  intros Hwf Hl. revert Hwf. induction Hl as [|t t1 t2 (m & only & ->) _ IH]; intros Hwf Hn; [done|].
  apply IH; [by apply intern_wf|]. pose proof (intern_named t m only Hwf) as Hkeep.
  destruct (intern m only t) as [id t']. destruct Hkeep as [_ Hkeep]. by apply Hkeep.
Qed.

Lemma intern_range t n only : table_wf t -> is_unsigned 32 (fst (intern n only t)).
Proof.
  intros Hwf. pose proof (wf_limit t Hwf) as Hlim. unfold table_size, maximum_atoms in *. unfold intern.
  destruct (ids_ t !! n) as [id|] eqn:Hid.
  - pose proof (table_wf_id_bound t n id Hwf Hid). cbn [fst]. unfold is_unsigned. lia.
  - destruct only; [cbn [fst]; unfold is_unsigned; lia|].
    destruct (_ >=? _); cbn [fst]; [unfold is_unsigned; lia|apply wrap_range; lia].
Qed.

(** A well-formed [InternAtom] request. *)
Lemma intern_atom_handled order seq only head n server (s : Session E) :
  zlen head = 4 -> 1 <= zlen n <= 1024 -> Forall (is_unsigned 8) n ->
  let '(atom, table) := intern (text n) only (atoms server) in
  let context := intern_atom_context order seq only head n in
  handle_intern_atom can_reserve context server s =
  answer (if (atom =? 0) && negb only then error can_reserve bad_alloc 0 0 context
    else queue can_reserve (bytes_ (write_fields [U8 1; U8 0; U16 seq; U32 0; U32 atom; Pad 20] (writer order))))
    (server <| atoms := table |>) s.
Proof.
  intros Hh Hn Hb. destruct (intern (text n) only (atoms server)) as [atom table] eqn:Hi. cbv zeta.
  unfold handle_intern_atom. set (context := intern_atom_context _ _ _ _ _).
  pose proof (name_padding_size n) as Hpad.
  assert (0 < (zlen n + 3) / 4) as Hunits by (apply Z.div_str_pos; lia).
  assert (zlen (intern_atom_request order n) = 4 + 4 * ((zlen n + 3) / 4)) as Hlen.
  { unfold intern_atom_request. rewrite !zlen_app, !field_bytes_size, Hpad by auto with xmin.
    change (zlen (field_bytes order (Pad 2))) with 2. simpl. lia. }
  assert (zlen (request context) = 8 + 4 * ((zlen n + 3) / 4)) as Hsize by (simpl; rewrite zlen_app, Hlen; lia).
  rewrite Hsize. rewrite (proj2 (Z.ltb_ge _ 8)) by lia.
  destruct (request_reader_spec order 16 (data context) seq head (intern_atom_request order n) Hh) as (Hwf & Ho & Hr).
  change (mkContext _ _ _ _ _) with context in *.
  unfold intern_atom_request in Hr. rewrite <- Ho in Hr.
  destruct (read_u16_back (zlen n) _ _ Hwf Hr) as (r1 & -> & Hwf1 & Hr1 & _).
  rewrite (wrap_id 16) by (unfold is_unsigned; lia).
  destruct (skip_spec 2 r1 (field_bytes (order_ (request_reader context)) (Pad 2)) (n ++ name_padding n)) as (r2 & -> & _);
    [done|done|done|]. cbn [fst negb].
  rewrite padded_name by lia. rewrite Z.eqb_refl. cbn [negb].
  assert (take (Z.to_nat (zlen n)) (drop 8 (request context)) = n) as ->.
  { simpl. unfold intern_atom_request. rewrite app_assoc, (app_assoc (head ++ _)), drop_exact
      by (rewrite !zlen_app, field_bytes_size by auto with xmin;
        change (zlen (field_bytes order (Pad 2))) with 2; simpl; lia).
    unfold zlen. by rewrite Nat2Z.id, take_app_length. }
  assert ((data context >? 1) || (zlen n =? 0) || (zlen n >? 1024) = false) as -> by (destruct only; simpl; lia).
  change (negb (data context =? 0)) with (negb ((if only then 1 else 0) =? 0)).
  replace (negb ((if only then 1 else 0) =? 0)) with only by by destruct only. rewrite Hi.
  change (data context =? 0) with ((if only then 1 else 0) =? 0).
  replace ((if only then 1 else 0) =? 0) with (negb only) by by destruct only.
  by destruct (_ && _).
Qed.

Lemma get_atom_name_handled order detail seq head atom n server (s : Session E) :
  zlen head = 4 -> is_unsigned 32 atom -> Forall (is_unsigned 8) n -> zlen n <= 1024 ->
  atom_name atom (atoms server) = Some (text n) ->
  handle_get_atom_name can_reserve (get_atom_name_context order detail seq head atom) server s =
  answer (queue can_reserve (bytes_ (write_fields
    [U8 1; U8 0; U16 seq; U32 ((zlen n + 3) / 4); U16 (zlen n); Pad 22] (writer order)) ++ n ++ name_padding n)) server s.
Proof.
  intros Hh Ha Hb Hn Hname. unfold handle_get_atom_name. set (context := get_atom_name_context _ _ _ _ _).
  assert (zlen (request context) = 8) as ->.
  { simpl. rewrite zlen_app, Hh. change (map _ _) with (field_bytes order (U32 atom)).
    by rewrite field_bytes_size by apply ok_U32. }
  cbn [negb Z.eqb Pos.eqb].
  destruct (request_reader_spec order 17 detail seq head (field_bytes order (U32 atom)) Hh) as (Hwf & Ho & Hr).
  change (mkContext _ _ _ _ _) with context in *. rewrite <- Ho, <- (app_nil_r (field_bytes _ _)) in Hr.
  destruct (read_u32_back atom _ _ Hwf Hr) as (r1 & -> & _). rewrite (wrap_id 32) by done. cbn [fst].
  rewrite Hname, codes_text by done. cbv zeta.
  pose proof (zlen_nonneg n). rewrite (wrap_id 64) by (unfold is_unsigned; lia).
  unfold reply. change (Connection.order context) with order. change (sequence context) with seq.
  destruct (name_written order [U8 1; U8 0; U16 seq; U32 ((zlen n + 3) / 4); U16 (zlen n); Pad 22] n)
    as (k & -> & Hk); [field_list|done|].
  unfold name_padding. replace (Z.to_nat _) with k by lia. done.
Qed.

(** Atoms over the wire: a well-formed [InternAtom] request with a name
    of 1 to 1024 bytes is answered with the atom the table gives the name, or
    with [Alloc] when the name is new and the table full; and at any later
    time a [GetAtomName] request for this atom, from any client in either byte
    order, is answered with exactly the bytes of the name. *)
Theorem atom_requests order seq only head n server (s : Session E) :
  zlen head = 4 -> 1 <= zlen n <= 1024 -> Forall (is_unsigned 8) n -> Atoms.reachable (atoms server) ->
  let '(atom, table) := intern (text n) only (atoms server) in
  let context := intern_atom_context order seq only head n in
  handle_intern_atom can_reserve context server s =
    answer (if (atom =? 0) && negb only then error can_reserve bad_alloc 0 0 context
      else queue can_reserve (bytes_ (write_fields [U8 1; U8 0; U16 seq; U32 0; U32 atom; Pad 20] (writer order))))
      (server <| atoms := table |>) s /\
  (atom <> 0 -> forall order' detail seq' head' server' (s' : Session E),
    zlen head' = 4 -> later_table table (atoms server') ->
    handle_get_atom_name can_reserve (get_atom_name_context order' detail seq' head' atom) server' s' =
    answer (queue can_reserve (bytes_ (write_fields
      [U8 1; U8 0; U16 seq'; U32 ((zlen n + 3) / 4); U16 (zlen n); Pad 22] (writer order')) ++ n ++ name_padding n))
      server' s').
Proof.
  intros Hh Hn Hb Hreach. pose proof (reachable_wf _ Hreach) as Hwf.
  pose proof (intern_atom_handled order seq only head n server s Hh Hn Hb) as Hreply.
  pose proof (intern_range _ (text n) only Hwf) as Hrange. pose proof (intern_wf (text n) only _ Hwf) as Hwf'. pose proof (intern_named _ (text n) only Hwf) as Hname.
  destruct (intern (text n) only (atoms server)) as [atom table]. simpl in Hwf', Hrange. split; [apply Hreply|].
  intros Hatom order' detail seq' head' server' s' Hh' Hlater. destruct Hname as [Hname _]. specialize (Hname Hatom).
  apply get_atom_name_handled; [done|done|done|lia|by apply (later_name table)].
Qed.
End AtomRequests.

(** ** A running server

    The server of this file behind a connection: the instances at which the
    theorems about connections, and those of this file, are applied. *)

Definition demo_handle : RequestContext -> Server -> Session unit -> Server * Session unit * Result unit :=
  dispatch_request (fun _ => true) true
    (fun context => answer (error (fun _ => true) bad_request 0 0 context)).

#[local] Instance demo_server : ConnectionServer Server unit := server_of unit demo_handle.
#[local] Instance demo_laws : ConnectionServerLaws Server unit := server_laws unit demo_handle.

Definition demo_state (events : list ClientEvent) : Server :=
  mkServer (initial_sync (mkEventQueues (if events is [] then ∅ else {[7 := events]}) (zlen events) [] ∅) 1)
    (mkAtomTable [""%string] ∅) 640 480.

(** Client 7 of a server that asks for the cookie [1; 2; 3; 4], or for none. *)
Definition closed_config : ServerConfig := mkConfig 7 [1; 2; 3; 4] false.
Definition open_config : ServerConfig := mkConfig 7 [] true.

Definition demo_connection (st : State) (bytes : list Z) : Connection unit :=
  mkConnection (mkSession (mkOutput [] 0 []) false tt) st (Some little) bytes 24 18 4 20 0 false false false.

Definition demo_world (st : State) (events : list ClientEvent) (bytes : list Z) : World :=
  mkWorld (demo_state events) (demo_connection st bytes).

(** A setup message, [NoOperation], BIG-REQUESTS and a [NoOperation] with the
    extended length. *)
Definition demo_stream : list (list Z) :=
  [[0x6c; 0; 11; 0; 0; 0; 0]; [0; 0; 0; 0; 0; 127; 0]; [1; 0; 128; 0; 1; 0; 127]; [0; 0; 0; 3; 0; 0]; [0; 5; 5; 5; 5]].

Definition demo_summary (r : run (World (S := Server) (E := unit) * Result (list (list Z)))) :=
  match r with
  | finished (w, success unread) =>
      Some (sequence_ (connection w), input_ (connection w), zlen (output_ (output (session (connection w)))), unread)
  | _ => None
  end.

Lemma receive_chunking_witness :
  demo_summary (receive_all (fun _ => true) open_config little demo_stream (demo_world setup_prefix [] [])) =
    Some (3, [], 220, []) /\
  same_stream
    (receive_all (fun _ => true) open_config little demo_stream (demo_world setup_prefix [] []))
    (receive_all (fun _ => true) open_config little [concat demo_stream] (demo_world setup_prefix [] [])).
Proof.
  split; [vm_compute; reflexivity|].
  apply (receive_chunking (fun _ => true) open_config little demo_stream (demo_world setup_prefix [] []));
    [done| |by vm_compute].
  split; [by_computation|done|done].
Defined.

(** A setup message with the right protocol name and cookie, and one with the
    wrong cookie. *)
Definition credentials (cookie : list Z) : list Z := cookie_protocol ++ [0; 0] ++ cookie.

(** The world a computation ends in. *)
Definition end_world {A} (r : run (World (S := Server) (E := unit) * Result A)) (w : World) : World :=
  match r with finished (w', _) => w' | out_of_fuel => w end.

Definition authenticated_from (bytes : list Z) : run (World * Result bool) :=
  process_setup_authentication (fun _ => true) closed_config little (demo_world setup_authentication [] bytes).

Lemma authentication_required_witness :
  let w := demo_world setup_authentication [] (credentials [1; 2; 3; 4]) in
  let accepted := end_world (authenticated_from (credentials [1; 2; 3; 4])) w in
  let refused := end_world (authenticated_from (credentials [1; 2; 3; 5])) w in
  state_ (connection accepted) = requests /\ close_after_output_ (connection refused) = true /\
  (state_ (connection accepted) = requests /\ credentials_ok closed_config (connection w) \/
   close_after_output_ (connection accepted) = true /\ input_ (connection accepted) = [] /\
   state_ (connection accepted) = setup_authentication /\ ~ credentials_ok closed_config (connection w)).
Proof.
  split; [vm_compute; reflexivity|]. split; [vm_compute; reflexivity|].
  apply (authentication_required (fun _ => true) closed_config little
    (demo_world setup_authentication [] (credentials [1; 2; 3; 4]))); [reflexivity|]. vm_compute. reflexivity.
Defined.

Definition demo_events : list ClientEvent :=
  [MappingNotify (mkMappingNotify 1 8 247 0); SelectionNotify (mkSelectionNotify 5 100 1 31 0 0)].

(** The first event is delivered; the second one ends the connection. *)
Lemma drain_in_order_witness :
  let w := demo_world requests demo_events [] in
  let w' := end_world (drain_pending_events (fun _ => true) open_config w) w in
  let events := queued_events (server w) 7 in
  events = demo_events /\ queued_events (server w') 7 = tail demo_events /\
  exists k, (k <= length events)%nat /\ queued_events (server w') 7 = drop k events /\
    unsent (output (session (connection w'))) =
      unsent (output (session (connection w))) ++ concat (map (encode_event (Some little)) (take k events)) /\
    unsent_fds (output (session (connection w'))) = unsent_fds (output (session (connection w))) /\
    (failure malformed = success tt <-> k = length events) /\
    (failure (A := unit) malformed = failure malformed -> exists event, events !! k = Some event /\ ~ encodable event).
Proof.
  intros w w' events. split; [vm_compute; reflexivity|]. split; [vm_compute; reflexivity|].
  apply (drain_in_order (fun _ => true) open_config little w w' (failure malformed));
    [reflexivity|split; [done|done|constructor]|vm_compute; reflexivity].
Defined.

Lemma selection_conversion_fails_witness :
  drain_pending_events (fun _ => true) open_config (demo_world requests (tail demo_events) []) =
  finished (demo_world requests (tail demo_events) [], failure malformed).
Proof.
  apply (selection_conversion_fails (fun _ => true) open_config little _
    (SelectionNotify (mkSelectionNotify 5 100 1 31 0 0)) []); done.
Defined.

(** The [NoOperation] request in its core form, with a byte of the next one. *)
Lemma request_framing_exact_witness :
  process_request (fun _ => true) open_config (demo_world requests [] [127; 0; 2; 0; 5; 5; 5; 5; 17]) =
  dispatched (run_dispatch (mkContext little 127 0 1 (request_header little 127 0 2 ++ [5; 5; 5; 5]))
    (at_dispatch open_config [17] (demo_world requests [] [127; 0; 2; 0; 5; 5; 5; 5; 17]))).
Proof.
  apply (request_framing_exact (fun _ => true) open_config little 127 0 [5; 5; 5; 5] [17] false);
    [reflexivity|by_computation|by_computation|reflexivity|by vm_compute|reflexivity].
Defined.

Definition demo_session : Session unit := mkSession (mkOutput [1; 2; 3] 1 []) false tt.

(** A [QueryExtension] request for SYNC, in big-endian order, when one byte of
    the output has been sent already. *)
Lemma answers_framed_witness :
  answers (mkContext big 98 0 9 ([98; 0; 0; 3; 0; 4; 0; 0] ++ codes "SYNC")) demo_session
    (mkSession (mkOutput ([2; 3] ++ [1; 0; 0; 9; 0; 0; 0; 0; 1; 133; 65; 128] ++ replicate 20 0) 0 []) false tt).
Proof.
  apply (answers_framed (fun _ => true) true (fun _ server s => (server, s, success tt))
    _ (demo_state []) demo_session (demo_state []) _ (success tt)).
  - left. by_computation.
  - split; [done|done|constructor].
  - vm_compute. reflexivity.
Defined.

(** A new atom, interned by one client and named to another. *)
Lemma atom_requests_witness :
  let table := snd (intern (text (codes "WM_DELETE_WINDOW")) false initial_table) in
  let server := mkServer (initial_sync initial_queues 1) table 640 480 in
  let n := codes "WM_DELETE_WINDOW" in
  handle_get_atom_name (fun _ => true) (get_atom_name_context big 0 2 [17; 0; 0; 2] 69) server demo_session =
  answer (queue (fun _ => true) (bytes_ (write_fields
    [U8 1; U8 0; U16 2; U32 ((zlen n + 3) / 4); U16 (zlen n); Pad 22] (writer big)) ++ n ++ name_padding n))
    server demo_session.
Proof.
  assert (fst (intern (text (codes "WM_DELETE_WINDOW")) false initial_table) = 69) as Hatom by (vm_compute; reflexivity).
  pose proof reachable_init as Hreach.
  assert (1 <= zlen (codes "WM_DELETE_WINDOW") <= 1024) as Hsize by (vm_compute; split; congruence).
  pose proof (codes_bytes "WM_DELETE_WINDOW") as Hbytes. revert Hatom Hreach Hsize Hbytes.
  generalize initial_table as t, (codes "WM_DELETE_WINDOW") as n. intros t n Hatom Hreach Hsize Hbytes table server.
  pose proof (atom_requests (fun _ => true) little 1 false [16; 0; 6; 0] n
    (mkServer (initial_sync initial_queues 1) t 640 480) demo_session eq_refl Hsize Hbytes Hreach) as Hanswers.
  unfold server, table. cbn [atoms] in Hanswers. destruct (intern (text n) false t) as [atom table'].
  cbn [fst snd] in *. subst atom. apply (proj2 Hanswers); [done|reflexivity|]. apply rtc_refl.
Defined.
